(** * Image-buffer storage and ownership: a shallow embedding of
      [source/blender/imbuf/intern/allocimbuf.cc]

    The C++ code manipulates [ImBuf] structures through pointers, allocates
    and frees pixel storage with the guarded allocator, and shares storage
    through implicit-sharing control blocks.  The embedding keeps this
    shape: a heap with three typed stores (pixel blocks, [ImBuf] structures,
    sharing control blocks), nullable pointers as [option loc], and every
    function of the file as a computation in a state-and-error monad.

    Conventions.
    - [uint] is 32 bits and [size_t] is 64 bits; wrap-around is written out.
    - Dereferencing a null or dangling pointer, dividing by zero, freeing a
      block twice and copying outside a block are undefined in C++; the
      embedding reports them as [Fault].
    - [BLI_assert] is compiled out (release build): an assertion leaves no
      trace in the embedding, the code after it runs.
    - The spin lock around the reference counter is not modelled; calls are
      sequential. *)

From Stdlib Require Import ZArith Lia List.
From stdpp Require Import base option list gmap.

Local Open Scope Z_scope.

(** ** Machine integers *)

Definition uint_modulus : Z := 2 ^ 32.
Definition size_t_modulus : Z := 2 ^ 64.
Definition SIZE_MAX : Z := size_t_modulus - 1.

(** Conversion to [uint] and to [size_t]: reduction modulo the width. *)
Definition to_uint (z : Z) : Z := z mod uint_modulus.
Definition to_size_t (z : Z) : Z := z mod size_t_modulus.

(** Conversion of a [uint] to [int] (two's complement). *)
Definition to_int (z : Z) : Z :=
  let r := z mod uint_modulus in
  if r <? 2 ^ 31 then r else r - uint_modulus.

Definition sizeof_uint8_t : Z := 1.
Definition sizeof_uint : Z := 4.
Definition sizeof_int : Z := 4.
Definition sizeof_float : Z := 4.

(** ** Pointers and the data model *)

Definition loc : Type := positive.

(** [ImBufOwnership] of [IMB_imbuf_types.h]. *)
Inductive ImBufOwnership : Type :=
| IB_DO_NOT_TAKE_OWNERSHIP
| IB_TAKE_OWNERSHIP.

(** The buffer structures ([ImBufByteBuffer], [ImBufFloatBuffer],
    [ImBufIntBuffer]) differ in the element type of [data] only; the
    templates of the file treat them alike, and so does one record. *)
Record Buffer : Type := mkBuffer {
  data : option loc;
  ownership : ImBufOwnership;
  implicit_sharing : option loc
}.

Definition empty_buffer : Buffer :=
  mkBuffer None IB_DO_NOT_TAKE_OWNERSHIP None.

(** Modelled from the spec: the flag bits live in [IMB_imbuf_types.h],
    which is not part of the sources at hand; the spec names one bit per
    slot.  The positions are those of the header; the proofs only use that
    they are five different single bits. *)
Definition IB_rect : Z := Z.shiftl 1 0.
Definition IB_zbuf : Z := Z.shiftl 1 3.
Definition IB_mem : Z := Z.shiftl 1 4.
Definition IB_rectfloat : Z := Z.shiftl 1 5.
Definition IB_zbuffloat : Z := Z.shiftl 1 6.

(** Modelled from the spec: the capacity of the mipmap chain ("a fixed
    maximum level count"), [IMB_MIPMAP_LEVELS] of the missing header. *)
Definition IMB_MIPMAP_LEVELS : nat := 20.

Definition IMB_FTYPE_PNG : Z := 1.

(** Modelled from the spec: the [ImBuf] structure is declared in
    [IMB_imbuf_types.h], which is not part of the sources at hand.  The
    fields are the ones [allocimbuf.cc] reads and writes; dimensions and
    channel count are unsigned, the reference count is an integer, and the
    collaborators' data (metadata, color-management cache, display flags,
    DDS payload) are opaque handles.  The float pixel density [ppm] and the
    file path are left out: no function below branches on them. *)
Record ImBuf : Type := mkImBuf {
  x : Z;
  y : Z;
  planes : Z;
  channels : Z;
  flags : Z;
  byte_buffer : Buffer;
  float_buffer : Buffer;
  z_buffer : Buffer;
  float_z_buffer : Buffer;
  encoded_buffer : Buffer;
  encoded_buffer_size : Z;
  encoded_size : Z;
  mipmap : list (option loc);
  miptot : Z;
  refcounter : Z;
  metadata : option loc;
  colormanage_cache : option loc;
  display_buffer_flags : option loc;
  dds_data : option loc;
  ftype : Z;
  foptions_quality : Z
}.

(** [memset(ibuf, 0, sizeof(ImBuf))], also what [MEM_cnew<ImBuf>] yields. *)
Definition zero_ImBuf : ImBuf :=
  mkImBuf 0 0 0 0 0 empty_buffer empty_buffer empty_buffer empty_buffer
          empty_buffer 0 0 (replicate IMB_MIPMAP_LEVELS None) 0 0
          None None None None 0 0.

(** Field assignments, one per field the code writes. *)
Definition set_channels (v : Z) (b : ImBuf) : ImBuf :=
  mkImBuf (x b) (y b) (planes b) v (flags b) (byte_buffer b)
    (float_buffer b) (z_buffer b) (float_z_buffer b) (encoded_buffer b)
    (encoded_buffer_size b) (encoded_size b) (mipmap b) (miptot b)
    (refcounter b) (metadata b) (colormanage_cache b)
    (display_buffer_flags b) (dds_data b) (ftype b) (foptions_quality b).

Definition set_flags (v : Z) (b : ImBuf) : ImBuf :=
  mkImBuf (x b) (y b) (planes b) (channels b) v (byte_buffer b)
    (float_buffer b) (z_buffer b) (float_z_buffer b) (encoded_buffer b)
    (encoded_buffer_size b) (encoded_size b) (mipmap b) (miptot b)
    (refcounter b) (metadata b) (colormanage_cache b)
    (display_buffer_flags b) (dds_data b) (ftype b) (foptions_quality b).

Definition set_byte_buffer (v : Buffer) (b : ImBuf) : ImBuf :=
  mkImBuf (x b) (y b) (planes b) (channels b) (flags b) v
    (float_buffer b) (z_buffer b) (float_z_buffer b) (encoded_buffer b)
    (encoded_buffer_size b) (encoded_size b) (mipmap b) (miptot b)
    (refcounter b) (metadata b) (colormanage_cache b)
    (display_buffer_flags b) (dds_data b) (ftype b) (foptions_quality b).

Definition set_float_buffer (v : Buffer) (b : ImBuf) : ImBuf :=
  mkImBuf (x b) (y b) (planes b) (channels b) (flags b) (byte_buffer b)
    v (z_buffer b) (float_z_buffer b) (encoded_buffer b)
    (encoded_buffer_size b) (encoded_size b) (mipmap b) (miptot b)
    (refcounter b) (metadata b) (colormanage_cache b)
    (display_buffer_flags b) (dds_data b) (ftype b) (foptions_quality b).

Definition set_z_buffer (v : Buffer) (b : ImBuf) : ImBuf :=
  mkImBuf (x b) (y b) (planes b) (channels b) (flags b) (byte_buffer b)
    (float_buffer b) v (float_z_buffer b) (encoded_buffer b)
    (encoded_buffer_size b) (encoded_size b) (mipmap b) (miptot b)
    (refcounter b) (metadata b) (colormanage_cache b)
    (display_buffer_flags b) (dds_data b) (ftype b) (foptions_quality b).

Definition set_float_z_buffer (v : Buffer) (b : ImBuf) : ImBuf :=
  mkImBuf (x b) (y b) (planes b) (channels b) (flags b) (byte_buffer b)
    (float_buffer b) (z_buffer b) v (encoded_buffer b)
    (encoded_buffer_size b) (encoded_size b) (mipmap b) (miptot b)
    (refcounter b) (metadata b) (colormanage_cache b)
    (display_buffer_flags b) (dds_data b) (ftype b) (foptions_quality b).

Definition set_encoded_buffer (v : Buffer) (b : ImBuf) : ImBuf :=
  mkImBuf (x b) (y b) (planes b) (channels b) (flags b) (byte_buffer b)
    (float_buffer b) (z_buffer b) (float_z_buffer b) v
    (encoded_buffer_size b) (encoded_size b) (mipmap b) (miptot b)
    (refcounter b) (metadata b) (colormanage_cache b)
    (display_buffer_flags b) (dds_data b) (ftype b) (foptions_quality b).

Definition set_encoded_buffer_size (v : Z) (b : ImBuf) : ImBuf :=
  mkImBuf (x b) (y b) (planes b) (channels b) (flags b) (byte_buffer b)
    (float_buffer b) (z_buffer b) (float_z_buffer b) (encoded_buffer b)
    v (encoded_size b) (mipmap b) (miptot b)
    (refcounter b) (metadata b) (colormanage_cache b)
    (display_buffer_flags b) (dds_data b) (ftype b) (foptions_quality b).

Definition set_encoded_size (v : Z) (b : ImBuf) : ImBuf :=
  mkImBuf (x b) (y b) (planes b) (channels b) (flags b) (byte_buffer b)
    (float_buffer b) (z_buffer b) (float_z_buffer b) (encoded_buffer b)
    (encoded_buffer_size b) v (mipmap b) (miptot b)
    (refcounter b) (metadata b) (colormanage_cache b)
    (display_buffer_flags b) (dds_data b) (ftype b) (foptions_quality b).

Definition set_mipmap (v : list (option loc)) (b : ImBuf) : ImBuf :=
  mkImBuf (x b) (y b) (planes b) (channels b) (flags b) (byte_buffer b)
    (float_buffer b) (z_buffer b) (float_z_buffer b) (encoded_buffer b)
    (encoded_buffer_size b) (encoded_size b) v (miptot b)
    (refcounter b) (metadata b) (colormanage_cache b)
    (display_buffer_flags b) (dds_data b) (ftype b) (foptions_quality b).

Definition set_miptot (v : Z) (b : ImBuf) : ImBuf :=
  mkImBuf (x b) (y b) (planes b) (channels b) (flags b) (byte_buffer b)
    (float_buffer b) (z_buffer b) (float_z_buffer b) (encoded_buffer b)
    (encoded_buffer_size b) (encoded_size b) (mipmap b) v
    (refcounter b) (metadata b) (colormanage_cache b)
    (display_buffer_flags b) (dds_data b) (ftype b) (foptions_quality b).

Definition set_refcounter (v : Z) (b : ImBuf) : ImBuf :=
  mkImBuf (x b) (y b) (planes b) (channels b) (flags b) (byte_buffer b)
    (float_buffer b) (z_buffer b) (float_z_buffer b) (encoded_buffer b)
    (encoded_buffer_size b) (encoded_size b) (mipmap b) (miptot b)
    v (metadata b) (colormanage_cache b)
    (display_buffer_flags b) (dds_data b) (ftype b) (foptions_quality b).

(** The five slots of an aggregate, to state properties of all of them. *)
Inductive slot : Type :=
| ByteSlot | FloatSlot | ZSlot | FloatZSlot | EncodedSlot.

Definition all_slots : list slot :=
  [ByteSlot; FloatSlot; ZSlot; FloatZSlot; EncodedSlot].

Definition slot_buffer (s : slot) (b : ImBuf) : Buffer :=
  match s with
  | ByteSlot => byte_buffer b
  | FloatSlot => float_buffer b
  | ZSlot => z_buffer b
  | FloatZSlot => float_z_buffer b
  | EncodedSlot => encoded_buffer b
  end.

Definition slot_flag (s : slot) : Z :=
  match s with
  | ByteSlot => IB_rect
  | FloatSlot => IB_rectfloat
  | ZSlot => IB_zbuf
  | FloatZSlot => IB_zbuffloat
  | EncodedSlot => IB_mem
  end.

(** [flags & bit] as a condition. *)
Definition has_flag (f bit : Z) : bool := negb (Z.land f bit =? 0).

(** ** The heap *)

(** Modelled from the spec: an implicit-sharing control block
    ([ImplicitSharingInfo] of [BLI_implicit_sharing.hh], not part of the
    sources at hand) counts its users and owns the shared allocation, which
    it frees when the last user goes. *)
Record SharingInfo : Type := mkSharingInfo {
  strong_users : Z;
  shared_data : option loc
}.

(** Calls into the collaborators, in the order they are made. *)
Inductive event : Type :=
| EvMetadataFree (m : option loc)
| EvMetadataCopy (dst src : option loc)
| EvColormanageCacheFree (ibuf : loc)
| EvColormanageSetDefaultSpaces (ibuf : loc)
| EvFreeDDS (p : loc)
| EvPrintErrorInParameters.

Record Heap : Type := mkHeap {
  mem : gmap loc (list Byte.byte);
  ibufs : gmap loc ImBuf;
  sharing : gmap loc SharingInfo;
  oom : list bool;
  trace : list event
}.

Definition set_mem (v : gmap loc (list Byte.byte)) (h : Heap) : Heap :=
  mkHeap v (ibufs h) (sharing h) (oom h) (trace h).
Definition set_ibufs (v : gmap loc ImBuf) (h : Heap) : Heap :=
  mkHeap (mem h) v (sharing h) (oom h) (trace h).
Definition set_sharing (v : gmap loc SharingInfo) (h : Heap) : Heap :=
  mkHeap (mem h) (ibufs h) v (oom h) (trace h).
Definition set_oom (v : list bool) (h : Heap) : Heap :=
  mkHeap (mem h) (ibufs h) (sharing h) v (trace h).
Definition set_trace (v : list event) (h : Heap) : Heap :=
  mkHeap (mem h) (ibufs h) (sharing h) (oom h) v.

(** ** The monad: heap state, undefined behaviour, recursion budget *)

Inductive result (A : Type) : Type :=
| Ok (a : A) (h : Heap)
| Fault
| OutOfFuel.
Arguments Ok {A} a h.
Arguments Fault {A}.
Arguments OutOfFuel {A}.

Definition M (A : Type) : Type := Heap -> result A.

#[global] Instance M_ret : MRet M := fun A a h => Ok a h.
#[global] Instance M_bind : MBind M := fun A B k m h =>
  match m h with
  | Ok a h' => k a h'
  | Fault => Fault
  | OutOfFuel => OutOfFuel
  end.

Definition fault {A : Type} : M A := fun _ => Fault.
Definition out_of_fuel {A : Type} : M A := fun _ => OutOfFuel.
Definition get_heap : M Heap := fun h => Ok h h.
Definition modify_heap (f : Heap -> Heap) : M unit := fun h => Ok tt (f h).
Definition emit (e : event) : M unit :=
  modify_heap (fun h => set_trace (trace h ++ [e]) h).

(** [*ibuf] for reading: the structure a pointer refers to. *)
Definition load (ibuf : option loc) : M ImBuf := fun h =>
  match ibuf with
  | None => Fault
  | Some p => match ibufs h !! p with
              | Some b => Ok b h
              | None => Fault
              end
  end.

(** [ibuf->field = v], given as the update of the structure. *)
Definition update (ibuf : option loc) (f : ImBuf -> ImBuf) : M unit := fun h =>
  match ibuf with
  | None => Fault
  | Some p => match ibufs h !! p with
              | Some b => Ok tt (set_ibufs (<[p := f b]> (ibufs h)) h)
              | None => Fault
              end
  end.

(** ** The collaborators: allocator, [memcpy], implicit sharing *)

(** Modelled from the spec: the guarded allocator ([MEM_guardedalloc.h]) is
    not part of the sources at hand.  A request either yields a fresh block
    or null ("insufficient memory").  The heap carries the outcomes of the
    coming requests in [oom], [true] for a refusal; once the list is used up
    every request is served. *)
Definition next_request (h : Heap) : bool * list bool :=
  match oom h with
  | [] => (false, [])
  | refuse :: rest => (refuse, rest)
  end.

(** [MEM_callocN(size, name)]: zero-initialized memory of [size] bytes. *)
Definition MEM_callocN (size : Z) : M (option loc) := fun h =>
  let '(refuse, rest) := next_request h in
  if refuse then Ok None (set_oom rest h)
  else
    let p := fresh (dom (mem h)) in
    Ok (Some p)
       (set_oom rest
          (set_mem (<[p := replicate (Z.to_nat size) Byte.x00]> (mem h)) h)).

(** [MEM_cnew<ImBuf>(name)]: a zero-initialized structure. *)
Definition MEM_cnew_ImBuf : M (option loc) := fun h =>
  let '(refuse, rest) := next_request h in
  if refuse then Ok None (set_oom rest h)
  else
    let p := fresh (dom (ibufs h)) in
    Ok (Some p) (set_oom rest (set_ibufs (<[p := zero_ImBuf]> (ibufs h)) h)).

(** [MEM_freeN(ptr)] on a pixel block. *)
Definition MEM_freeN (ptr : option loc) : M unit := fun h =>
  match ptr with
  | None => Fault
  | Some p => match mem h !! p with
              | Some _ => Ok tt (set_mem (delete p (mem h)) h)
              | None => Fault
              end
  end.

(** [MEM_freeN(ibuf)] on the structure itself. *)
Definition MEM_freeN_ImBuf (ibuf : option loc) : M unit := fun h =>
  match ibuf with
  | None => Fault
  | Some p => match ibufs h !! p with
              | Some _ => Ok tt (set_ibufs (delete p (ibufs h)) h)
              | None => Fault
              end
  end.

(** Modelled from the spec: [MEM_dupallocN(ptr)], "duplicate the memory
    into a freshly owned allocation"; null for null. *)
Definition MEM_dupallocN (ptr : option loc) : M (option loc) := fun h =>
  match ptr with
  | None => Ok None h
  | Some p => match mem h !! p with
              | Some bytes =>
                  let q := fresh (dom (mem h)) in
                  Ok (Some q) (set_mem (<[q := bytes]> (mem h)) h)
              | None => Fault
              end
  end.

(** [memcpy(dst, src, n)]: both blocks must hold [n] bytes. *)
Definition memcpy (dst src : option loc) (n : Z) : M unit := fun h =>
  match dst, src with
  | Some d, Some s =>
      match mem h !! d, mem h !! s with
      | Some to, Some from =>
          if (n <=? Z.of_nat (length from)) && (n <=? Z.of_nat (length to))
          then Ok tt (set_mem (<[d := take (Z.to_nat n) from
                                        ++ drop (Z.to_nat n) to]> (mem h)) h)
          else Fault
      | _, _ => Fault
      end
  | _, _ => Fault
  end.

(** Modelled from the spec: [ImplicitSharingInfo::add_user]. *)
Definition add_user (info : option loc) : M unit := fun h =>
  match info with
  | None => Fault
  | Some s =>
      match sharing h !! s with
      | Some i =>
          Ok tt (set_sharing
                   (<[s := mkSharingInfo (strong_users i + 1) (shared_data i)]>
                      (sharing h)) h)
      | None => Fault
      end
  end.

(** Modelled from the spec: [remove_user_and_delete_if_last], "release one
    reference to the shared control block (freeing the underlying memory
    only when the last reference is released)". *)
Definition remove_user_and_delete_if_last (info : option loc) : M unit :=
  fun h =>
  match info with
  | None => Fault
  | Some s =>
      match sharing h !! s with
      | Some i =>
          if strong_users i =? 1 then
            let h' := set_sharing (delete s (sharing h)) h in
            match shared_data i with
            | None => Ok tt h'
            | Some d => MEM_freeN (Some d) h'
            end
          else
            Ok tt (set_sharing
                     (<[s := mkSharingInfo (strong_users i - 1) (shared_data i)]>
                        (sharing h)) h)
      | None => Fault
      end
  end.

(** Modelled from the spec: [implicit_sharing::free_shared_data(&data,
    &sharing_info)]; gives the new values of the two pointers. *)
Definition free_shared_data (d info : option loc)
  : M (option loc * option loc) :=
  match info with
  | Some _ => remove_user_and_delete_if_last info;; mret (None, None)
  | None => mret (None, None)
  end.

(** Modelled from the spec: [implicit_sharing::copy_shared_pointer(src,
    src_info, &dst, &dst_info)]; gives the values of [dst] and [dst_info]. *)
Definition copy_shared_pointer (src_ptr src_info : option loc)
  : M (option loc * option loc) :=
  match src_ptr with
  | Some _ => add_user src_info;; mret (src_ptr, src_info)
  | None => mret (src_ptr, src_info)
  end.

(** The collaborators that are opaque here leave a record of the call. *)
Definition IMB_metadata_free (m : option loc) : M unit :=
  emit (EvMetadataFree m).
(** Modelled from the spec: the metadata storage's [copy(dst, src)], which
    "copies metadata onto the duplicate"; its code is not part of the
    sources at hand.  It reads the source aggregate and writes the
    destination, so both are dereferenced: a null or dangling pointer on
    either side is a fault.  The copy itself is opaque and leaves a
    record. *)
Definition IMB_metadata_copy (dst src : option loc) : M unit :=
  load dst;;
  load src;;
  emit (EvMetadataCopy dst src).
Definition colormanage_cache_free (ibuf : option loc) : M unit :=
  match ibuf with
  | Some p => emit (EvColormanageCacheFree p)
  | None => fault
  end.
Definition colormanage_imbuf_set_default_spaces (ibuf : option loc) : M unit :=
  match ibuf with
  | Some p => emit (EvColormanageSetDefaultSpaces p)
  | None => fault
  end.
Definition free_dds (p : loc) : M unit := emit (EvFreeDDS p).

(** ** The buffer templates *)

(** A template taking [BufferType &buffer] becomes a function from the
    buffer's value to its new value (and the result, if any). *)

(** [imb_free_buffer]: free the storage when needed and restore the
    defaults. *)
Definition imb_free_buffer (buffer : Buffer) : M Buffer :=
  match implicit_sharing buffer with
  | Some _ =>
      free_shared_data (data buffer) (implicit_sharing buffer);;
      mret empty_buffer
  | None =>
      match data buffer with
      | Some _ =>
          match ownership buffer with
          | IB_DO_NOT_TAKE_OWNERSHIP => mret empty_buffer
          | IB_TAKE_OWNERSHIP => MEM_freeN (data buffer);; mret empty_buffer
          end
      | None => mret empty_buffer
      end
  end.

(** [imb_alloc_pixels]: the size check, then [MEM_callocN]. *)
Definition imb_alloc_pixels (x y channels typesize : Z) : M (option loc) :=
  let per_pixel := to_size_t (channels * typesize) in
  if per_pixel =? 0 then fault
  else if negb (to_size_t (x * y) <? SIZE_MAX / per_pixel) then mret None
  else MEM_callocN (to_size_t (x * y * channels * typesize)).

(** [imb_alloc_buffer]: [buffer.data] is assigned before it is tested. *)
Definition imb_alloc_buffer (buffer : Buffer) (x y channels type_size : Z)
  : M (bool * Buffer) :=
  p ← imb_alloc_pixels x y channels type_size;
  match p with
  | None => mret (false, mkBuffer None (ownership buffer)
                                  (implicit_sharing buffer))
  | Some _ => mret (true, mkBuffer p IB_TAKE_OWNERSHIP None)
  end.

(** [imb_make_writeable_buffer]. *)
Definition imb_make_writeable_buffer (buffer : Buffer) : M Buffer :=
  match data buffer with
  | None => mret buffer
  | Some _ =>
      match ownership buffer with
      | IB_DO_NOT_TAKE_OWNERSHIP =>
          p ← MEM_dupallocN (data buffer);
          match implicit_sharing buffer with
          | Some _ =>
              remove_user_and_delete_if_last (implicit_sharing buffer);;
              mret (mkBuffer p IB_TAKE_OWNERSHIP None)
          | None => mret (mkBuffer p IB_TAKE_OWNERSHIP None)
          end
      | IB_TAKE_OWNERSHIP => mret buffer
      end
  end.

(** [imb_steal_buffer_data]: the stolen pointer and the buffer's new
    value. *)
Definition imb_steal_buffer_data (buffer : Buffer) : option loc * Buffer :=
  match data buffer with
  | None => (None, buffer)
  | Some _ =>
      match ownership buffer with
      | IB_DO_NOT_TAKE_OWNERSHIP => (None, buffer)
      | IB_TAKE_OWNERSHIP =>
          (data buffer,
           mkBuffer None IB_DO_NOT_TAKE_OWNERSHIP (implicit_sharing buffer))
      end
  end.

(** [imb_assign_shared_buffer]. *)
Definition imb_assign_shared_buffer (buffer : Buffer)
    (buffer_data sharing_info : option loc) : M Buffer :=
  freed ← imb_free_buffer buffer;
  match sharing_info with
  | Some _ =>
      '(d, i) ← copy_shared_pointer buffer_data sharing_info;
      mret (mkBuffer d IB_DO_NOT_TAKE_OWNERSHIP i)
  | None => mret (mkBuffer None IB_DO_NOT_TAKE_OWNERSHIP None)
  end.

(** ** Freeing slots, mipmap levels and aggregates *)

(** [IMB_freeImBuf] frees the mipmap levels through itself.  The functions
    between it and the recursive call take the releasing function as
    [release]; the recursion is closed below with a budget for the depth of
    the mipmap nesting. *)

Section with_release.
Variable release : option loc -> M unit.

(** One round of the loop of [imb_freemipmapImBuf].  The array has
    [IMB_MIPMAP_LEVELS] entries; a shorter list stands for an array whose
    remaining entries are null. *)
Definition free_mipmap_level (ibuf : option loc) (a : nat) : M unit :=
  b ← load ibuf;
  match default None (mipmap b !! a) with
  | None => mret tt
  | Some level =>
      release (Some level);;
      update ibuf (fun b => set_mipmap (<[a := None]> (mipmap b)) b)
  end.

Fixpoint free_mipmap_levels (ibuf : option loc) (levels : list nat)
  : M unit :=
  match levels with
  | [] => mret tt
  | a :: rest => free_mipmap_level ibuf a;; free_mipmap_levels ibuf rest
  end.

Definition imb_freemipmapImBuf_with (ibuf : option loc) : M unit :=
  free_mipmap_levels ibuf (seq 0 IMB_MIPMAP_LEVELS);;
  update ibuf (set_miptot 0).

Definition imb_freerectfloatImBuf_with (ibuf : option loc) : M unit :=
  match ibuf with
  | None => mret tt
  | Some _ =>
      b ← load ibuf;
      nb ← imb_free_buffer (float_buffer b);
      update ibuf (set_float_buffer nb);;
      imb_freemipmapImBuf_with ibuf;;
      update ibuf (fun b => set_flags (Z.land (flags b) (Z.lnot IB_rectfloat)) b)
  end.

Definition imb_freerectImBuf_with (ibuf : option loc) : M unit :=
  match ibuf with
  | None => mret tt
  | Some _ =>
      b ← load ibuf;
      nb ← imb_free_buffer (byte_buffer b);
      update ibuf (set_byte_buffer nb);;
      imb_freemipmapImBuf_with ibuf;;
      update ibuf (fun b => set_flags (Z.land (flags b) (Z.lnot IB_rect)) b)
  end.
End with_release.

Definition freeencodedbufferImBuf (ibuf : option loc) : M unit :=
  match ibuf with
  | None => mret tt
  | Some _ =>
      b ← load ibuf;
      nb ← imb_free_buffer (encoded_buffer b);
      update ibuf (set_encoded_buffer nb);;
      update ibuf (set_encoded_buffer_size 0);;
      update ibuf (set_encoded_size 0);;
      update ibuf (fun b => set_flags (Z.land (flags b) (Z.lnot IB_mem)) b)
  end.

Definition IMB_freezbufImBuf (ibuf : option loc) : M unit :=
  match ibuf with
  | None => mret tt
  | Some _ =>
      b ← load ibuf;
      nb ← imb_free_buffer (z_buffer b);
      update ibuf (set_z_buffer nb);;
      update ibuf (fun b => set_flags (Z.land (flags b) (Z.lnot IB_zbuf)) b)
  end.

Definition IMB_freezbuffloatImBuf (ibuf : option loc) : M unit :=
  match ibuf with
  | None => mret tt
  | Some _ =>
      b ← load ibuf;
      nb ← imb_free_buffer (float_z_buffer b);
      update ibuf (set_float_z_buffer nb);;
      update ibuf (fun b => set_flags (Z.land (flags b) (Z.lnot IB_zbuffloat)) b)
  end.

Definition imb_freerectImbuf_all_with (release : option loc -> M unit)
    (ibuf : option loc) : M unit :=
  imb_freerectImBuf_with release ibuf;;
  imb_freerectfloatImBuf_with release ibuf;;
  IMB_freezbufImBuf ibuf;;
  IMB_freezbuffloatImBuf ibuf;;
  freeencodedbufferImBuf ibuf.

(** The body of [IMB_freeImBuf]. *)
Definition IMB_freeImBuf_body (release : option loc -> M unit)
    (ibuf : option loc) : M unit :=
  match ibuf with
  | None => mret tt
  | Some _ =>
      b ← load ibuf;
      if 0 <? refcounter b then
        update ibuf (fun b => set_refcounter (refcounter b - 1) b)
      else
        imb_freerectImbuf_all_with release ibuf;;
        b ← load ibuf;
        IMB_metadata_free (metadata b);;
        colormanage_cache_free ibuf;;
        b ← load ibuf;
        match dds_data b with
        | Some d => free_dds d
        | None => mret tt
        end;;
        MEM_freeN_ImBuf ibuf
  end.

(** [fuel] bounds the depth of the calls of [IMB_freeImBuf] within
    [IMB_freeImBuf]: one for the aggregate, one more per level of nesting of
    mipmap chains. *)
Fixpoint IMB_freeImBuf (fuel : nat) (ibuf : option loc) : M unit :=
  match fuel with
  | O => out_of_fuel
  | S n => IMB_freeImBuf_body (IMB_freeImBuf n) ibuf
  end.

Definition imb_freemipmapImBuf (fuel : nat) : option loc -> M unit :=
  imb_freemipmapImBuf_with (IMB_freeImBuf fuel).
Definition imb_freerectfloatImBuf (fuel : nat) : option loc -> M unit :=
  imb_freerectfloatImBuf_with (IMB_freeImBuf fuel).
Definition imb_freerectImBuf (fuel : nat) : option loc -> M unit :=
  imb_freerectImBuf_with (IMB_freeImBuf fuel).
Definition imb_freerectImbuf_all (fuel : nat) : option loc -> M unit :=
  imb_freerectImbuf_all_with (IMB_freeImBuf fuel).

(** [IMB_refImBuf]: no test of the pointer. *)
Definition IMB_refImBuf (ibuf : option loc) : M unit :=
  update ibuf (fun b => set_refcounter (refcounter b + 1) b).

(** ** Allocating slots *)

Definition addzbufImBuf (ibuf : option loc) : M bool :=
  match ibuf with
  | None => mret false
  | Some _ =>
      IMB_freezbufImBuf ibuf;;
      b ← load ibuf;
      '(ok, nb) ← imb_alloc_buffer (z_buffer b) (x b) (y b) 1 sizeof_uint;
      update ibuf (set_z_buffer nb);;
      if negb ok then mret false
      else
        update ibuf (fun b => set_flags (Z.lor (flags b) IB_zbuf) b);;
        mret false
  end.

Definition addzbuffloatImBuf (ibuf : option loc) : M bool :=
  match ibuf with
  | None => mret false
  | Some _ =>
      IMB_freezbuffloatImBuf ibuf;;
      b ← load ibuf;
      '(ok, nb) ← imb_alloc_buffer (float_z_buffer b) (x b) (y b) 1
                                   sizeof_float;
      update ibuf (set_float_z_buffer nb);;
      if negb ok then mret false
      else
        update ibuf (fun b => set_flags (Z.lor (flags b) IB_zbuffloat) b);;
        mret true
  end.

Definition imb_addencodedbufferImBuf (ibuf : option loc) : M bool :=
  match ibuf with
  | None => mret false
  | Some _ =>
      freeencodedbufferImBuf ibuf;;
      b ← load ibuf;
      (if encoded_buffer_size b =? 0
       then update ibuf (set_encoded_buffer_size 10000)
       else mret tt);;
      update ibuf (set_encoded_size 0);;
      b ← load ibuf;
      '(ok, nb) ← imb_alloc_buffer (encoded_buffer b) (encoded_buffer_size b)
                                   1 1 sizeof_uint8_t;
      update ibuf (set_encoded_buffer nb);;
      if negb ok then mret false
      else
        update ibuf (fun b => set_flags (Z.lor (flags b) IB_mem) b);;
        mret true
  end.

(** [imb_enlargeencodedbufferImBuf].  The local [new_buffer] is not
    initialized in the source; [imb_alloc_buffer] writes all of it before
    it is read. *)
Definition imb_enlargeencodedbufferImBuf (ibuf : option loc) : M bool :=
  match ibuf with
  | None => mret false
  | Some _ =>
      b ← load ibuf;
      if encoded_buffer_size b <? encoded_size b then
        emit EvPrintErrorInParameters;; mret false
      else
        let newsize := to_uint (2 * encoded_buffer_size b) in
        let newsize := if newsize <? 10000 then 10000 else newsize in
        '(ok, new_buffer) ← imb_alloc_buffer empty_buffer newsize 1 1
                                             sizeof_uint8_t;
        if negb ok then mret false
        else
          match data (encoded_buffer b) with
          | Some _ => memcpy (data new_buffer) (data (encoded_buffer b))
                             (encoded_size b)
          | None => update ibuf (set_encoded_size 0)
          end;;
          b ← load ibuf;
          nb ← imb_free_buffer (encoded_buffer b);
          update ibuf (set_encoded_buffer nb);;
          update ibuf (set_encoded_buffer new_buffer);;
          update ibuf (set_encoded_buffer_size newsize);;
          update ibuf (fun b => set_flags (Z.lor (flags b) IB_mem) b);;
          mret true
  end.

Definition imb_addrectfloatImBuf (fuel : nat) (ibuf : option loc)
    (channels : Z) : M bool :=
  match ibuf with
  | None => mret false
  | Some _ =>
      b ← load ibuf;
      match data (float_buffer b) with
      | Some _ => imb_freerectfloatImBuf fuel ibuf
      | None => mret tt
      end;;
      b ← load ibuf;
      '(ok, nb) ← imb_alloc_buffer (float_buffer b) (x b) (y b) channels
                                   sizeof_float;
      update ibuf (set_float_buffer nb);;
      if negb ok then mret false
      else
        update ibuf (set_channels channels);;
        update ibuf (fun b => set_flags (Z.lor (flags b) IB_rectfloat) b);;
        mret true
  end.

Definition imb_addrectImBuf (ibuf : option loc) : M bool :=
  match ibuf with
  | None => mret false
  | Some _ =>
      b ← load ibuf;
      nb ← imb_free_buffer (byte_buffer b);
      update ibuf (set_byte_buffer nb);;
      b ← load ibuf;
      '(ok, nb) ← imb_alloc_buffer (byte_buffer b) (x b) (y b) 4
                                   sizeof_uint8_t;
      update ibuf (set_byte_buffer nb);;
      if negb ok then mret false
      else
        update ibuf (fun b => set_flags (Z.lor (flags b) IB_rect) b);;
        b ← load ibuf;
        if 32 <? planes b then addzbufImBuf ibuf else mret true
  end.

(** ** Stealing, making writable, assigning: none of them tests [ibuf] *)

Definition IMB_steal_byte_buffer (ibuf : option loc) : M (option loc) :=
  b ← load ibuf;
  let '(d, nb) := imb_steal_buffer_data (byte_buffer b) in
  update ibuf (set_byte_buffer nb);;
  update ibuf (fun b => set_flags (Z.land (flags b) (Z.lnot IB_rect)) b);;
  mret d.

Definition IMB_steal_float_buffer (ibuf : option loc) : M (option loc) :=
  b ← load ibuf;
  let '(d, nb) := imb_steal_buffer_data (float_buffer b) in
  update ibuf (set_float_buffer nb);;
  update ibuf (fun b => set_flags (Z.land (flags b) (Z.lnot IB_rectfloat)) b);;
  mret d.

Definition IMB_steal_encoded_buffer (ibuf : option loc) : M (option loc) :=
  b ← load ibuf;
  let '(d, nb) := imb_steal_buffer_data (encoded_buffer b) in
  update ibuf (set_encoded_buffer nb);;
  update ibuf (set_encoded_size 0);;
  update ibuf (set_encoded_buffer_size 0);;
  update ibuf (fun b => set_flags (Z.land (flags b) (Z.lnot IB_mem)) b);;
  mret d.

Definition IMB_make_writable_byte_buffer (ibuf : option loc) : M unit :=
  b ← load ibuf;
  nb ← imb_make_writeable_buffer (byte_buffer b);
  update ibuf (set_byte_buffer nb).

Definition IMB_make_writable_float_buffer (ibuf : option loc) : M unit :=
  b ← load ibuf;
  nb ← imb_make_writeable_buffer (float_buffer b);
  update ibuf (set_float_buffer nb).

Definition IMB_assign_shared_byte_buffer (ibuf buffer_data info : option loc)
  : M unit :=
  b ← load ibuf;
  nb ← imb_free_buffer (byte_buffer b);
  update ibuf (set_byte_buffer nb);;
  update ibuf (fun b => set_flags (Z.land (flags b) (Z.lnot IB_rect)) b);;
  match buffer_data with
  | Some _ =>
      b ← load ibuf;
      nb ← imb_assign_shared_buffer (byte_buffer b) buffer_data info;
      update ibuf (set_byte_buffer nb);;
      update ibuf (fun b => set_flags (Z.lor (flags b) IB_rect) b)
  | None => mret tt
  end.

Definition IMB_assign_shared_float_buffer (ibuf buffer_data info : option loc)
  : M unit :=
  b ← load ibuf;
  nb ← imb_free_buffer (float_buffer b);
  update ibuf (set_float_buffer nb);;
  update ibuf (fun b => set_flags (Z.land (flags b) (Z.lnot IB_rectfloat)) b);;
  match buffer_data with
  | Some _ =>
      b ← load ibuf;
      nb ← imb_assign_shared_buffer (float_buffer b) buffer_data info;
      update ibuf (set_float_buffer nb);;
      update ibuf (fun b => set_flags (Z.lor (flags b) IB_rectfloat) b)
  | None => mret tt
  end.

Definition IMB_assign_shared_float_z_buffer
    (ibuf buffer_data info : option loc) : M unit :=
  b ← load ibuf;
  nb ← imb_free_buffer (float_z_buffer b);
  update ibuf (set_float_z_buffer nb);;
  update ibuf (fun b => set_flags (Z.land (flags b) (Z.lnot IB_zbuffloat)) b);;
  match buffer_data with
  | Some _ =>
      b ← load ibuf;
      nb ← imb_assign_shared_buffer (float_z_buffer b) buffer_data info;
      update ibuf (set_float_z_buffer nb);;
      update ibuf (fun b => set_flags (Z.lor (flags b) IB_zbuffloat) b)
  | None => mret tt
  end.

Definition IMB_assign_byte_buffer (ibuf buffer_data : option loc)
    (own : ImBufOwnership) : M unit :=
  b ← load ibuf;
  nb ← imb_free_buffer (byte_buffer b);
  update ibuf (set_byte_buffer nb);;
  update ibuf (fun b => set_flags (Z.land (flags b) (Z.lnot IB_rect)) b);;
  match buffer_data with
  | Some _ =>
      update ibuf (fun b => set_byte_buffer
        (mkBuffer buffer_data own (implicit_sharing (byte_buffer b))) b);;
      update ibuf (fun b => set_flags (Z.lor (flags b) IB_rect) b)
  | None => mret tt
  end.

Definition IMB_assign_float_buffer (ibuf buffer_data : option loc)
    (own : ImBufOwnership) : M unit :=
  b ← load ibuf;
  nb ← imb_free_buffer (float_buffer b);
  update ibuf (set_float_buffer nb);;
  update ibuf (fun b => set_flags (Z.land (flags b) (Z.lnot IB_rectfloat)) b);;
  match buffer_data with
  | Some _ =>
      update ibuf (fun b => set_float_buffer
        (mkBuffer buffer_data own (implicit_sharing (float_buffer b))) b);;
      update ibuf (fun b => set_flags (Z.lor (flags b) IB_rectfloat) b)
  | None => mret tt
  end.

Definition IMB_assign_z_buffer (ibuf buffer_data : option loc)
    (own : ImBufOwnership) : M unit :=
  b ← load ibuf;
  nb ← imb_free_buffer (z_buffer b);
  update ibuf (set_z_buffer nb);;
  update ibuf (fun b => set_flags (Z.land (flags b) (Z.lnot IB_zbuf)) b);;
  match buffer_data with
  | Some _ =>
      update ibuf (fun b => set_z_buffer
        (mkBuffer buffer_data own (implicit_sharing (z_buffer b))) b);;
      update ibuf (fun b => set_flags (Z.lor (flags b) IB_zbuf) b)
  | None => mret tt
  end.

Definition IMB_assign_float_z_buffer (ibuf buffer_data : option loc)
    (own : ImBufOwnership) : M unit :=
  b ← load ibuf;
  nb ← imb_free_buffer (float_z_buffer b);
  update ibuf (set_float_z_buffer nb);;
  update ibuf (fun b => set_flags (Z.land (flags b) (Z.lnot IB_zbuffloat)) b);;
  match buffer_data with
  | Some _ =>
      update ibuf (fun b => set_float_z_buffer
        (mkBuffer buffer_data own (implicit_sharing (float_z_buffer b))) b);;
      update ibuf (fun b => set_flags (Z.lor (flags b) IB_zbuffloat) b)
  | None => mret tt
  end.

(** ** Creating and duplicating aggregates *)

(** [IMB_initImBuf].  [planes] is an [unsigned char], [flags] a [uint]. *)
Definition IMB_initImBuf (fuel : nat) (ibuf : option loc)
    (x y planes flags : Z) : M bool :=
  update ibuf (fun _ =>
    mkImBuf x y planes 4 0 empty_buffer empty_buffer empty_buffer
            empty_buffer empty_buffer 0 0
            (replicate IMB_MIPMAP_LEVELS None) 0 0 None None None None
            IMB_FTYPE_PNG 15);;
  ok ← (if has_flag flags IB_rect then imb_addrectImBuf ibuf else mret true);
  if negb ok then mret false else
  ok ← (if has_flag flags IB_rectfloat
        then b ← load ibuf; imb_addrectfloatImBuf fuel ibuf (channels b)
        else mret true);
  if negb ok then mret false else
  ok ← (if has_flag flags IB_zbuf then addzbufImBuf ibuf else mret true);
  if negb ok then mret false else
  ok ← (if has_flag flags IB_zbuffloat then addzbuffloatImBuf ibuf
        else mret true);
  if negb ok then mret false else
  colormanage_imbuf_set_default_spaces ibuf;;
  mret true.

Definition IMB_allocImBuf (fuel : nat) (x y planes flags : Z)
  : M (option loc) :=
  ibuf ← MEM_cnew_ImBuf;
  match ibuf with
  | Some _ =>
      ok ← IMB_initImBuf fuel ibuf x y planes flags;
      if negb ok then IMB_freeImBuf fuel ibuf;; mret None
      else mret ibuf
  | None => mret ibuf
  end.

Definition IMB_allocFromBufferOwn (fuel : nat)
    (byte_data float_data : option loc) (w h channels : Z)
  : M (option loc) :=
  match byte_data, float_data with
  | None, None => mret None
  | _, _ =>
      ibuf ← IMB_allocImBuf fuel w h 32 0;
      update ibuf (set_channels channels);;
      match float_data with
      | Some _ => IMB_assign_float_buffer ibuf float_data IB_TAKE_OWNERSHIP
      | None => mret tt
      end;;
      match byte_data with
      | Some _ => IMB_assign_byte_buffer ibuf byte_data IB_TAKE_OWNERSHIP
      | None => mret tt
      end;;
      mret ibuf
  end.

Definition IMB_allocFromBuffer (fuel : nat)
    (byte_data float_data : option loc) (w h channels : Z)
  : M (option loc) :=
  match byte_data, float_data with
  | None, None => mret None
  | _, _ =>
      ibuf ← IMB_allocImBuf fuel w h 32 0;
      update ibuf (set_channels channels);;
      match float_data with
      | Some _ =>
          b ← load ibuf;
          '(_, nb) ← imb_alloc_buffer (float_buffer b) w h 4 sizeof_float;
          update ibuf (set_float_buffer nb);;
          memcpy (data nb) float_data
                 (to_size_t (to_size_t (4 * sizeof_float * w) * h))
      | None => mret tt
      end;;
      match byte_data with
      | Some _ =>
          b ← load ibuf;
          '(_, nb) ← imb_alloc_buffer (byte_buffer b) w h 4 sizeof_uint8_t;
          update ibuf (set_byte_buffer nb);;
          memcpy (data nb) byte_data
                 (to_size_t (to_size_t (4 * sizeof_uint8_t * w) * h))
      | None => mret tt
      end;;
      mret ibuf
  end.

(** The flags [IMB_dupImBuf] computes from the populated slots of the
    source (its local [flags]). *)
Definition dup_flags (b1 : ImBuf) : Z :=
  let fl := 0 in
  let fl := match data (byte_buffer b1) with
            | Some _ => Z.lor fl IB_rect
            | None => fl
            end in
  let fl := match data (float_buffer b1) with
            | Some _ => Z.lor fl IB_rectfloat
            | None => fl
            end in
  let fl := match data (z_buffer b1) with
            | Some _ => Z.lor fl IB_zbuf
            | None => fl
            end in
  let fl := match data (float_z_buffer b1) with
            | Some _ => Z.lor fl IB_zbuffloat
            | None => fl
            end in
  fl.

(** [IMB_dupImBuf].  The locals [x] and [y] of the source are [int] (here
    [ix], [iy]); the sizes of the copies are computed in [size_t].  The copy
    for [IB_zbuffloat] names the float buffers, as the source does. *)
Definition IMB_dupImBuf (fuel : nat) (ibuf1 : option loc) : M (option loc) :=
  match ibuf1 with
  | None => mret None
  | Some _ =>
      b1 ← load ibuf1;
      let fl := dup_flags b1 in
      let ix := to_int (x b1) in
      let iy := to_int (y b1) in
      ibuf2 ← IMB_allocImBuf fuel (to_uint ix) (to_uint iy) (planes b1)
                             (to_uint fl);
      match ibuf2 with
      | None => mret None
      | Some _ =>
          (if has_flag fl IB_rect then
             b2 ← load ibuf2;
             memcpy (data (byte_buffer b2)) (data (byte_buffer b1))
                    (to_size_t (to_size_t ix * to_size_t iy * 4
                                * sizeof_uint8_t))
           else mret tt);;
          (if has_flag fl IB_rectfloat then
             b2 ← load ibuf2;
             memcpy (data (float_buffer b2)) (data (float_buffer b1))
                    (to_size_t (to_size_t (channels b1) * to_size_t ix
                                * to_size_t iy * sizeof_float))
           else mret tt);;
          (if has_flag fl IB_zbuf then
             b2 ← load ibuf2;
             memcpy (data (z_buffer b2)) (data (z_buffer b1))
                    (to_size_t (to_size_t ix * to_size_t iy * sizeof_int))
           else mret tt);;
          (if has_flag fl IB_zbuffloat then
             b2 ← load ibuf2;
             memcpy (data (float_buffer b2)) (data (float_buffer b1))
                    (to_size_t (to_size_t ix * to_size_t iy * sizeof_float))
           else mret tt);;
          ok ← match data (encoded_buffer b1) with
               | Some _ =>
                   update ibuf2
                     (set_encoded_buffer_size (encoded_buffer_size b1));;
                   ok ← imb_addencodedbufferImBuf ibuf2;
                   if negb ok then IMB_freeImBuf fuel ibuf2;; mret false
                   else
                     b2 ← load ibuf2;
                     memcpy (data (encoded_buffer b2))
                            (data (encoded_buffer b1)) (encoded_size b1);;
                     mret true
               | None => mret true
               end;
          if negb ok then mret None
          else
            b2 ← load ibuf2;
            let tbuf :=
              mkImBuf (x b1) (y b1) (planes b1) (channels b1) (flags b1)
                (byte_buffer b2) (float_buffer b2) (z_buffer b2)
                (float_z_buffer b2) (encoded_buffer b2)
                (encoded_buffer_size b1) (encoded_size b1)
                (foldr (fun a m => <[a := None]> m) (mipmap b1)
                       (seq 0 IMB_MIPMAP_LEVELS))
                (miptot b1) 0 None None None None
                (ftype b1) (foptions_quality b1) in
            update ibuf2 (fun _ => tbuf);;
            mret ibuf2
      end
  end.

Definition IMB_makeSingleUser (fuel : nat) (ibuf : option loc)
  : M (option loc) :=
  match ibuf with
  | None => mret None
  | Some _ =>
      b ← load ibuf;
      if refcounter b =? 0 then mret ibuf
      else
        rval ← IMB_dupImBuf fuel ibuf;
        IMB_metadata_copy rval ibuf;;
        IMB_freeImBuf fuel ibuf;;
        mret rval
  end.

Definition IMB_get_rect_len (ibuf : option loc) : M Z :=
  b ← load ibuf;
  mret (to_size_t (to_size_t (x b) * to_size_t (y b))).

(** * Predicates and sample data used by the statements *)

(** The position of a slot's flag bit. *)
Definition slot_bit (s : slot) : Z :=
  match s with
  | ByteSlot => 0
  | FloatSlot => 5
  | ZSlot => 3
  | FloatZSlot => 6
  | EncodedSlot => 4
  end.

(** ** The empty heap, for closed examples *)
Definition empty_heap : Heap := mkHeap ∅ ∅ ∅ [] [].

(** A heap with one live pixel block at address 1. *)
Definition heap_one_block : Heap :=
  mkHeap {[ 1%positive := [Byte.x2a; Byte.x2b] ]} ∅ ∅ [] [].

(** The invariant of a buffer slot, as the spec's data model has it: a
    shared handle comes with data and with [ownership] not owned; an empty
    slot is not owned and not shared. *)
Definition buffer_invariant (b : Buffer) : Prop :=
  (implicit_sharing b <> None ->
     data b <> None /\ ownership b = IB_DO_NOT_TAKE_OWNERSHIP) /\
  (data b = None ->
     ownership b = IB_DO_NOT_TAKE_OWNERSHIP /\ implicit_sharing b = None).

(** The pointers of a slot refer to live objects: the data to a block, the
    handle to a control block whose shared allocation is there to be freed
    by the last user. *)
Definition buffer_live (h : Heap) (b : Buffer) : Prop :=
  (forall d, data b = Some d -> is_Some (mem h !! d)) /\
  (forall s, implicit_sharing b = Some s ->
     exists i, sharing h !! s = Some i /\
       (strong_users i = 1 ->
        forall sd, shared_data i = Some sd -> is_Some (mem h !! sd))).

(** A heap with a block shared by two users through the handle 7. *)
Definition heap_shared_block : Heap :=
  mkHeap {[ 1%positive := [Byte.x2a; Byte.x2b] ]} ∅
         {[ 7%positive := mkSharingInfo 2 (Some 1%positive) ]} [] [].
(** What releasing does to the stores.  Control blocks only lose users. *)
Definition sharing_le (s s' : gmap loc SharingInfo) : Prop :=
  forall k i', s' !! k = Some i' ->
    exists i, s !! k = Some i /\ strong_users i' <= strong_users i /\
              shared_data i' = shared_data i.

(** An aggregate that survives a release differs in its reference count
    only, which has not grown. *)
Definition same_but_refcounter (b b' : ImBuf) : Prop :=
  b' = set_refcounter (refcounter b') b /\ refcounter b' <= refcounter b.

(** The aggregates outside [skip] that are there after a run were there
    before, and differ in the reference count only. *)
Definition ibufs_released (skip : loc -> Prop) (m m' : gmap loc ImBuf)
  : Prop :=
  forall q b', ~ skip q -> m' !! q = Some b' ->
    exists b, m !! q = Some b /\ same_but_refcounter b b'.

(** A run that only releases: blocks and aggregates disappear or stay as
    they are, control blocks lose users, the trace grows, and the
    allocator is not asked. *)
Definition heap_released (skip : loc -> Prop) (h h' : Heap) : Prop :=
  ibufs_released skip (ibufs h) (ibufs h') /\
  mem h' ⊆ mem h /\
  sharing_le (sharing h) (sharing h') /\
  oom h' = oom h /\
  (exists l, trace h' = trace h ++ l).

Definition nowhere : loc -> Prop := fun _ => False.
Definition only (p : loc) : loc -> Prop := fun q => q = p.

(** Every successful run of [m] relates the heaps by [R]. *)
Definition pres {A : Type} (R : Heap -> Heap -> Prop) (m : M A) : Prop :=
  forall h a h', m h = Ok a h' -> R h h'.

(** The part of the teardown in [IMB_freeImBuf] before the structure
    itself is freed. *)
Definition teardown_contents (release : option loc -> M unit)
    (ibuf : option loc) : M unit :=
  imb_freerectImbuf_all_with release ibuf;;
  b ← load ibuf;
  IMB_metadata_free (metadata b);;
  colormanage_cache_free ibuf;;
  b ← load ibuf;
  match dds_data b with
  | Some d => free_dds d
  | None => mret tt
  end.

(** If the aggregate [p] is there after a run, it was there before, with
    the same [view]. *)
Definition keeps {V : Type} (p : loc) (view : ImBuf -> V) (h h' : Heap)
  : Prop :=
  forall b', ibufs h' !! p = Some b' ->
    exists b, ibufs h !! p = Some b /\ view b' = view b.

(** What it means for a slot's storage to have been freed between two
    heaps: a shared slot has given up its use of the control block (which is
    gone, or has fewer users), an owned block is no longer allocated, and
    borrowed storage is nobody's business. *)
Definition buffer_freed (buffer : Buffer) (h h' : Heap) : Prop :=
  match implicit_sharing buffer with
  | Some s =>
      sharing h' !! s = None \/
      exists i i', sharing h !! s = Some i /\ sharing h' !! s = Some i' /\
                   strong_users i' < strong_users i
  | None =>
      match data buffer, ownership buffer with
      | Some d, IB_TAKE_OWNERSHIP => mem h' !! d = None
      | _, _ => True
      end
  end.

(** What [IMB_freeImBuf] does to the aggregate it is called on. *)
Definition released_now (c : loc) (h h' : Heap) : Prop :=
  exists bc, ibufs h !! c = Some bc /\
    if 0 <? refcounter bc
    then ibufs h' !! c = Some (set_refcounter (refcounter bc - 1) bc)
    else ibufs h' !! c = None.

(** A mipmap level [c] of the aggregate [p] has been released between two
    heaps: it is another aggregate, and it is gone or has a lower reference
    count. *)
Definition level_released (p c : loc) (h h' : Heap) : Prop :=
  c <> p /\
  exists bc, ibufs h !! c = Some bc /\
    (ibufs h' !! c = None \/
     exists bc', ibufs h' !! c = Some bc' /\ refcounter bc' < refcounter bc).

(** Full teardown of the aggregate [p], whose structure was [b]. *)
Definition torn_down (p : loc) (b : ImBuf) (h h' : Heap) : Prop :=
  ibufs h' !! p = None /\
  (forall s, buffer_freed (slot_buffer s b) h h') /\
  (forall a c, mipmap b !! a = Some (Some c) -> (a < IMB_MIPMAP_LEVELS)%nat ->
     level_released p c h h') /\
  (exists l, trace h' = trace h ++ l /\
     In (EvMetadataFree (metadata b)) l /\
     In (EvColormanageCacheFree p) l /\
     (forall d, dds_data b = Some d -> In (EvFreeDDS d) l)).


(** The blocks a slot will free itself, and those of all the slots of an
    aggregate, in the order of the teardown. *)
Definition slot_owned (buffer : Buffer) : list loc :=
  match implicit_sharing buffer, data buffer, ownership buffer with
  | None, Some d, IB_TAKE_OWNERSHIP => [d]
  | _, _, _ => []
  end.


(** An aggregate without mipmap levels. *)
Definition no_levels (b : ImBuf) : Prop :=
  forall a, default None (mipmap b !! a) = None.


(** The blocks of the list are allocated. *)
Definition blocks_live (ds : list loc) (h : Heap) : Prop :=
  forall d, d ∈ ds -> is_Some (mem h !! d).

(** A sample heap: the aggregate 10 owns its byte buffer (block 1), shares
    its float buffer (block 2, control block 7 with two users), has metadata
    and a DDS payload, and has one mipmap level, the aggregate 11, which owns
    block 3. *)
Definition sample_level : ImBuf :=
  mkImBuf 1 1 32 4 IB_rect
          (mkBuffer (Some 3%positive) IB_TAKE_OWNERSHIP None)
          empty_buffer empty_buffer empty_buffer empty_buffer 0 0
          (replicate IMB_MIPMAP_LEVELS None) 0 0 None None None None
          IMB_FTYPE_PNG 15.

Definition sample_aggregate : ImBuf :=
  mkImBuf 2 2 32 4 (Z.lor IB_rect IB_rectfloat)
          (mkBuffer (Some 1%positive) IB_TAKE_OWNERSHIP None)
          (mkBuffer (Some 2%positive) IB_DO_NOT_TAKE_OWNERSHIP
                    (Some 7%positive))
          empty_buffer empty_buffer empty_buffer 0 0
          (Some 11%positive :: replicate (IMB_MIPMAP_LEVELS - 1) None) 1 0
          (Some 5%positive) None None (Some 6%positive)
          IMB_FTYPE_PNG 15.

Definition sample_heap : Heap :=
  mkHeap {[ 1%positive := replicate 16 Byte.x11;
            2%positive := replicate 64 Byte.x22;
            3%positive := replicate 4 Byte.x33 ]}
         {[ 10%positive := sample_aggregate; 11%positive := sample_level ]}
         {[ 7%positive := mkSharingInfo 2 (Some 2%positive) ]}
         [] [].

(** A heap with one aggregate of 2 by 2 pixels and more than 32 planes, all
    slots empty, at address 1. *)
Definition deep_aggregate : ImBuf :=
  mkImBuf 2 2 64 4 0 empty_buffer empty_buffer empty_buffer empty_buffer
          empty_buffer 0 0 (replicate IMB_MIPMAP_LEVELS None) 0 0
          None None None None IMB_FTYPE_PNG 15.

Definition heap_deep_aggregate : Heap :=
  mkHeap ∅ {[ 1%positive := deep_aggregate ]} ∅ [] [].

(** The capacity [imb_enlargeencodedbufferImBuf] grows to (its local
    [newsize]): twice the capacity in [uint] arithmetic, at least 10000. *)
Definition grown_capacity (capacity : Z) : Z :=
  let newsize := to_uint (2 * capacity) in
  if newsize <? 10000 then 10000 else newsize.

(** The allocator serves the next [n] requests. *)
Definition serves (n : nat) (h : Heap) : Prop :=
  Forall (fun refuse => refuse = false) (take n (oom h)).

(** A codec writes into the encoded buffer [d] of the aggregate [p]: the
    block gets new contents and [encoded_size] a new value. *)
Definition write_encoded (p d : loc) (written : list Byte.byte) (n : Z)
    (h : Heap) : Heap :=
  set_ibufs (alter (set_encoded_size n) p (ibufs h))
            (set_mem (<[d := written]> (mem h)) h).

(** A heap with one aggregate at address 1 whose encoded slot has never
    been allocated. *)
Definition heap_no_encoded : Heap :=
  mkHeap ∅ {[ 1%positive := zero_ImBuf ]} ∅ [] [].

(** The same with a capacity of [2^31] recorded in the structure. *)
Definition heap_large_capacity : Heap :=
  mkHeap ∅ {[ 1%positive := set_encoded_buffer_size 2147483648 zero_ImBuf ]}
         ∅ [] [].

(** The state of a slot as the invariant sees it: its flag bit and its
    data pointer. *)
Definition slot_state (s : slot) (b : ImBuf) : bool * option loc :=
  (has_flag (flags b) (slot_flag s), data (slot_buffer s b)).

Definition consistent (st : bool * option loc) : Prop :=
  fst st = true <-> snd st <> None.

(** The invariant of the data model: a flag bit is set if and only if the
    data pointer of its slot is not null. *)
Definition flags_invariant (b : ImBuf) : Prop :=
  forall s, consistent (slot_state s b).

Definition heap_invariant (h : Heap) : Prop :=
  forall q b, ibufs h !! q = Some b -> flags_invariant b.

#[global] Instance slot_eq_dec : EqDecision slot.
Proof. solve_decision. Defined.

(** A run that works on the aggregate [p] and there touches the slots in
    [touched] only: the other aggregates are released or left alone, and
    the other slots of [p] keep their state. *)
Definition touches (p : loc) (touched : slot -> bool) (h h' : Heap) : Prop :=
  ibufs_released (only p) (ibufs h) (ibufs h') /\
  forall b', ibufs h' !! p = Some b' ->
    exists b, ibufs h !! p = Some b /\
      forall s, touched s = false -> slot_state s b' = slot_state s b.

Definition just (s0 : slot) : slot -> bool := fun s => bool_decide (s = s0).
Definition no_slot : slot -> bool := fun _ => false.

(** A computation that leaves the aggregates alone. *)
Definition same_ibufs {A : Type} (m : M A) : Prop :=
  forall h a h', m h = Ok a h' -> ibufs h' = ibufs h.

(** A computation that preserves the invariant when it returns. *)
Definition inv_pres {A : Type} (m : M A) : Prop :=
  forall h a h', heap_invariant h -> m h = Ok a h' -> heap_invariant h'.

(** An aggregate whose borrowed byte buffer is block 1, and the heap that
    holds it at address 1. *)
Definition borrowing_aggregate : ImBuf :=
  mkImBuf 1 1 32 4 IB_rect
          (mkBuffer (Some 1%positive) IB_DO_NOT_TAKE_OWNERSHIP None)
          empty_buffer empty_buffer empty_buffer empty_buffer 0 0
          (replicate IMB_MIPMAP_LEVELS None) 0 0 None None None None
          IMB_FTYPE_PNG 15.

Definition heap_borrowing : Heap :=
  mkHeap {[ 1%positive := [Byte.x01; Byte.x02; Byte.x03; Byte.x04] ]}
         {[ 1%positive := borrowing_aggregate ]} ∅ [] [].

(** An aggregate that owns its byte buffer, block 1, in a heap whose
    allocator refuses the next request. *)
Definition owning_aggregate : ImBuf :=
  mkImBuf 1 1 32 4 IB_rect
          (mkBuffer (Some 1%positive) IB_TAKE_OWNERSHIP None)
          empty_buffer empty_buffer empty_buffer empty_buffer 0 0
          (replicate IMB_MIPMAP_LEVELS None) 0 0 None None None None
          IMB_FTYPE_PNG 15.

Definition heap_out_of_memory : Heap :=
  mkHeap {[ 1%positive := [Byte.x01; Byte.x02; Byte.x03; Byte.x04] ]}
         {[ 1%positive := owning_aggregate ]} ∅ [true] [].

(** The shape of the functions that free one slot of the aggregate [p]:
    free the buffer, store the emptied buffer, do something in between,
    clear the flag. *)
Definition free_phase (s0 : slot) (set : Buffer -> ImBuf -> ImBuf)
    (mid : M unit) (p : loc) : M unit :=
  b ← load (Some p);
  nb ← imb_free_buffer (slot_buffer s0 b);
  update (Some p) (set nb);;
  mid;;
  update (Some p)
    (fun b => set_flags (Z.land (flags b) (Z.lnot (slot_flag s0))) b).

(** The shape of [addzbufImBuf] and [addzbuffloatImBuf] on the aggregate
    [p]: free the slot, allocate it anew, set the flag; [r] is what the
    success path returns. *)
Definition depth_alloc_shape (s0 : slot) (set : Buffer -> ImBuf -> ImBuf)
    (type_size : Z) (r : bool) (p : loc) : M bool :=
  free_phase s0 set (mret tt) p;;
  b ← load (Some p);
  '(ok, nb) ← imb_alloc_buffer (slot_buffer s0 b) (x b) (y b) 1 type_size;
  update (Some p) (set nb);;
  if negb ok then mret false
  else
    update (Some p) (fun b => set_flags (Z.lor (flags b) (slot_flag s0)) b);;
    mret r.

(** The shape of [IMB_steal_byte_buffer] and [IMB_steal_float_buffer]. *)
Definition steal_shape (s0 : slot) (set : Buffer -> ImBuf -> ImBuf)
    (ibuf : option loc) : M (option loc) :=
  b ← load ibuf;
  let '(d, nb) := imb_steal_buffer_data (slot_buffer s0 b) in
  update ibuf (set nb);;
  update ibuf
    (fun b => set_flags (Z.land (flags b) (Z.lnot (slot_flag s0))) b);;
  mret d.

(** The shape of the make-writable functions. *)
Definition writable_shape (s0 : slot) (set : Buffer -> ImBuf -> ImBuf)
    (ibuf : option loc) : M unit :=
  b ← load ibuf;
  nb ← imb_make_writeable_buffer (slot_buffer s0 b);
  update ibuf (set nb).

(** The shape of the functions that assign caller-supplied memory. *)
Definition assign_shape (s0 : slot) (set : Buffer -> ImBuf -> ImBuf)
    (ibuf buffer_data : option loc) (own : ImBufOwnership) : M unit :=
  b ← load ibuf;
  nb ← imb_free_buffer (slot_buffer s0 b);
  update ibuf (set nb);;
  update ibuf
    (fun b => set_flags (Z.land (flags b) (Z.lnot (slot_flag s0))) b);;
  match buffer_data with
  | Some _ =>
      update ibuf (fun b => set
        (mkBuffer buffer_data own (implicit_sharing (slot_buffer s0 b))) b);;
      update ibuf (fun b => set_flags (Z.lor (flags b) (slot_flag s0)) b)
  | None => mret tt
  end.

(** The shape of the functions that assign shared memory. *)
Definition assign_shared_shape (s0 : slot) (set : Buffer -> ImBuf -> ImBuf)
    (ibuf buffer_data info : option loc) : M unit :=
  b ← load ibuf;
  nb ← imb_free_buffer (slot_buffer s0 b);
  update ibuf (set nb);;
  update ibuf
    (fun b => set_flags (Z.land (flags b) (Z.lnot (slot_flag s0))) b);;
  match buffer_data with
  | Some _ =>
      b ← load ibuf;
      nb ← imb_assign_shared_buffer (slot_buffer s0 b) buffer_data info;
      update ibuf (set nb);;
      update ibuf (fun b => set_flags (Z.lor (flags b) (slot_flag s0)) b)
  | None => mret tt
  end.

(** A setter that writes the slot [s0] and nothing else the invariant
    looks at. *)
Definition sets_slot (s0 : slot) (set : Buffer -> ImBuf -> ImBuf) : Prop :=
  (forall v b, slot_buffer s0 (set v b) = v) /\
  (forall v b, flags (set v b) = flags b) /\
  (forall v b s, s <> s0 -> slot_buffer s (set v b) = slot_buffer s b).

(** An aggregate of one pixel that owns a float buffer, block 1, and a
    float depth buffer, block 2, held twice and carrying metadata; and the
    heap that holds it at address 1. *)
Definition depth_float_aggregate : ImBuf :=
  mkImBuf 1 1 32 4 (Z.lor IB_rectfloat IB_zbuffloat)
          empty_buffer
          (mkBuffer (Some 1%positive) IB_TAKE_OWNERSHIP None)
          empty_buffer
          (mkBuffer (Some 2%positive) IB_TAKE_OWNERSHIP None)
          empty_buffer 0 0
          (replicate IMB_MIPMAP_LEVELS None) 0 2 (Some 5%positive) None None
          None IMB_FTYPE_PNG 15.

Definition heap_depth_float : Heap :=
  mkHeap {[ 1%positive := replicate 16 Byte.x11;
            2%positive := [Byte.x01; Byte.x02; Byte.x03; Byte.x04] ]}
         {[ 1%positive := depth_float_aggregate ]} ∅ [] [].

(** The fields of a duplicate that [IMB_dupImBuf] resets. *)
Definition fresh_handles (b : ImBuf) : Prop :=
  refcounter b = 0 /\ metadata b = None /\ colormanage_cache b = None /\
  display_buffer_flags b = None /\ dds_data b = None /\
  forall i level,
    (i < IMB_MIPMAP_LEVELS)%nat -> mipmap b !! i = Some level -> level = None.

(** An allocation function for the slot [s0] of the aggregate [p]: when it
    returns true it has touched that slot only and has set its flag. *)
Definition adds_flag (p : loc) (s0 : slot) (op : M bool) : Prop :=
  forall h h', op h = Ok true h' ->
    touches p (just s0) h h' /\
    exists b', ibufs h' !! p = Some b' /\
               has_flag (flags b') (slot_flag s0) = true.

(** The slot flags of an aggregate. *)
Definition flag_bits (bits : slot -> bool) (b : ImBuf) : Prop :=
  forall s, has_flag (flags b) (slot_flag s) = bits s.

(** The slot flags among the flags [fl] passed to [IMB_allocImBuf], which
    has no encoded buffer to allocate. *)
Definition requested (fl : Z) (s : slot) : bool :=
  match s with
  | EncodedSlot => false
  | _ => has_flag fl (slot_flag s)
  end.

(** One more slot flag. *)
Definition with_flag (s0 : slot) (rq : bool) (bits : slot -> bool)
  : slot -> bool :=
  fun s => if bool_decide (s = s0) then rq || bits s else bits s.

(** The slots of the source that [IMB_dupImBuf] gives the duplicate. *)
Definition populated (b : ImBuf) (s : slot) : bool :=
  match data (slot_buffer s b) with
  | Some _ => true
  | None => false
  end.

(** A heap without aggregates that holds one pixel of float data, block
    1. *)
Definition heap_float_pixels : Heap :=
  mkHeap {[ 1%positive := replicate 16 Byte.x11 ]} ∅ ∅ [] [].

(** ** The functions of a slot, by slot *)

(** The steal functions the file has: for the byte, the float and the
    encoded buffer. *)
Definition IMB_steal_buffer (s : slot)
  : option (option loc -> M (option loc)) :=
  match s with
  | ByteSlot => Some IMB_steal_byte_buffer
  | FloatSlot => Some IMB_steal_float_buffer
  | EncodedSlot => Some IMB_steal_encoded_buffer
  | ZSlot | FloatZSlot => None
  end.

(** The make-writable functions: for the byte and the float buffer. *)
Definition IMB_make_writable_buffer (s : slot)
  : option (option loc -> M unit) :=
  match s with
  | ByteSlot => Some IMB_make_writable_byte_buffer
  | FloatSlot => Some IMB_make_writable_float_buffer
  | ZSlot | FloatZSlot | EncodedSlot => None
  end.

(** The functions that assign memory to a slot: for the four pixel
    buffers. *)
Definition IMB_assign_buffer (s : slot)
  : option (option loc -> option loc -> ImBufOwnership -> M unit) :=
  match s with
  | ByteSlot => Some IMB_assign_byte_buffer
  | FloatSlot => Some IMB_assign_float_buffer
  | ZSlot => Some IMB_assign_z_buffer
  | FloatZSlot => Some IMB_assign_float_z_buffer
  | EncodedSlot => None
  end.

(** The functions that assign shared memory to a slot. *)
Definition IMB_assign_shared_buffer (s : slot)
  : option (option loc -> option loc -> option loc -> M unit) :=
  match s with
  | ByteSlot => Some IMB_assign_shared_byte_buffer
  | FloatSlot => Some IMB_assign_shared_float_buffer
  | FloatZSlot => Some IMB_assign_shared_float_z_buffer
  | ZSlot | EncodedSlot => None
  end.

(** The functions that free a slot and do not touch the mipmap levels. *)
Definition IMB_free_buffer (s : slot) : option (option loc -> M unit) :=
  match s with
  | ZSlot => Some IMB_freezbufImBuf
  | FloatZSlot => Some IMB_freezbuffloatImBuf
  | EncodedSlot => Some freeencodedbufferImBuf
  | ByteSlot | FloatSlot => None
  end.

(** ** Size queries *)

Definition sizeof_char : Z := 1.

(** [IMB_get_size_in_memory] calls itself on the mipmap levels; [level_size]
    stands for the recursive call, closed below with a budget for the depth
    of the nesting.  [sizeof(ImBuf)] depends on the declaration of the
    structure, which is in a header; it is the argument [sizeof_ImBuf]. *)
Section with_level_size.
Variable level_size : option loc -> M Z.

(** One round of the loop: [mipmap[a]] is read, past the end of the array
    when [a] is not below [IMB_MIPMAP_LEVELS]. *)
Definition add_level_size (ibuf : option loc) (a : nat) (size : Z) : M Z :=
  b ← load ibuf;
  if (IMB_MIPMAP_LEVELS <=? a)%nat then fault
  else
    match default None (mipmap b !! a) with
    | Some level =>
        s ← level_size (Some level);
        mret (to_size_t (size + s))
    | None => mret size
    end.

Fixpoint add_level_sizes (ibuf : option loc) (levels : list nat) (size : Z)
  : M Z :=
  match levels with
  | [] => mret size
  | a :: rest =>
      size ← add_level_size ibuf a size;
      add_level_sizes ibuf rest size
  end.

(** The body of [IMB_get_size_in_memory].  The arithmetic is in [size_t].
    The bound [ibuf->miptot] of the loop is read once: nothing in the loop
    writes. *)
Definition IMB_get_size_in_memory_body (sizeof_ImBuf : Z)
    (ibuf : option loc) : M Z :=
  b ← load ibuf;
  let size := to_size_t (0 + sizeof_ImBuf) in
  let channel_size := 0 in
  let channel_size :=
    match data (byte_buffer b) with
    | Some _ => to_size_t (channel_size + sizeof_char)
    | None => channel_size
    end in
  let channel_size :=
    match data (float_buffer b) with
    | Some _ => to_size_t (channel_size + sizeof_float)
    | None => channel_size
    end in
  let size :=
    to_size_t
      (size + to_size_t (to_size_t (to_size_t (channel_size * x b) * y b)
                         * channels b)) in
  if miptot b =? 0 then mret size
  else add_level_sizes ibuf (seq 0 (Z.to_nat (miptot b))) size.
End with_level_size.

Fixpoint IMB_get_size_in_memory (sizeof_ImBuf : Z) (fuel : nat)
    (ibuf : option loc) : M Z :=
  match fuel with
  | O => out_of_fuel
  | S n =>
      IMB_get_size_in_memory_body
        (IMB_get_size_in_memory sizeof_ImBuf n) sizeof_ImBuf ibuf
  end.

(** ** Pieces of statements *)

(** Whether a pointer is not null. *)
Definition given (d : option loc) : bool :=
  match d with
  | Some _ => true
  | None => false
  end.

(** The buffer a slot holds after a pointer has been assigned with
    ownership, the default state for a null pointer. *)
Definition owned_or_empty (d : option loc) : Buffer :=
  match d with
  | Some _ => mkBuffer d IB_TAKE_OWNERSHIP None
  | None => empty_buffer
  end.

(** An aggregate of one pixel that owns an int depth buffer, block 1, and
    the heap that holds it at address 1. *)
Definition depth_int_aggregate : ImBuf :=
  mkImBuf 1 1 32 4 IB_zbuf empty_buffer empty_buffer
          (mkBuffer (Some 1%positive) IB_TAKE_OWNERSHIP None)
          empty_buffer empty_buffer 0 0
          (replicate IMB_MIPMAP_LEVELS None) 0 0 None None None None
          IMB_FTYPE_PNG 15.

Definition heap_depth_int : Heap :=
  mkHeap {[ 1%positive := [Byte.x01; Byte.x02; Byte.x03; Byte.x04] ]}
         {[ 1%positive := depth_int_aggregate ]} ∅ [] [].



(** The first [n] bytes of the block a pointer refers to, for a pointer
    that is not null. *)
Definition pixels_at (h : Heap) (d : option loc) (n : Z)
    (bytes : list Byte.byte) : Prop :=
  match d with
  | Some src =>
      exists all, mem h !! src = Some all /\
                  n <= Z.of_nat (length all) /\
                  bytes = take (Z.to_nat n) all
  | None => True
  end.

(** The slot that received a copy of the caller's pixels: it owns a block
    that was not allocated before and holds the bytes; for a null pointer
    the slot is in its default state. *)
Definition copy_of (h h' : Heap) (d : option loc) (bytes : list Byte.byte)
    (buffer : Buffer) : Prop :=
  match d with
  | Some _ =>
      exists q, buffer = mkBuffer (Some q) IB_TAKE_OWNERSHIP None /\
                mem h !! q = None /\ mem h' !! q = Some bytes
  | None => buffer = empty_buffer
  end.

(** The bytes one channel of one pixel takes in the buffers
    [IMB_get_size_in_memory] counts: the byte and the float buffer. *)
Definition pixel_bytes (b : ImBuf) : Z :=
  (match data (byte_buffer b) with Some _ => sizeof_char | None => 0 end) +
  (match data (float_buffer b) with Some _ => sizeof_float | None => 0 end).

(** ** Blocks nobody owns *)

(** The aggregate [b] will free the block [d] itself: one of its slots owns
    it. *)
Definition claims (b : ImBuf) (d : loc) : Prop :=
  exists s, d ∈ slot_owned (slot_buffer s b).

(** No aggregate of the heap owns the block [d] and no control block
    holds it: it is memory of the caller, which the aggregates at most
    borrow. *)
Definition unclaimed (d : loc) (h : Heap) : Prop :=
  (forall q b, ibufs h !! q = Some b -> ~ claims b d) /\
  (forall i info, sharing h !! i = Some info -> shared_data info <> Some d).

(** A run that leaves a block nobody owns as it is, and gives it to
    nobody. *)
Definition spares (d : loc) (h h' : Heap) : Prop :=
  unclaimed d h -> mem h' !! d = mem h !! d /\ unclaimed d h'.

(** An update of an aggregate that makes it own nothing more. *)
Definition shrinks (f : ImBuf -> ImBuf) : Prop :=
  forall b d, claims (f b) d -> claims b d.

(** The structure [IMB_initImBuf] leaves before it allocates the slots.  *)
Definition blank (ix iy pl : Z) : ImBuf :=
  mkImBuf ix iy pl 4 0 empty_buffer empty_buffer empty_buffer empty_buffer
          empty_buffer 0 0 (replicate IMB_MIPMAP_LEVELS None) 0 0 None None
          None None IMB_FTYPE_PNG 15.

(** The flags for an image with a byte buffer, a float buffer, both or
    none. *)
Definition pixel_flags (wb wf : bool) : Z :=
  Z.lor (if wb then IB_rect else 0) (if wf then IB_rectfloat else 0).

(** A map with one more block, if it is wanted. *)
Definition add_block (want : bool) (q : loc) (bytes : list Byte.byte)
    (m : gmap loc (list Byte.byte)) : gmap loc (list Byte.byte) :=
  if want then <[q := bytes]> m else m.

(** The slot that owns the block [q], if it is wanted. *)
Definition slot_of (want : bool) (q : loc) : Buffer :=
  if want then mkBuffer (Some q) IB_TAKE_OWNERSHIP None else empty_buffer.

Definition zeros (n : Z) : list Byte.byte := replicate (Z.to_nat n) Byte.x00.

(** The slot that received a new block of [n] zero bytes, if it was
    wanted; the default state otherwise. *)
Definition zeroed (h h' : Heap) (want : bool) (n : Z) (buffer : Buffer)
  : Prop :=
  if want
  then exists q, buffer = mkBuffer (Some q) IB_TAKE_OWNERSHIP None /\
                 mem h !! q = None /\ mem h' !! q = Some (zeros n)
  else buffer = empty_buffer.

(** The aggregate [p], if it is in the heap, has no mipmap level at the
    index [a]. *)
Definition level_null (p : loc) (a : nat) (h : Heap) : Prop :=
  forall b, ibufs h !! p = Some b -> default None (mipmap b !! a) = None.

(** An aggregate whose array of mipmap levels is all null, with a count of
    levels of zero. *)
Definition levels_dropped (b : ImBuf) : Prop :=
  miptot b = 0 /\
  forall a, (a < IMB_MIPMAP_LEVELS)%nat -> default None (mipmap b !! a) = None.

(** ** What a release reaches *)

(** The handle of a slot, and the blocks that freeing the slot frees: the
    block of the control block when a shared slot is its last user, the
    owned block of a slot without handle. *)
Definition handle (buffer : Buffer) : list loc :=
  match implicit_sharing buffer with
  | Some s => [s]
  | None => []
  end.

Definition frees (h : Heap) (buffer : Buffer) : list loc :=
  match implicit_sharing buffer with
  | Some s =>
      match sharing h !! s with
      | Some i =>
          if strong_users i =? 1
          then match shared_data i with
               | Some d => [d]
               | None => []
               end
          else []
      | None => []
      end
  | None => slot_owned buffer
  end.

(** The handles of the slots of an aggregate are control blocks of the
    heap. *)
Definition handles_present (h : Heap) (b : ImBuf) : Prop :=
  forall s0 s, implicit_sharing (slot_buffer s0 b) = Some s ->
               is_Some (sharing h !! s).

(** The mipmap levels of an aggregate at the indices [idx], as the loop of
    [imb_freemipmapImBuf] meets them, and all of them. *)
Definition levels_at (b : ImBuf) (idx : list nat) : list loc :=
  omap (fun a => default None (mipmap b !! a)) idx.

Definition level_ptrs (b : ImBuf) : list loc :=
  levels_at b (seq 0 IMB_MIPMAP_LEVELS).

(** What a call of [IMB_freeImBuf] on [p] reaches with a budget of [n]
    nested calls: the aggregates it writes or frees, the control blocks it
    gives up a use of, and the blocks it frees, each in the order of the
    teardown.  An aggregate with a positive count is only written. *)
Fixpoint release_aggs (n : nat) (h : Heap) (p : loc) : list loc :=
  match n with
  | O => [p]
  | S n =>
      match ibufs h !! p with
      | Some b =>
          if 0 <? refcounter b then [p]
          else p :: (level_ptrs b ≫= release_aggs n h)
      | None => [p]
      end
  end.

Fixpoint release_handles (n : nat) (h : Heap) (p : loc) : list loc :=
  match n with
  | O => []
  | S n =>
      match ibufs h !! p with
      | Some b =>
          if 0 <? refcounter b then []
          else handle (byte_buffer b) ++
               (level_ptrs b ≫= release_handles n h) ++
               handle (float_buffer b) ++ handle (z_buffer b) ++
               handle (float_z_buffer b) ++ handle (encoded_buffer b)
      | None => []
      end
  end.

Fixpoint release_blocks (n : nat) (h : Heap) (p : loc) : list loc :=
  match n with
  | O => []
  | S n =>
      match ibufs h !! p with
      | Some b =>
          if 0 <? refcounter b then []
          else frees h (byte_buffer b) ++
               (level_ptrs b ≫= release_blocks n h) ++
               frees h (float_buffer b) ++ frees h (z_buffer b) ++
               frees h (float_z_buffer b) ++ frees h (encoded_buffer b)
      | None => []
      end
  end.

(** The aggregate [p] can be released within [n] nested calls: it is in the
    heap, and when its count is not positive its levels can be released
    within [n - 1] nested calls and the handles of its slots are control
    blocks of the heap. *)
Fixpoint releasable (n : nat) (h : Heap) (p : loc) : Prop :=
  match n with
  | O => False
  | S n =>
      exists b, ibufs h !! p = Some b /\
        (0 < refcounter b \/
         (Forall (releasable n h) (level_ptrs b) /\ handles_present h b))
  end.

(** The aggregate [p] and what hangs from it are laid out without aliasing:
    the mipmap levels form a tree of depth below [n], no control block is
    used by two slots of the tree, no block is freed by two of its slots,
    and every block to be freed is allocated. *)
Definition well_formed (n : nat) (h : Heap) (p : loc) : Prop :=
  releasable n h p /\
  NoDup (release_aggs n h p) /\
  NoDup (release_handles n h p) /\
  NoDup (release_blocks n h p) /\
  blocks_live (release_blocks n h p) h.

(** Between two heaps only the aggregates of [A] and the control blocks of
    [D] may differ. *)
Definition differs_within (A D : list loc) (h h' : Heap) : Prop :=
  (forall q, q ∉ A -> ibufs h' !! q = ibufs h !! q) /\
  (forall s, s ∉ D -> sharing h' !! s = sharing h !! s).
(** * Reasoning about computations *)

Lemma bind_Ok {A B : Type} (m : M A) (k : A -> M B) h b h2 :
  (m ≫= k) h = Ok b h2 <-> exists a h1, m h = Ok a h1 /\ k a h1 = Ok b h2.
Proof.
  unfold mbind, M_bind. split.
  - destruct (m h) as [a h1| |]; [eauto|discriminate..].
  - intros (a & h1 & -> & Hk). exact Hk.
Qed.

Lemma bind_run {A B : Type} (m : M A) (k : A -> M B) h a h1 :
  m h = Ok a h1 -> (m ≫= k) h = k a h1.
Proof. unfold mbind, M_bind. now intros ->. Qed.

Lemma ret_Ok {A : Type} (a b : A) h h' :
  (mret a : M A) h = Ok b h' <-> a = b /\ h = h'.
Proof. unfold mret, M_ret. split; [now inversion 1|now intros [-> ->]]. Qed.

Lemma load_Ok ibuf h b h' :
  load ibuf h = Ok b h' <->
  exists p, ibuf = Some p /\ ibufs h !! p = Some b /\ h' = h.
Proof.
  unfold load. split.
  - destruct ibuf as [p|]; [|discriminate].
    destruct (ibufs h !! p) eqn:E; [|discriminate].
    inversion 1; subst. eauto.
  - intros (p & -> & -> & ->). reflexivity.
Qed.

Lemma update_Ok ibuf f h u h' :
  update ibuf f h = Ok u h' <->
  exists p b, ibuf = Some p /\ ibufs h !! p = Some b /\
              h' = set_ibufs (<[p := f b]> (ibufs h)) h.
Proof.
  unfold update. split.
  - destruct ibuf as [p|]; [|discriminate].
    destruct (ibufs h !! p) eqn:E; [|discriminate].
    inversion 1; subst. eauto.
  - intros (p & b & -> & -> & ->). now destruct u.
Qed.

Lemma load_run p h b :
  ibufs h !! p = Some b -> load (Some p) h = Ok b h.
Proof. unfold load. now intros ->. Qed.

Lemma update_run p f h b :
  ibufs h !! p = Some b ->
  update (Some p) f h = Ok tt (set_ibufs (<[p := f b]> (ibufs h)) h).
Proof. unfold update. now intros ->. Qed.

(** Taking a successful run apart, statement by statement. *)
Ltac inv_run H :=
  lazymatch type of H with
  | (_ ≫= _) _ = Ok _ _ =>
      let a := fresh "a" in
      let h := fresh "h" in
      let H1 := fresh "Hrun" in
      apply bind_Ok in H as (a & h & H1 & H); inv_run H1; inv_run H
  | mret _ _ = Ok _ _ =>
      apply ret_Ok in H as [? ?]; subst
  | load _ _ = Ok _ _ =>
      let p := fresh "p" in
      let E := fresh "Eptr" in
      let L := fresh "Hload" in
      apply load_Ok in H as (p & E & L & ?); subst
  | update _ _ _ = Ok _ _ =>
      let p := fresh "p" in
      let b := fresh "b" in
      let E := fresh "Eptr" in
      let L := fresh "Hload" in
      apply update_Ok in H as (p & b & E & L & ?); subst
  | _ => idtac
  end.

(** ** Bits of the flag word *)

Lemma land_shiftl_1 f k :
  0 <= k -> Z.land f (Z.shiftl 1 k) = Z.b2z (Z.testbit f k) * 2 ^ k.
Proof.
  intros Hk. apply Z.bits_inj'. intros n Hn.
  rewrite Z.land_spec, Z.shiftl_spec by assumption.
  destruct (Z.testbit f k) eqn:Ef; cbn [Z.b2z].
  - rewrite Z.mul_1_l, Z.pow2_bits_eqb by assumption.
    destruct (Z.eqb_spec k n) as [->|Hne].
    + rewrite Z.sub_diag, Ef. reflexivity.
    + destruct (Z.lt_ge_cases n k).
      * rewrite (Z.testbit_neg_r 1) by lia. apply andb_false_r.
      * replace (Z.testbit 1 (n - k)) with false; [apply andb_false_r|].
        symmetry. apply (Z.bits_above_log2 1 (n - k)); cbn; lia.
  - rewrite Z.mul_0_l, Z.bits_0.
    destruct (Z.eqb_spec k n) as [->|Hne].
    + rewrite Ef. reflexivity.
    + destruct (Z.lt_ge_cases n k).
      * rewrite (Z.testbit_neg_r 1) by lia. apply andb_false_r.
      * replace (Z.testbit 1 (n - k)) with false; [apply andb_false_r|].
        symmetry. apply (Z.bits_above_log2 1 (n - k)); cbn; lia.
Qed.

Lemma has_flag_testbit f k :
  0 <= k -> has_flag f (Z.shiftl 1 k) = Z.testbit f k.
Proof.
  intros Hk. unfold has_flag. rewrite land_shiftl_1 by assumption.
  assert (0 < 2 ^ k) by (apply Z.pow_pos_nonneg; lia).
  destruct (Z.testbit f k); cbn [Z.b2z].
  - destruct (Z.eqb_spec (1 * 2 ^ k) 0); [lia|reflexivity].
  - reflexivity.
Qed.

Lemma slot_flag_bit s : slot_flag s = Z.shiftl 1 (slot_bit s).
Proof. now destruct s. Qed.

Lemma slot_bit_nonneg s : 0 <= slot_bit s.
Proof. destruct s; cbn; lia. Qed.

Lemma slot_bit_inj s1 s2 : slot_bit s1 = slot_bit s2 -> s1 = s2.
Proof. destruct s1, s2; cbn; congruence. Qed.

Lemma has_flag_set f s s' :
  has_flag (Z.lor f (slot_flag s)) (slot_flag s') =
  if decide (slot_bit s = slot_bit s') then true
  else has_flag f (slot_flag s').
Proof.
  rewrite !slot_flag_bit, !has_flag_testbit by apply slot_bit_nonneg.
  rewrite Z.lor_spec, Z.shiftl_spec by apply slot_bit_nonneg.
  case_decide as E.
  - rewrite E, Z.sub_diag. apply orb_true_r.
  - pose proof (slot_bit_nonneg s). pose proof (slot_bit_nonneg s').
    replace (Z.testbit 1 (slot_bit s' - slot_bit s)) with false;
      [apply orb_false_r|].
    destruct (Z.lt_ge_cases (slot_bit s') (slot_bit s)).
    + now rewrite Z.testbit_neg_r by lia.
    + symmetry. apply (Z.bits_above_log2 1); cbn; lia.
Qed.

Lemma has_flag_clear f s s' :
  has_flag (Z.land f (Z.lnot (slot_flag s))) (slot_flag s') =
  if decide (slot_bit s = slot_bit s') then false
  else has_flag f (slot_flag s').
Proof.
  rewrite !slot_flag_bit, !has_flag_testbit by apply slot_bit_nonneg.
  pose proof (slot_bit_nonneg s). pose proof (slot_bit_nonneg s').
  rewrite Z.land_spec, Z.lnot_spec, Z.shiftl_spec by assumption.
  case_decide as E.
  - rewrite E, Z.sub_diag. apply andb_false_r.
  - replace (Z.testbit 1 (slot_bit s' - slot_bit s)) with false;
      [apply andb_true_r|].
    destruct (Z.lt_ge_cases (slot_bit s') (slot_bit s)).
    + now rewrite Z.testbit_neg_r by lia.
    + symmetry. apply (Z.bits_above_log2 1); cbn; lia.
Qed.

(** ** Runs that only release *)

Lemma sharing_le_refl s : sharing_le s s.
Proof. intros k i Hk. exists i. repeat split; [assumption|lia]. Qed.

Lemma sharing_le_trans s1 s2 s3 :
  sharing_le s1 s2 -> sharing_le s2 s3 -> sharing_le s1 s3.
Proof.
  intros H12 H23 k i3 Hk.
  destruct (H23 k i3 Hk) as (i2 & Hk2 & Hle2 & Hd2).
  destruct (H12 k i2 Hk2) as (i1 & Hk1 & Hle1 & Hd1).
  exists i1. repeat split; [assumption|lia|congruence].
Qed.

Lemma same_but_refcounter_refl b : same_but_refcounter b b.
Proof. split; [now destruct b|lia]. Qed.

Lemma same_but_refcounter_trans b1 b2 b3 :
  same_but_refcounter b1 b2 -> same_but_refcounter b2 b3 ->
  same_but_refcounter b1 b3.
Proof.
  intros [E12 L12] [E23 L23]. split; [|lia].
  rewrite E23, E12. reflexivity.
Qed.

Lemma ibufs_released_refl skip m : ibufs_released skip m m.
Proof. intros q b _ Hq. eauto using same_but_refcounter_refl. Qed.

Lemma ibufs_released_trans skip m1 m2 m3 :
  ibufs_released skip m1 m2 -> ibufs_released skip m2 m3 ->
  ibufs_released skip m1 m3.
Proof.
  intros H12 H23 q b3 Hs Hq.
  destruct (H23 q b3 Hs Hq) as (b2 & Hq2 & S23).
  destruct (H12 q b2 Hs Hq2) as (b1 & Hq1 & S12).
  eauto using same_but_refcounter_trans.
Qed.

Lemma ibufs_released_skip (skip skip' : loc -> Prop) m m' :
  (forall q, skip q -> skip' q) ->
  ibufs_released skip m m' -> ibufs_released skip' m m'.
Proof. intros Hsub H q b Hs Hq. apply H; [|assumption]. auto. Qed.

Lemma heap_released_intro skip h h' :
  ibufs_released skip (ibufs h) (ibufs h') ->
  mem h' ⊆ mem h ->
  sharing_le (sharing h) (sharing h') ->
  oom h' = oom h ->
  (exists l, trace h' = trace h ++ l) ->
  heap_released skip h h'.
Proof. unfold heap_released. auto. Qed.

Lemma trace_grows_refl (t : list event) : exists l, t = t ++ l.
Proof. exists []. now rewrite app_nil_r. Qed.

(** Splits [heap_released] and closes the components that did not move. *)
Ltac released :=
  apply heap_released_intro; cbn [ibufs mem sharing oom trace
    set_ibufs set_mem set_sharing set_oom set_trace];
  try first [ apply ibufs_released_refl
            | apply sharing_le_refl
            | apply trace_grows_refl
            | reflexivity ].

#[global] Instance heap_released_refl skip : Reflexive (heap_released skip).
Proof.
  intros h. released.
Qed.

#[global] Instance heap_released_trans skip : Transitive (heap_released skip).
Proof.
  intros h1 h2 h3 (I12 & M12 & S12 & O12 & l12 & T12)
         (I23 & M23 & S23 & O23 & l23 & T23).
  apply heap_released_intro.
  - eapply ibufs_released_trans; eassumption.
  - etrans; eassumption.
  - eapply sharing_le_trans; eassumption.
  - congruence.
  - exists (l12 ++ l23). now rewrite T23, T12, app_assoc.
Qed.

Lemma heap_released_skip (skip skip' : loc -> Prop) h h' :
  (forall q, skip q -> skip' q) ->
  heap_released skip h h' -> heap_released skip' h h'.
Proof.
  intros Hsub (I & Hrest). split; [|exact Hrest].
  eapply ibufs_released_skip; eassumption.
Qed.

Lemma pres_ret {A : Type} (R : Heap -> Heap -> Prop) `{!Reflexive R} (a : A) :
  pres R (mret a : M A).
Proof. intros h b h' H. apply ret_Ok in H as [_ <-]. reflexivity. Qed.

Lemma pres_bind {A B : Type} (R : Heap -> Heap -> Prop) `{!Transitive R}
    (m : M A) (k : A -> M B) :
  pres R m -> (forall a, pres R (k a)) -> pres R (m ≫= k).
Proof.
  intros Hm Hk h b h' H. apply bind_Ok in H as (a & h1 & H1 & H2).
  etrans; [eapply Hm, H1|eapply Hk, H2].
Qed.

Lemma pres_weaken {A : Type} (R R' : Heap -> Heap -> Prop) (m : M A) :
  (forall h h', R h h' -> R' h h') -> pres R m -> pres R' m.
Proof. intros Hsub Hm h a h' H. eapply Hsub, Hm, H. Qed.

Lemma pres_load (R : Heap -> Heap -> Prop) `{!Reflexive R} ibuf :
  pres R (load ibuf).
Proof. intros h b h' H. inv_run H. reflexivity. Qed.

Lemma pres_fault {A : Type} (R : Heap -> Heap -> Prop) : pres R (@fault A).
Proof. intros h a h' H. discriminate. Qed.

(** The primitives. *)

Lemma MEM_freeN_released skip ptr : pres (heap_released skip) (MEM_freeN ptr).
Proof.
  intros h u h' H. unfold MEM_freeN in H.
  destruct ptr as [p|]; [|discriminate].
  destruct (mem h !! p) eqn:E; [|discriminate].
  inversion H; subst; clear H. released.
  apply delete_subseteq.
Qed.

Lemma remove_user_released skip info :
  pres (heap_released skip) (remove_user_and_delete_if_last info).
Proof.
  intros h u h' H. unfold remove_user_and_delete_if_last in H.
  destruct info as [s|]; [|discriminate].
  destruct (sharing h !! s) as [i|] eqn:Ei; [|discriminate].
  assert (Hdel : heap_released skip h (set_sharing (delete s (sharing h)) h)).
  { released.
    intros k i' Hk. apply lookup_delete_Some in Hk as [_ Hk].
    exists i'. repeat split; [assumption|lia]. }
  destruct (strong_users i =? 1).
  - destruct (shared_data i) as [d|].
    + etrans; [exact Hdel|]. eapply MEM_freeN_released, H.
    + inversion H; subst. exact Hdel.
  - inversion H; subst; clear H. released.
    intros k i' Hk. destruct (decide (s = k)) as [->|Hne].
    + rewrite lookup_insert_eq in Hk. inversion Hk; subst; cbn.
      exists i. repeat split; [assumption|lia].
    + rewrite lookup_insert_ne in Hk by assumption.
      exists i'. repeat split; [assumption|lia].
Qed.

Lemma imb_free_buffer_released skip buffer :
  pres (heap_released skip) (imb_free_buffer buffer).
Proof.
  unfold imb_free_buffer, free_shared_data.
  destruct (implicit_sharing buffer) as [s|].
  - repeat (apply pres_bind; [apply _| |intros ?]);
      try apply pres_ret; try apply _.
    apply remove_user_released.
  - destruct (data buffer); [|apply pres_ret; apply _].
    destruct (ownership buffer); [apply pres_ret; apply _|].
    apply pres_bind; [apply _|apply MEM_freeN_released|intros ?].
    apply pres_ret; apply _.
Qed.

Lemma imb_free_buffer_empty buffer h nb h' :
  imb_free_buffer buffer h = Ok nb h' -> nb = empty_buffer.
Proof.
  unfold imb_free_buffer, free_shared_data. intros H.
  destruct (implicit_sharing buffer).
  - inv_run H. reflexivity.
  - destruct (data buffer); [destruct (ownership buffer)|]; inv_run H;
      reflexivity.
Qed.

Lemma MEM_freeN_ibufs ptr h u h' :
  MEM_freeN ptr h = Ok u h' -> ibufs h' = ibufs h.
Proof.
  unfold MEM_freeN. destruct ptr as [p|]; [|discriminate].
  destruct (mem h !! p); [|discriminate]. now inversion 1.
Qed.

Lemma remove_user_ibufs info h u h' :
  remove_user_and_delete_if_last info h = Ok u h' -> ibufs h' = ibufs h.
Proof.
  unfold remove_user_and_delete_if_last.
  destruct info as [s|]; [|discriminate].
  destruct (sharing h !! s) as [i|]; [|discriminate].
  destruct (strong_users i =? 1).
  - destruct (shared_data i) as [d|].
    + intros H. now apply MEM_freeN_ibufs in H.
    + now inversion 1.
  - now inversion 1.
Qed.

Lemma imb_free_buffer_ibufs buffer h nb h' :
  imb_free_buffer buffer h = Ok nb h' -> ibufs h' = ibufs h.
Proof.
  unfold imb_free_buffer, free_shared_data. intros H.
  destruct (implicit_sharing buffer) as [s|].
  - apply bind_Ok in H as (a & h1 & H1 & H).
    apply bind_Ok in H1 as (a1 & h2 & H1 & H2).
    apply ret_Ok in H as [_ <-]. apply ret_Ok in H2 as [_ <-].
    eapply remove_user_ibufs, H1.
  - destruct (data buffer) as [d|]; [destruct (ownership buffer)|].
    + now apply ret_Ok in H as [_ <-].
    + apply bind_Ok in H as (a & h1 & H1 & H).
      apply ret_Ok in H as [_ <-]. eapply MEM_freeN_ibufs, H1.
    + now apply ret_Ok in H as [_ <-].
Qed.

Lemma emit_released skip e : pres (heap_released skip) (emit e).
Proof.
  intros h u h' H. inversion H; subst; clear H. released. eauto.
Qed.

(** Writing to an aggregate that is skipped. *)
Lemma update_released (skip : loc -> Prop) p f :
  skip p -> pres (heap_released skip) (update (Some p) f).
Proof.
  intros Hp h u h' H. inv_run H. inversion Eptr; subst. released.
  intros q b' Hq Hl. rewrite lookup_insert_ne in Hl by congruence.
  eauto using same_but_refcounter_refl.
Qed.

(** Lowering the reference count of any aggregate. *)
Lemma update_refcounter_released skip ibuf (g : ImBuf -> Z) :
  (forall b, g b <= refcounter b) ->
  pres (heap_released skip) (update ibuf (fun b => set_refcounter (g b) b)).
Proof.
  intros Hg h u h' H. inv_run H. released.
  intros q b' Hq Hl. destruct (decide (p = q)) as [->|Hne].
  - rewrite lookup_insert_eq in Hl. inversion Hl; subst.
    exists b. split; [assumption|]. split; [|apply Hg].
    now destruct b.
  - rewrite lookup_insert_ne in Hl by assumption.
    eauto using same_but_refcounter_refl.
Qed.

Lemma MEM_freeN_ImBuf_released skip ibuf :
  pres (heap_released skip) (MEM_freeN_ImBuf ibuf).
Proof.
  intros h u h' H. unfold MEM_freeN_ImBuf in H.
  destruct ibuf as [p|]; [|discriminate].
  destruct (ibufs h !! p) eqn:E; [|discriminate].
  inversion H; subst; clear H. released.
  intros q b' Hq Hl. apply lookup_delete_Some in Hl as [_ Hl].
  eauto using same_but_refcounter_refl.
Qed.

(** The functions between [IMB_freeImBuf] and its recursive call, for any
    [release] that only releases. *)
Section release_only_releases.
Variable release : option loc -> M unit.
Hypothesis release_released :
  forall c, pres (heap_released nowhere) (release c).

Lemma release_released_skip skip c : pres (heap_released skip) (release c).
Proof.
  eapply pres_weaken; [|apply release_released].
  intros h h'. apply heap_released_skip. intros q [].
Qed.

Lemma free_mipmap_level_released p a :
  pres (heap_released (only p)) (free_mipmap_level release (Some p) a).
Proof.
  unfold free_mipmap_level.
  apply pres_bind; [apply _|apply pres_load; apply _|intros b].
  destruct (default None (mipmap b !! a)); [|apply pres_ret; apply _].
  apply pres_bind; [apply _|apply release_released_skip|intros _].
  now apply update_released.
Qed.

Lemma free_mipmap_levels_released p levels :
  pres (heap_released (only p)) (free_mipmap_levels release (Some p) levels).
Proof.
  induction levels as [|a rest IH]; cbn [free_mipmap_levels].
  - apply pres_ret; apply _.
  - apply pres_bind; [apply _|apply free_mipmap_level_released|intros _].
    exact IH.
Qed.

Lemma imb_freemipmapImBuf_released p :
  pres (heap_released (only p)) (imb_freemipmapImBuf_with release (Some p)).
Proof.
  unfold imb_freemipmapImBuf_with.
  apply pres_bind; [apply _|apply free_mipmap_levels_released|intros _].
  now apply update_released.
Qed.

Lemma imb_freerectImBuf_released p :
  pres (heap_released (only p)) (imb_freerectImBuf_with release (Some p)).
Proof.
  unfold imb_freerectImBuf_with.
  apply pres_bind; [apply _|apply pres_load; apply _|intros b].
  apply pres_bind; [apply _|apply imb_free_buffer_released|intros nb].
  apply pres_bind; [apply _|now apply update_released|intros _].
  apply pres_bind; [apply _|apply imb_freemipmapImBuf_released|intros _].
  now apply update_released.
Qed.

Lemma imb_freerectfloatImBuf_released p :
  pres (heap_released (only p)) (imb_freerectfloatImBuf_with release (Some p)).
Proof.
  unfold imb_freerectfloatImBuf_with.
  apply pres_bind; [apply _|apply pres_load; apply _|intros b].
  apply pres_bind; [apply _|apply imb_free_buffer_released|intros nb].
  apply pres_bind; [apply _|now apply update_released|intros _].
  apply pres_bind; [apply _|apply imb_freemipmapImBuf_released|intros _].
  now apply update_released.
Qed.
End release_only_releases.

(** Solves [pres (heap_released (only p)) m] for straight-line code on the
    aggregate [p]. *)
Ltac pres_released :=
  repeat first
    [ apply pres_bind; [apply _| |intros ?]
    | apply pres_ret; apply _
    | apply pres_load; apply _
    | apply imb_free_buffer_released
    | apply emit_released
    | apply update_released; reflexivity ].

Lemma freeencodedbufferImBuf_released p :
  pres (heap_released (only p)) (freeencodedbufferImBuf (Some p)).
Proof. unfold freeencodedbufferImBuf. pres_released. Qed.

Lemma IMB_freezbufImBuf_released p :
  pres (heap_released (only p)) (IMB_freezbufImBuf (Some p)).
Proof. unfold IMB_freezbufImBuf. pres_released. Qed.

Lemma IMB_freezbuffloatImBuf_released p :
  pres (heap_released (only p)) (IMB_freezbuffloatImBuf (Some p)).
Proof. unfold IMB_freezbuffloatImBuf. pres_released. Qed.

Lemma imb_freerectImbuf_all_released release p :
  (forall c, pres (heap_released nowhere) (release c)) ->
  pres (heap_released (only p)) (imb_freerectImbuf_all_with release (Some p)).
Proof.
  intros Hrel. unfold imb_freerectImbuf_all_with.
  apply pres_bind; [apply _|now apply imb_freerectImBuf_released|intros _].
  apply pres_bind; [apply _|now apply imb_freerectfloatImBuf_released|intros _].
  apply pres_bind; [apply _|apply IMB_freezbufImBuf_released|intros _].
  apply pres_bind; [apply _|apply IMB_freezbuffloatImBuf_released|intros _].
  apply freeencodedbufferImBuf_released.
Qed.

Lemma teardown_contents_released release p :
  (forall c, pres (heap_released nowhere) (release c)) ->
  pres (heap_released (only p)) (teardown_contents release (Some p)).
Proof.
  intros Hrel. unfold teardown_contents.
  apply pres_bind; [apply _|now apply imb_freerectImbuf_all_released|intros _].
  unfold IMB_metadata_free, colormanage_cache_free, free_dds.
  pres_released. destruct (dds_data _); pres_released.
Qed.

(** The else-branch of [IMB_freeImBuf] is the teardown of the contents
    followed by [MEM_freeN]. *)
Lemma teardown_split release ibuf h u h' :
  (imb_freerectImbuf_all_with release ibuf;;
   b ← load ibuf;
   IMB_metadata_free (metadata b);;
   colormanage_cache_free ibuf;;
   b ← load ibuf;
   match dds_data b with
   | Some d => free_dds d
   | None => mret tt
   end;;
   MEM_freeN_ImBuf ibuf) h = Ok u h' <->
  exists h1, teardown_contents release ibuf h = Ok tt h1 /\
             MEM_freeN_ImBuf ibuf h1 = Ok u h'.
Proof.
  unfold teardown_contents, mbind, M_bind.
  destruct (imb_freerectImbuf_all_with release ibuf h) as [[] h1| |];
    [|split; [discriminate|intros (? & ? & ?); discriminate]..].
  destruct (load ibuf h1) as [b h2| |];
    [|split; [discriminate|intros (? & ? & ?); discriminate]..].
  destruct (IMB_metadata_free (metadata b) h2) as [[] h3| |];
    [|split; [discriminate|intros (? & ? & ?); discriminate]..].
  destruct (colormanage_cache_free ibuf h3) as [[] h4| |];
    [|split; [discriminate|intros (? & ? & ?); discriminate]..].
  destruct (load ibuf h4) as [b' h5| |];
    [|split; [discriminate|intros (? & ? & ?); discriminate]..].
  destruct (match dds_data b' with Some d => free_dds d | None => mret tt end h5)
    as [[] h6| |];
    [|split; [discriminate|intros (? & ? & ?); discriminate]..].
  split; [eauto|]. intros (? & [= <-] & ?). assumption.
Qed.

Lemma MEM_freeN_ImBuf_Ok p h u h' :
  MEM_freeN_ImBuf (Some p) h = Ok u h' ->
  is_Some (ibufs h !! p) /\ h' = set_ibufs (delete p (ibufs h)) h.
Proof.
  unfold MEM_freeN_ImBuf. destruct (ibufs h !! p); [|discriminate].
  inversion 1. eauto.
Qed.

(** Once the torn-down aggregate is gone nothing needs to be skipped. *)
Lemma heap_released_delete p h h1 :
  heap_released (only p) h h1 ->
  heap_released nowhere h (set_ibufs (delete p (ibufs h1)) h1).
Proof.
  intros (I & Hm & Hs & Ho & Ht). apply heap_released_intro; cbn; try assumption.
  intros q b' _ Hq. apply lookup_delete_Some in Hq as [Hne Hq].
  apply I; [|assumption]. unfold only. congruence.
Qed.

Lemma IMB_freeImBuf_body_released release ibuf :
  (forall c, pres (heap_released nowhere) (release c)) ->
  pres (heap_released nowhere) (IMB_freeImBuf_body release ibuf).
Proof.
  intros Hrel. unfold IMB_freeImBuf_body.
  destruct ibuf as [p|]; [|apply pres_ret; apply _].
  apply pres_bind; [apply _|apply pres_load; apply _|intros b].
  destruct (0 <? refcounter b).
  - apply update_refcounter_released. intros; lia.
  - intros h u h' H. apply teardown_split in H as (h1 & H1 & H2).
    apply MEM_freeN_ImBuf_Ok in H2 as [_ ->].
    apply heap_released_delete.
    eapply teardown_contents_released; eassumption.
Qed.

(** [IMB_freeImBuf] only releases, whatever the nesting of mipmap chains. *)
Lemma IMB_freeImBuf_released fuel ibuf :
  pres (heap_released nowhere) (IMB_freeImBuf fuel ibuf).
Proof.
  revert ibuf. induction fuel as [|n IH]; intros ibuf.
  - intros h u h' H. discriminate.
  - cbn [IMB_freeImBuf]. now apply IMB_freeImBuf_body_released.
Qed.

(** ** Views of an aggregate that a run keeps *)

#[global] Instance keeps_refl {V : Type} p (view : ImBuf -> V) :
  Reflexive (keeps p view).
Proof. intros h b Hb. eauto. Qed.

#[global] Instance keeps_trans {V : Type} p (view : ImBuf -> V) :
  Transitive (keeps p view).
Proof.
  intros h1 h2 h3 H12 H23 b3 Hb3.
  destruct (H23 b3 Hb3) as (b2 & Hb2 & E23).
  destruct (H12 b2 Hb2) as (b1 & Hb1 & E12).
  exists b1. split; [assumption|congruence].
Qed.

Lemma keeps_same_ibufs {V : Type} p (view : ImBuf -> V) h h' :
  ibufs h' = ibufs h -> keeps p view h h'.
Proof. intros E b Hb. rewrite E in Hb. eauto. Qed.

Lemma keeps_of_released {V : Type} p (view : ImBuf -> V) h h' :
  (forall b v, view (set_refcounter v b) = view b) ->
  heap_released nowhere h h' -> keeps p view h h'.
Proof.
  intros Hview (I & _) b' Hb'.
  destruct (I p b' (fun F => F) Hb') as (b & Hb & E & _).
  exists b. split; [assumption|]. rewrite E. apply Hview.
Qed.

Lemma update_keeps {V : Type} p (view : ImBuf -> V) ibuf f :
  (forall b, view (f b) = view b) -> pres (keeps p view) (update ibuf f).
Proof.
  intros Hf h u h' H. inv_run H. intros b' Hb'. cbn in Hb'.
  destruct (decide (p0 = p)) as [->|Hne].
  - rewrite lookup_insert_eq in Hb'. inversion Hb'; subst. eauto.
  - rewrite lookup_insert_ne in Hb' by assumption. eauto.
Qed.

Lemma imb_free_buffer_keeps {V : Type} p (view : ImBuf -> V) buffer :
  pres (keeps p view) (imb_free_buffer buffer).
Proof.
  intros h nb h' H. apply keeps_same_ibufs. eapply imb_free_buffer_ibufs, H.
Qed.

Lemma emit_keeps {V : Type} p (view : ImBuf -> V) e :
  pres (keeps p view) (emit e).
Proof. intros h u h' H. inversion H; subst. now apply keeps_same_ibufs. Qed.

Section release_keeps.
Context {V : Type} (p : loc) (view : ImBuf -> V).
Variable release : option loc -> M unit.
Hypothesis release_released :
  forall c, pres (heap_released nowhere) (release c).
Hypothesis view_refcounter :
  forall b v, view (set_refcounter v b) = view b.
Hypothesis view_mipmap : forall b v, view (set_mipmap v b) = view b.
Hypothesis view_miptot : forall b v, view (set_miptot v b) = view b.

Lemma release_keeps c : pres (keeps p view) (release c).
Proof.
  eapply pres_weaken; [|apply release_released].
  intros h h'. now apply keeps_of_released.
Qed.

Lemma free_mipmap_levels_keeps ibuf levels :
  pres (keeps p view) (free_mipmap_levels release ibuf levels).
Proof.
  induction levels as [|a rest IH]; cbn [free_mipmap_levels].
  - apply pres_ret; apply _.
  - apply pres_bind; [apply _| |intros _; exact IH].
    unfold free_mipmap_level.
    apply pres_bind; [apply _|apply pres_load; apply _|intros b].
    destruct (default None (mipmap b !! a)); [|apply pres_ret; apply _].
    apply pres_bind; [apply _|apply release_keeps|intros _].
    apply update_keeps. intros b0. apply view_mipmap.
Qed.

Lemma imb_freemipmapImBuf_keeps ibuf :
  pres (keeps p view) (imb_freemipmapImBuf_with release ibuf).
Proof.
  unfold imb_freemipmapImBuf_with.
  apply pres_bind; [apply _|apply free_mipmap_levels_keeps|intros _].
  apply update_keeps. intros b. apply view_miptot.
Qed.

Lemma imb_freerectImBuf_keeps ibuf :
  (forall b v, view (set_byte_buffer v b) = view b) ->
  (forall b, view (set_flags (Z.land (flags b) (Z.lnot IB_rect)) b) = view b) ->
  pres (keeps p view) (imb_freerectImBuf_with release ibuf).
Proof.
  intros Hbuf Hflags. unfold imb_freerectImBuf_with.
  destruct ibuf as [q|]; [|apply pres_ret; apply _].
  apply pres_bind; [apply _|apply pres_load; apply _|intros b].
  apply pres_bind; [apply _|apply imb_free_buffer_keeps|intros nb].
  apply pres_bind; [apply _|apply update_keeps; intros; apply Hbuf|intros _].
  apply pres_bind; [apply _|apply imb_freemipmapImBuf_keeps|intros _].
  apply update_keeps; intros; apply Hflags.
Qed.

Lemma imb_freerectfloatImBuf_keeps ibuf :
  (forall b v, view (set_float_buffer v b) = view b) ->
  (forall b, view (set_flags (Z.land (flags b) (Z.lnot IB_rectfloat)) b) = view b) ->
  pres (keeps p view) (imb_freerectfloatImBuf_with release ibuf).
Proof.
  intros Hbuf Hflags. unfold imb_freerectfloatImBuf_with.
  destruct ibuf as [q|]; [|apply pres_ret; apply _].
  apply pres_bind; [apply _|apply pres_load; apply _|intros b].
  apply pres_bind; [apply _|apply imb_free_buffer_keeps|intros nb].
  apply pres_bind; [apply _|apply update_keeps; intros; apply Hbuf|intros _].
  apply pres_bind; [apply _|apply imb_freemipmapImBuf_keeps|intros _].
  apply update_keeps; intros; apply Hflags.
Qed.
End release_keeps.

Lemma IMB_freezbufImBuf_keeps {V : Type} p (view : ImBuf -> V) ibuf :
  (forall b v, view (set_z_buffer v b) = view b) ->
  (forall b, view (set_flags (Z.land (flags b) (Z.lnot IB_zbuf)) b) = view b) ->
  pres (keeps p view) (IMB_freezbufImBuf ibuf).
Proof.
  intros Hbuf Hflags. unfold IMB_freezbufImBuf.
  destruct ibuf as [q|]; [|apply pres_ret; apply _].
  apply pres_bind; [apply _|apply pres_load; apply _|intros b].
  apply pres_bind; [apply _|apply imb_free_buffer_keeps|intros nb].
  apply pres_bind; [apply _|apply update_keeps; intros; apply Hbuf|intros _].
  apply update_keeps; intros; apply Hflags.
Qed.

Lemma IMB_freezbuffloatImBuf_keeps {V : Type} p (view : ImBuf -> V) ibuf :
  (forall b v, view (set_float_z_buffer v b) = view b) ->
  (forall b, view (set_flags (Z.land (flags b) (Z.lnot IB_zbuffloat)) b) = view b) ->
  pres (keeps p view) (IMB_freezbuffloatImBuf ibuf).
Proof.
  intros Hbuf Hflags. unfold IMB_freezbuffloatImBuf.
  destruct ibuf as [q|]; [|apply pres_ret; apply _].
  apply pres_bind; [apply _|apply pres_load; apply _|intros b].
  apply pres_bind; [apply _|apply imb_free_buffer_keeps|intros nb].
  apply pres_bind; [apply _|apply update_keeps; intros; apply Hbuf|intros _].
  apply update_keeps; intros; apply Hflags.
Qed.

Lemma freeencodedbufferImBuf_keeps {V : Type} p (view : ImBuf -> V) ibuf :
  (forall b v, view (set_encoded_buffer v b) = view b) ->
  (forall b v, view (set_encoded_buffer_size v b) = view b) ->
  (forall b v, view (set_encoded_size v b) = view b) ->
  (forall b, view (set_flags (Z.land (flags b) (Z.lnot IB_mem)) b) = view b) ->
  pres (keeps p view) (freeencodedbufferImBuf ibuf).
Proof.
  intros Hbuf Hcap Hsize Hflags. unfold freeencodedbufferImBuf.
  destruct ibuf as [q|]; [|apply pres_ret; apply _].
  apply pres_bind; [apply _|apply pres_load; apply _|intros b].
  apply pres_bind; [apply _|apply imb_free_buffer_keeps|intros nb].
  apply pres_bind; [apply _|apply update_keeps; intros; apply Hbuf|intros _].
  apply pres_bind; [apply _|apply update_keeps; intros; apply Hcap|intros _].
  apply pres_bind; [apply _|apply update_keeps; intros; apply Hsize|intros _].
  apply update_keeps; intros; apply Hflags.
Qed.

(** ** What a teardown leaves behind *)

Lemma heap_released_absent skip q h h' :
  ~ skip q -> heap_released skip h h' ->
  ibufs h !! q = None -> ibufs h' !! q = None.
Proof.
  intros Hq (I & _) Hnone.
  destruct (ibufs h' !! q) as [b'|] eqn:E; [|reflexivity].
  destruct (I q b' Hq E) as (b & Hb & _). congruence.
Qed.

Lemma heap_released_block_gone skip d h h' :
  heap_released skip h h' -> mem h !! d = None -> mem h' !! d = None.
Proof. intros (_ & Hm & _) Hnone. eapply lookup_weaken_None; eassumption. Qed.

Lemma buffer_freed_before skip buffer h h1 h' :
  heap_released skip h h1 -> buffer_freed buffer h1 h' ->
  buffer_freed buffer h h'.
Proof.
  intros (_ & _ & Hs & _). unfold buffer_freed.
  destruct (implicit_sharing buffer) as [s|]; [|auto].
  intros [Hgone|(i1 & i' & Hi1 & Hi' & Hlt)]; [now left|right].
  destruct (Hs s i1 Hi1) as (i & Hi & Hle & _).
  exists i, i'. repeat split; [assumption..|lia].
Qed.

Lemma imb_free_buffer_freed skip buffer h nb h1 h' :
  imb_free_buffer buffer h = Ok nb h1 -> heap_released skip h1 h' ->
  buffer_freed buffer h h'.
Proof.
  unfold imb_free_buffer, free_shared_data, buffer_freed.
  intros H (_ & Hm & Hs & _).
  destruct (implicit_sharing buffer) as [s|].
  - apply bind_Ok in H as (a & h2 & H & Hret).
    apply bind_Ok in H as (a1 & h3 & H & Hret1).
    apply ret_Ok in Hret as [_ <-]. apply ret_Ok in Hret1 as [_ <-].
    unfold remove_user_and_delete_if_last in H.
    destruct (sharing h !! s) as [i|] eqn:Ei; [|discriminate].
    assert (Hcases : sharing h3 !! s = None \/
              exists i3, sharing h3 !! s = Some i3 /\
                         strong_users i3 < strong_users i).
    { destruct (strong_users i =? 1).
      - left. destruct (shared_data i) as [d|].
        + unfold MEM_freeN in H. cbn in H.
          destruct (mem h !! d); [|discriminate].
          inversion H; subst; cbn. apply lookup_delete_eq.
        + inversion H; subst; cbn. apply lookup_delete_eq.
      - right. inversion H; subst; cbn. rewrite lookup_insert_eq.
        eexists. split; [reflexivity|]. cbn. lia. }
    destruct (sharing h' !! s) as [i'|] eqn:Ei'; [|now left].
    right. destruct (Hs s i' Ei') as (i3 & Hi3 & Hle & _).
    destruct Hcases as [Hnone|(i3' & Hi3' & Hlt)]; [congruence|].
    exists i, i'. repeat split; try reflexivity.
    assert (i3' = i3) by congruence. subst. lia.
  - destruct (data buffer) as [d|]; [|exact I].
    destruct (ownership buffer); [exact I|].
    apply bind_Ok in H as (a & h2 & H & Hret).
    apply ret_Ok in Hret as [_ <-].
    unfold MEM_freeN in H. destruct (mem h !! d); [|discriminate].
    inversion H; subst. eapply lookup_weaken_None; [|exact Hm].
    cbn. apply lookup_delete_eq.
Qed.

(** A phase of the teardown that starts by freeing the slot [get]. *)
Lemma phase_frees {A : Type} (get : ImBuf -> Buffer) (rest : Buffer -> M A)
    p h a h' b :
  (b0 ← load (Some p); nb ← imb_free_buffer (get b0); rest nb) h = Ok a h' ->
  (forall nb, pres (heap_released (only p)) (rest nb)) ->
  ibufs h !! p = Some b ->
  buffer_freed (get b) h h'.
Proof.
  intros H Hrest Hb.
  apply bind_Ok in H as (b0 & h0 & Hl & H).
  apply load_Ok in Hl as (p0 & [= <-] & Hb0 & ->).
  assert (b0 = b) by congruence. subst b0.
  apply bind_Ok in H as (nb & h1 & Hfree & H).
  eapply imb_free_buffer_freed; [exact Hfree|]. eapply Hrest, H.
Qed.

Lemma IMB_freeImBuf_released_now fuel c h h' :
  IMB_freeImBuf fuel (Some c) h = Ok tt h' -> released_now c h h'.
Proof.
  destruct fuel as [|n]; [discriminate|]. cbn [IMB_freeImBuf].
  unfold IMB_freeImBuf_body. intros H.
  apply bind_Ok in H as (bc & h0 & Hl & H).
  apply load_Ok in Hl as (p0 & [= <-] & Hbc & ->).
  exists bc. split; [assumption|].
  destruct (0 <? refcounter bc).
  - apply update_Ok in H as (p0 & b0 & [= <-] & Hb0 & ->). cbn.
    rewrite lookup_insert_eq. congruence.
  - apply teardown_split in H as (h1 & _ & H).
    apply MEM_freeN_ImBuf_Ok in H as [_ ->]. cbn. apply lookup_delete_eq.
Qed.

Lemma level_released_before p c h h1 h' :
  heap_released (only p) h h1 -> level_released p c h1 h' ->
  level_released p c h h'.
Proof.
  intros (I & _) (Hne & bc1 & Hbc1 & Hafter). split; [assumption|].
  destruct (I c bc1 Hne Hbc1) as (bc & Hbc & _ & Hle).
  exists bc. split; [assumption|].
  destruct Hafter as [Hgone|(bc' & Hbc' & Hlt)]; [now left|right].
  exists bc'. split; [assumption|lia].
Qed.

Lemma level_released_after p c h h1 h' :
  level_released p c h h1 -> heap_released (only p) h1 h' ->
  level_released p c h h'.
Proof.
  intros (Hne & bc & Hbc & Hafter) (I & _). split; [assumption|].
  exists bc. split; [assumption|].
  destruct (ibufs h' !! c) as [bc'|] eqn:E; [right|now left].
  destruct (I c bc' Hne E) as (bc1 & Hbc1 & _ & Hle).
  destruct Hafter as [Hgone|(bc1' & Hbc1' & Hlt)]; [congruence|].
  exists bc'. split; [reflexivity|].
  assert (bc1' = bc1) by congruence. subst. lia.
Qed.

Section release_levels.
Variable release : option loc -> M unit.
Hypothesis release_released :
  forall c, pres (heap_released nowhere) (release c).
Hypothesis release_now :
  forall c h h', release (Some c) h = Ok tt h' -> released_now c h h'.

(** The loop of [imb_freemipmapImBuf], run within the teardown of [p],
    releases the level it finds at the index [a]. *)
Lemma free_mipmap_levels_level p levels :
  forall h h' b a c,
    free_mipmap_levels release (Some p) levels h = Ok tt h' ->
    ibufs h !! p = Some b -> refcounter b <= 0 ->
    a ∈ levels -> mipmap b !! a = Some (Some c) ->
    level_released p c h h'.
Proof.
  induction levels as [|j rest IH]; intros h h' b a c H Hb Hr Ha Hc.
  - now apply elem_of_nil in Ha.
  - cbn [free_mipmap_levels] in H.
    apply bind_Ok in H as ([] & h1 & Hj & Hrest).
    pose proof (free_mipmap_level_released release release_released
                  p j h tt h1 Hj) as Hframe.
    unfold free_mipmap_level in Hj.
    apply bind_Ok in Hj as (b0 & h0 & Hl & Hj).
    apply load_Ok in Hl as (p0 & [= <-] & Hb0 & ->).
    assert (b0 = b) by congruence. subst b0.
    destruct (decide (j = a)) as [->|Hne].
    + rewrite Hc in Hj. cbn [default] in Hj.
      apply bind_Ok in Hj as ([] & h2 & Hrel & Hupd).
      apply update_Ok in Hupd as (p0 & b2 & [= <-] & Hb2 & ->).
      destruct (release_now c h h2 Hrel) as (bc & Hbc & Hnow).
      assert (Hcp : c <> p).
      { intros ->. assert (bc = b) by congruence. subst bc.
        destruct (Z.ltb_spec 0 (refcounter b)); [lia|congruence]. }
      eapply level_released_after;
        [|eapply free_mipmap_levels_released; eassumption].
      split; [assumption|]. exists bc. split; [assumption|]. cbn.
      rewrite lookup_insert_ne by congruence.
      destruct (0 <? refcounter bc); [right|now left].
      eexists. split; [exact Hnow|]. cbn. lia.
    + assert (Harest : a ∈ rest).
      { apply elem_of_cons in Ha as [->|Ha]; [congruence|assumption]. }
      eapply level_released_before; [exact Hframe|].
      destruct (default None (mipmap b !! j)) as [c'|].
      * apply bind_Ok in Hj as ([] & h2 & Hrel & Hupd).
        apply update_Ok in Hupd as (p0 & b2 & [= <-] & Hb2 & ->).
        destruct (release_released (Some c') h tt h2 Hrel) as (I & _).
        destruct (I p b2 (fun F => F) Hb2) as (b' & Hb' & E & Hle).
        assert (b' = b) by congruence. subst b'.
        eapply (IH _ _ _ a c Hrest); [| |exact Harest|].
        -- cbn. apply lookup_insert_eq.
        -- rewrite E. cbn. lia.
        -- rewrite E. cbn. rewrite list_lookup_insert_ne by assumption.
           exact Hc.
      * apply ret_Ok in Hj as [_ <-].
        eapply (IH _ _ _ a c Hrest); eassumption.
Qed.

Lemma imb_freerectImBuf_level p h h' b a c :
  imb_freerectImBuf_with release (Some p) h = Ok tt h' ->
  ibufs h !! p = Some b -> refcounter b <= 0 ->
  (a < IMB_MIPMAP_LEVELS)%nat -> mipmap b !! a = Some (Some c) ->
  level_released p c h h'.
Proof.
  intros H Hb Hr Ha Hc. unfold imb_freerectImBuf_with in H.
  apply bind_Ok in H as (b0 & h0 & Hl & H).
  apply load_Ok in Hl as (p0 & [= <-] & Hb0 & ->).
  assert (b0 = b) by congruence. subst b0.
  apply bind_Ok in H as (nb & h1 & Hfree & H).
  apply bind_Ok in H as ([] & h2 & Hupd & H).
  apply bind_Ok in H as ([] & h3 & Hmip & Hflags).
  unfold imb_freemipmapImBuf_with in Hmip.
  apply bind_Ok in Hmip as ([] & h4 & Hloop & Htot).
  assert (Hpre : heap_released (only p) h h2).
  { etrans; [eapply imb_free_buffer_released, Hfree|].
    eapply update_released; [reflexivity|exact Hupd]. }
  assert (Hpost : heap_released (only p) h4 h').
  { etrans; [eapply update_released; [reflexivity|exact Htot]|].
    eapply update_released; [reflexivity|exact Hflags]. }
  eapply level_released_before; [exact Hpre|].
  eapply level_released_after; [|exact Hpost].
  apply update_Ok in Hupd as (p0 & b1 & [= <-] & Hb1 & ->).
  rewrite (imb_free_buffer_ibufs _ _ _ _ Hfree) in Hb1.
  assert (b1 = b) by congruence. subst b1.
  eapply (free_mipmap_levels_level p _ _ _ _ a c Hloop).
  - cbn. apply lookup_insert_eq.
  - cbn. assumption.
  - apply elem_of_seq. unfold IMB_MIPMAP_LEVELS in *. lia.
  - cbn. exact Hc.
Qed.
End release_levels.

Lemma buffer_freed_after skip buffer h h1 h' :
  buffer_freed buffer h h1 -> heap_released skip h1 h' ->
  buffer_freed buffer h h'.
Proof.
  intros Hf (_ & Hm & Hs & _). unfold buffer_freed in *.
  destruct (implicit_sharing buffer) as [s|].
  - destruct (sharing h' !! s) as [i'|] eqn:Ei'; [right|now left].
    destruct (Hs s i' Ei') as (i1 & Hi1 & Hle & _).
    destruct Hf as [Hgone|(i & i1' & Hi & Hi1' & Hlt)]; [congruence|].
    exists i, i'. repeat split; try assumption.
    assert (i1' = i1) by congruence. subst. lia.
  - destruct (data buffer) as [d|]; [|exact I].
    destruct (ownership buffer); [exact I|].
    eapply lookup_weaken_None; eassumption.
Qed.

Lemma keeps_lookup {V : Type} p (view : ImBuf -> V) h h' b b' :
  keeps p view h h' -> ibufs h !! p = Some b -> ibufs h' !! p = Some b' ->
  view b' = view b.
Proof.
  intros Hk Hb Hb'. destruct (Hk b' Hb') as (b0 & Hb0 & E). congruence.
Qed.

Lemma phase_loads {A : Type} (k : ImBuf -> M A) p h a h' :
  (b ← load (Some p); k b) h = Ok a h' -> is_Some (ibufs h !! p).
Proof.
  intros H. apply bind_Ok in H as (b & h0 & Hl & _).
  apply load_Ok in Hl as (p0 & [= <-] & Hb & _). eauto.
Qed.

Lemma rect_phase_rest_released release p (f g : ImBuf -> ImBuf) :
  (forall c, pres (heap_released nowhere) (release c)) ->
  pres (heap_released (only p))
       (update (Some p) f;;
        imb_freemipmapImBuf_with release (Some p);;
        update (Some p) g).
Proof.
  intros Hrel.
  apply pres_bind; [apply _|now apply update_released|intros _].
  apply pres_bind; [apply _|now apply imb_freemipmapImBuf_released|intros _].
  now apply update_released.
Qed.

(** The slots, the mipmap levels and the collaborators' data of an
    aggregate whose reference count has run out are all released, and the
    structure is freed. *)
Lemma IMB_freeImBuf_torn_down fuel p h h' b :
  IMB_freeImBuf fuel (Some p) h = Ok tt h' ->
  ibufs h !! p = Some b -> refcounter b <= 0 ->
  torn_down p b h h'.
Proof.
  intros H Hb Hr. destruct fuel as [|n]; [discriminate|].
  cbn [IMB_freeImBuf] in H. unfold IMB_freeImBuf_body in H.
  apply bind_Ok in H as (b0 & h0 & Hl & H).
  apply load_Ok in Hl as (p0 & [= <-] & Hb0 & ->).
  assert (b0 = b) by congruence. subst b0. clear Hb0.
  destruct (Z.ltb_spec 0 (refcounter b)) as [|_]; [lia|].
  apply teardown_split in H as (ht & Hcontents & Hfree).
  apply MEM_freeN_ImBuf_Ok in Hfree as [_ ->].
  set (release := IMB_freeImBuf n) in *.
  assert (Hrel : forall c, pres (heap_released nowhere) (release c))
    by (intros c; apply IMB_freeImBuf_released).
  assert (Hnow : forall c h h', release (Some c) h = Ok tt h' ->
                                released_now c h h')
    by (intros c h1 h2; apply IMB_freeImBuf_released_now).
  unfold teardown_contents in Hcontents.
  apply bind_Ok in Hcontents as ([] & ha & Hall & Htail).
  (* the five phases *)
  unfold imb_freerectImbuf_all_with in Hall.
  apply bind_Ok in Hall as ([] & h1 & H1 & Hall).
  apply bind_Ok in Hall as ([] & h2 & H2 & Hall).
  apply bind_Ok in Hall as ([] & h3 & H3 & Hall).
  apply bind_Ok in Hall as ([] & h4 & H4 & H5).
  pose proof (imb_freerectImBuf_released release Hrel p _ _ _ H1) as F1.
  pose proof (imb_freerectfloatImBuf_released release Hrel p _ _ _ H2) as F2.
  pose proof (IMB_freezbufImBuf_released p _ _ _ H3) as F3.
  pose proof (IMB_freezbuffloatImBuf_released p _ _ _ H4) as F4.
  pose proof (freeencodedbufferImBuf_released p _ _ _ H5) as F5.
  (* the collaborators *)
  apply bind_Ok in Htail as (bm & hm & Hl & Htail).
  apply load_Ok in Hl as (p0 & [= <-] & Hbm & ->).
  apply bind_Ok in Htail as ([] & hb & Hmeta & Htail).
  apply bind_Ok in Htail as ([] & hc & Hcache & Htail).
  apply bind_Ok in Htail as (bd & hd & Hl & Hdds).
  apply load_Ok in Hl as (p0 & [= <-] & Hbd & ->).
  inversion Hmeta; subst hb; clear Hmeta.
  inversion Hcache; subst hc; clear Hcache.
  cbn in Hbd. assert (bd = bm) by congruence. subst bd. clear Hbd.
  assert (Hall : heap_released (only p) h ha)
    by (etrans; [exact F1|]; etrans; [exact F2|]; etrans; [exact F3|];
        etrans; [exact F4|exact F5]).
  set (hc := set_trace _ (set_trace _ ha)) in *.
  assert (Fc : heap_released (only p) ha hc).
  { subst hc. released. eexists. rewrite <- app_assoc. reflexivity. }
  assert (Ft : heap_released (only p) hc ht).
  { destruct (dds_data bm).
    - eapply emit_released, Hdds.
    - apply ret_Ok in Hdds as [_ <-]. reflexivity. }
  assert (Fd : heap_released (only p) ht (set_ibufs (delete p (ibufs ht)) ht)).
  { released. intros q b' Hq Hl. apply lookup_delete_Some in Hl as [_ Hl].
    eauto using same_but_refcounter_refl. }
  assert (Fend : heap_released (only p) ha (set_ibufs (delete p (ibufs ht)) ht))
    by (etrans; [exact Fc|]; etrans; [exact Ft|exact Fd]).
  (* the views the phases keep *)
  assert (K1 : forall (V : Type) (view : ImBuf -> V),
             (forall b v, view (set_refcounter v b) = view b) ->
             (forall b v, view (set_mipmap v b) = view b) ->
             (forall b v, view (set_miptot v b) = view b) ->
             (forall b v, view (set_byte_buffer v b) = view b) ->
             (forall b v, view (set_flags v b) = view b) ->
             keeps p view h h1).
  { intros V view ? ? ? ? ?.
    eapply (imb_freerectImBuf_keeps p view release); eauto. }
  assert (K2 : forall (V : Type) (view : ImBuf -> V),
             (forall b v, view (set_refcounter v b) = view b) ->
             (forall b v, view (set_mipmap v b) = view b) ->
             (forall b v, view (set_miptot v b) = view b) ->
             (forall b v, view (set_float_buffer v b) = view b) ->
             (forall b v, view (set_flags v b) = view b) ->
             keeps p view h1 h2).
  { intros V view ? ? ? ? ?.
    eapply (imb_freerectfloatImBuf_keeps p view release); eauto. }
  assert (K3 : forall (V : Type) (view : ImBuf -> V),
             (forall b v, view (set_z_buffer v b) = view b) ->
             (forall b v, view (set_flags v b) = view b) ->
             keeps p view h2 h3).
  { intros V view ? ?. eapply (IMB_freezbufImBuf_keeps p view); eauto. }
  assert (K4 : forall (V : Type) (view : ImBuf -> V),
             (forall b v, view (set_float_z_buffer v b) = view b) ->
             (forall b v, view (set_flags v b) = view b) ->
             keeps p view h3 h4).
  { intros V view ? ?. eapply (IMB_freezbuffloatImBuf_keeps p view); eauto. }
  assert (K5 : forall (V : Type) (view : ImBuf -> V),
             (forall b v, view (set_encoded_buffer v b) = view b) ->
             (forall b v, view (set_encoded_buffer_size v b) = view b) ->
             (forall b v, view (set_encoded_size v b) = view b) ->
             (forall b v, view (set_flags v b) = view b) ->
             keeps p view h4 ha).
  { intros V view ? ? ? ?. eapply (freeencodedbufferImBuf_keeps p view); eauto. }
  destruct (phase_loads _ _ _ _ _ H2) as [b1 Hb1].
  destruct (phase_loads _ _ _ _ _ H3) as [b2 Hb2].
  destruct (phase_loads _ _ _ _ _ H4) as [b3 Hb3].
  destruct (phase_loads _ _ _ _ _ H5) as [b4 Hb4].
  unfold torn_down. split; [|split; [|split]].
  - cbn. apply lookup_delete_eq.
  - intros s.
    assert (Fafter1 : heap_released (only p) h1 (set_ibufs (delete p (ibufs ht)) ht))
      by (etrans; [exact F2|]; etrans; [exact F3|]; etrans; [exact F4|];
          etrans; [exact F5|exact Fend]).
    assert (Fafter2 : heap_released (only p) h2 (set_ibufs (delete p (ibufs ht)) ht))
      by (etrans; [exact F3|]; etrans; [exact F4|]; etrans; [exact F5|exact Fend]).
    assert (Fafter3 : heap_released (only p) h3 (set_ibufs (delete p (ibufs ht)) ht))
      by (etrans; [exact F4|]; etrans; [exact F5|exact Fend]).
    assert (Fafter4 : heap_released (only p) h4 (set_ibufs (delete p (ibufs ht)) ht))
      by (etrans; [exact F5|exact Fend]).
    destruct s; cbn [slot_buffer].
    + eapply buffer_freed_after; [|exact Fafter1].
      eapply (phase_frees byte_buffer); [exact H1| |exact Hb].
      intros nb. now apply rect_phase_rest_released.
    + assert (E : float_buffer b1 = float_buffer b).
      { eapply (keeps_lookup p float_buffer h h1); [|exact Hb|exact Hb1].
        apply K1; intros [] ?; reflexivity. }
      rewrite <- E. eapply buffer_freed_before; [exact F1|].
      eapply buffer_freed_after; [|exact Fafter2].
      eapply (phase_frees float_buffer); [exact H2| |exact Hb1].
      intros nb. now apply rect_phase_rest_released.
    + assert (E : z_buffer b2 = z_buffer b).
      { eapply (keeps_lookup p z_buffer h h2); [|exact Hb|exact Hb2].
        etrans; [apply K1|apply K2]; intros [] ?; reflexivity. }
      rewrite <- E.
      eapply buffer_freed_before; [etrans; [exact F1|exact F2]|].
      eapply buffer_freed_after; [|exact Fafter3].
      eapply (phase_frees z_buffer); [exact H3| |exact Hb2].
      intros nb. pres_released.
    + assert (E : float_z_buffer b3 = float_z_buffer b).
      { eapply (keeps_lookup p float_z_buffer h h3); [|exact Hb|exact Hb3].
        etrans; [apply K1|etrans; [apply K2|apply K3]];
          intros [] ?; reflexivity. }
      rewrite <- E.
      eapply buffer_freed_before;
        [etrans; [exact F1|etrans; [exact F2|exact F3]]|].
      eapply buffer_freed_after; [|exact Fafter4].
      eapply (phase_frees float_z_buffer); [exact H4| |exact Hb3].
      intros nb. pres_released.
    + assert (E : encoded_buffer b4 = encoded_buffer b).
      { eapply (keeps_lookup p encoded_buffer h h4); [|exact Hb|exact Hb4].
        etrans; [apply K1|etrans; [apply K2|etrans; [apply K3|apply K4]]];
          intros [] ?; reflexivity. }
      rewrite <- E.
      eapply buffer_freed_before;
        [etrans; [exact F1|etrans; [exact F2|etrans; [exact F3|exact F4]]]|].
      eapply buffer_freed_after; [|exact Fend].
      eapply (phase_frees encoded_buffer); [exact H5| |exact Hb4].
      intros nb. pres_released.
  - intros a c Hc Ha.
    eapply level_released_after.
    + eapply (imb_freerectImBuf_level release Hrel Hnow); eassumption.
    + etrans; [exact F2|]; etrans; [exact F3|]; etrans; [exact F4|];
        etrans; [exact F5|exact Fend].
  - assert (Em : metadata bm = metadata b).
    { eapply (keeps_lookup p metadata h ha); [|exact Hb|exact Hbm].
      etrans; [apply K1|etrans; [apply K2|etrans;
        [apply K3|etrans; [apply K4|apply K5]]]]; intros [] ?; reflexivity. }
    assert (Ed : dds_data bm = dds_data b).
    { eapply (keeps_lookup p dds_data h ha); [|exact Hb|exact Hbm].
      etrans; [apply K1|etrans; [apply K2|etrans;
        [apply K3|etrans; [apply K4|apply K5]]]]; intros [] ?; reflexivity. }
    destruct Hall as (_ & _ & _ & _ & l & Hl).
    clear Fc Ft Fd Fend. subst hc. rewrite Em, Ed in Hdds.
    cbn [trace set_ibufs].
    destruct (dds_data b) as [d|].
    + inversion Hdds; subst ht; clear Hdds. cbn.
      exists (l ++ [EvMetadataFree (metadata b); EvColormanageCacheFree p;
                    EvFreeDDS d]).
      split; [rewrite Hl; now rewrite <- !app_assoc|].
      rewrite !in_app_iff. cbn. repeat split; auto.
      intros d0 [= <-]. apply in_app_iff. right. cbn. auto.
    + apply ret_Ok in Hdds as [_ <-]. cbn.
      exists (l ++ [EvMetadataFree (metadata b); EvColormanageCacheFree p]).
      split; [rewrite Hl; now rewrite <- !app_assoc|].
      rewrite !in_app_iff. cbn. repeat split; auto. discriminate.
Qed.

(** ** Teardown of a plain aggregate goes through *)


Lemma free_mipmap_level_plain release p a h b :
  ibufs h !! p = Some b -> no_levels b ->
  free_mipmap_level release (Some p) a h = Ok tt h.
Proof.
  intros Hb Hno. unfold free_mipmap_level.
  rewrite (bind_run _ _ _ _ _ (load_run p h b Hb)).
  now rewrite Hno.
Qed.

Lemma free_mipmap_levels_plain release p levels h b :
  ibufs h !! p = Some b -> no_levels b ->
  free_mipmap_levels release (Some p) levels h = Ok tt h.
Proof.
  intros Hb Hno. induction levels as [|a rest IH]; [reflexivity|].
  cbn [free_mipmap_levels].
  rewrite (bind_run _ _ _ _ _ (free_mipmap_level_plain release p a h b Hb Hno)).
  exact IH.
Qed.

Lemma imb_freemipmapImBuf_plain release p h b :
  ibufs h !! p = Some b -> no_levels b ->
  imb_freemipmapImBuf_with release (Some p) h
  = Ok tt (set_ibufs (<[p := set_miptot 0 b]> (ibufs h)) h).
Proof.
  intros Hb Hno. unfold imb_freemipmapImBuf_with.
  rewrite (bind_run _ _ _ _ _ (free_mipmap_levels_plain release p _ h b Hb Hno)).
  now apply update_run.
Qed.

(** Runs the code at the head of a sequence. *)
Ltac run_head H := rewrite (bind_run _ _ _ _ _ H); cbv beta.
Ltac run_load := erewrite bind_run;
  [|apply load_run; cbn [ibufs set_ibufs]; first
      [ eassumption | apply lookup_insert_eq ]]; cbv beta.
Ltac run_update := erewrite bind_run;
  [|apply update_run; cbn [ibufs set_ibufs]; first
      [ eassumption | apply lookup_insert_eq ]]; cbv beta.

Lemma set_ibufs_twice m1 m2 h : set_ibufs m2 (set_ibufs m1 h) = set_ibufs m2 h.
Proof. reflexivity. Qed.







(** ** Retain and release *)








(** ** [imb_alloc_pixels] and [imb_alloc_buffer] *)

(** What a served request of [MEM_callocN] gives. *)
Lemma MEM_callocN_served size h :
  fst (next_request h) = false ->
  exists p,
    MEM_callocN size h =
      Ok (Some p)
         (set_oom (snd (next_request h))
            (set_mem (<[p := replicate (Z.to_nat size) Byte.x00]> (mem h)) h))
    /\ mem h !! p = None.
Proof.
  intros Hreq. unfold MEM_callocN.
  destruct (next_request h) as [refuse rest]. cbn in Hreq. subst refuse.
  exists (fresh (dom (mem h))). split; [reflexivity|].
  apply not_elem_of_dom. apply is_fresh.
Qed.

Lemma MEM_callocN_refused size h :
  fst (next_request h) = true ->
  MEM_callocN size h = Ok None (set_oom (snd (next_request h)) h).
Proof.
  intros Hreq. unfold MEM_callocN.
  destruct (next_request h) as [refuse rest]. cbn in Hreq. now subst refuse.
Qed.

Lemma size_guard_pass x y c t :
  0 <= x -> 0 <= y -> 0 < c * t ->
  x * y < SIZE_MAX / (c * t) -> x * y * c * t < SIZE_MAX.
Proof.
  intros Hx Hy Hct Hlt.
  assert (c * t * (SIZE_MAX / (c * t)) <= SIZE_MAX)
    by (apply Z.mul_div_le; lia).
  nia.
Qed.

Lemma size_guard_overflow x y c t :
  0 < c * t -> SIZE_MAX < x * y * c * t -> SIZE_MAX / (c * t) <= x * y.
Proof.
  intros Hct Hov.
  destruct (Z.lt_ge_cases (x * y) (SIZE_MAX / (c * t))) as [Hlt|]; [|lia].
  assert (c * t * (SIZE_MAX / (c * t)) <= SIZE_MAX)
    by (apply Z.mul_div_le; lia).
  nia.
Qed.

Lemma imb_alloc_pixels_unfold x y c t h :
  0 <= x < uint_modulus -> 0 <= y < uint_modulus ->
  0 < c * t <= SIZE_MAX ->
  imb_alloc_pixels x y c t h =
    if x * y <? SIZE_MAX / (c * t)
    then MEM_callocN (x * y * c * t) h
    else Ok None h.
Proof.
  intros Hx Hy Hct. unfold imb_alloc_pixels.
  assert (Esz : to_size_t (c * t) = c * t).
  { unfold to_size_t. apply Z.mod_small. unfold SIZE_MAX in Hct. lia. }
  assert (Exy : to_size_t (x * y) = x * y).
  { unfold to_size_t. apply Z.mod_small.
    unfold uint_modulus, size_t_modulus in *. nia. }
  rewrite Esz, Exy.
  destruct (Z.eqb_spec (c * t) 0) as [E0|_]; [lia|].
  destruct (Z.ltb_spec (x * y) (SIZE_MAX / (c * t))) as [Hlt|Hge]; cbn.
  - assert (x * y * c * t < SIZE_MAX) by (apply size_guard_pass; lia).
    assert (0 <= x * y * c * t) by nia.
    unfold to_size_t. rewrite Z.mod_small; [reflexivity|].
    unfold SIZE_MAX in *. lia.
  - reflexivity.
Qed.

(** C2, the claim as amended: when one pixel's size [channels * typesize]
    is positive and fits [size_t], (1) a product [x * y * channels *
    typesize] beyond [SIZE_MAX] is refused with null and the heap is left as
    it was; (2) so is every request with [x * y >= SIZE_MAX / (channels *
    typesize)], the boundary included; (3) below the boundary the product
    fits, and the request goes to the allocator with exactly that size: if
    the allocator serves it, the result is a fresh block of exactly
    [x * y * channels * typesize] zero bytes, and if it refuses, null. *)
Theorem imb_alloc_pixels_size_guard x y c t h :
  0 <= x < uint_modulus -> 0 <= y < uint_modulus ->
  0 < c * t <= SIZE_MAX ->
  (SIZE_MAX < x * y * c * t -> imb_alloc_pixels x y c t h = Ok None h) /\
  (SIZE_MAX / (c * t) <= x * y -> imb_alloc_pixels x y c t h = Ok None h) /\
  (x * y < SIZE_MAX / (c * t) ->
     x * y * c * t < SIZE_MAX /\
     (fst (next_request h) = false ->
        exists p,
          imb_alloc_pixels x y c t h =
            Ok (Some p)
               (set_oom (snd (next_request h))
                  (set_mem (<[p := replicate (Z.to_nat (x * y * c * t))
                                             Byte.x00]> (mem h)) h))
          /\ mem h !! p = None) /\
     (fst (next_request h) = true ->
        imb_alloc_pixels x y c t h =
          Ok None (set_oom (snd (next_request h)) h))).
Proof.
  intros Hx Hy Hct.
  rewrite (imb_alloc_pixels_unfold x y c t h Hx Hy Hct).
  repeat split.
  - intros Hov. apply size_guard_overflow in Hov; [|lia].
    destruct (Z.ltb_spec (x * y) (SIZE_MAX / (c * t))); [lia|reflexivity].
  - intros Hge.
    destruct (Z.ltb_spec (x * y) (SIZE_MAX / (c * t))); [lia|reflexivity].
  - apply size_guard_pass; lia.
  - intros Hreq.
    destruct (Z.ltb_spec (x * y) (SIZE_MAX / (c * t))); [|lia].
    now apply MEM_callocN_served.
  - intros Hreq.
    destruct (Z.ltb_spec (x * y) (SIZE_MAX / (c * t))); [|lia].
    now apply MEM_callocN_refused.
Qed.

Lemma imb_alloc_pixels_size_guard_witness :
  (SIZE_MAX / (4 * 1) <= 4294967295 * 4294967295 ->
   imb_alloc_pixels 4294967295 4294967295 4 1 empty_heap = Ok None empty_heap)
  /\ exists p,
       imb_alloc_pixels 2 3 4 1 empty_heap =
         Ok (Some p)
            (set_oom (snd (next_request empty_heap))
               (set_mem (<[p := replicate (Z.to_nat (2 * 3 * 4 * 1)) Byte.x00]>
                           (mem empty_heap)) empty_heap))
       /\ mem empty_heap !! p = None.
Proof.
  split.
  - apply (imb_alloc_pixels_size_guard 4294967295 4294967295 4 1 empty_heap);
      unfold uint_modulus, SIZE_MAX, size_t_modulus; lia.
  - apply (imb_alloc_pixels_size_guard 2 3 4 1 empty_heap);
      unfold uint_modulus, SIZE_MAX, size_t_modulus; try lia.
    + vm_compute. reflexivity.
    + reflexivity.
Defined.

(** C2, the claim as stated fails: the product [2147483647 * 2147483649 *
    1 * 4 = 2^64 - 4] fits [size_t] and the allocator would serve the
    request, yet the strict comparison refuses it. *)
Lemma imb_alloc_pixels_refuses_fitting_product :
  2147483647 * 2147483649 * 1 * 4 <= SIZE_MAX /\
  fst (next_request empty_heap) = false /\
  imb_alloc_pixels 2147483647 2147483649 1 4 empty_heap = Ok None empty_heap.
Proof. vm_compute. repeat split; congruence. Qed.

(** With no channels the product is zero and fits, and the size check
    divides by zero. *)
Lemma imb_alloc_pixels_zero_channels :
  imb_alloc_pixels 1 1 0 4 empty_heap = Fault.
Proof. reflexivity. Qed.

(** The outcomes of [imb_alloc_buffer]. *)
Lemma imb_alloc_buffer_cases buffer x y c t h :
  match imb_alloc_buffer buffer x y c t h with
  | Ok (true, nb) h' =>
      exists p,
        nb = mkBuffer (Some p) IB_TAKE_OWNERSHIP None /\
        mem h !! p = None /\
        mem h' = <[p := replicate (Z.to_nat (to_size_t (x * y * c * t)))
                                  Byte.x00]> (mem h)
  | Ok (false, nb) h' =>
      nb = mkBuffer None (ownership buffer) (implicit_sharing buffer) /\
      (buffer = empty_buffer -> nb = buffer) /\
      mem h' = mem h /\ ibufs h' = ibufs h /\ sharing h' = sharing h
  | Fault => to_size_t (c * t) = 0
  | OutOfFuel => False
  end.
Proof.
  unfold imb_alloc_buffer, imb_alloc_pixels, mbind, M_bind, mret, M_ret, fault.
  destruct (Z.eqb_spec (to_size_t (c * t)) 0) as [E0|_]; [exact E0|].
  destruct (negb _).
  - repeat split. now intros ->.
  - unfold MEM_callocN. destruct (next_request h) as [[|] rest].
    + repeat split. now intros ->.
    + exists (fresh (dom (mem h))). repeat split.
      apply not_elem_of_dom, is_fresh.
Qed.

(** C8, the claim as amended: on failure [imb_alloc_buffer] returns false
    with the data pointer null and with ownership and shared handle as they
    were, so that an empty slot is left untouched, and nothing is allocated;
    on success it returns true and the slot holds a fresh zero-initialized
    block, owned and not shared.  The only other outcome is the division by
    zero of the size check. *)
Theorem imb_alloc_buffer_outcome buffer x y c t h :
  match imb_alloc_buffer buffer x y c t h with
  | Ok (true, nb) h' =>
      exists p,
        nb = mkBuffer (Some p) IB_TAKE_OWNERSHIP None /\
        mem h !! p = None /\
        mem h' = <[p := replicate (Z.to_nat (to_size_t (x * y * c * t)))
                                  Byte.x00]> (mem h)
  | Ok (false, nb) h' =>
      nb = mkBuffer None (ownership buffer) (implicit_sharing buffer) /\
      (buffer = empty_buffer -> nb = buffer) /\
      mem h' = mem h /\ ibufs h' = ibufs h /\ sharing h' = sharing h
  | Fault => to_size_t (c * t) = 0
  | OutOfFuel => False
  end.
Proof. exact (imb_alloc_buffer_cases buffer x y c t h). Qed.

(** C8, the claim as stated fails: a populated slot loses its data pointer
    when the size check refuses the request. *)
Lemma imb_alloc_buffer_failure_touches_slot :
  imb_alloc_buffer (mkBuffer (Some 1%positive) IB_TAKE_OWNERSHIP None)
                   4294967295 4294967295 4 1 heap_one_block
  = Ok (false, mkBuffer None IB_TAKE_OWNERSHIP None) heap_one_block
  /\ mkBuffer None IB_TAKE_OWNERSHIP None
     <> mkBuffer (Some 1%positive) IB_TAKE_OWNERSHIP None.
Proof. split; [reflexivity|discriminate]. Qed.

(** ** [imb_make_writeable_buffer] *)

Lemma MEM_dupallocN_live d bytes h :
  mem h !! d = Some bytes ->
  exists q, MEM_dupallocN (Some d) h
            = Ok (Some q) (set_mem (<[q := bytes]> (mem h)) h)
            /\ mem h !! q = None.
Proof.
  intros Hd. unfold MEM_dupallocN. rewrite Hd.
  exists (fresh (dom (mem h))). split; [reflexivity|].
  apply not_elem_of_dom, is_fresh.
Qed.

(** A second call changes nothing, whatever the first one did. *)
Lemma imb_make_writeable_buffer_again buffer h nb h' :
  imb_make_writeable_buffer buffer h = Ok nb h' ->
  imb_make_writeable_buffer nb h' = Ok nb h'.
Proof.
  unfold imb_make_writeable_buffer.
  destruct (data buffer) as [d|] eqn:Ed.
  - destruct (ownership buffer) eqn:Eo.
    + intros H. apply bind_Ok in H as (p & h1 & Hdup & H).
      assert (exists q, p = Some q) as [q ->].
      { unfold MEM_dupallocN in Hdup. destruct (mem h !! d); [|discriminate].
        inversion Hdup. eauto. }
      destruct (implicit_sharing buffer).
      * apply bind_Ok in H as (u & h2 & _ & H).
        apply ret_Ok in H as [<- <-]. reflexivity.
      * apply ret_Ok in H as [<- <-]. reflexivity.
    + intros H. apply ret_Ok in H as [<- <-]. now rewrite Ed, Eo.
  - intros H. apply ret_Ok in H as [<- <-]. now rewrite Ed.
Qed.

(** C9: for a slot that satisfies the slot invariant and points to live
    objects, [imb_make_writeable_buffer] returns; a second call in a row
    returns the same slot and the same heap; the bytes the slot points to
    after the call are the bytes it pointed to before; an empty slot and the
    heap are left as they were; and a non-empty slot ends up owned, with no
    shared handle.  A slot that owns its data is left as it is, with the
    heap.  A slot that does not own its data gets a block of its own: the
    new pointer differs from the old one and was not allocated before the
    call, so that nobody else refers to it, and it holds a copy of the
    bytes; the block the slot borrowed is left as it was, and so is every
    other block, aggregate and control block, apart from the slot's control
    block, which loses this user, and is freed with the block it holds when
    this was its last user. *)
Theorem imb_make_writeable_buffer_idempotent buffer h :
  buffer_invariant buffer -> buffer_live h buffer ->
  exists nb h',
    imb_make_writeable_buffer buffer h = Ok nb h' /\
    imb_make_writeable_buffer nb h' = Ok nb h' /\
    (forall d, data buffer = Some d ->
       exists d', data nb = Some d' /\ mem h' !! d' = mem h !! d) /\
    (data buffer = None -> nb = buffer /\ h' = h) /\
    (data buffer <> None ->
       ownership nb = IB_TAKE_OWNERSHIP /\ implicit_sharing nb = None) /\
    (ownership buffer = IB_TAKE_OWNERSHIP -> nb = buffer /\ h' = h) /\
    (forall d, data buffer = Some d ->
       ownership buffer = IB_DO_NOT_TAKE_OWNERSHIP ->
       exists d' bytes,
         data nb = Some d' /\ d' <> d /\
         mem h !! d = Some bytes /\ mem h !! d' = None /\
         ibufs h' = ibufs h /\ oom h' = oom h /\ trace h' = trace h /\
         match implicit_sharing buffer with
         | None =>
             mem h' = <[d' := bytes]> (mem h) /\ sharing h' = sharing h
         | Some s =>
             exists i, sharing h !! s = Some i /\
               if strong_users i =? 1
               then sharing h' = delete s (sharing h) /\
                    mem h' = match shared_data i with
                             | Some sd => delete sd (<[d' := bytes]> (mem h))
                             | None => <[d' := bytes]> (mem h)
                             end
               else sharing h'
                    = <[s := mkSharingInfo (strong_users i - 1)
                                           (shared_data i)]> (sharing h) /\
                    mem h' = <[d' := bytes]> (mem h)
         end).
Proof.
  intros [Hshared Hempty] [Hdata Hinfo].
  assert (Hgoal : exists nb h',
    imb_make_writeable_buffer buffer h = Ok nb h' /\
    (forall d, data buffer = Some d ->
       exists d', data nb = Some d' /\ mem h' !! d' = mem h !! d) /\
    (data buffer = None -> nb = buffer /\ h' = h) /\
    (data buffer <> None ->
       ownership nb = IB_TAKE_OWNERSHIP /\ implicit_sharing nb = None) /\
    (ownership buffer = IB_TAKE_OWNERSHIP -> nb = buffer /\ h' = h) /\
    (forall d, data buffer = Some d ->
       ownership buffer = IB_DO_NOT_TAKE_OWNERSHIP ->
       exists d' bytes,
         data nb = Some d' /\ d' <> d /\
         mem h !! d = Some bytes /\ mem h !! d' = None /\
         ibufs h' = ibufs h /\ oom h' = oom h /\ trace h' = trace h /\
         match implicit_sharing buffer with
         | None =>
             mem h' = <[d' := bytes]> (mem h) /\ sharing h' = sharing h
         | Some s =>
             exists i, sharing h !! s = Some i /\
               if strong_users i =? 1
               then sharing h' = delete s (sharing h) /\
                    mem h' = match shared_data i with
                             | Some sd => delete sd (<[d' := bytes]> (mem h))
                             | None => <[d' := bytes]> (mem h)
                             end
               else sharing h'
                    = <[s := mkSharingInfo (strong_users i - 1)
                                           (shared_data i)]> (sharing h) /\
                    mem h' = <[d' := bytes]> (mem h)
         end)).
  2:{ destruct Hgoal as (nb & h' & Hrun & Hrest). exists nb, h'.
      split; [exact Hrun|]. split; [|exact Hrest].
      eapply imb_make_writeable_buffer_again, Hrun. }
  unfold imb_make_writeable_buffer.
  destruct (data buffer) as [d|] eqn:Ed.
  2:{ exists buffer, h. repeat split; try congruence. }
  destruct (Hdata d eq_refl) as [bytes Hbytes].
  destruct (ownership buffer) eqn:Eo.
  2:{ exists buffer, h. repeat split; try congruence.
      - intros d0 [= <-]. eauto.
      - destruct (implicit_sharing buffer) eqn:Es; [|reflexivity].
        destruct Hshared as [_ Hs]; congruence. }
  destruct (MEM_dupallocN_live d bytes h Hbytes) as (q & Hdup & Hq).
  assert (Hdq : d <> q) by congruence.
  destruct (implicit_sharing buffer) as [s|] eqn:Es.
  - destruct (Hinfo s eq_refl) as (i & Hi & Hlast).
    rewrite (bind_run _ _ _ _ _ Hdup).
    unfold remove_user_and_delete_if_last, mbind, M_bind, mret, M_ret.
    cbn [sharing set_mem]. rewrite Hi.
    destruct (Z.eqb_spec (strong_users i) 1) as [E1|E1].
    + destruct (shared_data i) as [sd|] eqn:Esd.
      * destruct (Hlast E1 sd eq_refl) as [sbytes Hsd].
        assert (Hsdq : sd <> q) by congruence.
        unfold MEM_freeN. cbn [mem set_sharing set_mem].
        rewrite lookup_insert_ne, Hsd by congruence.
        eexists _, _. split; [reflexivity|].
        cbn [data ownership implicit_sharing mem ibufs sharing oom trace
             set_mem set_sharing].
        split.
        { intros d0 [= <-]. exists q. split; [reflexivity|].
          rewrite lookup_delete_ne, lookup_insert_eq by congruence.
          now rewrite Hbytes. }
        split; [congruence|]. split; [now split|].
        split; [discriminate|].
        intros d0 [= <-] _. exists q, bytes.
        repeat (split; [first [reflexivity|assumption|congruence]|]).
        exists i. split; [first [exact Hi|reflexivity]|].
        destruct (Z.eqb_spec (strong_users i) 1); [|contradiction].
        rewrite Esd. split; reflexivity.
      * eexists _, _. split; [reflexivity|].
        cbn [data ownership implicit_sharing mem ibufs sharing oom trace
             set_mem set_sharing].
        split.
        { intros d0 [= <-]. exists q. split; [reflexivity|].
          rewrite lookup_insert_eq. now rewrite Hbytes. }
        split; [congruence|]. split; [now split|].
        split; [discriminate|].
        intros d0 [= <-] _. exists q, bytes.
        repeat (split; [first [reflexivity|assumption|congruence]|]).
        exists i. split; [first [exact Hi|reflexivity]|].
        destruct (Z.eqb_spec (strong_users i) 1); [|contradiction].
        rewrite Esd. split; reflexivity.
    + eexists _, _. split; [reflexivity|].
      cbn [data ownership implicit_sharing mem ibufs sharing oom trace
           set_mem set_sharing].
      split.
      { intros d0 [= <-]. exists q. split; [reflexivity|].
        rewrite lookup_insert_eq. now rewrite Hbytes. }
      split; [congruence|]. split; [now split|].
      split; [discriminate|].
      intros d0 [= <-] _. exists q, bytes.
      repeat (split; [first [reflexivity|assumption|congruence]|]).
      exists i. split; [first [exact Hi|reflexivity]|].
      destruct (Z.eqb_spec (strong_users i) 1); [contradiction|].
      split; reflexivity.
  - rewrite (bind_run _ _ _ _ _ Hdup).
    eexists _, _. split; [reflexivity|].
    cbn [data ownership implicit_sharing mem ibufs sharing oom trace
         set_mem set_sharing].
    split.
    { intros d0 [= <-]. exists q. split; [reflexivity|].
      rewrite lookup_insert_eq. now rewrite Hbytes. }
    split; [congruence|]. split; [now split|].
    split; [discriminate|].
    intros d0 [= <-] _. exists q, bytes.
    repeat (split; [first [reflexivity|assumption|congruence]|]).
    reflexivity.
Qed.

Lemma imb_make_writeable_buffer_idempotent_witness :
  exists nb h' d',
    imb_make_writeable_buffer
      (mkBuffer (Some 1%positive) IB_DO_NOT_TAKE_OWNERSHIP None)
      heap_borrowing = Ok nb h' /\
    imb_make_writeable_buffer nb h' = Ok nb h' /\
    nb = mkBuffer (Some d') IB_TAKE_OWNERSHIP None /\
    d' <> 1%positive /\ mem heap_borrowing !! d' = None /\
    mem h'
    = <[d' := [Byte.x01; Byte.x02; Byte.x03; Byte.x04]]>
        (mem heap_borrowing) /\
    ibufs h' = ibufs heap_borrowing /\ sharing h' = sharing heap_borrowing.
Proof.
  destruct (imb_make_writeable_buffer_idempotent
              (mkBuffer (Some 1%positive) IB_DO_NOT_TAKE_OWNERSHIP None)
              heap_borrowing)
    as (nb & h' & Hrun & Hagain & _ & _ & Hown & _ & Hcopy).
  - split; cbn; [intros H; now elim H|discriminate].
  - split; cbn.
    + intros d [= <-]. exists [Byte.x01; Byte.x02; Byte.x03; Byte.x04].
      reflexivity.
    + discriminate.
  - destruct (Hcopy 1%positive eq_refl eq_refl)
      as (d' & bytes & Hd' & Hne & Hbytes & Hfresh & Hi & _ & _ & Hmem & Hsh).
    cbn [data ownership implicit_sharing] in *.
    destruct (Hown ltac:(discriminate)) as [Ho Hs].
    assert (bytes = [Byte.x01; Byte.x02; Byte.x03; Byte.x04]) as ->.
    { apply (inj Some). rewrite <- Hbytes. reflexivity. }
    exists nb, h', d'. split; [exact Hrun|]. split; [exact Hagain|].
    split; [destruct nb; cbn in *; congruence|].
    repeat (split; [assumption|]). exact Hsh.
Defined.

(** ** Null aggregates *)

(** C5, the claim as amended: the entry points that test their argument
    ([IMB_freeImBuf], [IMB_makeSingleUser], [IMB_dupImBuf], the functions
    that free a slot and the functions that allocate one) return at once on
    a null aggregate, leaving the heap as it was and reporting null or
    false; [IMB_refImBuf], the steal, make-writable and assign functions and
    [imb_freemipmapImBuf] dereference their argument without a test. *)
Theorem null_ibuf_entry_points fuel h c d i own :
  (IMB_freeImBuf (S fuel) None h = Ok tt h /\
   IMB_makeSingleUser fuel None h = Ok None h /\
   IMB_dupImBuf fuel None h = Ok None h /\
   imb_freerectImBuf fuel None h = Ok tt h /\
   imb_freerectfloatImBuf fuel None h = Ok tt h /\
   IMB_freezbufImBuf None h = Ok tt h /\
   IMB_freezbuffloatImBuf None h = Ok tt h /\
   freeencodedbufferImBuf None h = Ok tt h /\
   imb_freerectImbuf_all fuel None h = Ok tt h /\
   addzbufImBuf None h = Ok false h /\
   addzbuffloatImBuf None h = Ok false h /\
   imb_addencodedbufferImBuf None h = Ok false h /\
   imb_enlargeencodedbufferImBuf None h = Ok false h /\
   imb_addrectfloatImBuf fuel None c h = Ok false h /\
   imb_addrectImBuf None h = Ok false h) /\
  (IMB_refImBuf None h = Fault /\
   IMB_steal_byte_buffer None h = Fault /\
   IMB_steal_float_buffer None h = Fault /\
   IMB_steal_encoded_buffer None h = Fault /\
   IMB_make_writable_byte_buffer None h = Fault /\
   IMB_make_writable_float_buffer None h = Fault /\
   IMB_assign_shared_byte_buffer None d i h = Fault /\
   IMB_assign_shared_float_buffer None d i h = Fault /\
   IMB_assign_shared_float_z_buffer None d i h = Fault /\
   IMB_assign_byte_buffer None d own h = Fault /\
   IMB_assign_float_buffer None d own h = Fault /\
   IMB_assign_z_buffer None d own h = Fault /\
   IMB_assign_float_z_buffer None d own h = Fault /\
   imb_freemipmapImBuf fuel None h = Fault).
Proof. repeat split; reflexivity. Qed.

(** C5, the claim as stated fails: retaining through a null pointer is not
    a no-op. *)
Lemma IMB_refImBuf_null_faults :
  IMB_refImBuf None empty_heap = Fault /\
  IMB_refImBuf None empty_heap <> Ok tt empty_heap.
Proof. split; [reflexivity|discriminate]. Qed.

(** ** The depth buffer: [addzbufImBuf] and its callers *)

Lemma imb_free_buffer_live buffer h :
  buffer_live h buffer ->
  exists h1, imb_free_buffer buffer h = Ok empty_buffer h1.
Proof.
  intros [Hdata Hinfo]. unfold imb_free_buffer, free_shared_data.
  destruct (implicit_sharing buffer) as [s|].
  - destruct (Hinfo s eq_refl) as (i & Hi & Hlast).
    unfold remove_user_and_delete_if_last, mbind, M_bind, mret, M_ret.
    rewrite Hi. destruct (Z.eqb_spec (strong_users i) 1) as [E1|_].
    + destruct (shared_data i) as [sd|] eqn:Esd.
      * destruct (Hlast E1 sd eq_refl) as [bytes Hsd].
        unfold MEM_freeN. cbn. rewrite Hsd. eauto.
      * eauto.
    + eauto.
  - destruct (data buffer) as [d|]; [|eauto].
    destruct (ownership buffer); [eauto|].
    destruct (Hdata d eq_refl) as [bytes Hd].
    unfold MEM_freeN, mbind, M_bind, mret, M_ret. rewrite Hd. eauto.
Qed.

Lemma heap_released_next_request skip h h' :
  heap_released skip h h' -> next_request h' = next_request h.
Proof. intros (_ & _ & _ & Ho & _). unfold next_request. now rewrite Ho. Qed.

Lemma IMB_freezbufImBuf_live p h b :
  ibufs h !! p = Some b -> buffer_live h (z_buffer b) ->
  exists h1,
    IMB_freezbufImBuf (Some p) h = Ok tt h1 /\
    ibufs h1 !! p = Some (set_flags (Z.land (flags b) (Z.lnot IB_zbuf))
                            (set_z_buffer empty_buffer b)) /\
    next_request h1 = next_request h.
Proof.
  intros Hb Hlive.
  destruct (imb_free_buffer_live _ h Hlive) as (h1 & Hfree).
  pose proof (imb_free_buffer_ibufs _ _ _ _ Hfree) as Hi.
  pose proof (heap_released_next_request nowhere _ _
                (imb_free_buffer_released nowhere _ _ _ _ Hfree)) as Ho.
  unfold IMB_freezbufImBuf.
  run_load. run_head Hfree. rewrite <- Hi in Hb. run_update.
  erewrite update_run by (cbn; apply lookup_insert_eq).
  eexists. split; [reflexivity|]. cbn. split; [apply lookup_insert_eq|exact Ho].
Qed.

Lemma imb_alloc_buffer_served buffer x y c t h :
  0 <= x < uint_modulus -> 0 <= y < uint_modulus ->
  0 < c * t <= SIZE_MAX -> x * y < SIZE_MAX / (c * t) ->
  fst (next_request h) = false ->
  exists d,
    imb_alloc_buffer buffer x y c t h =
      Ok (true, mkBuffer (Some d) IB_TAKE_OWNERSHIP None)
         (set_oom (snd (next_request h))
            (set_mem (<[d := replicate (Z.to_nat (x * y * c * t)) Byte.x00]>
                        (mem h)) h))
    /\ mem h !! d = None.
Proof.
  intros Hx Hy Hct Hlt Hreq. unfold imb_alloc_buffer, mbind, M_bind.
  rewrite (imb_alloc_pixels_unfold x y c t h Hx Hy Hct).
  destruct (Z.ltb_spec (x * y) (SIZE_MAX / (c * t))); [|lia].
  destruct (MEM_callocN_served (x * y * c * t) h Hreq) as (d & Hd & Hfresh).
  exists d. split; [|exact Hfresh].
  now rewrite Hd.
Qed.

Lemma addzbufImBuf_false ibuf h r h' :
  addzbufImBuf ibuf h = Ok r h' -> r = false.
Proof.
  unfold addzbufImBuf. intros H.
  destruct ibuf as [p|]; [|now apply ret_Ok in H as [<- _]].
  apply bind_Ok in H as ([] & h1 & _ & H).
  apply bind_Ok in H as (b & h2 & _ & H).
  apply bind_Ok in H as ([ok nb] & h3 & _ & H).
  apply bind_Ok in H as ([] & h4 & _ & H).
  destruct (negb ok).
  - now apply ret_Ok in H as [<- _].
  - apply bind_Ok in H as ([] & h5 & _ & H). now apply ret_Ok in H as [<- _].
Qed.

Lemma addzbufImBuf_success p h b :
  ibufs h !! p = Some b -> buffer_live h (z_buffer b) ->
  0 <= x b < uint_modulus -> 0 <= y b < uint_modulus ->
  x b * y b < SIZE_MAX / 4 ->
  fst (next_request h) = false ->
  exists d h' b',
    addzbufImBuf (Some p) h = Ok false h' /\
    ibufs h' !! p = Some b' /\
    z_buffer b' = mkBuffer (Some d) IB_TAKE_OWNERSHIP None /\
    has_flag (flags b') IB_zbuf = true /\
    mem h' !! d = Some (replicate (Z.to_nat (x b * y b * 4)) Byte.x00).
Proof.
  intros Hb Hlive Hx Hy Hlt Hreq.
  destruct (IMB_freezbufImBuf_live p h b Hb Hlive) as (h1 & Hfree & Hb1 & Ho).
  rewrite <- Ho in Hreq.
  destruct (imb_alloc_buffer_served empty_buffer (x b) (y b) 1 sizeof_uint h1)
    as (d & Halloc & Hfresh); try assumption.
  { unfold sizeof_uint, SIZE_MAX, size_t_modulus. lia. }
  unfold addzbufImBuf. run_head Hfree. run_load.
  cbn [z_buffer x y set_flags set_z_buffer].
  run_head Halloc. run_update. cbn [negb]. run_update.
  exists d. eexists. eexists. split; [reflexivity|]. cbn.
  split; [apply lookup_insert_eq|]. cbn. split; [reflexivity|]. split.
  - apply (has_flag_set _ ZSlot ZSlot).
  - rewrite lookup_insert_eq. unfold sizeof_uint.
    now rewrite Z.mul_1_r.
Qed.

Lemma imb_addrectImBuf_deep p h b r h' :
  ibufs h !! p = Some b -> 32 < planes b ->
  imb_addrectImBuf (Some p) h = Ok r h' -> r = false.
Proof.
  intros Hb Hplanes H. unfold imb_addrectImBuf in H.
  apply bind_Ok in H as (b0 & h0 & Hl & H).
  apply load_Ok in Hl as (p0 & [= <-] & Hb0 & ->).
  assert (b0 = b) by congruence. subst b0.
  apply bind_Ok in H as (nb & h1 & Hfree & H).
  apply bind_Ok in H as ([] & h2 & Hu & H).
  apply update_Ok in Hu as (p0 & b1 & [= <-] & Hb1 & ->).
  apply bind_Ok in H as (b2 & h3 & Hl & H).
  apply load_Ok in Hl as (p0 & [= <-] & Hb2 & ->).
  apply bind_Ok in H as ([ok nb'] & h4 & Halloc & H).
  apply bind_Ok in H as ([] & h5 & Hu & H).
  apply update_Ok in Hu as (p0 & b3 & [= <-] & Hb3 & ->).
  destruct (negb ok); [now apply ret_Ok in H as [<- _]|].
  apply bind_Ok in H as ([] & h6 & Hu & H).
  apply update_Ok in Hu as (p0 & b4 & [= <-] & Hb4 & ->).
  apply bind_Ok in H as (b5 & h7 & Hl & H).
  apply load_Ok in Hl as (p0 & [= <-] & Hb5 & ->).
  cbn in Hb5, Hb4. rewrite lookup_insert_eq in Hb5, Hb4.
  inversion Hb5; subst b5. inversion Hb4; subst b4. clear Hb5 Hb4.
  cbn [planes set_flags set_byte_buffer] in H.
  assert (Hp : planes b3 = planes b).
  { assert (Hi : ibufs h4 = ibufs (set_ibufs (<[p:=set_byte_buffer nb b1]> (ibufs h1)) h1)).
    { unfold imb_alloc_buffer in Halloc.
      apply bind_Ok in Halloc as (q & hq & Hpix & Hret).
      assert (ibufs hq = ibufs (set_ibufs (<[p:=set_byte_buffer nb b1]> (ibufs h1)) h1)).
      { unfold imb_alloc_pixels, MEM_callocN in Hpix.
        destruct (to_size_t (4 * sizeof_uint8_t) =? 0); [discriminate|].
        destruct (negb _); [now apply ret_Ok in Hpix as [_ <-]|].
        destruct (next_request _) as [[|] rest]; now inversion Hpix. }
      destruct q; apply ret_Ok in Hret as [_ <-]; assumption. }
    rewrite Hi in Hb3. cbn in Hb3. rewrite lookup_insert_eq in Hb3.
    inversion Hb3; subst b3. cbn.
    rewrite (imb_free_buffer_ibufs _ _ _ _ Hfree) in Hb1. congruence. }
  rewrite Hp in H. destruct (Z.ltb_spec 32 (planes b)); [|lia].
  eapply addzbufImBuf_false, H.
Qed.

Lemma IMB_initImBuf_depth fuel ibuf x y planes flags h r h' :
  has_flag flags IB_zbuf = true ->
  IMB_initImBuf fuel ibuf x y planes flags h = Ok r h' -> r = false.
Proof.
  intros Hz H. unfold IMB_initImBuf in H. rewrite Hz in H.
  apply bind_Ok in H as ([] & h1 & _ & H).
  apply bind_Ok in H as (ok1 & h2 & _ & H).
  destruct (negb ok1); [now apply ret_Ok in H as [<- _]|].
  apply bind_Ok in H as (ok2 & h3 & _ & H).
  destruct (negb ok2); [now apply ret_Ok in H as [<- _]|].
  apply bind_Ok in H as (ok3 & h4 & Hadd & H).
  apply addzbufImBuf_false in Hadd. subst ok3. cbn [negb] in H.
  now apply ret_Ok in H as [<- _].
Qed.

Lemma IMB_allocImBuf_depth fuel x y planes flags h r h' :
  has_flag flags IB_zbuf = true ->
  IMB_allocImBuf fuel x y planes flags h = Ok r h' -> r = None.
Proof.
  intros Hz H. unfold IMB_allocImBuf in H.
  apply bind_Ok in H as (ibuf & h1 & _ & H).
  destruct ibuf as [p|]; [|now apply ret_Ok in H as [<- _]].
  apply bind_Ok in H as (ok & h2 & Hinit & H).
  apply (IMB_initImBuf_depth _ _ _ _ _ _ _ _ _ Hz) in Hinit. subst ok.
  cbn [negb] in H. apply bind_Ok in H as ([] & h3 & _ & H).
  now apply ret_Ok in H as [<- _].
Qed.

(** C4: [addzbufImBuf] returns false whenever it returns, and it does so
    on its success path, where the depth slot of a non-null aggregate has
    been allocated and [IB_zbuf] set.  Hence [imb_addrectImBuf] on an
    aggregate with more than 32 planes, [IMB_initImBuf] with [IB_zbuf]
    requested, and with it [IMB_allocImBuf], report failure. *)
Theorem addzbufImBuf_reports_failure :
  (forall ibuf h r h', addzbufImBuf ibuf h = Ok r h' -> r = false) /\
  (forall p h b,
     ibufs h !! p = Some b -> buffer_live h (z_buffer b) ->
     0 <= x b < uint_modulus -> 0 <= y b < uint_modulus ->
     x b * y b < SIZE_MAX / 4 ->
     fst (next_request h) = false ->
     exists d h' b',
       addzbufImBuf (Some p) h = Ok false h' /\
       ibufs h' !! p = Some b' /\
       z_buffer b' = mkBuffer (Some d) IB_TAKE_OWNERSHIP None /\
       has_flag (flags b') IB_zbuf = true /\
       mem h' !! d = Some (replicate (Z.to_nat (x b * y b * 4)) Byte.x00)) /\
  (forall p h b r h',
     ibufs h !! p = Some b -> 32 < planes b ->
     imb_addrectImBuf (Some p) h = Ok r h' -> r = false) /\
  (forall fuel ibuf x y planes flags h r h',
     has_flag flags IB_zbuf = true ->
     IMB_initImBuf fuel ibuf x y planes flags h = Ok r h' -> r = false) /\
  (forall fuel x y planes flags h r h',
     has_flag flags IB_zbuf = true ->
     IMB_allocImBuf fuel x y planes flags h = Ok r h' -> r = None).
Proof.
  split; [exact addzbufImBuf_false|].
  split; [exact addzbufImBuf_success|].
  split; [exact imb_addrectImBuf_deep|].
  split; [exact IMB_initImBuf_depth|exact IMB_allocImBuf_depth].
Qed.

Lemma addzbufImBuf_reports_failure_witness :
  (exists d h' b',
     addzbufImBuf (Some 1%positive) heap_deep_aggregate = Ok false h' /\
     ibufs h' !! 1%positive = Some b' /\
     z_buffer b' = mkBuffer (Some d) IB_TAKE_OWNERSHIP None /\
     has_flag (flags b') IB_zbuf = true /\
     mem h' !! d = Some (replicate (Z.to_nat (2 * 2 * 4)) Byte.x00)) /\
  (exists h' b',
     imb_addrectImBuf (Some 1%positive) heap_deep_aggregate = Ok false h' /\
     ibufs h' !! 1%positive = Some b' /\
     data (byte_buffer b') <> None /\ data (z_buffer b') <> None) /\
  (exists h' b',
     IMB_initImBuf 1 (Some 1%positive) 2 2 24 IB_zbuf heap_deep_aggregate
     = Ok false h' /\
     ibufs h' !! 1%positive = Some b' /\ data (z_buffer b') <> None) /\
  (exists h', IMB_allocImBuf 1 2 2 24 IB_zbuf empty_heap = Ok None h').
Proof.
  destruct addzbufImBuf_reports_failure as (H1 & H2 & H3 & H4 & H5).
  split; [|split; [|split]].
  - apply (H2 1%positive heap_deep_aggregate deep_aggregate);
      try reflexivity.
    + split; cbn; [discriminate|discriminate].
    + cbn. unfold uint_modulus. lia.
    + cbn. unfold uint_modulus. lia.
  - eassert (E : imb_addrectImBuf (Some 1%positive) heap_deep_aggregate
                 = Ok _ _) by (vm_compute; reflexivity).
    pose proof (H3 1%positive heap_deep_aggregate deep_aggregate _ _
                   eq_refl ltac:(cbn; lia) E) as _.
    eexists. eexists. split; [exact E|].
    split; [vm_compute; reflexivity|]. split; discriminate.
  - eassert (E : IMB_initImBuf 1 (Some 1%positive) 2 2 24 IB_zbuf
                   heap_deep_aggregate = Ok _ _) by (vm_compute; reflexivity).
    pose proof (H4 1%nat (Some 1%positive) 2 2 24 IB_zbuf heap_deep_aggregate
                   _ _ eq_refl E) as _.
    eexists. eexists. split; [exact E|].
    split; [vm_compute; reflexivity|]. discriminate.
  - eassert (E : IMB_allocImBuf 1 2 2 24 IB_zbuf empty_heap = Ok _ _)
      by (vm_compute; reflexivity).
    pose proof (H5 1%nat 2 2 24 IB_zbuf empty_heap _ _ eq_refl E) as _.
    eexists. exact E.
Defined.

(** ** Growing the encoded buffer *)

Lemma grown_capacity_range capacity :
  10000 <= grown_capacity capacity < uint_modulus.
Proof.
  unfold grown_capacity, to_uint.
  pose proof (Z.mod_pos_bound (2 * capacity) uint_modulus) as Hm.
  unfold uint_modulus in *.
  destruct (Z.ltb_spec ((2 * capacity) mod 2 ^ 32) 10000); lia.
Qed.

Lemma grown_capacity_small capacity :
  0 <= capacity < 2 ^ 31 ->
  grown_capacity capacity = Z.max (2 * capacity) 10000.
Proof.
  intros Hc. unfold grown_capacity, to_uint, uint_modulus.
  rewrite Z.mod_small by lia.
  destruct (Z.ltb_spec (2 * capacity) 10000); lia.
Qed.

Lemma serves_next n h : serves (S n) h -> fst (next_request h) = false.
Proof.
  unfold serves, next_request. destruct (oom h) as [|r rest]; [reflexivity|].
  cbn. intros H. now apply Forall_cons in H as [-> _].
Qed.

Lemma serves_rest n h : serves (S n) h -> Forall (fun r => r = false)
                                                 (take n (snd (next_request h))).
Proof.
  unfold serves, next_request. destruct (oom h) as [|r rest].
  - intros _. cbn. now rewrite take_nil.
  - cbn. intros H. now apply Forall_cons in H as [_ ?].
Qed.

Lemma buffer_live_mono h h' buffer :
  (forall d, is_Some (mem h !! d) -> is_Some (mem h' !! d)) ->
  sharing h' = sharing h ->
  buffer_live h buffer -> buffer_live h' buffer.
Proof.
  intros Hm Hs [Hdata Hinfo]. split.
  - intros d Hd. apply Hm, Hdata, Hd.
  - intros s Hsome. destruct (Hinfo s Hsome) as (i & Hi & Hlast).
    exists i. rewrite Hs. split; [assumption|].
    intros E1 sd Hsd. apply Hm. now apply (Hlast E1 sd).
Qed.

Lemma is_Some_insert_block (m : gmap loc (list Byte.byte)) k v d :
  is_Some (m !! d) -> is_Some (<[k := v]> m !! d).
Proof.
  intros H. destruct (decide (k = d)) as [->|Hne].
  - rewrite lookup_insert_eq. eauto.
  - now rewrite lookup_insert_ne.
Qed.

(** Freeing a slot leaves alone every block the slot does not free. *)
Lemma imb_free_buffer_other_block buffer h nb h' d :
  imb_free_buffer buffer h = Ok nb h' ->
  data buffer <> Some d ->
  (forall s i, implicit_sharing buffer = Some s -> sharing h !! s = Some i ->
               strong_users i = 1 -> shared_data i <> Some d) ->
  mem h' !! d = mem h !! d.
Proof.
  unfold imb_free_buffer, free_shared_data. intros H Hd Hs.
  destruct (implicit_sharing buffer) as [s|].
  - apply bind_Ok in H as (a & h2 & H & Hret).
    apply bind_Ok in H as (a1 & h3 & H & Hret1).
    apply ret_Ok in Hret as [_ <-]. apply ret_Ok in Hret1 as [_ <-].
    unfold remove_user_and_delete_if_last in H.
    destruct (sharing h !! s) as [i|] eqn:Ei; [|discriminate].
    destruct (Z.eqb_spec (strong_users i) 1) as [E1|_].
    + destruct (shared_data i) as [sd|] eqn:Esd.
      * unfold MEM_freeN in H. cbn in H.
        destruct (mem h !! sd); [|discriminate]. inversion H; subst; cbn.
        apply lookup_delete_ne. intros ->. now apply (Hs s i).
      * now inversion H.
    + now inversion H.
  - destruct (data buffer) as [d0|]; [|now apply ret_Ok in H as [_ <-]].
    destruct (ownership buffer); [now apply ret_Ok in H as [_ <-]|].
    apply bind_Ok in H as (a & h2 & H & Hret).
    apply ret_Ok in Hret as [_ <-].
    unfold MEM_freeN in H. destruct (mem h !! d0); [|discriminate].
    inversion H; subst; cbn. apply lookup_delete_ne. congruence.
Qed.

Lemma memcpy_run d s n h to from :
  mem h !! d = Some to -> mem h !! s = Some from ->
  0 <= n -> n <= Z.of_nat (length from) -> n <= Z.of_nat (length to) ->
  memcpy (Some d) (Some s) n h
  = Ok tt (set_mem (<[d := take (Z.to_nat n) from ++ drop (Z.to_nat n) to]>
                      (mem h)) h).
Proof.
  intros Hd Hs Hn Hfrom Hto. unfold memcpy. rewrite Hd, Hs.
  destruct (Z.leb_spec n (Z.of_nat (length from))); [|lia].
  destruct (Z.leb_spec n (Z.of_nat (length to))); [|lia].
  reflexivity.
Qed.

(** The successful run of [imb_enlargeencodedbufferImBuf]. *)
Lemma imb_enlargeencodedbufferImBuf_grows p h b :
  ibufs h !! p = Some b ->
  0 <= encoded_size b <= encoded_buffer_size b ->
  (data (encoded_buffer b) <> None ->
   encoded_size b <= grown_capacity (encoded_buffer_size b)) ->
  buffer_live h (encoded_buffer b) ->
  (forall d bytes, data (encoded_buffer b) = Some d ->
     mem h !! d = Some bytes -> encoded_size b <= Z.of_nat (length bytes)) ->
  fst (next_request h) = false ->
  exists d h' b',
    imb_enlargeencodedbufferImBuf (Some p) h = Ok true h' /\
    ibufs h' !! p = Some b' /\
    encoded_buffer b' = mkBuffer (Some d) IB_TAKE_OWNERSHIP None /\
    encoded_buffer_size b' = grown_capacity (encoded_buffer_size b) /\
    has_flag (flags b') IB_mem = true /\
    mem h !! d = None /\
    oom h' = snd (next_request h) /\
    match data (encoded_buffer b) with
    | Some old =>
        exists bytes,
          mem h !! old = Some bytes /\
          encoded_size b' = encoded_size b /\
          mem h' !! d =
            Some (take (Z.to_nat (encoded_size b)) bytes ++
                  replicate (Z.to_nat (grown_capacity (encoded_buffer_size b)
                                       - encoded_size b)) Byte.x00)
    | None =>
        encoded_size b' = 0 /\
        mem h' !! d =
          Some (replicate (Z.to_nat (grown_capacity (encoded_buffer_size b)))
                          Byte.x00)
    end.
Proof.
  intros Hb Hsize Hfit Hlive Hlen Hreq.
  pose proof (grown_capacity_range (encoded_buffer_size b)) as Hrange.
  destruct (imb_alloc_buffer_served empty_buffer
              (grown_capacity (encoded_buffer_size b)) 1 1 sizeof_uint8_t h)
    as (d & Halloc & Hfresh); try assumption.
  { lia. } { unfold uint_modulus. lia. }
  { unfold sizeof_uint8_t, SIZE_MAX, size_t_modulus. lia. }
  { unfold sizeof_uint8_t, SIZE_MAX, size_t_modulus, uint_modulus in *.
    change (2 ^ 64 - 1) with 18446744073709551615.
    rewrite Z.div_1_r. lia. }
  set (cap := grown_capacity (encoded_buffer_size b)) in *.
  replace (cap * 1 * 1 * sizeof_uint8_t) with cap in Halloc
    by (unfold sizeof_uint8_t; lia).
  set (h1 := set_oom _ (set_mem _ h)) in Halloc.
  unfold imb_enlargeencodedbufferImBuf. run_load.
  destruct (Z.ltb_spec (encoded_buffer_size b) (encoded_size b)); [lia|].
  fold (grown_capacity (encoded_buffer_size b)). fold cap.
  run_head Halloc. cbn [negb data].
  assert (Hlive1 : buffer_live h1 (encoded_buffer b)).
  { eapply buffer_live_mono; [| |exact Hlive]; subst h1; cbn; [|reflexivity].
    intros k. apply is_Some_insert_block. }
  destruct Hlive as [Hdata Hinfo].
  destruct (data (encoded_buffer b)) as [old|] eqn:Eold.
  - destruct (Hdata old eq_refl) as [bytes Hold].
    assert (Hne : old <> d) by congruence.
    assert (Hcopy : memcpy (Some d) (Some old) (encoded_size b) h1
              = Ok tt (set_mem (<[d := take (Z.to_nat (encoded_size b)) bytes
                                       ++ drop (Z.to_nat (encoded_size b))
                                            (replicate (Z.to_nat cap) Byte.x00)]>
                                  (mem h1)) h1)).
    { apply memcpy_run.
      - subst h1. cbn. apply lookup_insert_eq.
      - subst h1. cbn. now rewrite lookup_insert_ne by congruence.
      - lia.
      - eapply Hlen; [reflexivity|exact Hold].
      - rewrite length_replicate, Z2Nat.id by lia. apply Hfit. discriminate. }
    run_head Hcopy.
    set (h2 := set_mem _ h1) in *.
    assert (Hlive2 : buffer_live h2 (encoded_buffer b)).
    { eapply buffer_live_mono; [| |exact Hlive1]; subst h2; cbn; [|reflexivity].
      intros k. apply is_Some_insert_block. }
    destruct (imb_free_buffer_live _ h2 Hlive2) as (h3 & Hfree).
    assert (Hb2 : ibufs h2 !! p = Some b) by (subst h2 h1; exact Hb).
    run_load. run_head Hfree.
    pose proof (imb_free_buffer_ibufs _ _ _ _ Hfree) as Hi.
    pose proof (imb_free_buffer_released nowhere _ _ _ _ Hfree)
      as (_ & _ & _ & Ho & _).
    rewrite <- Hi in Hb2. run_update. run_update. run_update.
    erewrite bind_run by (apply update_run; cbn; apply lookup_insert_eq).
    exists d. eexists. eexists. split; [reflexivity|]. cbn.
    split; [apply lookup_insert_eq|]. cbn.
    split; [reflexivity|]. split; [reflexivity|].
    split; [apply (has_flag_set _ EncodedSlot EncodedSlot)|].
    split; [exact Hfresh|]. split; [rewrite Ho; subst h2 h1; reflexivity|].
    exists bytes. split; [exact Hold|]. split; [reflexivity|].
    rewrite (imb_free_buffer_other_block _ _ _ _ d Hfree).
    + subst h2. cbn. rewrite lookup_insert_eq. f_equal. f_equal.
      rewrite drop_replicate. f_equal. lia.
    + rewrite Eold. congruence.
    + intros s i Hs Hi' E1 Hsd.
      destruct (Hinfo s Hs) as (i0 & Hi0 & Hlast).
      assert (i0 = i) by (subst h2 h1; cbn in Hi'; congruence). subst i0.
      destruct (Hlast E1 d Hsd) as [? ?]. congruence.
  - assert (Hb1 : ibufs h1 !! p = Some b) by (subst h1; exact Hb).
    run_update.
    set (h2 := set_ibufs _ h1) in *.
    assert (Hlive2 : buffer_live h2 (encoded_buffer b)).
    { eapply buffer_live_mono; [| |exact Hlive1]; subst h2; cbn;
        [tauto|reflexivity]. }
    assert (Hlive2' : buffer_live h2 (encoded_buffer (set_encoded_size 0 b)))
      by exact Hlive2.
    destruct (imb_free_buffer_live _ h2 Hlive2') as (h3 & Hfree).
    erewrite bind_run by (apply load_run; subst h2; cbn; apply lookup_insert_eq).
    cbv beta. run_head Hfree.
    pose proof (imb_free_buffer_ibufs _ _ _ _ Hfree) as Hi.
    pose proof (imb_free_buffer_released nowhere _ _ _ _ Hfree)
      as (_ & _ & _ & Ho & _).
    assert (Hb3 : ibufs h3 !! p = Some (set_encoded_size 0 b))
      by (rewrite Hi; subst h2; cbn; apply lookup_insert_eq).
    run_update. run_update. run_update.
    erewrite bind_run by (apply update_run; cbn; apply lookup_insert_eq).
    exists d. eexists. eexists. split; [reflexivity|]. cbn.
    split; [apply lookup_insert_eq|]. cbn.
    split; [reflexivity|]. split; [reflexivity|].
    split; [apply (has_flag_set _ EncodedSlot EncodedSlot)|].
    split; [exact Hfresh|]. split; [rewrite Ho; subst h2 h1; reflexivity|].
    split; [reflexivity|].
    rewrite (imb_free_buffer_other_block _ _ _ _ d Hfree).
    + subst h2 h1. cbn. apply lookup_insert_eq.
    + cbn. rewrite Eold. discriminate.
    + intros s i Hs Hi' E1 Hsd.
      destruct (Hinfo s Hs) as (i0 & Hi0 & Hlast).
      assert (i0 = i) by (subst h2 h1; cbn in Hi'; congruence). subst i0.
      destruct (Hlast E1 d Hsd) as [? ?]. congruence.
Qed.

Lemma imb_alloc_buffer_failed buffer x y c t h nb h' :
  imb_alloc_buffer buffer x y c t h = Ok (false, nb) h' ->
  ibufs h' = ibufs h /\ mem h' = mem h /\ sharing h' = sharing h.
Proof.
  intros H. pose proof (imb_alloc_buffer_cases buffer x y c t h) as Hc.
  rewrite H in Hc. tauto.
Qed.

Lemma enlarge_bad_parameters p h b :
  ibufs h !! p = Some b -> encoded_buffer_size b < encoded_size b ->
  imb_enlargeencodedbufferImBuf (Some p) h
  = Ok false (set_trace (trace h ++ [EvPrintErrorInParameters]) h).
Proof.
  intros Hb Hlt. unfold imb_enlargeencodedbufferImBuf. run_load.
  destruct (Z.ltb_spec (encoded_buffer_size b) (encoded_size b)); [|lia].
  reflexivity.
Qed.

Lemma enlarge_failure_untouched ibuf h h' :
  imb_enlargeencodedbufferImBuf ibuf h = Ok false h' ->
  ibufs h' = ibufs h /\ mem h' = mem h /\ sharing h' = sharing h.
Proof.
  unfold imb_enlargeencodedbufferImBuf. intros H.
  destruct ibuf as [p|]; [|now apply ret_Ok in H as [_ <-]].
  apply bind_Ok in H as (b & h0 & Hl & H).
  apply load_Ok in Hl as (p0 & [= <-] & Hb & ->).
  destruct (encoded_buffer_size b <? encoded_size b).
  { apply bind_Ok in H as ([] & h1 & He & H). apply ret_Ok in H as [_ <-].
    inversion He. now subst. }
  apply bind_Ok in H as ([ok new_buffer] & h1 & Halloc & H).
  destruct ok; cbn [negb] in H.
  - exfalso.
    apply bind_Ok in H as ([] & h2 & _ & H).
    apply bind_Ok in H as (b2 & h3 & _ & H).
    apply bind_Ok in H as (nb & h4 & _ & H).
    apply bind_Ok in H as ([] & h5 & _ & H).
    apply bind_Ok in H as ([] & h6 & _ & H).
    apply bind_Ok in H as ([] & h7 & _ & H).
    apply bind_Ok in H as ([] & h8 & _ & H).
    apply ret_Ok in H as [H _]. discriminate.
  - apply ret_Ok in H as [_ <-]. eapply imb_alloc_buffer_failed, Halloc.
Qed.

(** C6: (1) a growth request with the in-use size above the capacity
    fails, reporting the error and changing no aggregate, block or control
    block; (2) every failed growth leaves the aggregates, the blocks and the
    control blocks as they were; (3) from capacity 0, with the allocator
    serving, the first growth yields a zeroed buffer of capacity 10000, and
    after the [n <= 10000] bytes of the buffer have been written the second
    growth yields capacity 20000 with these [n] bytes at the start of the
    new buffer. *)
Theorem imb_enlargeencodedbufferImBuf_growth p h b :
  ibufs h !! p = Some b ->
  (encoded_buffer_size b < encoded_size b ->
     imb_enlargeencodedbufferImBuf (Some p) h
     = Ok false (set_trace (trace h ++ [EvPrintErrorInParameters]) h)) /\
  (forall h', imb_enlargeencodedbufferImBuf (Some p) h = Ok false h' ->
     ibufs h' = ibufs h /\ mem h' = mem h /\ sharing h' = sharing h) /\
  (encoded_buffer_size b = 0 -> encoded_size b = 0 ->
   buffer_live h (encoded_buffer b) -> serves 2 h ->
     exists d1 h1 b1,
       imb_enlargeencodedbufferImBuf (Some p) h = Ok true h1 /\
       ibufs h1 !! p = Some b1 /\
       encoded_buffer_size b1 = 10000 /\
       encoded_buffer b1 = mkBuffer (Some d1) IB_TAKE_OWNERSHIP None /\
       mem h1 !! d1 = Some (replicate (Z.to_nat 10000) Byte.x00) /\
       forall written n,
         Z.of_nat (length written) = 10000 -> 0 <= n <= 10000 ->
         exists d2 h2 b2,
           imb_enlargeencodedbufferImBuf (Some p)
             (write_encoded p d1 written n h1) = Ok true h2 /\
           ibufs h2 !! p = Some b2 /\
           encoded_buffer_size b2 = 20000 /\
           encoded_size b2 = n /\
           encoded_buffer b2 = mkBuffer (Some d2) IB_TAKE_OWNERSHIP None /\
           mem h2 !! d2 =
             Some (take (Z.to_nat n) written ++
                   replicate (Z.to_nat (20000 - n)) Byte.x00)).
Proof.
  intros Hb. split; [now apply enlarge_bad_parameters|].
  split; [intros h'; apply enlarge_failure_untouched|].
  intros Hcap Hsize Hlive Hserves.
  destruct (imb_enlargeencodedbufferImBuf_grows p h b Hb)
    as (d1 & h1 & b1 & Hrun & Hb1 & Hbuf & Hcap1 & _ & _ & Hoom & Hcontent);
    [lia| |exact Hlive| |eapply serves_next, Hserves|].
  { intros _. pose proof (grown_capacity_range (encoded_buffer_size b)). lia. }
  { intros d bytes _ _. lia. }
  rewrite Hcap in *. change (grown_capacity 0) with 10000 in *.
  assert (Hzeros : mem h1 !! d1 = Some (replicate (Z.to_nat 10000) Byte.x00)).
  { destruct (data (encoded_buffer b)).
    - destruct Hcontent as (bytes & _ & _ & ->). rewrite Hsize.
      now rewrite take_0.
    - now destruct Hcontent as [_ ->]. }
  exists d1, h1, b1. repeat split; try assumption.
  intros written n Hlen Hn.
  remember (write_encoded p d1 written n h1) as hw eqn:Ehw.
  assert (Hbw : ibufs hw !! p = Some (set_encoded_size n b1)).
  { rewrite Ehw. unfold write_encoded. cbn. rewrite lookup_alter_eq, Hb1.
    reflexivity. }
  assert (Hdw : mem hw !! d1 = Some written)
    by (rewrite Ehw; unfold write_encoded; cbn; apply lookup_insert_eq).
  destruct (imb_enlargeencodedbufferImBuf_grows p hw _ Hbw)
    as (d2 & h2 & b2 & Hrun2 & Hb2 & Hbuf2 & Hcap2 & _ & _ & _ & Hcontent2).
  { cbn. lia. }
  { cbn. rewrite Hcap1. change (grown_capacity 10000) with 20000. lia. }
  { cbn. rewrite Hbuf. split; cbn.
    - intros d [= <-]. eauto.
    - discriminate. }
  { cbn. rewrite Hbuf. cbn. intros d bytes [= <-] Hd.
    assert (bytes = written) by congruence. subst. lia. }
  { assert (Ho : oom hw = snd (next_request h)) by (rewrite Ehw; exact Hoom).
    apply serves_rest in Hserves. unfold next_request. rewrite Ho.
    destruct (snd (next_request h)) as [|r rest]; [reflexivity|].
    cbn in *. now apply Forall_cons in Hserves as [-> _]. }
  cbn in Hcap2, Hcontent2. rewrite Hbuf in Hcontent2. cbn in Hcontent2.
  rewrite Hcap1 in *. change (grown_capacity 10000) with 20000 in *.
  destruct Hcontent2 as (bytes & Hbytes & Hsize2 & Hmem2).
  assert (bytes = written) by congruence. subst bytes.
  exists d2, h2, b2. repeat split; assumption.
Qed.

Lemma imb_enlargeencodedbufferImBuf_growth_witness :
  exists d1 h1 b1,
    imb_enlargeencodedbufferImBuf (Some 1%positive) heap_no_encoded
    = Ok true h1 /\
    ibufs h1 !! 1%positive = Some b1 /\
    encoded_buffer_size b1 = 10000 /\
    encoded_buffer b1 = mkBuffer (Some d1) IB_TAKE_OWNERSHIP None /\
    mem h1 !! d1 = Some (replicate (Z.to_nat 10000) Byte.x00) /\
    forall written n,
      Z.of_nat (length written) = 10000 -> 0 <= n <= 10000 ->
      exists d2 h2 b2,
        imb_enlargeencodedbufferImBuf (Some 1%positive)
          (write_encoded 1%positive d1 written n h1) = Ok true h2 /\
        ibufs h2 !! 1%positive = Some b2 /\
        encoded_buffer_size b2 = 20000 /\
        encoded_size b2 = n /\
        encoded_buffer b2 = mkBuffer (Some d2) IB_TAKE_OWNERSHIP None /\
        mem h2 !! d2 =
          Some (take (Z.to_nat n) written ++
                replicate (Z.to_nat (20000 - n)) Byte.x00).
Proof.
  apply (imb_enlargeencodedbufferImBuf_growth 1%positive heap_no_encoded
           zero_ImBuf).
  - reflexivity.
  - reflexivity.
  - reflexivity.
  - split; cbn; discriminate.
  - unfold serves. cbn. constructor.
Defined.

(** ** Growing an encoded buffer that was never allocated *)

(** C10, the claim as amended: for a non-null aggregate whose encoded slot
    is empty and whose in-use size does not exceed the recorded capacity,
    a growth request that the allocator serves returns true: the in-use size
    is zero, the slot holds a fresh, owned, zero-initialized buffer whose
    size is the new capacity, the capacity is updated to it and [IB_mem] is
    set.  The new capacity is twice the old one computed in [uint], at least
    10000; it is [max (2 * old) 10000] for capacities below [2^31]. *)
Theorem imb_enlargeencodedbufferImBuf_unallocated p h b :
  ibufs h !! p = Some b ->
  data (encoded_buffer b) = None ->
  implicit_sharing (encoded_buffer b) = None ->
  0 <= encoded_size b <= encoded_buffer_size b ->
  fst (next_request h) = false ->
  exists d h' b',
    imb_enlargeencodedbufferImBuf (Some p) h = Ok true h' /\
    ibufs h' !! p = Some b' /\
    encoded_size b' = 0 /\
    encoded_buffer b' = mkBuffer (Some d) IB_TAKE_OWNERSHIP None /\
    mem h !! d = None /\
    mem h' !! d =
      Some (replicate (Z.to_nat (grown_capacity (encoded_buffer_size b)))
                      Byte.x00) /\
    encoded_buffer_size b' = grown_capacity (encoded_buffer_size b) /\
    has_flag (flags b') IB_mem = true /\
    (encoded_buffer_size b < 2 ^ 31 ->
     grown_capacity (encoded_buffer_size b)
     = Z.max (2 * encoded_buffer_size b) 10000).
Proof.
  intros Hb Hdata Hinfo Hsize Hreq.
  destruct (imb_enlargeencodedbufferImBuf_grows p h b Hb Hsize)
    as (d & h' & b' & Hrun & Hb' & Hbuf & Hcap & Hflag & Hfresh & _ & Hcontent).
  { intros Hne. congruence. }
  { split; [intros d; congruence|intros s; congruence]. }
  { intros d bytes Hd. congruence. }
  { exact Hreq. }
  rewrite Hdata in Hcontent. destruct Hcontent as [Hsize' Hmem].
  exists d, h', b'. repeat split; try assumption.
  intros Hsmall. apply grown_capacity_small. lia.
Qed.

Lemma imb_enlargeencodedbufferImBuf_unallocated_witness :
  exists d h' b',
    imb_enlargeencodedbufferImBuf (Some 1%positive) heap_no_encoded
    = Ok true h' /\
    ibufs h' !! 1%positive = Some b' /\
    encoded_size b' = 0 /\
    encoded_buffer b' = mkBuffer (Some d) IB_TAKE_OWNERSHIP None /\
    mem heap_no_encoded !! d = None /\
    mem h' !! d = Some (replicate (Z.to_nat (grown_capacity 0)) Byte.x00) /\
    encoded_buffer_size b' = grown_capacity 0 /\
    has_flag (flags b') IB_mem = true /\
    (0 < 2 ^ 31 -> grown_capacity 0 = Z.max (2 * 0) 10000).
Proof.
  apply (imb_enlargeencodedbufferImBuf_unallocated 1%positive heap_no_encoded
           zero_ImBuf); try reflexivity.
  cbn. lia.
Defined.

(** C10, the claim as stated fails: with a recorded capacity of [2^31] the
    doubling wraps around to zero and the new capacity is 10000, not
    [max (2 * 2^31) 10000]. *)
Lemma imb_enlargeencodedbufferImBuf_capacity_wraps :
  exists h' b',
    imb_enlargeencodedbufferImBuf (Some 1%positive) heap_large_capacity
    = Ok true h' /\
    ibufs h' !! 1%positive = Some b' /\
    encoded_buffer_size b' = 10000 /\
    encoded_buffer_size b' <> Z.max (2 * 2147483648) 10000.
Proof.
  eexists. eexists. split; [vm_compute; reflexivity|].
  split; [vm_compute; reflexivity|]. split; [reflexivity|]. cbn. lia.
Qed.

(** ** The flag invariant *)

Lemma slot_state_lor s s0 b :
  s <> s0 ->
  slot_state s (set_flags (Z.lor (flags b) (slot_flag s0)) b) = slot_state s b.
Proof.
  intros Hne. unfold slot_state. cbn [flags set_flags].
  rewrite has_flag_set. case_decide as E.
  - apply slot_bit_inj in E. congruence.
  - now destruct s.
Qed.

Lemma slot_state_clear s s0 b :
  s <> s0 ->
  slot_state s (set_flags (Z.land (flags b) (Z.lnot (slot_flag s0))) b)
  = slot_state s b.
Proof.
  intros Hne. unfold slot_state. cbn [flags set_flags].
  rewrite has_flag_clear. case_decide as E.
  - apply slot_bit_inj in E. congruence.
  - now destruct s.
Qed.

Lemma slot_state_set s0 b :
  fst (slot_state s0 (set_flags (Z.lor (flags b) (slot_flag s0)) b)) = true.
Proof.
  unfold slot_state. cbn [fst flags set_flags]. rewrite has_flag_set.
  now case_decide.
Qed.

Lemma slot_state_cleared s0 b :
  fst (slot_state s0 (set_flags (Z.land (flags b) (Z.lnot (slot_flag s0))) b))
  = false.
Proof.
  unfold slot_state. cbn [fst flags set_flags]. rewrite has_flag_clear.
  now case_decide.
Qed.

Lemma slot_state_refcounter s v b :
  slot_state s (set_refcounter v b) = slot_state s b.
Proof. now destruct s. Qed.

Lemma flags_invariant_same_but_refcounter b b' :
  same_but_refcounter b b' -> flags_invariant b -> flags_invariant b'.
Proof.
  intros [E _] Hinv s. rewrite E, slot_state_refcounter. apply Hinv.
Qed.

#[global] Instance touches_refl p touched : Reflexive (touches p touched).
Proof.
  intros h. split; [apply ibufs_released_refl|]. intros b' Hb'. eauto.
Qed.

#[global] Instance touches_trans p touched : Transitive (touches p touched).
Proof.
  intros h1 h2 h3 [I12 K12] [I23 K23]. split.
  - eapply ibufs_released_trans; eassumption.
  - intros b3 Hb3. destruct (K23 b3 Hb3) as (b2 & Hb2 & E23).
    destruct (K12 b2 Hb2) as (b1 & Hb1 & E12).
    exists b1. split; [assumption|]. intros s Hs.
    now rewrite E23, E12.
Qed.

Lemma touches_more p (t t' : slot -> bool) h h' :
  (forall s, t s = true -> t' s = true) ->
  touches p t h h' -> touches p t' h h'.
Proof.
  intros Hsub [I K]. split; [exact I|]. intros b' Hb'.
  destruct (K b' Hb') as (b & Hb & E). exists b. split; [assumption|].
  intros s Hs. apply E. destruct (t s) eqn:Et; [|reflexivity].
  apply Hsub in Et. congruence.
Qed.

(** The invariant after a run that touches some slots of [p]: it is enough
    to look at those slots. *)
Lemma touches_invariant p touched h h' :
  touches p touched h h' -> heap_invariant h ->
  (forall s b', touched s = true -> ibufs h' !! p = Some b' ->
                consistent (slot_state s b')) ->
  heap_invariant h'.
Proof.
  intros [I K] Hinv Hp q b' Hq. destruct (decide (q = p)) as [->|Hne].
  - intros s. destruct (touched s) eqn:Et; [now apply Hp|].
    destruct (K b' Hq) as (b & Hb & E). rewrite (E s Et). now apply (Hinv p).
  - destruct (I q b' Hne Hq) as (b & Hb & Hsame).
    eapply flags_invariant_same_but_refcounter; [exact Hsame|].
    now apply (Hinv q).
Qed.

Lemma same_ibufs_touches {A : Type} p touched (m : M A) :
  same_ibufs m -> pres (touches p touched) m.
Proof.
  intros Hm h a h' H. apply Hm in H. split.
  - rewrite H. apply ibufs_released_refl.
  - intros b' Hb'. rewrite H in Hb'. eauto.
Qed.

Lemma released_touches p touched h h' :
  heap_released nowhere h h' -> touches p touched h h'.
Proof.
  intros (I & _). split.
  - eapply ibufs_released_skip; [|exact I]. intros q [].
  - intros b' Hb'. destruct (I p b' (fun F => F) Hb') as (b & Hb & E & _).
    exists b. split; [assumption|]. intros s _.
    rewrite E. apply slot_state_refcounter.
Qed.

Lemma update_touches p (touched : slot -> bool) f :
  (forall b s, touched s = false -> slot_state s (f b) = slot_state s b) ->
  pres (touches p touched) (update (Some p) f).
Proof.
  intros Hf h u h' H. inv_run H. inversion Eptr; subst. split; cbn.
  - intros q b' Hq Hl. rewrite lookup_insert_ne in Hl by congruence.
    eauto using same_but_refcounter_refl.
  - intros b' Hb'. rewrite lookup_insert_eq in Hb'. inversion Hb'; subst.
    exists b. split; [assumption|]. intros s Hs. now apply Hf.
Qed.

(** Computations that leave the aggregates alone. *)

Lemma same_ibufs_ret {A : Type} (a : A) : same_ibufs (mret a : M A).
Proof. intros h b h' H. now apply ret_Ok in H as [_ <-]. Qed.

Lemma same_ibufs_bind {A B : Type} (m : M A) (k : A -> M B) :
  same_ibufs m -> (forall a, same_ibufs (k a)) -> same_ibufs (m ≫= k).
Proof.
  intros Hm Hk h b h' H. apply bind_Ok in H as (a & h1 & H1 & H2).
  rewrite (Hk a _ _ _ H2). eapply Hm, H1.
Qed.

Lemma same_ibufs_fault {A : Type} : same_ibufs (@fault A).
Proof. intros h a h' H. discriminate. Qed.

Lemma MEM_freeN_same ptr : same_ibufs (MEM_freeN ptr).
Proof. intros h u h'. apply MEM_freeN_ibufs. Qed.

Lemma remove_user_same info : same_ibufs (remove_user_and_delete_if_last info).
Proof. intros h u h'. apply remove_user_ibufs. Qed.

Lemma imb_free_buffer_same buffer : same_ibufs (imb_free_buffer buffer).
Proof. intros h nb h'. apply imb_free_buffer_ibufs. Qed.

Lemma MEM_callocN_same size : same_ibufs (MEM_callocN size).
Proof.
  intros h a h' H. unfold MEM_callocN in H.
  destruct (next_request h) as [[|] rest]; now inversion H.
Qed.

Lemma imb_alloc_pixels_same x y c t : same_ibufs (imb_alloc_pixels x y c t).
Proof.
  unfold imb_alloc_pixels.
  destruct (_ =? 0); [apply same_ibufs_fault|].
  destruct (negb _); [apply same_ibufs_ret|apply MEM_callocN_same].
Qed.

Lemma imb_alloc_buffer_same buffer x y c t :
  same_ibufs (imb_alloc_buffer buffer x y c t).
Proof.
  unfold imb_alloc_buffer.
  apply same_ibufs_bind; [apply imb_alloc_pixels_same|].
  intros [d|]; apply same_ibufs_ret.
Qed.

Lemma MEM_dupallocN_same ptr : same_ibufs (MEM_dupallocN ptr).
Proof.
  intros h a h' H. unfold MEM_dupallocN in H.
  destruct ptr as [p|]; [|now inversion H].
  destruct (mem h !! p); now inversion H.
Qed.

Lemma memcpy_same dst src n : same_ibufs (memcpy dst src n).
Proof.
  intros h a h' H. unfold memcpy in H.
  destruct dst as [d|], src as [s|]; try discriminate.
  destruct (mem h !! d), (mem h !! s); try discriminate.
  destruct (_ && _); now inversion H.
Qed.

Lemma emit_same e : same_ibufs (emit e).
Proof. intros h a h' H. now inversion H. Qed.

Lemma imb_make_writeable_buffer_same buffer :
  same_ibufs (imb_make_writeable_buffer buffer).
Proof.
  unfold imb_make_writeable_buffer.
  destruct (data buffer); [|apply same_ibufs_ret].
  destruct (ownership buffer); [|apply same_ibufs_ret].
  apply same_ibufs_bind; [apply MEM_dupallocN_same|intros q].
  destruct (implicit_sharing buffer); [|apply same_ibufs_ret].
  apply same_ibufs_bind; [apply remove_user_same|intros _].
  apply same_ibufs_ret.
Qed.

Lemma add_user_same info : same_ibufs (add_user info).
Proof.
  intros h a h' H. unfold add_user in H.
  destruct info as [s|]; [|discriminate].
  destruct (sharing h !! s); now inversion H.
Qed.

Lemma imb_assign_shared_buffer_same buffer d info :
  same_ibufs (imb_assign_shared_buffer buffer d info).
Proof.
  unfold imb_assign_shared_buffer, copy_shared_pointer.
  apply same_ibufs_bind; [apply imb_free_buffer_same|intros nb].
  destruct info; [|apply same_ibufs_ret].
  apply same_ibufs_bind; [|intros [? ?]; apply same_ibufs_ret].
  destruct d; [|apply same_ibufs_ret].
  apply same_ibufs_bind; [apply add_user_same|intros _; apply same_ibufs_ret].
Qed.

Lemma released_invariant h h' :
  heap_released nowhere h h' -> heap_invariant h -> heap_invariant h'.
Proof.
  intros Hrel Hinv. eapply (touches_invariant 1%positive no_slot h h');
    [now apply released_touches|exact Hinv|discriminate].
Qed.

Lemma inv_pres_ret {A : Type} (a : A) : inv_pres (mret a : M A).
Proof. intros h b h' Hinv H. now apply ret_Ok in H as [_ <-]. Qed.

Lemma inv_pres_bind {A B : Type} (m : M A) (k : A -> M B) :
  inv_pres m -> (forall a, inv_pres (k a)) -> inv_pres (m ≫= k).
Proof.
  intros Hm Hk h b h' Hinv H. apply bind_Ok in H as (a & h1 & H1 & H2).
  eapply Hk; [|exact H2]. eapply Hm; eassumption.
Qed.

Lemma inv_pres_same_ibufs {A : Type} (m : M A) : same_ibufs m -> inv_pres m.
Proof.
  intros Hm h a h' Hinv H q b Hq. rewrite (Hm _ _ _ H) in Hq.
  now apply (Hinv q).
Qed.

Lemma inv_pres_fault {A : Type} : inv_pres (@fault A).
Proof. intros h a h' _ H. discriminate. Qed.

Lemma inv_pres_load ibuf : inv_pres (load ibuf).
Proof. intros h b h' Hinv H. inv_run H. exact Hinv. Qed.

(** A write that keeps the state of every slot. *)
Lemma inv_pres_update ibuf f :
  (forall b s, slot_state s (f b) = slot_state s b) ->
  inv_pres (update ibuf f).
Proof.
  intros Hf h u h' Hinv H. inv_run H.
  eapply (touches_invariant p no_slot h); [|exact Hinv|discriminate].
  eapply update_touches; [|now apply update_run]. intros b0 s _. apply Hf.
Qed.

Lemma IMB_freeImBuf_invariant fuel ibuf : inv_pres (IMB_freeImBuf fuel ibuf).
Proof.
  intros h u h' Hinv H. eapply released_invariant; [|exact Hinv].
  eapply IMB_freeImBuf_released, H.
Qed.

Lemma IMB_refImBuf_invariant ibuf : inv_pres (IMB_refImBuf ibuf).
Proof. apply inv_pres_update. intros b s. apply slot_state_refcounter. Qed.

(** *** Freeing a slot *)

Lemma just_other s s0 : just s0 s = false -> s <> s0.
Proof. unfold just. intros H ->. now rewrite bool_decide_eq_true_2 in H. Qed.

Lemma just_same s s0 : just s0 s = true -> s = s0.
Proof. unfold just. intros H. now apply bool_decide_eq_true_1 in H. Qed.

(** The shape of the functions that free one slot: free the buffer, store
    the emptied buffer, do something in between, clear the flag. *)
Section free_phase.
Variable s0 : slot.
Variable set : Buffer -> ImBuf -> ImBuf.
Variable mid : M unit.
Variable p : loc.
Hypothesis set_get : forall v b, slot_buffer s0 (set v b) = v.
Hypothesis set_other :
  forall v b s, s <> s0 -> slot_state s (set v b) = slot_state s b.
Hypothesis mid_touches : pres (touches p no_slot) mid.
Hypothesis mid_keeps : pres (keeps p (slot_buffer s0)) mid.

Lemma free_phase_touches : pres (touches p (just s0)) (free_phase s0 set mid p).
Proof.
  unfold free_phase.
  apply pres_bind; [apply _|apply pres_load; apply _|intros b].
  apply pres_bind; [apply _| |intros nb].
  { apply same_ibufs_touches, imb_free_buffer_same. }
  apply pres_bind; [apply _| |intros _].
  { apply update_touches. intros b0 s Hs. apply set_other.
    now apply just_other. }
  apply pres_bind; [apply _| |intros _].
  { eapply pres_weaken; [|exact mid_touches].
    intros h h'. apply touches_more. discriminate. }
  apply update_touches. intros b0 s Hs. apply slot_state_clear.
  now apply just_other.
Qed.

Lemma free_phase_cleared h h' b' :
  free_phase s0 set mid p h = Ok tt h' -> ibufs h' !! p = Some b' ->
  slot_state s0 b' = (false, None).
Proof.
  unfold free_phase. intros H Hb'.
  apply bind_Ok in H as (b & h0 & Hl & H).
  apply load_Ok in Hl as (p0 & [= <-] & Hb & ->).
  apply bind_Ok in H as (nb & h1 & Hfree & H).
  apply imb_free_buffer_empty in Hfree. subst nb.
  apply bind_Ok in H as ([] & h2 & Hu & H).
  apply update_Ok in Hu as (p0 & b1 & [= <-] & Hb1 & ->).
  apply bind_Ok in H as ([] & h3 & Hmid & H).
  apply update_Ok in H as (p0 & b3 & [= <-] & Hb3 & ->).
  cbn in Hb'. rewrite lookup_insert_eq in Hb'. inversion Hb'; subst b'.
  destruct (mid_keeps _ _ _ Hmid b3 Hb3) as (b2 & Hb2 & E).
  cbn in Hb2. rewrite lookup_insert_eq in Hb2. inversion Hb2; subst b2.
  rewrite set_get in E.
  apply injective_projections.
  - apply slot_state_cleared.
  - unfold slot_state. cbn [snd].
    replace (slot_buffer s0 (set_flags _ b3)) with (slot_buffer s0 b3)
      by now destruct s0.
    now rewrite E.
Qed.

Lemma free_phase_invariant : inv_pres (free_phase s0 set mid p).
Proof.
  intros h [] h' Hinv H.
  eapply (touches_invariant p (just s0) h h');
    [eapply free_phase_touches, H|exact Hinv|].
  intros s b' Hs Hb'. apply just_same in Hs. subst s.
  rewrite (free_phase_cleared _ _ _ H Hb'). split; cbn; congruence.
Qed.
End free_phase.

Lemma pres_skip {R : Heap -> Heap -> Prop} `{!Reflexive R} :
  pres R (mret tt : M unit).
Proof. apply pres_ret; apply _. Qed.

Section release_invariant.
Variable release : option loc -> M unit.
Hypothesis release_released :
  forall c, pres (heap_released nowhere) (release c).

Lemma imb_freemipmapImBuf_touches p :
  pres (touches p no_slot) (imb_freemipmapImBuf_with release (Some p)).
Proof.
  intros h u h' H. split.
  - eapply imb_freemipmapImBuf_released; eassumption.
  - intros b' Hb'.
    assert (K : forall s, keeps p (slot_state s) h h').
    { intros s.
      eapply (imb_freemipmapImBuf_keeps p (slot_state s) release);
        try eassumption; intros; now destruct s. }
    destruct (K ByteSlot b' Hb') as (b & Hb & _).
    exists b. split; [assumption|]. intros s _.
    eapply keeps_lookup; [apply K|eassumption..].
Qed.

Lemma imb_freemipmapImBuf_invariant ibuf :
  inv_pres (imb_freemipmapImBuf_with release ibuf).
Proof.
  destruct ibuf as [p|].
  - intros h u h' Hinv H.
    eapply (touches_invariant p no_slot h h');
      [eapply imb_freemipmapImBuf_touches, H|exact Hinv|discriminate].
  - intros h u h' _ H. discriminate.
Qed.

Lemma imb_freemipmapImBuf_keeps_slot p s0 :
  pres (keeps p (slot_buffer s0)) (imb_freemipmapImBuf_with release (Some p)).
Proof.
  apply (imb_freemipmapImBuf_keeps p (slot_buffer s0) release);
    try assumption; intros; now destruct s0.
Qed.

Lemma imb_freerectImBuf_invariant ibuf :
  inv_pres (imb_freerectImBuf_with release ibuf).
Proof.
  destruct ibuf as [p|]; [|apply inv_pres_ret].
  apply (free_phase_invariant ByteSlot set_byte_buffer
           (imb_freemipmapImBuf_with release (Some p)) p).
  - reflexivity.
  - intros v b s Hs. now destruct s.
  - apply imb_freemipmapImBuf_touches.
  - apply imb_freemipmapImBuf_keeps_slot.
Qed.

Lemma imb_freerectfloatImBuf_invariant ibuf :
  inv_pres (imb_freerectfloatImBuf_with release ibuf).
Proof.
  destruct ibuf as [p|]; [|apply inv_pres_ret].
  apply (free_phase_invariant FloatSlot set_float_buffer
           (imb_freemipmapImBuf_with release (Some p)) p).
  - reflexivity.
  - intros v b s Hs. now destruct s.
  - apply imb_freemipmapImBuf_touches.
  - apply imb_freemipmapImBuf_keeps_slot.
Qed.
End release_invariant.

Lemma IMB_freezbufImBuf_as_phase p :
  IMB_freezbufImBuf (Some p)
  = free_phase ZSlot set_z_buffer (mret tt) p.
Proof. reflexivity. Qed.

Lemma IMB_freezbuffloatImBuf_as_phase p :
  IMB_freezbuffloatImBuf (Some p)
  = free_phase FloatZSlot set_float_z_buffer (mret tt) p.
Proof. reflexivity. Qed.

Lemma IMB_freezbufImBuf_invariant ibuf : inv_pres (IMB_freezbufImBuf ibuf).
Proof.
  destruct ibuf as [p|]; [|apply inv_pres_ret].
  rewrite IMB_freezbufImBuf_as_phase. apply free_phase_invariant.
  - reflexivity.
  - intros v b s Hs. now destruct s.
  - apply pres_skip.
  - apply pres_skip.
Qed.

Lemma IMB_freezbuffloatImBuf_invariant ibuf :
  inv_pres (IMB_freezbuffloatImBuf ibuf).
Proof.
  destruct ibuf as [p|]; [|apply inv_pres_ret].
  rewrite IMB_freezbuffloatImBuf_as_phase. apply free_phase_invariant.
  - reflexivity.
  - intros v b s Hs. now destruct s.
  - apply pres_skip.
  - apply pres_skip.
Qed.

(** *** Allocating a slot *)

(** The invariant after the aggregate [p] has been overwritten. *)
Lemma invariant_store p (touched : slot -> bool) h h' b b' :
  heap_invariant h -> ibufs h !! p = Some b ->
  ibufs h' = <[p := b']> (ibufs h) ->
  (forall s, touched s = false -> slot_state s b' = slot_state s b) ->
  (forall s, touched s = true -> consistent (slot_state s b')) ->
  heap_invariant h'.
Proof.
  intros Hinv Hb Hi Hother Htouched q bq Hq. rewrite Hi in Hq.
  destruct (decide (p = q)) as [->|Hne].
  - rewrite lookup_insert_eq in Hq. inversion Hq; subst bq. intros s.
    destruct (touched s) eqn:Et; [now apply Htouched|].
    rewrite (Hother s Et). now apply (Hinv q).
  - rewrite lookup_insert_ne in Hq by assumption. now apply (Hinv q).
Qed.

Lemma imb_alloc_buffer_data buffer x y c t h ok nb h' :
  imb_alloc_buffer buffer x y c t h = Ok (ok, nb) h' ->
  (ok = true <-> data nb <> None).
Proof.
  intros H. pose proof (imb_alloc_buffer_cases buffer x y c t h) as Hc.
  rewrite H in Hc. destruct ok.
  - destruct Hc as (d & -> & _). cbn. split; congruence.
  - destruct Hc as (-> & _). cbn. split; congruence.
Qed.

Ltac inv_update H :=
  let b := fresh "b" in
  let Hb := fresh "Hb" in
  apply update_Ok in H as (? & b & [= <-] & Hb & ->);
  cbn [ibufs set_ibufs] in Hb;
  try (rewrite lookup_insert_eq in Hb; inversion Hb; subst b; clear Hb).

Ltac inv_load H :=
  let b := fresh "b" in
  let Hb := fresh "Hb" in
  apply load_Ok in H as (? & [= <-] & Hb & ->);
  cbn [ibufs set_ibufs] in Hb;
  try (rewrite lookup_insert_eq in Hb; inversion Hb; subst; clear Hb).

Lemma consistent_cleared : consistent (false, None).
Proof. split; cbn; congruence. Qed.

Lemma consistent_set d : consistent (true, Some d).
Proof. split; cbn; congruence. Qed.

Lemma has_flag_lor_other f s s0 :
  s <> s0 ->
  has_flag (Z.lor f (slot_flag s0)) (slot_flag s) = has_flag f (slot_flag s).
Proof.
  intros Hne. rewrite has_flag_set. case_decide as E; [|reflexivity].
  apply slot_bit_inj in E. congruence.
Qed.

Lemma has_flag_clear_other f s s0 :
  s <> s0 ->
  has_flag (Z.land f (Z.lnot (slot_flag s0))) (slot_flag s)
  = has_flag f (slot_flag s).
Proof.
  intros Hne. rewrite has_flag_clear. case_decide as E; [|reflexivity].
  apply slot_bit_inj in E. congruence.
Qed.

Lemma has_flag_lor_same f s0 :
  has_flag (Z.lor f (slot_flag s0)) (slot_flag s0) = true.
Proof. rewrite has_flag_set. now case_decide. Qed.

Lemma has_flag_clear_same f s0 :
  has_flag (Z.land f (Z.lnot (slot_flag s0))) (slot_flag s0) = false.
Proof. rewrite has_flag_clear. now case_decide. Qed.

(** Projections of a structure that has just been written to. *)
Ltac fields :=
  cbn [x y planes channels flags byte_buffer float_buffer z_buffer
       float_z_buffer encoded_buffer encoded_buffer_size encoded_size
       mipmap miptot refcounter metadata colormanage_cache
       display_buffer_flags dds_data ftype foptions_quality
       set_channels set_flags set_byte_buffer set_float_buffer set_z_buffer
       set_float_z_buffer set_encoded_buffer set_encoded_buffer_size
       set_encoded_size set_mipmap set_miptot set_refcounter
       data ownership implicit_sharing fst snd].

(** The state of the slot [s], which is not the slot [s0] that was
    written to, has not changed. *)
Ltac other_slot s Hs s0 :=
  unfold slot_state; apply injective_projections; cbn [fst snd];
  [ fields;
    repeat first [ rewrite (has_flag_lor_other _ s s0 Hs)
                 | rewrite (has_flag_clear_other _ s s0 Hs) ];
    first [ reflexivity
          | apply (has_flag_lor_other _ s s0 Hs)
          | apply (has_flag_clear_other _ s s0 Hs) ]
  | destruct s; fields; cbn [slot_buffer]; fields;
    first [ reflexivity | congruence ] ].

Lemma sets_slot_byte : sets_slot ByteSlot set_byte_buffer.
Proof. repeat split; intros; try reflexivity. now destruct s. Qed.
Lemma sets_slot_float : sets_slot FloatSlot set_float_buffer.
Proof. repeat split; intros; try reflexivity. now destruct s. Qed.
Lemma sets_slot_z : sets_slot ZSlot set_z_buffer.
Proof. repeat split; intros; try reflexivity. now destruct s. Qed.
Lemma sets_slot_float_z : sets_slot FloatZSlot set_float_z_buffer.
Proof. repeat split; intros; try reflexivity. now destruct s. Qed.
Lemma sets_slot_encoded : sets_slot EncodedSlot set_encoded_buffer.
Proof. repeat split; intros; try reflexivity. now destruct s. Qed.

Lemma slot_state_flags s f b :
  slot_state s (set_flags f b) = (has_flag f (slot_flag s), data (slot_buffer s b)).
Proof. now destruct s. Qed.

Section slot_shapes.
Variable s0 : slot.
Variable set : Buffer -> ImBuf -> ImBuf.
Hypothesis Hset : sets_slot s0 set.

Lemma slot_state_set_other v b s :
  s <> s0 -> slot_state s (set v b) = slot_state s b.
Proof.
  destruct Hset as (_ & Hf & Ho). intros Hs. unfold slot_state.
  now rewrite Hf, Ho.
Qed.

Lemma slot_state_set_same v b :
  slot_state s0 (set v b) = (has_flag (flags b) (slot_flag s0), data v).
Proof.
  destruct Hset as (Hg & Hf & _). unfold slot_state. now rewrite Hf, Hg.
Qed.

(** After a chain of writes to [p], the result of storing [b'], in which
    the slots other than [s0] are as in [b] and [s0] is consistent. *)
Lemma invariant_store_slot p h h' b b' :
  heap_invariant h -> ibufs h !! p = Some b ->
  ibufs h' = <[p := b']> (ibufs h) ->
  (forall s, s <> s0 -> slot_state s b' = slot_state s b) ->
  consistent (slot_state s0 b') ->
  heap_invariant h'.
Proof.
  intros Hinv Hb Hi Ho Hc.
  eapply (invariant_store p (just s0) h h' b b'); try eassumption.
  - intros s Hs. apply Ho. now apply just_other.
  - intros s Hs. apply just_same in Hs. now subst s.
Qed.

Lemma other_after_lor s f v b :
  s <> s0 ->
  slot_state s (set_flags (Z.lor f (slot_flag s0)) (set v b))
  = slot_state s (set_flags f b).
Proof.
  intros Hs. rewrite !slot_state_flags.
  destruct Hset as (_ & _ & Ho). now rewrite has_flag_lor_other, Ho.
Qed.

Lemma other_after_clear s f v b :
  s <> s0 ->
  slot_state s (set_flags (Z.land f (Z.lnot (slot_flag s0))) (set v b))
  = slot_state s (set_flags f b).
Proof.
  intros Hs. rewrite !slot_state_flags.
  destruct Hset as (_ & _ & Ho). now rewrite has_flag_clear_other, Ho.
Qed.

Lemma set_flags_same b : set_flags (flags b) b = b.
Proof. now destruct b. Qed.

Lemma depth_alloc_shape_invariant type_size r p :
  inv_pres (depth_alloc_shape s0 set type_size r p).
Proof.
  pose proof Hset as (Hg & Hf & Ho).
  intros h res h' Hinv H. unfold depth_alloc_shape in H.
  apply bind_Ok in H as ([] & h1 & Hfree & H).
  assert (Hinv1 : heap_invariant h1).
  { eapply (free_phase_invariant s0 set (mret tt) p); try eassumption.
    - intros v b s Hs. now apply slot_state_set_other.
    - apply pres_skip.
    - apply pres_skip. }
  apply bind_Ok in H as (b1 & h1' & Hl & H). inv_load Hl.
  assert (Hz : slot_state s0 b1 = (false, None)).
  { eapply (free_phase_cleared s0 set (mret tt) p); try eassumption.
    - intros v b s Hs. now apply slot_state_set_other.
    - apply pres_skip. }
  apply bind_Ok in H as ([ok nb] & h2 & Halloc & H).
  pose proof (imb_alloc_buffer_same _ _ _ _ _ _ _ _ Halloc) as Hi2.
  pose proof (imb_alloc_buffer_data _ _ _ _ _ _ _ _ _ Halloc) as Hdata.
  apply bind_Ok in H as ([] & h3 & Hu & H). inv_update Hu.
  rewrite Hi2 in *.
  assert (b = b1) by congruence. subst b.
  inversion Hz as [[Hflag Hnone]].
  destruct ok; cbn [negb] in H.
  - apply bind_Ok in H as ([] & h4 & Hu & H). inv_update Hu.
    apply ret_Ok in H as [_ <-].
    eapply (invariant_store_slot p h1); [exact Hinv1|eassumption| | |].
    + cbn. rewrite ?Hi2. now rewrite insert_insert_eq.
    + intros s Hs. rewrite other_after_lor by assumption.
      now rewrite Hf, set_flags_same.
    + rewrite slot_state_flags, has_flag_lor_same, Hg.
      destruct (data nb) as [d|] eqn:Ed; [apply consistent_set|].
      destruct Hdata as [Hd _]. now elim Hd.
  - apply ret_Ok in H as [_ <-].
    eapply (invariant_store_slot p h1); [exact Hinv1|eassumption| | |].
    + cbn. now rewrite ?Hi2.
    + intros s Hs. now apply slot_state_set_other.
    + rewrite slot_state_set_same, Hflag.
      destruct (data nb); [|apply consistent_cleared].
      destruct Hdata as [_ Hd]. discriminate Hd. congruence.
Qed.
End slot_shapes.

Lemma addzbufImBuf_invariant ibuf : inv_pres (addzbufImBuf ibuf).
Proof.
  destruct ibuf as [p|]; [|apply inv_pres_ret].
  apply (depth_alloc_shape_invariant ZSlot set_z_buffer sets_slot_z
           sizeof_uint false p).
Qed.

Lemma addzbuffloatImBuf_invariant ibuf : inv_pres (addzbuffloatImBuf ibuf).
Proof.
  destruct ibuf as [p|]; [|apply inv_pres_ret].
  apply (depth_alloc_shape_invariant FloatZSlot set_float_z_buffer
           sets_slot_float_z sizeof_float true p).
Qed.

(** *** Stealing, making writable and assigning *)

Lemma imb_make_writeable_buffer_data buffer h nb h' :
  imb_make_writeable_buffer buffer h = Ok nb h' ->
  (data nb = None <-> data buffer = None).
Proof.
  unfold imb_make_writeable_buffer. intros H.
  destruct (data buffer) as [d|] eqn:Ed.
  - destruct (ownership buffer).
    + apply bind_Ok in H as (q & h1 & Hdup & H).
      assert (exists q', q = Some q') as [q' ->].
      { unfold MEM_dupallocN in Hdup. destruct (mem h !! d); [|discriminate].
        inversion Hdup. eauto. }
      destruct (implicit_sharing buffer).
      * apply bind_Ok in H as ([] & h2 & _ & H).
        apply ret_Ok in H as [<- _]. cbn. split; congruence.
      * apply ret_Ok in H as [<- _]. cbn. split; congruence.
    + apply ret_Ok in H as [<- _]. rewrite Ed. split; congruence.
  - apply ret_Ok in H as [<- _]. now rewrite Ed.
Qed.

Lemma imb_assign_shared_buffer_data buffer d i h nb h' :
  imb_assign_shared_buffer buffer (Some d) (Some i) h = Ok nb h' ->
  data nb = Some d.
Proof.
  unfold imb_assign_shared_buffer, copy_shared_pointer. intros H.
  apply bind_Ok in H as (freed & h1 & _ & H).
  apply bind_Ok in H as ([d' i'] & h2 & Hcopy & H).
  apply bind_Ok in Hcopy as ([] & h3 & _ & Hcopy).
  apply ret_Ok in Hcopy as [[= <- <-] _].
  now apply ret_Ok in H as [<- _].
Qed.

Lemma slot_buffer_set_flags s f b :
  slot_buffer s (set_flags f b) = slot_buffer s b.
Proof. now destruct s. Qed.

(** The state of a slot [s] other than the one written to has not changed;
    [Hf] and [Ho] say that the setter leaves the flags and the other slots
    alone. *)
Ltac other_in_shape Hf Ho Hs :=
  unfold slot_state; f_equal;
  [ fields;
    repeat (first [ rewrite Hf
                  | rewrite has_flag_lor_other by exact Hs
                  | rewrite has_flag_clear_other by exact Hs ]; fields);
    reflexivity
  | repeat first [ rewrite slot_buffer_set_flags
                 | rewrite Ho by exact Hs ];
    reflexivity ].

Section slot_shapes_2.
Variable s0 : slot.
Variable set : Buffer -> ImBuf -> ImBuf.
Hypothesis Hset : sets_slot s0 set.

(** Stealing keeps the invariant when the slot is empty or owned. *)
Lemma steal_shape_invariant ibuf h d h' :
  heap_invariant h -> steal_shape s0 set ibuf h = Ok d h' ->
  (forall p b, ibuf = Some p -> ibufs h !! p = Some b ->
     data (slot_buffer s0 b) = None \/
     ownership (slot_buffer s0 b) = IB_TAKE_OWNERSHIP) ->
  heap_invariant h'.
Proof.
  pose proof Hset as (Hg & Hf & Ho).
  intros Hinv H Hown. unfold steal_shape in H.
  apply bind_Ok in H as (b & h0 & Hl & H).
  apply load_Ok in Hl as (p & -> & Hb & ->).
  destruct (imb_steal_buffer_data (slot_buffer s0 b)) as [d0 nb] eqn:Esteal.
  apply bind_Ok in H as ([] & h1 & Hu & H). inv_update Hu.
  assert (b0 = b) by congruence. subst b0.
  apply bind_Ok in H as ([] & h2 & Hu & H). inv_update Hu.
  apply ret_Ok in H as [_ <-].
  eapply (invariant_store_slot s0 p h); [exact Hinv|exact Hb| | |].
  - cbn. now rewrite insert_insert_eq.
  - intros s Hs. other_in_shape Hf Ho Hs.
  - rewrite slot_state_flags, has_flag_clear_same, Hg.
    replace (data nb) with (@None loc); [apply consistent_cleared|].
    unfold imb_steal_buffer_data in Esteal.
    destruct (data (slot_buffer s0 b)) as [d1|] eqn:Ed.
    + destruct (Hown p b eq_refl Hb) as [Hn|Ht]; [congruence|].
      rewrite Ht in Esteal. now inversion Esteal.
    + inversion Esteal. now rewrite Ed.
Qed.

Lemma writable_shape_invariant ibuf : inv_pres (writable_shape s0 set ibuf).
Proof.
  pose proof Hset as (Hg & Hf & Ho).
  intros h u h' Hinv H. unfold writable_shape in H.
  apply bind_Ok in H as (b & h0 & Hl & H).
  apply load_Ok in Hl as (p & -> & Hb & ->).
  apply bind_Ok in H as (nb & h1 & Hw & H).
  pose proof (imb_make_writeable_buffer_same _ _ _ _ Hw) as Hi.
  pose proof (imb_make_writeable_buffer_data _ _ _ _ Hw) as Hdata.
  inv_update H. rewrite Hi in *.
  assert (b0 = b) by congruence. subst b0.
  eapply (invariant_store_slot s0 p h); [exact Hinv|exact Hb| | |].
  - cbn. now rewrite ?Hi.
  - intros s Hs. now apply (slot_state_set_other s0 set Hset).
  - rewrite (slot_state_set_same s0 set Hset).
    pose proof (Hinv p b Hb s0) as Hc. unfold consistent, slot_state in *.
    cbn [fst snd] in *. rewrite Hc. split; intros Hn Hd; apply Hn; tauto.
Qed.

Lemma assign_shape_invariant ibuf buffer_data own :
  inv_pres (assign_shape s0 set ibuf buffer_data own).
Proof.
  pose proof Hset as (Hg & Hf & Ho).
  intros h u h' Hinv H. unfold assign_shape in H.
  apply bind_Ok in H as (b & h0 & Hl & H).
  apply load_Ok in Hl as (p & -> & Hb & ->).
  apply bind_Ok in H as (nb & h1 & Hfree & H).
  pose proof (imb_free_buffer_ibufs _ _ _ _ Hfree) as Hi.
  apply imb_free_buffer_empty in Hfree. subst nb.
  apply bind_Ok in H as ([] & h2 & Hu & H). inv_update Hu.
  rewrite Hi in *. assert (b0 = b) by congruence. subst b0.
  apply bind_Ok in H as ([] & h3 & Hu & H). inv_update Hu.
  destruct buffer_data as [d|].
  - apply bind_Ok in H as ([] & h4 & Hu & H). inv_update Hu. inv_update H.
    eapply (invariant_store_slot s0 p h); [exact Hinv|exact Hb| | |].
    + cbn. rewrite ?Hi. now rewrite !insert_insert_eq.
    + intros s Hs. other_in_shape Hf Ho Hs.
    + rewrite slot_state_flags, has_flag_lor_same, Hg.
      apply consistent_set.
  - apply ret_Ok in H as [_ <-].
    eapply (invariant_store_slot s0 p h); [exact Hinv|exact Hb| | |].
    + cbn. rewrite ?Hi. now rewrite !insert_insert_eq.
    + intros s Hs. other_in_shape Hf Ho Hs.
    + rewrite slot_state_flags, has_flag_clear_same, Hg.
      apply consistent_cleared.
Qed.

(** Assigning shared memory keeps the invariant when data comes with a
    handle. *)
Lemma assign_shared_shape_invariant ibuf buffer_data info h u h' :
  heap_invariant h ->
  assign_shared_shape s0 set ibuf buffer_data info h = Ok u h' ->
  (buffer_data <> None -> info <> None) ->
  heap_invariant h'.
Proof.
  pose proof Hset as (Hg & Hf & Ho).
  intros Hinv H Hcontract. unfold assign_shared_shape in H.
  apply bind_Ok in H as (b & h0 & Hl & H).
  apply load_Ok in Hl as (p & -> & Hb & ->).
  apply bind_Ok in H as (nb & h1 & Hfree & H).
  pose proof (imb_free_buffer_ibufs _ _ _ _ Hfree) as Hi.
  apply imb_free_buffer_empty in Hfree. subst nb.
  apply bind_Ok in H as ([] & h2 & Hu & H). inv_update Hu.
  rewrite Hi in *. assert (b0 = b) by congruence. subst b0.
  apply bind_Ok in H as ([] & h3 & Hu & H). inv_update Hu.
  destruct buffer_data as [d|].
  - destruct info as [i|]; [|now elim Hcontract].
    apply bind_Ok in H as (b2 & h4 & Hl & H). inv_load Hl.
    apply bind_Ok in H as (nb & h5 & Hassign & H).
    pose proof (imb_assign_shared_buffer_same _ _ _ _ _ _ Hassign) as Hi5.
    apply imb_assign_shared_buffer_data in Hassign.
    apply bind_Ok in H as ([] & h6 & Hu & H). inv_update Hu.
    cbn [ibufs set_ibufs] in Hi5. rewrite Hi5 in *.
    rewrite lookup_insert_eq in Hb1. inversion Hb1; subst b0.
    inv_update H.
    eapply (invariant_store_slot s0 p h); [exact Hinv|exact Hb| | |].
    + cbn. rewrite ?Hi5. cbn. rewrite ?Hi. now rewrite !insert_insert_eq.
    + intros s Hs. other_in_shape Hf Ho Hs.
    + rewrite slot_state_flags, has_flag_lor_same, Hg, Hassign.
      apply consistent_set.
  - apply ret_Ok in H as [_ <-].
    eapply (invariant_store_slot s0 p h); [exact Hinv|exact Hb| | |].
    + cbn. rewrite ?Hi. now rewrite !insert_insert_eq.
    + intros s Hs. other_in_shape Hf Ho Hs.
    + rewrite slot_state_flags, has_flag_clear_same, Hg.
      apply consistent_cleared.
Qed.
End slot_shapes_2.

Lemma IMB_steal_byte_buffer_invariant ibuf h d h' :
  heap_invariant h -> IMB_steal_byte_buffer ibuf h = Ok d h' ->
  (forall p b, ibuf = Some p -> ibufs h !! p = Some b ->
     data (byte_buffer b) = None \/
     ownership (byte_buffer b) = IB_TAKE_OWNERSHIP) ->
  heap_invariant h'.
Proof.
  exact (steal_shape_invariant ByteSlot set_byte_buffer sets_slot_byte
           ibuf h d h').
Qed.

Lemma IMB_steal_float_buffer_invariant ibuf h d h' :
  heap_invariant h -> IMB_steal_float_buffer ibuf h = Ok d h' ->
  (forall p b, ibuf = Some p -> ibufs h !! p = Some b ->
     data (float_buffer b) = None \/
     ownership (float_buffer b) = IB_TAKE_OWNERSHIP) ->
  heap_invariant h'.
Proof.
  exact (steal_shape_invariant FloatSlot set_float_buffer sets_slot_float
           ibuf h d h').
Qed.

Lemma IMB_make_writable_byte_buffer_invariant ibuf :
  inv_pres (IMB_make_writable_byte_buffer ibuf).
Proof.
  exact (writable_shape_invariant ByteSlot set_byte_buffer sets_slot_byte ibuf).
Qed.

Lemma IMB_make_writable_float_buffer_invariant ibuf :
  inv_pres (IMB_make_writable_float_buffer ibuf).
Proof.
  exact (writable_shape_invariant FloatSlot set_float_buffer sets_slot_float
           ibuf).
Qed.

Lemma IMB_assign_byte_buffer_invariant ibuf d own :
  inv_pres (IMB_assign_byte_buffer ibuf d own).
Proof.
  exact (assign_shape_invariant ByteSlot set_byte_buffer sets_slot_byte
           ibuf d own).
Qed.

Lemma IMB_assign_float_buffer_invariant ibuf d own :
  inv_pres (IMB_assign_float_buffer ibuf d own).
Proof.
  exact (assign_shape_invariant FloatSlot set_float_buffer sets_slot_float
           ibuf d own).
Qed.

Lemma IMB_assign_z_buffer_invariant ibuf d own :
  inv_pres (IMB_assign_z_buffer ibuf d own).
Proof.
  exact (assign_shape_invariant ZSlot set_z_buffer sets_slot_z ibuf d own).
Qed.

Lemma IMB_assign_float_z_buffer_invariant ibuf d own :
  inv_pres (IMB_assign_float_z_buffer ibuf d own).
Proof.
  exact (assign_shape_invariant FloatZSlot set_float_z_buffer
           sets_slot_float_z ibuf d own).
Qed.

Lemma IMB_assign_shared_byte_buffer_invariant ibuf d info h u h' :
  heap_invariant h ->
  IMB_assign_shared_byte_buffer ibuf d info h = Ok u h' ->
  (d <> None -> info <> None) -> heap_invariant h'.
Proof.
  exact (assign_shared_shape_invariant ByteSlot set_byte_buffer sets_slot_byte
           ibuf d info h u h').
Qed.

Lemma IMB_assign_shared_float_buffer_invariant ibuf d info h u h' :
  heap_invariant h ->
  IMB_assign_shared_float_buffer ibuf d info h = Ok u h' ->
  (d <> None -> info <> None) -> heap_invariant h'.
Proof.
  exact (assign_shared_shape_invariant FloatSlot set_float_buffer
           sets_slot_float ibuf d info h u h').
Qed.

Lemma IMB_assign_shared_float_z_buffer_invariant ibuf d info h u h' :
  heap_invariant h ->
  IMB_assign_shared_float_z_buffer ibuf d info h = Ok u h' ->
  (d <> None -> info <> None) -> heap_invariant h'.
Proof.
  exact (assign_shared_shape_invariant FloatZSlot set_float_z_buffer
           sets_slot_float_z ibuf d info h u h').
Qed.

(** *** The encoded slot *)

Ltac fold_flags :=
  change IB_rect with (slot_flag ByteSlot) in *;
  change IB_rectfloat with (slot_flag FloatSlot) in *;
  change IB_zbuf with (slot_flag ZSlot) in *;
  change IB_zbuffloat with (slot_flag FloatZSlot) in *;
  change IB_mem with (slot_flag EncodedSlot) in *.

(** The state of a slot [s] other than [s0], after writes to [s0] and to
    fields the invariant does not look at. *)
Ltac other_concrete s Hs :=
  fold_flags; unfold slot_state; apply (f_equal2 pair);
  [ fields;
    repeat (first [ rewrite has_flag_lor_other by exact Hs
                  | rewrite has_flag_clear_other by exact Hs ]; fields);
    reflexivity
  | destruct s; try congruence; reflexivity ].

(** The aggregates after a chain of writes to [p]. *)
Ltac store_eq :=
  cbn [ibufs set_ibufs];
  repeat match goal with
         | H : ibufs ?h = _ |- context [ibufs ?h] =>
             progress (rewrite H); cbn [ibufs set_ibufs]
         end;
  rewrite ?insert_insert_eq; reflexivity.

Lemma freeencodedbufferImBuf_store p h h' :
  freeencodedbufferImBuf (Some p) h = Ok tt h' ->
  exists b,
    ibufs h !! p = Some b /\
    ibufs h' = <[p := set_flags (Z.land (flags b) (Z.lnot IB_mem))
                        (set_encoded_size 0
                           (set_encoded_buffer_size 0
                              (set_encoded_buffer empty_buffer b)))]> (ibufs h).
Proof.
  unfold freeencodedbufferImBuf. intros H.
  apply bind_Ok in H as (b & h0 & Hl & H).
  apply load_Ok in Hl as (p0 & [= <-] & Hb & ->).
  apply bind_Ok in H as (nb & h1 & Hfree & H).
  pose proof (imb_free_buffer_ibufs _ _ _ _ Hfree) as Hi.
  apply imb_free_buffer_empty in Hfree. subst nb.
  apply bind_Ok in H as ([] & h2 & Hu & H). inv_update Hu.
  rewrite Hi in *. assert (b0 = b) by congruence. subst b0.
  apply bind_Ok in H as ([] & h3 & Hu & H). inv_update Hu.
  apply bind_Ok in H as ([] & h4 & Hu & H). inv_update Hu.
  inv_update H.
  exists b. split; [assumption|]. store_eq.
Qed.

Lemma freeencodedbufferImBuf_invariant ibuf :
  inv_pres (freeencodedbufferImBuf ibuf).
Proof.
  destruct ibuf as [p|]; [|apply inv_pres_ret].
  intros h [] h' Hinv H.
  apply freeencodedbufferImBuf_store in H as (b & Hb & Hi).
  eapply (invariant_store_slot EncodedSlot p h); [exact Hinv|exact Hb|exact Hi| |].
  - intros s Hs. other_concrete s Hs.
  - rewrite slot_state_flags. fold_flags. rewrite has_flag_clear_same.
    apply consistent_cleared.
Qed.

Lemma imb_addencodedbufferImBuf_invariant ibuf :
  inv_pres (imb_addencodedbufferImBuf ibuf).
Proof.
  destruct ibuf as [p|]; [|apply inv_pres_ret].
  intros h r h' Hinv H. unfold imb_addencodedbufferImBuf in H.
  apply bind_Ok in H as ([] & h1 & Hfree & H).
  pose proof (freeencodedbufferImBuf_invariant _ _ _ _ Hinv Hfree) as Hinv1.
  apply freeencodedbufferImBuf_store in Hfree as (b & Hb & Hi1).
  apply bind_Ok in H as (b1 & h1' & Hl & H).
  apply load_Ok in Hl as (p0 & [= <-] & Hb1 & ->).
  assert (Hb1' := Hb1). rewrite Hi1, lookup_insert_eq in Hb1'.
  inversion Hb1'; subst b1; clear Hb1'.
  cbn [encoded_buffer_size set_flags set_encoded_size set_encoded_buffer_size]
    in H.
  change (0 =? 0) with true in H. cbv iota in H.
  apply bind_Ok in H as ([] & h2 & Hu & H). inv_update Hu.
  assert (b0 = set_flags (Z.land (flags b) (Z.lnot IB_mem))
                 (set_encoded_size 0
                    (set_encoded_buffer_size 0
                       (set_encoded_buffer empty_buffer b))))
    by congruence. subst b0.
  apply bind_Ok in H as ([] & h3 & Hu & H). inv_update Hu.
  apply bind_Ok in H as (b3 & h3' & Hl & H). inv_load Hl.
  apply bind_Ok in H as ([ok nb] & h4 & Halloc & H).
  pose proof (imb_alloc_buffer_same _ _ _ _ _ _ _ _ Halloc) as Hi4.
  pose proof (imb_alloc_buffer_data _ _ _ _ _ _ _ _ _ Halloc) as Hdata.
  apply bind_Ok in H as ([] & h5 & Hu & H). inv_update Hu.
  cbn [ibufs set_ibufs] in Hi4. rewrite Hi4, lookup_insert_eq in Hb2.
  inversion Hb2; subst b0; clear Hb2.
  destruct ok; cbn [negb] in H.
  - apply bind_Ok in H as ([] & h6 & Hu & H). inv_update Hu.
    apply ret_Ok in H as [_ <-].
    eapply (invariant_store_slot EncodedSlot p h); [exact Hinv|exact Hb| | |].
    + store_eq.
    + intros s Hs. other_concrete s Hs.
    + rewrite slot_state_flags. fold_flags. rewrite has_flag_lor_same.
      cbn. destruct (data nb) as [d|] eqn:Ed; [apply consistent_set|].
      destruct Hdata as [Hd _]. now elim Hd.
  - apply ret_Ok in H as [_ <-].
    eapply (invariant_store_slot EncodedSlot p h); [exact Hinv|exact Hb| | |].
    + store_eq.
    + intros s Hs. other_concrete s Hs.
    + unfold slot_state. fields. cbn [slot_buffer]. fields. fold_flags.
      rewrite has_flag_clear_same.
      destruct (data nb); [|apply consistent_cleared].
      destruct Hdata as [_ Hd]. discriminate Hd. congruence.
Qed.

Lemma IMB_steal_encoded_buffer_invariant ibuf h d h' :
  heap_invariant h -> IMB_steal_encoded_buffer ibuf h = Ok d h' ->
  (forall p b, ibuf = Some p -> ibufs h !! p = Some b ->
     data (encoded_buffer b) = None \/
     ownership (encoded_buffer b) = IB_TAKE_OWNERSHIP) ->
  heap_invariant h'.
Proof.
  intros Hinv H Hown. unfold IMB_steal_encoded_buffer in H.
  apply bind_Ok in H as (b & h0 & Hl & H).
  apply load_Ok in Hl as (p & -> & Hb & ->).
  destruct (imb_steal_buffer_data (encoded_buffer b)) as [d0 nb] eqn:Esteal.
  apply bind_Ok in H as ([] & h1 & Hu & H). inv_update Hu.
  assert (b0 = b) by congruence. subst b0.
  apply bind_Ok in H as ([] & h2 & Hu & H). inv_update Hu.
  apply bind_Ok in H as ([] & h3 & Hu & H). inv_update Hu.
  apply bind_Ok in H as ([] & h4 & Hu & H). inv_update Hu.
  apply ret_Ok in H as [_ <-].
  eapply (invariant_store_slot EncodedSlot p h); [exact Hinv|exact Hb| | |].
  - store_eq.
  - intros s Hs. other_concrete s Hs.
  - rewrite slot_state_flags. fold_flags. rewrite has_flag_clear_same. cbn.
    replace (data nb) with (@None loc); [apply consistent_cleared|].
    unfold imb_steal_buffer_data in Esteal.
    destruct (data (encoded_buffer b)) as [d1|] eqn:Ed.
    + destruct (Hown p b eq_refl Hb) as [Hn|Ht]; [congruence|].
      rewrite Ht in Esteal. now inversion Esteal.
    + inversion Esteal. now rewrite Ed.
Qed.

Lemma imb_enlargeencodedbufferImBuf_invariant ibuf :
  inv_pres (imb_enlargeencodedbufferImBuf ibuf).
Proof.
  intros h r h' Hinv H. destruct r.
  2:{ apply enlarge_failure_untouched in H as (Hi & _).
      intros q b Hq. rewrite Hi in Hq. now apply (Hinv q). }
  unfold imb_enlargeencodedbufferImBuf in H.
  destruct ibuf as [p|]; [|now apply ret_Ok in H as [? _]].
  apply bind_Ok in H as (b & h0 & Hl & H).
  apply load_Ok in Hl as (p0 & [= <-] & Hb & ->).
  destruct (encoded_buffer_size b <? encoded_size b).
  { apply bind_Ok in H as ([] & h1 & _ & H). now apply ret_Ok in H as [? _]. }
  apply bind_Ok in H as ([ok new_buffer] & h1 & Halloc & H).
  pose proof (imb_alloc_buffer_same _ _ _ _ _ _ _ _ Halloc) as Hi1.
  pose proof (imb_alloc_buffer_data _ _ _ _ _ _ _ _ _ Halloc) as Hdata.
  destruct ok; cbn [negb] in H; [|now apply ret_Ok in H as [? _]].
  destruct (data new_buffer) as [d|] eqn:Ed;
    [|destruct Hdata as [Hd _]; now elim Hd].
  apply bind_Ok in H as ([] & h2 & Hcopy & H).
  assert (Hi2 : exists b2, ibufs h2 = <[p := b2]> (ibufs h) /\
                  forall s, s <> EncodedSlot ->
                            slot_state s b2 = slot_state s b).
  { destruct (data (encoded_buffer b)).
    - exists b. apply memcpy_same in Hcopy. rewrite Hcopy, Hi1.
      split; [now rewrite insert_id|reflexivity].
    - inv_update Hcopy. rewrite Hi1 in Hb0.
      assert (b0 = b) by congruence. subst b0.
      eexists. split; [store_eq|].
      intros s Hs. now destruct s. }
  destruct Hi2 as (b2 & Hi2 & Hother).
  apply bind_Ok in H as (b2' & h2' & Hl & H).
  apply load_Ok in Hl as (p0 & [= <-] & Hb2 & ->).
  rewrite Hi2, lookup_insert_eq in Hb2. inversion Hb2; subst b2'; clear Hb2.
  apply bind_Ok in H as (nb & h3 & Hfree & H).
  pose proof (imb_free_buffer_ibufs _ _ _ _ Hfree) as Hi3.
  apply bind_Ok in H as ([] & h4 & Hu & H). inv_update Hu.
  rewrite Hi3, Hi2, lookup_insert_eq in Hb0. inversion Hb0; subst b0.
  apply bind_Ok in H as ([] & h5 & Hu & H). inv_update Hu.
  apply bind_Ok in H as ([] & h6 & Hu & H). inv_update Hu.
  apply bind_Ok in H as ([] & h7 & Hu & H). inv_update Hu.
  apply ret_Ok in H as [_ <-].
  eapply (invariant_store_slot EncodedSlot p h); [exact Hinv|exact Hb| | |].
  - store_eq.
  - intros s Hs. rewrite <- (Hother s Hs). other_concrete s Hs.
  - rewrite slot_state_flags. fold_flags. rewrite has_flag_lor_same. cbn.
    rewrite Ed. apply consistent_set.
Qed.

(** *** The byte and float slots *)

Lemma imb_freerectImbuf_all_invariant release ibuf :
  (forall c, pres (heap_released nowhere) (release c)) ->
  inv_pres (imb_freerectImbuf_all_with release ibuf).
Proof.
  intros Hrel. unfold imb_freerectImbuf_all_with.
  apply inv_pres_bind; [now apply imb_freerectImBuf_invariant|intros _].
  apply inv_pres_bind; [now apply imb_freerectfloatImBuf_invariant|intros _].
  apply inv_pres_bind; [apply IMB_freezbufImBuf_invariant|intros _].
  apply inv_pres_bind; [apply IMB_freezbuffloatImBuf_invariant|intros _].
  apply freeencodedbufferImBuf_invariant.
Qed.

Lemma imb_addrectfloatImBuf_invariant fuel ibuf channels :
  inv_pres (imb_addrectfloatImBuf fuel ibuf channels).
Proof.
  destruct ibuf as [p|]; [|apply inv_pres_ret].
  intros h r h' Hinv H. unfold imb_addrectfloatImBuf in H.
  apply bind_Ok in H as (b & h0 & Hl & H).
  apply load_Ok in Hl as (p0 & [= <-] & Hb & ->).
  apply bind_Ok in H as ([] & h1 & Hfree & H).
  apply bind_Ok in H as (b1 & h1' & Hl & H).
  apply load_Ok in Hl as (p0 & [= <-] & Hb1 & ->).
  assert (Hrel : forall c, pres (heap_released nowhere) (IMB_freeImBuf fuel c))
    by (intros c; apply IMB_freeImBuf_released).
  assert (Hinv1 : heap_invariant h1 /\ slot_state FloatSlot b1 = (false, None)).
  { destruct (data (float_buffer b)) eqn:Ed.
    - split.
      + eapply (imb_freerectfloatImBuf_invariant _ Hrel (Some p));
          eassumption.
      + eapply (free_phase_cleared FloatSlot set_float_buffer
                  (imb_freemipmapImBuf_with (IMB_freeImBuf fuel) (Some p)) p);
          [reflexivity|intros v b0 s Hs; now destruct s
          |now apply imb_freemipmapImBuf_keeps_slot|exact Hfree|exact Hb1].
    - apply ret_Ok in Hfree as [_ <-].
      assert (b1 = b) by congruence. subst b1. split; [exact Hinv|].
      pose proof (Hinv p b Hb FloatSlot) as Hc.
      unfold consistent, slot_state in *. cbn [fst snd slot_buffer] in *.
      rewrite Ed in *. f_equal.
      destruct (has_flag (flags b) (slot_flag FloatSlot)); [|reflexivity].
      destruct Hc as [Hc _]. now elim Hc. }
  destruct Hinv1 as [Hinv1 Hz].
  apply bind_Ok in H as ([ok nb] & h2 & Halloc & H).
  pose proof (imb_alloc_buffer_same _ _ _ _ _ _ _ _ Halloc) as Hi2.
  pose proof (imb_alloc_buffer_data _ _ _ _ _ _ _ _ _ Halloc) as Hdata.
  apply bind_Ok in H as ([] & h3 & Hu & H). inv_update Hu.
  rewrite Hi2 in Hb0. assert (b0 = b1) by congruence. subst b0.
  inversion Hz as [[Hflag Hnone]].
  destruct ok; cbn [negb] in H.
  - apply bind_Ok in H as ([] & h4 & Hu & H). inv_update Hu.
    apply bind_Ok in H as ([] & h5 & Hu & H). inv_update Hu.
    apply ret_Ok in H as [_ <-].
    eapply (invariant_store_slot FloatSlot p h1);
      [exact Hinv1|exact Hb1|store_eq| |].
    + intros s Hs. other_concrete s Hs.
    + rewrite slot_state_flags. fold_flags. rewrite has_flag_lor_same. cbn.
      destruct (data nb) as [d|] eqn:Ed; [apply consistent_set|].
      destruct Hdata as [Hd _]. now elim Hd.
  - apply ret_Ok in H as [_ <-].
    eapply (invariant_store_slot FloatSlot p h1);
      [exact Hinv1|exact Hb1|store_eq| |].
    + intros s Hs. other_concrete s Hs.
    + unfold slot_state. fields. cbn [slot_buffer]. fields.
      change (slot_flag FloatSlot) with IB_rectfloat. rewrite Hflag.
      destruct (data nb); [|apply consistent_cleared].
      destruct Hdata as [_ Hd]. discriminate Hd. congruence.
Qed.

(** [imb_addrectImBuf] keeps the invariant unless it leaves empty a byte
    slot that was populated, which is what a failed allocation does. *)
Lemma imb_addrectImBuf_invariant ibuf h r h' :
  heap_invariant h -> imb_addrectImBuf ibuf h = Ok r h' ->
  (forall p b, ibuf = Some p -> ibufs h !! p = Some b ->
     data (byte_buffer b) = None \/
     exists b', ibufs h' !! p = Some b' /\ data (byte_buffer b') <> None) ->
  heap_invariant h'.
Proof.
  intros Hinv H Hcond. unfold imb_addrectImBuf in H.
  destruct ibuf as [p|]; [|now apply ret_Ok in H as [_ <-]].
  apply bind_Ok in H as (b & h0 & Hl & H).
  apply load_Ok in Hl as (p0 & [= <-] & Hb & ->).
  specialize (Hcond p b eq_refl Hb).
  apply bind_Ok in H as (nb & h1 & Hfree & H).
  pose proof (imb_free_buffer_ibufs _ _ _ _ Hfree) as Hi1.
  apply imb_free_buffer_empty in Hfree. subst nb.
  apply bind_Ok in H as ([] & h2 & Hu & H). inv_update Hu.
  rewrite Hi1 in Hb0. assert (b0 = b) by congruence. subst b0.
  apply bind_Ok in H as (b2 & h2' & Hl & H). inv_load Hl.
  apply bind_Ok in H as ([ok nb] & h3 & Halloc & H).
  pose proof (imb_alloc_buffer_same _ _ _ _ _ _ _ _ Halloc) as Hi3.
  pose proof (imb_alloc_buffer_data _ _ _ _ _ _ _ _ _ Halloc) as Hdata.
  apply bind_Ok in H as ([] & h4 & Hu & H). inv_update Hu.
  cbn [ibufs set_ibufs] in Hi3. rewrite Hi3, lookup_insert_eq in Hb1.
  inversion Hb1; subst b0; clear Hb1.
  destruct ok; cbn [negb] in H.
  - apply bind_Ok in H as ([] & h5 & Hu & H). inv_update Hu.
    apply bind_Ok in H as (b5 & h5' & Hl & H). inv_load Hl.
    match type of H with
    | _ ?hs = _ =>
        assert (Hinv5 : heap_invariant hs)
    end.
    { eapply (invariant_store_slot ByteSlot p h);
        [exact Hinv|exact Hb|store_eq| |].
      - intros s Hs. other_concrete s Hs.
      - rewrite slot_state_flags. fold_flags. rewrite has_flag_lor_same. cbn.
        destruct (data nb) as [d|] eqn:Ed; [apply consistent_set|].
        destruct Hdata as [Hd _]. now elim Hd. }
    destruct (32 <? _).
    + eapply addzbufImBuf_invariant; eassumption.
    + now apply ret_Ok in H as [_ <-].
  - apply ret_Ok in H as [_ <-].
    assert (Hnone : data nb = None).
    { destruct (data nb); [|reflexivity].
      destruct Hdata as [_ Hd]. discriminate Hd. congruence. }
    assert (Hwas : data (byte_buffer b) = None).
    { destruct Hcond as [?|(b' & Hb' & Hd)]; [assumption|].
      cbn in Hb'. rewrite lookup_insert_eq in Hb'. inversion Hb'; subst b'.
      cbn in Hd. congruence. }
    eapply (invariant_store_slot ByteSlot p h);
      [exact Hinv|exact Hb|store_eq| |].
    + intros s Hs. other_concrete s Hs.
    + pose proof (Hinv p b Hb ByteSlot) as Hc.
      unfold consistent, slot_state in *. fields. cbn [slot_buffer] in *.
      fields. rewrite Hnone. rewrite Hwas in Hc. exact Hc.
Qed.

(** *** Creating an aggregate *)

Lemma has_flag_zero s : has_flag 0 (slot_flag s) = false.
Proof. now destruct s. Qed.

Lemma IMB_initImBuf_invariant fuel ibuf ix iy pl fl :
  inv_pres (IMB_initImBuf fuel ibuf ix iy pl fl).
Proof.
  intros h r h' Hinv H. unfold IMB_initImBuf in H.
  apply bind_Ok in H as ([] & h1 & Hu & H).
  apply update_Ok in Hu as (p & b & -> & Hb & ->).
  match type of H with
  | _ ?hs = _ => assert (Hinv1 : heap_invariant hs)
  end.
  { intros q bq Hq. cbn in Hq. destruct (decide (p = q)) as [->|Hne].
    - rewrite lookup_insert_eq in Hq. inversion Hq; subst bq.
      intros s. unfold consistent, slot_state. cbn [flags fst snd].
      rewrite has_flag_zero. destruct s; cbn; split; congruence.
    - rewrite lookup_insert_ne in Hq by assumption. now apply (Hinv q). }
  apply bind_Ok in H as (ok1 & h2 & Hrect & H).
  assert (Hinv2 : heap_invariant h2).
  { destruct (has_flag fl IB_rect).
    - eapply imb_addrectImBuf_invariant; [exact Hinv1|exact Hrect|].
      intros p0 b0 [= <-] Hb0. left. cbn in Hb0.
      rewrite lookup_insert_eq in Hb0. now inversion Hb0.
    - now apply ret_Ok in Hrect as [_ <-]. }
  destruct (negb ok1); [now apply ret_Ok in H as [_ <-]|].
  apply bind_Ok in H as (ok2 & h3 & Hfloat & H).
  assert (Hinv3 : heap_invariant h3).
  { destruct (has_flag fl IB_rectfloat).
    - apply bind_Ok in Hfloat as (b2 & h2' & Hl & Hfloat).
      apply load_Ok in Hl as (p0 & _ & _ & ->).
      eapply imb_addrectfloatImBuf_invariant; eassumption.
    - now apply ret_Ok in Hfloat as [_ <-]. }
  destruct (negb ok2); [now apply ret_Ok in H as [_ <-]|].
  apply bind_Ok in H as (ok3 & h4 & Hz & H).
  assert (Hinv4 : heap_invariant h4).
  { destruct (has_flag fl IB_zbuf).
    - eapply addzbufImBuf_invariant; eassumption.
    - now apply ret_Ok in Hz as [_ <-]. }
  destruct (negb ok3); [now apply ret_Ok in H as [_ <-]|].
  apply bind_Ok in H as (ok4 & h5 & Hzf & H).
  assert (Hinv5 : heap_invariant h5).
  { destruct (has_flag fl IB_zbuffloat).
    - eapply addzbuffloatImBuf_invariant; eassumption.
    - now apply ret_Ok in Hzf as [_ <-]. }
  destruct (negb ok4); [now apply ret_Ok in H as [_ <-]|].
  apply bind_Ok in H as ([] & h6 & Hcm & H).
  apply ret_Ok in H as [_ <-].
  unfold colormanage_imbuf_set_default_spaces in Hcm.
  eapply (inv_pres_same_ibufs _ (emit_same _)); eassumption.
Qed.

Lemma MEM_cnew_ImBuf_invariant : inv_pres MEM_cnew_ImBuf.
Proof.
  intros h r h' Hinv H. unfold MEM_cnew_ImBuf in H.
  destruct (next_request h) as [[|] rest]; inversion H; subst; clear H.
  - exact Hinv.
  - intros q bq Hq. cbn in Hq.
    destruct (decide (fresh (dom (ibufs h)) = q)) as [<-|Hne].
    + rewrite lookup_insert_eq in Hq. inversion Hq; subst bq.
      intros s. unfold consistent, slot_state. cbn [flags fst snd].
      rewrite has_flag_zero. destruct s; cbn; split; congruence.
    + rewrite lookup_insert_ne in Hq by assumption. now apply (Hinv q).
Qed.

Lemma IMB_allocImBuf_invariant fuel ix iy pl fl :
  inv_pres (IMB_allocImBuf fuel ix iy pl fl).
Proof.
  unfold IMB_allocImBuf.
  apply inv_pres_bind; [apply MEM_cnew_ImBuf_invariant|intros [p|]];
    [|apply inv_pres_ret].
  apply inv_pres_bind; [apply IMB_initImBuf_invariant|intros ok].
  destruct (negb ok); [|apply inv_pres_ret].
  apply inv_pres_bind; [apply IMB_freeImBuf_invariant|intros _].
  apply inv_pres_ret.
Qed.

Lemma IMB_allocFromBufferOwn_invariant fuel byte_data float_data w h_ channels :
  inv_pres (IMB_allocFromBufferOwn fuel byte_data float_data w h_ channels).
Proof.
  unfold IMB_allocFromBufferOwn.
  assert (Hbody : inv_pres
    (ibuf ← IMB_allocImBuf fuel w h_ 32 0;
     update ibuf (set_channels channels);;
     match float_data with
     | Some _ => IMB_assign_float_buffer ibuf float_data IB_TAKE_OWNERSHIP
     | None => mret tt
     end;;
     match byte_data with
     | Some _ => IMB_assign_byte_buffer ibuf byte_data IB_TAKE_OWNERSHIP
     | None => mret tt
     end;;
     mret ibuf)).
  { apply inv_pres_bind; [apply IMB_allocImBuf_invariant|intros ibuf].
    apply inv_pres_bind; [|intros _].
    { apply inv_pres_update. intros b s. now destruct s. }
    apply inv_pres_bind; [|intros _].
    { destruct float_data; [apply IMB_assign_float_buffer_invariant
                           |apply inv_pres_ret]. }
    apply inv_pres_bind; [|intros _; apply inv_pres_ret].
    destruct byte_data; [apply IMB_assign_byte_buffer_invariant
                        |apply inv_pres_ret]. }
  destruct byte_data, float_data; try exact Hbody. apply inv_pres_ret.
Qed.

(** *** The flags of a new aggregate *)

(** From one run to all the runs of the computation. *)
Ltac as_pres H :=
  match type of H with
  | ?m ?h = Ok ?a ?h' =>
      match goal with
      | |- ?R h h' =>
          let Hp := fresh "Hp" in
          enough (Hp : pres R m) by exact (Hp h a h' H)
      end
  end.

Ltac touch_update :=
  apply update_touches;
  let b := fresh "b" in let s := fresh "s" in let Hs := fresh "Hs" in
  intros b s Hs; apply just_other in Hs; other_concrete s Hs.

Lemma request_step p s0 (rq : bool) (op : M bool) h h' b bits :
  adds_flag p s0 op ->
  (if rq then op else mret true) h = Ok true h' ->
  ibufs h !! p = Some b -> flag_bits bits b ->
  exists b', ibufs h' !! p = Some b' /\ flag_bits (with_flag s0 rq bits) b'.
Proof.
  intros Hop H Hb Hbits. destruct rq.
  - destruct (Hop h h' H) as [[_ Ht] (b' & Hb' & Hflag)].
    exists b'. split; [exact Hb'|]. intros s. unfold with_flag.
    case_bool_decide as Hs; [now subst s|].
    destruct (Ht b' Hb') as (b0 & Hb0 & Hsame).
    assert (b0 = b) by congruence. subst b0.
    rewrite <- Hbits.
    assert (Hj : just s0 s = false) by (unfold just; now case_bool_decide).
    exact (f_equal fst (Hsame s Hj)).
  - apply ret_Ok in H as [_ <-]. exists b. split; [exact Hb|].
    intros s. unfold with_flag. case_bool_decide; apply Hbits.
Qed.

Lemma addzbufImBuf_adds_flag p : adds_flag p ZSlot (addzbufImBuf (Some p)).
Proof. intros h h' H. now apply addzbufImBuf_false in H. Qed.

Lemma free_phase_touches_slot s0 set mid p :
  sets_slot s0 set -> pres (touches p no_slot) mid ->
  pres (touches p (just s0)) (free_phase s0 set mid p).
Proof.
  intros Hset Hmid. apply free_phase_touches; [|exact Hmid].
  intros v b s Hs. now apply (slot_state_set_other s0 set Hset).
Qed.

Lemma depth_alloc_shape_adds_flag s0 set type_size r p :
  sets_slot s0 set ->
  adds_flag p s0 (depth_alloc_shape s0 set type_size r p).
Proof.
  intros Hset h h' H. split.
  - as_pres H. unfold depth_alloc_shape.
    apply pres_bind; [apply _| |intros []].
    { apply free_phase_touches_slot; [exact Hset|(apply pres_ret; apply _)]. }
    apply pres_bind; [apply _|(apply pres_load; apply _)|intros b].
    apply pres_bind; [apply _| |intros [ok nb]].
    { apply same_ibufs_touches, imb_alloc_buffer_same. }
    apply pres_bind; [apply _| |intros []].
    { apply update_touches. intros b0 s Hs. apply just_other in Hs.
      now apply (slot_state_set_other s0 set Hset). }
    destruct (negb ok); [(apply pres_ret; apply _)|].
    apply pres_bind; [apply _| |intros []; (apply pres_ret; apply _)].
    apply update_touches. intros b0 s Hs. apply just_other in Hs.
    rewrite slot_state_flags. unfold slot_state.
    now rewrite has_flag_lor_other.
  - unfold depth_alloc_shape in H.
    apply bind_Ok in H as ([] & h1 & _ & H).
    apply bind_Ok in H as (b1 & h1' & _ & H).
    apply bind_Ok in H as ([ok nb] & h2 & _ & H).
    apply bind_Ok in H as ([] & h3 & _ & H).
    destruct ok; cbn [negb] in H; [|apply ret_Ok in H as [[=] _]].
    apply bind_Ok in H as ([] & h4 & Hu & H).
    apply ret_Ok in H as [_ <-].
    apply update_Ok in Hu as (p0 & b & [= <-] & Hb & ->).
    eexists. split; [cbn [ibufs set_ibufs]; apply lookup_insert_eq|].
    cbn [flags set_flags]. apply has_flag_lor_same.
Qed.

Lemma addzbuffloatImBuf_adds_flag p :
  adds_flag p FloatZSlot (addzbuffloatImBuf (Some p)).
Proof.
  exact (depth_alloc_shape_adds_flag FloatZSlot set_float_z_buffer
           sizeof_float true p sets_slot_float_z).
Qed.

Lemma imb_addrectfloatImBuf_adds_flag fuel p channels :
  adds_flag p FloatSlot (imb_addrectfloatImBuf fuel (Some p) channels).
Proof.
  intros h h' H. split.
  - as_pres H. unfold imb_addrectfloatImBuf.
    apply pres_bind; [apply _|(apply pres_load; apply _)|intros b].
    apply pres_bind; [apply _| |intros []].
    { destruct (data (float_buffer b)); [|(apply pres_ret; apply _)].
      apply (free_phase_touches_slot FloatSlot set_float_buffer
               (imb_freemipmapImBuf fuel (Some p)) p sets_slot_float).
      apply imb_freemipmapImBuf_touches. intros c.
      apply IMB_freeImBuf_released. }
    apply pres_bind; [apply _|(apply pres_load; apply _)|intros b1].
    apply pres_bind; [apply _| |intros [ok nb]].
    { apply same_ibufs_touches, imb_alloc_buffer_same. }
    apply pres_bind; [apply _|touch_update|intros []].
    destruct (negb ok); [(apply pres_ret; apply _)|].
    apply pres_bind; [apply _|touch_update|intros []].
    apply pres_bind; [apply _|touch_update|intros []; (apply pres_ret; apply _)].
  - unfold imb_addrectfloatImBuf in H.
    apply bind_Ok in H as (b & h0 & _ & H).
    apply bind_Ok in H as ([] & h1 & _ & H).
    apply bind_Ok in H as (b1 & h1' & _ & H).
    apply bind_Ok in H as ([ok nb] & h2 & _ & H).
    apply bind_Ok in H as ([] & h3 & _ & H).
    destruct ok; cbn [negb] in H; [|apply ret_Ok in H as [[=] _]].
    apply bind_Ok in H as ([] & h4 & _ & H).
    apply bind_Ok in H as ([] & h5 & Hu & H).
    apply ret_Ok in H as [_ <-].
    apply update_Ok in Hu as (p0 & b0 & [= <-] & Hb & ->).
    eexists. split; [cbn [ibufs set_ibufs]; apply lookup_insert_eq|].
    cbn [flags set_flags]. apply (has_flag_lor_same _ FloatSlot).
Qed.

Lemma imb_addrectImBuf_adds_flag p :
  adds_flag p ByteSlot (imb_addrectImBuf (Some p)).
Proof.
  intros h h' H. unfold imb_addrectImBuf in H.
  apply bind_Ok in H as (b & h0 & Hl & H).
  apply load_Ok in Hl as (p0 & [= <-] & Hb & ->).
  apply bind_Ok in H as (nb0 & h1 & Hfree & H).
  apply bind_Ok in H as ([] & h2 & Hu1 & H).
  apply bind_Ok in H as (b2 & h2' & Hl & H).
  apply load_Ok in Hl as (p1 & _ & _ & ->).
  apply bind_Ok in H as ([ok nb] & h3 & Halloc & H).
  apply bind_Ok in H as ([] & h4 & Hu2 & H).
  destruct ok; cbn [negb] in H; [|apply ret_Ok in H as [[=] _]].
  apply bind_Ok in H as ([] & h5 & Hu3 & H).
  apply bind_Ok in H as (b5 & h5' & Hl & H).
  apply load_Ok in Hl as (p2 & _ & Hb5 & ->).
  destruct (32 <? planes b5); [now apply addzbufImBuf_false in H|].
  apply ret_Ok in H as [_ <-]. split.
  - transitivity h1.
    { eapply (same_ibufs_touches p _ _ (imb_free_buffer_same _)), Hfree. }
    transitivity h2.
    { as_pres Hu1. touch_update. }
    transitivity h3.
    { eapply (same_ibufs_touches p _ _ (imb_alloc_buffer_same _ _ _ _ _)),
        Halloc. }
    transitivity h4.
    { as_pres Hu2. touch_update. }
    as_pres Hu3. touch_update.
  - apply update_Ok in Hu3 as (p3 & b0 & [= <-] & _ & ->).
    eexists. split; [cbn [ibufs set_ibufs]; apply lookup_insert_eq|].
    cbn [flags set_flags]. apply (has_flag_lor_same _ ByteSlot).
Qed.

Lemma imb_addencodedbufferImBuf_adds_flag p :
  adds_flag p EncodedSlot (imb_addencodedbufferImBuf (Some p)).
Proof.
  intros h h' H. split.
  - as_pres H. unfold imb_addencodedbufferImBuf.
    apply pres_bind; [apply _| |intros []].
    { unfold freeencodedbufferImBuf.
      apply pres_bind; [apply _|(apply pres_load; apply _)|intros b].
      apply pres_bind; [apply _| |intros nb].
      { apply same_ibufs_touches, imb_free_buffer_same. }
      apply pres_bind; [apply _|touch_update|intros []].
      apply pres_bind; [apply _|touch_update|intros []].
      apply pres_bind; [apply _|touch_update|intros []].
      touch_update. }
    apply pres_bind; [apply _|(apply pres_load; apply _)|intros b].
    apply pres_bind; [apply _| |intros []].
    { destruct (_ =? 0); [touch_update|(apply pres_ret; apply _)]. }
    apply pres_bind; [apply _|touch_update|intros []].
    apply pres_bind; [apply _|(apply pres_load; apply _)|intros b1].
    apply pres_bind; [apply _| |intros [ok nb]].
    { apply same_ibufs_touches, imb_alloc_buffer_same. }
    apply pres_bind; [apply _|touch_update|intros []].
    destruct (negb ok); [(apply pres_ret; apply _)|].
    apply pres_bind; [apply _|touch_update|intros []; (apply pres_ret; apply _)].
  - unfold imb_addencodedbufferImBuf in H.
    apply bind_Ok in H as ([] & h1 & _ & H).
    apply bind_Ok in H as (b & h1' & _ & H).
    apply bind_Ok in H as ([] & h2 & _ & H).
    apply bind_Ok in H as ([] & h3 & _ & H).
    apply bind_Ok in H as (b3 & h3' & _ & H).
    apply bind_Ok in H as ([ok nb] & h4 & _ & H).
    apply bind_Ok in H as ([] & h5 & _ & H).
    destruct ok; cbn [negb] in H; [|apply ret_Ok in H as [[=] _]].
    apply bind_Ok in H as ([] & h6 & Hu & H).
    apply ret_Ok in H as [_ <-].
    apply update_Ok in Hu as (p0 & b0 & [= <-] & _ & ->).
    eexists. split; [cbn [ibufs set_ibufs]; apply lookup_insert_eq|].
    cbn [flags set_flags]. apply (has_flag_lor_same _ EncodedSlot).
Qed.

Lemma load_adds_flag p s0 (op : ImBuf -> M bool) :
  (forall b, adds_flag p s0 (op b)) ->
  adds_flag p s0 (b ← load (Some p); op b).
Proof.
  intros Hop h h' H. apply bind_Ok in H as (b & h0 & Hl & H).
  apply load_Ok in Hl as (p0 & _ & _ & ->). exact (Hop b h h' H).
Qed.

Lemma requested_all fl :
  forall s,
    with_flag FloatZSlot (has_flag fl IB_zbuffloat)
      (with_flag ZSlot (has_flag fl IB_zbuf)
         (with_flag FloatSlot (has_flag fl IB_rectfloat)
            (with_flag ByteSlot (has_flag fl IB_rect) (fun _ => false)))) s
    = requested fl s.
Proof.
  intros s. unfold with_flag, requested.
  destruct s; cbn; rewrite ?orb_false_r; reflexivity.
Qed.

Lemma IMB_initImBuf_flags fuel p ix iy pl fl h h' :
  IMB_initImBuf fuel (Some p) ix iy pl fl h = Ok true h' ->
  exists b', ibufs h' !! p = Some b' /\ flag_bits (requested fl) b'.
Proof.
  intros H. unfold IMB_initImBuf in H.
  apply bind_Ok in H as ([] & h1 & Hu & H).
  apply update_Ok in Hu as (p0 & b & [= <-] & _ & ->).
  match type of H with
  | _ (set_ibufs (<[p := ?v]> _) _) = _ => remember v as b0 eqn:Eb0
  end.
  assert (Hbits0 : flag_bits (fun _ => false) b0)
    by (intros s; rewrite Eb0; apply has_flag_zero).
  clear Eb0.
  remember (set_ibufs (<[p := b0]> (ibufs h)) h) as h1 eqn:Eh1.
  assert (Hb0 : ibufs h1 !! p = Some b0)
    by (rewrite Eh1; apply lookup_insert_eq).
  clear Eh1.
  apply bind_Ok in H as (ok1 & h2 & Hrect & H).
  destruct ok1; cbn [negb] in H; [|apply ret_Ok in H as [[=] _]].
  destruct (request_step p ByteSlot _ _ h1 h2 b0 _
              (imb_addrectImBuf_adds_flag p) Hrect Hb0 Hbits0)
    as (b1 & Hb1 & Hbits1).
  apply bind_Ok in H as (ok2 & h3 & Hfloat & H).
  destruct ok2; cbn [negb] in H; [|apply ret_Ok in H as [[=] _]].
  destruct (request_step p FloatSlot _ _ h2 h3 b1 _
              (load_adds_flag p FloatSlot _
                 (fun b => imb_addrectfloatImBuf_adds_flag fuel p _))
              Hfloat Hb1 Hbits1)
    as (b2 & Hb2 & Hbits2).
  apply bind_Ok in H as (ok3 & h4 & Hz & H).
  destruct ok3; cbn [negb] in H; [|apply ret_Ok in H as [[=] _]].
  destruct (request_step p ZSlot _ _ h3 h4 b2 _
              (addzbufImBuf_adds_flag p) Hz Hb2 Hbits2)
    as (b3 & Hb3 & Hbits3).
  apply bind_Ok in H as (ok4 & h5 & Hzf & H).
  destruct ok4; cbn [negb] in H; [|apply ret_Ok in H as [[=] _]].
  destruct (request_step p FloatZSlot _ _ h4 h5 b3 _
              (addzbuffloatImBuf_adds_flag p) Hzf Hb3 Hbits3)
    as (b4 & Hb4 & Hbits4).
  apply bind_Ok in H as ([] & h6 & Hcm & H).
  apply ret_Ok in H as [_ <-].
  apply emit_same in Hcm. exists b4. split; [now rewrite Hcm|].
  intros s. rewrite (Hbits4 s). apply requested_all.
Qed.

Lemma IMB_allocImBuf_flags fuel ix iy pl fl h p h' :
  IMB_allocImBuf fuel ix iy pl fl h = Ok (Some p) h' ->
  exists b', ibufs h' !! p = Some b' /\ flag_bits (requested fl) b'.
Proof.
  intros H. unfold IMB_allocImBuf in H.
  apply bind_Ok in H as ([q|] & h1 & _ & H);
    [|apply ret_Ok in H as [[=] _]].
  apply bind_Ok in H as (ok & h2 & Hinit & H).
  destruct ok; cbn [negb] in H.
  - apply ret_Ok in H as [[= ->] <-].
    eapply IMB_initImBuf_flags, Hinit.
  - apply bind_Ok in H as ([] & h3 & _ & H). apply ret_Ok in H as [[=] _].
Qed.

(** *** Duplicating an aggregate *)

Lemma dup_flags_requested b1 s :
  requested (to_uint (dup_flags b1)) s
  = if bool_decide (s = EncodedSlot) then false else populated b1 s.
Proof.
  unfold requested, dup_flags, populated.
  destruct s; cbn [slot_buffer];
    destruct (data (byte_buffer b1)), (data (float_buffer b1)),
             (data (z_buffer b1)), (data (float_z_buffer b1));
    reflexivity.
Qed.

Lemma populated_data b s : populated b s = true <-> data (slot_buffer s b) <> None.
Proof.
  unfold populated. destruct (data (slot_buffer s b)); split; congruence.
Qed.

Lemma load_same ibuf : same_ibufs (load ibuf).
Proof. intros h b h' H. now apply load_Ok in H as (p & _ & _ & ->). Qed.

Lemma copy_step_same (c : bool) ibuf (m : ImBuf -> M unit) :
  (forall b, same_ibufs (m b)) ->
  same_ibufs (if c then b ← load ibuf; m b else mret tt).
Proof.
  intros Hm. destruct c; [|apply same_ibufs_ret].
  apply same_ibufs_bind; [apply load_same|exact Hm].
Qed.

Lemma IMB_dupImBuf_invariant fuel ibuf1 : inv_pres (IMB_dupImBuf fuel ibuf1).
Proof.
  destruct ibuf1 as [p1|]; [|apply inv_pres_ret].
  intros h r h' Hinv H. unfold IMB_dupImBuf in H.
  apply bind_Ok in H as (b1 & h0 & Hl & H).
  apply load_Ok in Hl as (p0 & [= <-] & Hb1 & ->).
  apply bind_Ok in H as (ibuf2 & h2 & Halloc & H).
  pose proof (IMB_allocImBuf_invariant _ _ _ _ _ _ _ _ Hinv Halloc) as Hinv2.
  destruct ibuf2 as [p2|]; [|now apply ret_Ok in H as [_ <-]].
  apply IMB_allocImBuf_flags in Halloc as (b2 & Hb2 & Hbits2).
  apply bind_Ok in H as ([] & h3 & Hc1 & H).
  apply copy_step_same in Hc1; [|intros b; apply memcpy_same].
  apply bind_Ok in H as ([] & h4 & Hc2 & H).
  apply copy_step_same in Hc2; [|intros b; apply memcpy_same].
  apply bind_Ok in H as ([] & h5 & Hc3 & H).
  apply copy_step_same in Hc3; [|intros b; apply memcpy_same].
  apply bind_Ok in H as ([] & h6 & Hc4 & H).
  apply copy_step_same in Hc4; [|intros b; apply memcpy_same].
  assert (Hi6 : ibufs h6 = ibufs h2) by congruence.
  clear Hc1 Hc2 Hc3 Hc4 h3 h4 h5.
  assert (Hinv6 : heap_invariant h6).
  { intros q bq Hq. rewrite Hi6 in Hq. now apply (Hinv2 q). }
  rewrite <- Hi6 in Hb2. clear Hi6 Hinv2 h2.
  apply bind_Ok in H as (ok & h7 & Henc & H).
  assert (Hinv7 : heap_invariant h7).
  { match type of Henc with
    | ?m _ = _ =>
        enough (Hp : inv_pres m) by exact (Hp h6 ok h7 Hinv6 Henc)
    end.
    destruct (data (encoded_buffer b1)); [|apply inv_pres_ret].
    apply inv_pres_bind; [|intros []].
    { apply inv_pres_update. intros b s. now destruct s. }
    apply inv_pres_bind; [apply imb_addencodedbufferImBuf_invariant|].
    intros ok'. destruct (negb ok').
    - apply inv_pres_bind; [apply IMB_freeImBuf_invariant|intros []].
      apply inv_pres_ret.
    - apply inv_pres_same_ibufs.
      apply same_ibufs_bind; [apply load_same|intros b].
      apply same_ibufs_bind; [apply memcpy_same|intros []].
      apply same_ibufs_ret. }
  destruct ok; cbn [negb] in H; [|now apply ret_Ok in H as [_ <-]].
  assert (Hb7 : exists b7, ibufs h7 !! p2 = Some b7 /\
                           flag_bits (populated b1) b7).
  { destruct (data (encoded_buffer b1)) as [d|] eqn:Ed.
    - apply bind_Ok in Henc as ([] & h6a & Hu & Henc).
      apply update_Ok in Hu as (p0 & b & [= <-] & Hb & ->).
      assert (b = b2) by congruence. subst b.
      apply bind_Ok in Henc as (ok' & h6b & Hadd & Henc).
      destruct ok'; cbn [negb] in Henc.
      2:{ apply bind_Ok in Henc as ([] & h6c & _ & Henc).
          apply ret_Ok in Henc as [[=] _]. }
      apply bind_Ok in Henc as (b6 & h6c & Hl & Henc).
      apply load_Ok in Hl as (p0 & _ & _ & ->).
      apply bind_Ok in Henc as ([] & h6d & Hcopy & Henc).
      apply ret_Ok in Henc as [_ <-]. apply memcpy_same in Hcopy.
      destruct (imb_addencodedbufferImBuf_adds_flag p2 _ _ Hadd)
        as [[_ Ht] (b7 & Hb7 & Hflag)].
      exists b7. split; [now rewrite Hcopy|]. intros s.
      destruct (decide (s = EncodedSlot)) as [->|Hs].
      + rewrite Hflag. unfold populated. cbn [slot_buffer]. now rewrite Ed.
      + destruct (Ht b7 Hb7) as (b0 & Hb0 & Hsame).
        cbn [ibufs set_ibufs] in Hb0. rewrite lookup_insert_eq in Hb0.
        inversion Hb0; subst b0; clear Hb0.
        assert (Hj : just EncodedSlot s = false)
          by (unfold just; now case_bool_decide).
        pose proof (f_equal fst (Hsame s Hj)) as E.
        cbn [fst slot_state] in E.
        change (flags (set_encoded_buffer_size (encoded_buffer_size b1) b2))
          with (flags b2) in E.
        rewrite E, (Hbits2 s), dup_flags_requested. now case_bool_decide.
    - apply ret_Ok in Henc as [_ <-]. exists b2. split; [exact Hb2|].
      intros s. rewrite (Hbits2 s), dup_flags_requested.
      case_bool_decide as Hs; [|reflexivity].
      subst s. unfold populated. cbn [slot_buffer]. now rewrite Ed. }
  destruct Hb7 as (b7 & Hb7 & Hbits7).
  apply bind_Ok in H as (b & h8 & Hl & H).
  apply load_Ok in Hl as (p0 & [= <-] & Hb & ->).
  assert (b = b7) by congruence. subst b.
  apply bind_Ok in H as ([] & h9 & Hu & H). apply ret_Ok in H as [_ <-].
  apply update_Ok in Hu as (p0 & b & [= <-] & _ & ->).
  intros q bq Hq. cbn [ibufs set_ibufs] in Hq.
  destruct (decide (p2 = q)) as [<-|Hne].
  2:{ rewrite lookup_insert_ne in Hq by assumption. now apply (Hinv7 q). }
  rewrite lookup_insert_eq in Hq. apply (inj Some) in Hq. subst bq.
  intros s.
  pose proof (Hinv7 p2 b7 Hb7 s) as H7.
  pose proof (Hinv p1 b1 Hb1 s) as H1.
  pose proof (populated_data b1 s) as Hp.
  specialize (Hbits7 s).
  unfold consistent, slot_state in *. cbn [fst snd] in *.
  rewrite Hbits7 in H7.
  destruct s; cbn [slot_buffer flags byte_buffer float_buffer z_buffer
                   float_z_buffer encoded_buffer] in *; tauto.
Qed.

Lemma IMB_makeSingleUser_invariant fuel ibuf :
  inv_pres (IMB_makeSingleUser fuel ibuf).
Proof.
  destruct ibuf as [p|]; [|apply inv_pres_ret].
  unfold IMB_makeSingleUser.
  apply inv_pres_bind; [apply inv_pres_load|intros b].
  destruct (refcounter b =? 0); [apply inv_pres_ret|].
  apply inv_pres_bind; [apply IMB_dupImBuf_invariant|intros rval].
  apply inv_pres_bind; [|intros []].
  { apply inv_pres_same_ibufs. unfold IMB_metadata_copy.
    apply same_ibufs_bind; [apply load_same|intros _].
    apply same_ibufs_bind; [apply load_same|intros _].
    apply emit_same. }
  apply inv_pres_bind; [apply IMB_freeImBuf_invariant|intros []].
  apply inv_pres_ret.
Qed.

(** *** The invariant across the operations *)

Lemma heap_invariant_singleton m p b o s t :
  (forall s, consistent (slot_state s b)) ->
  heap_invariant (mkHeap m {[ p := b ]} o s t).
Proof.
  intros Hb q bq Hq. cbn in Hq.
  apply lookup_singleton_Some in Hq as [_ <-]. exact Hb.
Qed.

Lemma borrowing_aggregate_invariant s :
  consistent (slot_state s borrowing_aggregate).
Proof. destruct s; split; vm_compute; congruence. Qed.

Lemma owning_aggregate_invariant s :
  consistent (slot_state s owning_aggregate).
Proof. destruct s; split; vm_compute; congruence. Qed.

(** A byte buffer that cannot be allocated again: [imb_addrectImBuf] has
    freed the pixels and returns false, and [IB_rect] is still set. *)
Lemma imb_addrectImBuf_failure_keeps_flag :
  heap_invariant heap_out_of_memory /\
  exists h' b',
    imb_addrectImBuf (Some 1%positive) heap_out_of_memory = Ok false h' /\
    ibufs h' !! 1%positive = Some b' /\
    slot_state ByteSlot b' = (true, None).
Proof.
  split.
  - apply heap_invariant_singleton, owning_aggregate_invariant.
  - eexists _, _. split; [vm_compute; reflexivity|].
    split; vm_compute; reflexivity.
Qed.

(** [IMB_allocFromBuffer] copies the pixels into a buffer of the new
    aggregate and leaves [IB_rectfloat] clear. *)
Lemma IMB_allocFromBuffer_leaves_flag_clear :
  heap_invariant heap_float_pixels /\
  exists h' b',
    IMB_allocFromBuffer 1 None (Some 1%positive) 1 1 4 heap_float_pixels
      = Ok (Some 1%positive) h' /\
    ibufs h' !! 1%positive = Some b' /\
    slot_state FloatSlot b' = (false, Some 2%positive).
Proof.
  split; [intros q b Hq; cbn in Hq; now rewrite lookup_empty in Hq|].
  eexists _, _. split; [vm_compute; reflexivity|].
  split; vm_compute; reflexivity.
Qed.

(** C7, as the code has it: started in a heap where every aggregate has a
    flag bit set exactly when the data pointer of its slot is not null,
    each of these operations, when it returns, leaves such a heap:
    release and retain; the functions that free a slot, the mipmap levels
    or all slots; the functions that allocate the float, the two depth and
    the encoded slot, and the growth of the encoded buffer;
    [imb_addrectImBuf] unless it leaves empty a byte slot that was
    populated; make-writable and the assignment of owned memory; the
    assignment of shared memory when non-null data comes with a sharing
    handle; the steal functions on a slot that is empty or owned; the
    initialisation of an aggregate, [IMB_allocImBuf] and
    [IMB_allocFromBufferOwn]; duplication and [IMB_makeSingleUser]. *)
Theorem flag_invariant_preserved :
  (forall fuel ibuf, inv_pres (IMB_freeImBuf fuel ibuf)) /\
  (forall ibuf, inv_pres (IMB_refImBuf ibuf)) /\
  (forall fuel ibuf, inv_pres (imb_freemipmapImBuf fuel ibuf)) /\
  (forall fuel ibuf, inv_pres (imb_freerectImBuf fuel ibuf)) /\
  (forall fuel ibuf, inv_pres (imb_freerectfloatImBuf fuel ibuf)) /\
  (forall ibuf, inv_pres (IMB_freezbufImBuf ibuf)) /\
  (forall ibuf, inv_pres (IMB_freezbuffloatImBuf ibuf)) /\
  (forall ibuf, inv_pres (freeencodedbufferImBuf ibuf)) /\
  (forall fuel ibuf, inv_pres (imb_freerectImbuf_all fuel ibuf)) /\
  (forall fuel ibuf channels,
     inv_pres (imb_addrectfloatImBuf fuel ibuf channels)) /\
  (forall ibuf, inv_pres (addzbufImBuf ibuf)) /\
  (forall ibuf, inv_pres (addzbuffloatImBuf ibuf)) /\
  (forall ibuf, inv_pres (imb_addencodedbufferImBuf ibuf)) /\
  (forall ibuf, inv_pres (imb_enlargeencodedbufferImBuf ibuf)) /\
  (forall ibuf h r h',
     heap_invariant h -> imb_addrectImBuf ibuf h = Ok r h' ->
     (forall p b, ibuf = Some p -> ibufs h !! p = Some b ->
        data (byte_buffer b) = None \/
        exists b', ibufs h' !! p = Some b' /\ data (byte_buffer b') <> None) ->
     heap_invariant h') /\
  (forall ibuf, inv_pres (IMB_make_writable_byte_buffer ibuf)) /\
  (forall ibuf, inv_pres (IMB_make_writable_float_buffer ibuf)) /\
  (forall ibuf d own, inv_pres (IMB_assign_byte_buffer ibuf d own)) /\
  (forall ibuf d own, inv_pres (IMB_assign_float_buffer ibuf d own)) /\
  (forall ibuf d own, inv_pres (IMB_assign_z_buffer ibuf d own)) /\
  (forall ibuf d own, inv_pres (IMB_assign_float_z_buffer ibuf d own)) /\
  (forall ibuf d info h u h',
     heap_invariant h ->
     IMB_assign_shared_byte_buffer ibuf d info h = Ok u h' ->
     (d <> None -> info <> None) -> heap_invariant h') /\
  (forall ibuf d info h u h',
     heap_invariant h ->
     IMB_assign_shared_float_buffer ibuf d info h = Ok u h' ->
     (d <> None -> info <> None) -> heap_invariant h') /\
  (forall ibuf d info h u h',
     heap_invariant h ->
     IMB_assign_shared_float_z_buffer ibuf d info h = Ok u h' ->
     (d <> None -> info <> None) -> heap_invariant h') /\
  (forall ibuf h d h',
     heap_invariant h -> IMB_steal_byte_buffer ibuf h = Ok d h' ->
     (forall p b, ibuf = Some p -> ibufs h !! p = Some b ->
        data (byte_buffer b) = None \/
        ownership (byte_buffer b) = IB_TAKE_OWNERSHIP) ->
     heap_invariant h') /\
  (forall ibuf h d h',
     heap_invariant h -> IMB_steal_float_buffer ibuf h = Ok d h' ->
     (forall p b, ibuf = Some p -> ibufs h !! p = Some b ->
        data (float_buffer b) = None \/
        ownership (float_buffer b) = IB_TAKE_OWNERSHIP) ->
     heap_invariant h') /\
  (forall ibuf h d h',
     heap_invariant h -> IMB_steal_encoded_buffer ibuf h = Ok d h' ->
     (forall p b, ibuf = Some p -> ibufs h !! p = Some b ->
        data (encoded_buffer b) = None \/
        ownership (encoded_buffer b) = IB_TAKE_OWNERSHIP) ->
     heap_invariant h') /\
  (forall fuel ibuf ix iy pl fl,
     inv_pres (IMB_initImBuf fuel ibuf ix iy pl fl)) /\
  (forall fuel ix iy pl fl, inv_pres (IMB_allocImBuf fuel ix iy pl fl)) /\
  (forall fuel byte_data float_data w ht channels,
     inv_pres (IMB_allocFromBufferOwn fuel byte_data float_data w ht
                                      channels)) /\
  (forall fuel ibuf, inv_pres (IMB_dupImBuf fuel ibuf)) /\
  (forall fuel ibuf, inv_pres (IMB_makeSingleUser fuel ibuf)).
Proof.
  assert (Hrel : forall fuel c,
            pres (heap_released nowhere) (IMB_freeImBuf fuel c))
    by apply IMB_freeImBuf_released.
  repeat apply conj.
  - apply IMB_freeImBuf_invariant.
  - apply IMB_refImBuf_invariant.
  - intros fuel ibuf. apply (imb_freemipmapImBuf_invariant _ (Hrel fuel) ibuf).
  - intros fuel ibuf. apply (imb_freerectImBuf_invariant _ (Hrel fuel) ibuf).
  - intros fuel ibuf. apply (imb_freerectfloatImBuf_invariant _ (Hrel fuel) ibuf).
  - apply IMB_freezbufImBuf_invariant.
  - apply IMB_freezbuffloatImBuf_invariant.
  - apply freeencodedbufferImBuf_invariant.
  - intros fuel ibuf. apply (imb_freerectImbuf_all_invariant _ ibuf (Hrel fuel)).
  - apply imb_addrectfloatImBuf_invariant.
  - apply addzbufImBuf_invariant.
  - apply addzbuffloatImBuf_invariant.
  - apply imb_addencodedbufferImBuf_invariant.
  - apply imb_enlargeencodedbufferImBuf_invariant.
  - apply imb_addrectImBuf_invariant.
  - apply IMB_make_writable_byte_buffer_invariant.
  - apply IMB_make_writable_float_buffer_invariant.
  - apply IMB_assign_byte_buffer_invariant.
  - apply IMB_assign_float_buffer_invariant.
  - apply IMB_assign_z_buffer_invariant.
  - apply IMB_assign_float_z_buffer_invariant.
  - apply IMB_assign_shared_byte_buffer_invariant.
  - apply IMB_assign_shared_float_buffer_invariant.
  - apply IMB_assign_shared_float_z_buffer_invariant.
  - apply IMB_steal_byte_buffer_invariant.
  - apply IMB_steal_float_buffer_invariant.
  - apply IMB_steal_encoded_buffer_invariant.
  - apply IMB_initImBuf_invariant.
  - apply IMB_allocImBuf_invariant.
  - apply IMB_allocFromBufferOwn_invariant.
  - apply IMB_dupImBuf_invariant.
  - apply IMB_makeSingleUser_invariant.
Qed.

(** The borrowed byte buffer of [heap_borrowing] is made writable: the
    aggregate gets a copy of the block, and the invariant still holds. *)
Lemma flag_invariant_preserved_witness :
  heap_invariant heap_borrowing /\
  exists h',
    IMB_make_writable_byte_buffer (Some 1%positive) heap_borrowing
      = Ok tt h' /\
    heap_invariant h'.
Proof.
  assert (Hinv : heap_invariant heap_borrowing)
    by apply heap_invariant_singleton, borrowing_aggregate_invariant.
  split; [exact Hinv|].
  eassert (E : IMB_make_writable_byte_buffer (Some 1%positive) heap_borrowing
               = Ok tt _) by (vm_compute; reflexivity).
  eexists. split; [exact E|].
  destruct flag_invariant_preserved
    as (_ & _ & _ & _ & _ & _ & _ & _ & _ & _ & _ & _ & _ & _ & _ & Hw & _).
  exact (Hw (Some 1%positive) heap_borrowing tt _ Hinv E).
Defined.

(** C7, the claim as stated fails: stealing the byte buffer of an
    aggregate that does not own it returns null and clears [IB_rect], and
    the data pointer stays. *)
Lemma IMB_steal_byte_buffer_borrowed_breaks_invariant :
  heap_invariant heap_borrowing /\
  exists h' b',
    IMB_steal_byte_buffer (Some 1%positive) heap_borrowing = Ok None h' /\
    ibufs h' !! 1%positive = Some b' /\
    slot_state ByteSlot b' = (false, Some 1%positive) /\
    ~ heap_invariant h'.
Proof.
  split; [apply heap_invariant_singleton, borrowing_aggregate_invariant|].
  eassert (E : IMB_steal_byte_buffer (Some 1%positive) heap_borrowing
               = Ok None _) by (vm_compute; reflexivity).
  eexists _, (set_flags 0 borrowing_aggregate).
  split; [exact E|]. clear E.
  assert (Hb : forall m s a o,
            ibufs (mkHeap m {[ 1%positive := set_flags 0 borrowing_aggregate ]}
                          s a o) !! 1%positive
            = Some (set_flags 0 borrowing_aggregate))
    by (intros; apply lookup_singleton_eq).
  split; [apply Hb|].
  split; [reflexivity|].
  intros Hinv. destruct (Hinv _ _ (Hb _ _ _ _) ByteSlot) as [_ Hc].
  cbn in Hc. discriminate Hc. congruence.
Qed.

(** ** Duplication *)

Lemma mipmap_cleared (levels : list (option loc)) (l : list nat) i level :
  i ∈ l ->
  foldr (fun a m => <[a := None]> m) levels l !! i = Some level ->
  level = None.
Proof.
  induction l as [|a l IH]; intros Hin H; [inversion Hin|].
  cbn [foldr] in H.
  apply list_lookup_insert_Some in H as [(_ & <- & _)|(Hne & H)];
    [reflexivity|].
  apply IH; [|exact H].
  apply elem_of_cons in Hin as [->|Hin]; [now elim Hne|exact Hin].
Qed.

(** What every duplicate has: the dimensions and flags of the source, a
    reference count of zero, no mipmap level and none of the handles. *)
Lemma IMB_dupImBuf_fields fuel ibuf1 h p2 h' :
  IMB_dupImBuf fuel ibuf1 h = Ok (Some p2) h' ->
  exists p1 b1 b2,
    ibuf1 = Some p1 /\ ibufs h !! p1 = Some b1 /\
    ibufs h' !! p2 = Some b2 /\
    x b2 = x b1 /\ y b2 = y b1 /\ planes b2 = planes b1 /\
    channels b2 = channels b1 /\ flags b2 = flags b1 /\
    fresh_handles b2.
Proof.
  intros H. unfold IMB_dupImBuf in H.
  destruct ibuf1 as [p1|]; [|apply ret_Ok in H as [[=] _]].
  apply bind_Ok in H as (b1 & h0 & Hl & H).
  apply load_Ok in Hl as (p0 & [= <-] & Hb1 & ->).
  apply bind_Ok in H as (ibuf2 & h2 & _ & H).
  destruct ibuf2 as [q|]; [|apply ret_Ok in H as [[=] _]].
  apply bind_Ok in H as ([] & h3 & _ & H).
  apply bind_Ok in H as ([] & h4 & _ & H).
  apply bind_Ok in H as ([] & h5 & _ & H).
  apply bind_Ok in H as ([] & h6 & _ & H).
  apply bind_Ok in H as (ok & h7 & _ & H).
  destruct ok; cbn [negb] in H; [|apply ret_Ok in H as [[=] _]].
  apply bind_Ok in H as (b2 & h8 & Hl & H).
  apply load_Ok in Hl as (p0 & [= <-] & Hb2 & ->).
  apply bind_Ok in H as ([] & h9 & Hu & H).
  apply ret_Ok in H as [[= ->] <-].
  apply update_Ok in Hu as (p0 & b & [= <-] & _ & ->).
  eexists p1, b1, _. split; [reflexivity|]. split; [exact Hb1|].
  split; [cbn [ibufs set_ibufs]; apply lookup_insert_eq|].
  cbn. repeat split.
  intros i level Hi Hlevel.
  apply (mipmap_cleared (mipmap b1) (seq 0 IMB_MIPMAP_LEVELS) i);
    [apply elem_of_seq; lia|exact Hlevel].
Qed.

(** C3 on [heap_depth_float]: the duplicate of the aggregate 1 is the
    aggregate 2, with a reference count of zero and no handles; its float
    buffer, block 3, holds the bytes of the source's, but its float depth
    buffer, block 4, holds zeros where the source's, block 2, holds
    01 02 03 04, which is left as it was. *)
Theorem IMB_dupImBuf_depth_float_not_copied :
  exists h' b2,
    IMB_dupImBuf 1 (Some 1%positive) heap_depth_float
      = Ok (Some 2%positive) h' /\
    ibufs h' !! 2%positive = Some b2 /\
    fresh_handles b2 /\
    data (float_buffer b2) = Some 3%positive /\
    mem h' !! 3%positive = mem heap_depth_float !! 1%positive /\
    data (float_z_buffer b2) = Some 4%positive /\
    mem h' !! 4%positive
      = Some [Byte.x00; Byte.x00; Byte.x00; Byte.x00] /\
    mem h' !! 2%positive
      = Some [Byte.x01; Byte.x02; Byte.x03; Byte.x04] /\
    mem heap_depth_float !! 2%positive
      = Some [Byte.x01; Byte.x02; Byte.x03; Byte.x04].
Proof.
  destruct (IMB_dupImBuf 1 (Some 1%positive) heap_depth_float)
    as [r h'| |] eqn:E; [|vm_compute in E; discriminate E..].
  assert (r = Some 2%positive) as ->.
  { vm_compute in E. now inversion E. }
  pose proof (IMB_dupImBuf_fields _ _ _ _ _ E)
    as (p1 & b1 & b2 & _ & _ & Hb2 & _ & _ & _ & _ & _ & Hfresh).
  exists h', b2. split; [reflexivity|]. split; [exact Hb2|].
  split; [exact Hfresh|].
  vm_compute in E. inversion E; subst h'; clear E.
  vm_compute in Hb2. inversion Hb2; subst b2.
  repeat split.
Qed.

(** * More of the file: what the slot functions do *)

(** ** Stealing *)

Lemma set_flags_idem f b :
  set_flags f (set_flags f b) = set_flags f b.
Proof. reflexivity. Qed.

Lemma land_lnot_idem f m :
  Z.land (Z.land f (Z.lnot m)) (Z.lnot m) = Z.land f (Z.lnot m).
Proof. now rewrite <- Z.land_assoc, Z.land_diag. Qed.

Lemma has_flag_cleared f s :
  has_flag (Z.land f (Z.lnot (slot_flag s))) (slot_flag s) = false.
Proof. apply has_flag_clear_same. Qed.

(** Runs a computation that is a sequence of loads and updates of the
    aggregate at hand. *)
Ltac run_steps :=
  repeat first [ run_load | run_update ];
  cbn [ibufs set_ibufs mem set_mem sharing set_sharing].

Lemma steal_shape_run s0 set p h b :
  ibufs h !! p = Some b ->
  steal_shape s0 set (Some p) h
  = Ok (fst (imb_steal_buffer_data (slot_buffer s0 b)))
       (set_ibufs
          (<[p := set_flags (Z.land (flags (set (snd (imb_steal_buffer_data
                                                        (slot_buffer s0 b))) b))
                                    (Z.lnot (slot_flag s0)))
                            (set (snd (imb_steal_buffer_data
                                         (slot_buffer s0 b))) b)]>
             (ibufs h)) h).
Proof.
  intros Hb. unfold steal_shape. run_load.
  destruct (imb_steal_buffer_data (slot_buffer s0 b)) as [d nb].
  run_update. run_update. cbn [ibufs set_ibufs mret M_ret].
  now rewrite insert_insert_eq.
Qed.

Lemma IMB_steal_byte_buffer_run p h b :
  ibufs h !! p = Some b ->
  IMB_steal_byte_buffer (Some p) h
  = Ok (fst (imb_steal_buffer_data (byte_buffer b)))
       (set_ibufs
          (<[p := set_flags (Z.land (flags b) (Z.lnot IB_rect))
                    (set_byte_buffer
                       (snd (imb_steal_buffer_data (byte_buffer b))) b)]>
             (ibufs h)) h).
Proof. exact (steal_shape_run ByteSlot set_byte_buffer p h b). Qed.

Lemma IMB_steal_float_buffer_run p h b :
  ibufs h !! p = Some b ->
  IMB_steal_float_buffer (Some p) h
  = Ok (fst (imb_steal_buffer_data (float_buffer b)))
       (set_ibufs
          (<[p := set_flags (Z.land (flags b) (Z.lnot IB_rectfloat))
                    (set_float_buffer
                       (snd (imb_steal_buffer_data (float_buffer b))) b)]>
             (ibufs h)) h).
Proof. exact (steal_shape_run FloatSlot set_float_buffer p h b). Qed.

Lemma IMB_steal_encoded_buffer_run p h b :
  ibufs h !! p = Some b ->
  IMB_steal_encoded_buffer (Some p) h
  = Ok (fst (imb_steal_buffer_data (encoded_buffer b)))
       (set_ibufs
          (<[p := set_flags (Z.land (flags b) (Z.lnot IB_mem))
                    (set_encoded_buffer_size 0
                       (set_encoded_size 0
                          (set_encoded_buffer
                             (snd (imb_steal_buffer_data (encoded_buffer b)))
                             b)))]>
             (ibufs h)) h).
Proof.
  intros Hb. unfold IMB_steal_encoded_buffer. run_load.
  destruct (imb_steal_buffer_data (encoded_buffer b)) as [d nb].
  do 4 run_update. cbn [ibufs set_ibufs mret M_ret].
  now rewrite !insert_insert_eq.
Qed.

(** What the three steal functions have in common. *)
Lemma IMB_steal_buffer_run s steal p h b :
  IMB_steal_buffer s = Some steal ->
  ibufs h !! p = Some b ->
  exists b',
    steal (Some p) h
    = Ok (fst (imb_steal_buffer_data (slot_buffer s b)))
         (set_ibufs (<[p := b']> (ibufs h)) h) /\
    slot_buffer s b' = snd (imb_steal_buffer_data (slot_buffer s b)) /\
    has_flag (flags b') (slot_flag s) = false /\
    (forall s', s' <> s -> slot_state s' b' = slot_state s' b) /\
    (s = EncodedSlot -> encoded_size b' = 0 /\ encoded_buffer_size b' = 0).
Proof.
  intros Hs Hb. destruct s; inversion Hs; subst steal; clear Hs.
  - eexists. split.
    { exact (IMB_steal_byte_buffer_run p h b Hb). }
    split; [reflexivity|]. split; [apply (has_flag_cleared _ ByteSlot)|].
    split; [|discriminate].
    intros s' Hs'. other_concrete s' Hs'.
  - eexists. split.
    { exact (IMB_steal_float_buffer_run p h b Hb). }
    split; [reflexivity|]. split; [apply (has_flag_cleared _ FloatSlot)|].
    split; [|discriminate].
    intros s' Hs'. other_concrete s' Hs'.
  - eexists. split.
    { exact (IMB_steal_encoded_buffer_run p h b Hb). }
    split; [reflexivity|]. split; [apply (has_flag_cleared _ EncodedSlot)|].
    split; [|now split].
    intros s' Hs'. other_concrete s' Hs'.
Qed.

(** X1: stealing from a slot that owns its data hands the data pointer to
    the caller.  The block is not freed and no byte of it changes; the slot
    is left without data and without ownership, its flag is clear, and
    [IMB_steal_encoded_buffer] also resets the capacity and the in-use size
    to zero.  The other slots keep flag and data. *)
Theorem steal_hands_over_owned_data s steal p h b d :
  IMB_steal_buffer s = Some steal ->
  ibufs h !! p = Some b ->
  data (slot_buffer s b) = Some d ->
  ownership (slot_buffer s b) = IB_TAKE_OWNERSHIP ->
  exists h' b',
    steal (Some p) h = Ok (Some d) h' /\
    mem h' = mem h /\ sharing h' = sharing h /\
    ibufs h' !! p = Some b' /\
    data (slot_buffer s b') = None /\
    ownership (slot_buffer s b') = IB_DO_NOT_TAKE_OWNERSHIP /\
    has_flag (flags b') (slot_flag s) = false /\
    (forall s', s' <> s -> slot_state s' b' = slot_state s' b) /\
    (s = EncodedSlot -> encoded_size b' = 0 /\ encoded_buffer_size b' = 0).
Proof.
  intros Hs Hb Hd Ho.
  destruct (IMB_steal_buffer_run s steal p h b Hs Hb)
    as (b' & Hrun & Hslot & Hflag & Hother & Henc).
  unfold imb_steal_buffer_data in Hrun, Hslot. rewrite Hd, Ho in Hrun, Hslot.
  cbn [fst snd] in Hrun, Hslot.
  eexists _, b'. split; [exact Hrun|].
  split; [reflexivity|]. split; [reflexivity|].
  split; [cbn; apply lookup_insert_eq|].
  rewrite Hslot. repeat split; assumption || apply Henc; assumption.
Qed.

Lemma steal_hands_over_owned_data_witness :
  exists h' b',
    IMB_steal_byte_buffer (Some 1%positive) heap_out_of_memory
      = Ok (Some 1%positive) h' /\
    mem h' = mem heap_out_of_memory /\
    ibufs h' !! 1%positive = Some b' /\
    data (byte_buffer b') = None.
Proof.
  destruct (steal_hands_over_owned_data ByteSlot IMB_steal_byte_buffer
              1%positive heap_out_of_memory owning_aggregate 1%positive)
    as (h' & b' & Hrun & Hmem & _ & Hb' & Hdata & _); try reflexivity.
  exists h', b'. repeat split; assumption.
Defined.

Lemma imb_steal_buffer_data_again buffer :
  imb_steal_buffer_data (snd (imb_steal_buffer_data buffer))
  = (None, snd (imb_steal_buffer_data buffer)).
Proof.
  unfold imb_steal_buffer_data.
  destruct (data buffer) eqn:Ed; cbn [snd]; [|now rewrite Ed].
  destruct (ownership buffer) eqn:Eo; cbn; [|reflexivity].
  now rewrite Ed, Eo.
Qed.

Lemma set_ibufs_insert_twice p (v w : ImBuf) h :
  set_ibufs (<[p := w]> (ibufs (set_ibufs (<[p := v]> (ibufs h)) h)))
            (set_ibufs (<[p := v]> (ibufs h)) h)
  = set_ibufs (<[p := w]> (ibufs h)) h.
Proof. cbn [ibufs set_ibufs]. now rewrite insert_insert_eq. Qed.

(** Clearing a flag that the aggregate on the right has cleared. *)
Ltac clear_again b flag :=
  match goal with
  | |- _ = ?B1 =>
      transitivity
        (set_flags (Z.land (Z.land (flags b) (Z.lnot flag)) (Z.lnot flag)) B1);
      [reflexivity|now rewrite land_lnot_idem]
  end.

(** X2: a second steal in a row returns null and leaves the heap as the
    first one left it, whatever the slot held: after a steal from an owned
    slot the slot is empty, and a slot that does not own its data gives
    null every time. *)
Theorem steal_twice_returns_null s steal p h d h' :
  IMB_steal_buffer s = Some steal ->
  steal (Some p) h = Ok d h' ->
  steal (Some p) h' = Ok None h'.
Proof.
  intros Hs H.
  assert (Hb : exists b, ibufs h !! p = Some b).
  { destruct s; inversion Hs; subst steal;
      apply bind_Ok in H as (b & h0 & Hl & _);
      apply load_Ok in Hl as (p0 & [= <-] & Hb & _); eauto. }
  destruct Hb as [b Hb].
  destruct s; inversion Hs; subst steal; clear Hs.
  - rewrite (IMB_steal_byte_buffer_run p h b Hb) in H.
    inversion H; subst d h'; clear H.
    erewrite (IMB_steal_byte_buffer_run p) by apply lookup_insert_eq.
    cbn [slot_buffer byte_buffer set_flags set_byte_buffer flags].
    rewrite imb_steal_buffer_data_again. cbn [fst snd].
    rewrite set_ibufs_insert_twice. do 3 f_equal.
    clear_again b IB_rect.
  - rewrite (IMB_steal_float_buffer_run p h b Hb) in H.
    inversion H; subst d h'; clear H.
    erewrite (IMB_steal_float_buffer_run p) by apply lookup_insert_eq.
    cbn [slot_buffer float_buffer set_flags set_float_buffer flags].
    rewrite imb_steal_buffer_data_again. cbn [fst snd].
    rewrite set_ibufs_insert_twice. do 3 f_equal.
    clear_again b IB_rectfloat.
  - rewrite (IMB_steal_encoded_buffer_run p h b Hb) in H.
    inversion H; subst d h'; clear H.
    erewrite (IMB_steal_encoded_buffer_run p) by apply lookup_insert_eq.
    cbn [encoded_buffer set_flags set_encoded_buffer set_encoded_size
         set_encoded_buffer_size flags].
    rewrite imb_steal_buffer_data_again. cbn [fst snd].
    rewrite set_ibufs_insert_twice. do 3 f_equal.
    clear_again b IB_mem.
Qed.

Lemma steal_twice_returns_null_witness :
  exists h',
    IMB_steal_byte_buffer (Some 1%positive) heap_out_of_memory
      = Ok (Some 1%positive) h' /\
    IMB_steal_byte_buffer (Some 1%positive) h' = Ok None h'.
Proof.
  eassert (E : IMB_steal_byte_buffer (Some 1%positive) heap_out_of_memory
               = Ok (Some 1%positive) _) by (vm_compute; reflexivity).
  eexists. split; [exact E|].
  exact (steal_twice_returns_null ByteSlot _ _ _ _ _ eq_refl E).
Defined.


(** ** Freeing, assigning and making writable, one slot at a time *)

Lemma ret_run {A B : Type} (a : A) (k : A -> M B) h :
  (mret a ≫= k) h = k a h.
Proof. reflexivity. Qed.

Lemma set_ibufs_insert_over p (v w : ImBuf) h0 :
  set_ibufs (<[p := w]> (ibufs (set_ibufs (<[p := v]> (ibufs h0)) h0)))
            (set_ibufs (<[p := v]> (ibufs h0)) h0)
  = set_ibufs (<[p := w]> (ibufs h0)) h0.
Proof. cbn [ibufs set_ibufs]. now rewrite insert_insert_eq. Qed.

Section slot_runs.
Variable s0 : slot.
Variable set : Buffer -> ImBuf -> ImBuf.
Hypothesis Hset : sets_slot s0 set.

Lemma free_phase_run p h b h0 :
  ibufs h !! p = Some b ->
  imb_free_buffer (slot_buffer s0 b) h = Ok empty_buffer h0 ->
  free_phase s0 set (mret tt) p h
  = Ok tt (set_ibufs
             (<[p := set_flags (Z.land (flags b) (Z.lnot (slot_flag s0)))
                       (set empty_buffer b)]> (ibufs h0)) h0).
Proof.
  intros Hb Hfree. destruct Hset as (Hg & Hf & Ho).
  pose proof (imb_free_buffer_ibufs _ _ _ _ Hfree) as Hi.
  assert (Hb0 : ibufs h0 !! p = Some b) by now rewrite Hi.
  unfold free_phase. run_load. run_head Hfree. run_update.
  rewrite ret_run.
  erewrite update_run by (cbn [ibufs set_ibufs]; apply lookup_insert_eq).
  now rewrite set_ibufs_insert_over, Hf.
Qed.

Lemma assign_shape_run p h b h0 buffer_data own :
  ibufs h !! p = Some b ->
  imb_free_buffer (slot_buffer s0 b) h = Ok empty_buffer h0 ->
  exists b1,
    assign_shape s0 set (Some p) buffer_data own h
    = Ok tt (set_ibufs (<[p := b1]> (ibufs h0)) h0) /\
    slot_buffer s0 b1
    = match buffer_data with
      | Some _ => mkBuffer buffer_data own None
      | None => empty_buffer
      end /\
    has_flag (flags b1) (slot_flag s0)
    = match buffer_data with Some _ => true | None => false end /\
    (forall s, s <> s0 -> slot_state s b1 = slot_state s b).
Proof.
  intros Hb Hfree. pose proof Hset as (Hg & Hf & Ho).
  pose proof (imb_free_buffer_ibufs _ _ _ _ Hfree) as Hi.
  assert (Hb0 : ibufs h0 !! p = Some b) by now rewrite Hi.
  unfold assign_shape. run_load. run_head Hfree. run_update. run_update.
  rewrite set_ibufs_insert_over.
  destruct buffer_data as [d|].
  - run_update. rewrite set_ibufs_insert_over.
    erewrite update_run by (cbn [ibufs set_ibufs]; apply lookup_insert_eq).
    rewrite set_ibufs_insert_over. eexists. split; [reflexivity|].
    cbn [flags set_flags]. rewrite !Hf. cbn [flags set_flags].
    split; [|split].
    + rewrite slot_buffer_set_flags, Hg. f_equal.
      rewrite slot_buffer_set_flags, Hg. reflexivity.
    + apply has_flag_lor_same.
    + intros s Hs. rewrite (other_after_lor s0 set Hset) by assumption.
      unfold slot_state. cbn [flags set_flags].
      rewrite has_flag_clear_other by assumption.
      now rewrite !slot_buffer_set_flags, (Ho _ _ _ Hs).
  - eexists. split; [reflexivity|].
    cbn [flags set_flags]. rewrite !Hf.
    split; [|split].
    + now rewrite slot_buffer_set_flags, Hg.
    + apply has_flag_clear_same.
    + intros s Hs. unfold slot_state. cbn [flags set_flags].
      rewrite has_flag_clear_other by assumption.
      now rewrite slot_buffer_set_flags, (Ho _ _ _ Hs).
Qed.
End slot_runs.

Lemma imb_free_buffer_empty_run h :
  imb_free_buffer empty_buffer h = Ok empty_buffer h.
Proof. reflexivity. Qed.

(** What [imb_free_buffer] does to the blocks when the slot has no sharing
    handle: an owned block is freed, anything else is left alone. *)
Lemma imb_free_buffer_unshared buffer h :
  implicit_sharing buffer = None ->
  (forall d, data buffer = Some d -> ownership buffer = IB_TAKE_OWNERSHIP ->
             is_Some (mem h !! d)) ->
  imb_free_buffer buffer h
  = Ok empty_buffer
       (set_mem (match data buffer, ownership buffer with
                 | Some d, IB_TAKE_OWNERSHIP => delete d (mem h)
                 | _, _ => mem h
                 end) h).
Proof.
  intros Hs Hlive. unfold imb_free_buffer. rewrite Hs.
  destruct (data buffer) as [d|]; [|now destruct h].
  destruct (ownership buffer); [now destruct h|].
  destruct (Hlive d eq_refl eq_refl) as [bytes Hd].
  unfold MEM_freeN, mbind, M_bind. now rewrite Hd.
Qed.

Lemma imb_free_buffer_unshared_Ok buffer h nb h0 :
  implicit_sharing buffer = None ->
  imb_free_buffer buffer h = Ok nb h0 ->
  h0 = set_mem (match data buffer, ownership buffer with
                | Some d, IB_TAKE_OWNERSHIP => delete d (mem h)
                | _, _ => mem h
                end) h.
Proof.
  intros Hs H. rewrite imb_free_buffer_unshared in H; [congruence|exact Hs|].
  intros d Hd Ho. unfold imb_free_buffer in H. rewrite Hs, Hd, Ho in H.
  unfold MEM_freeN, mbind, M_bind in H.
  destruct (mem h !! d); [eauto|discriminate].
Qed.

Lemma IMB_freezbufImBuf_run p h b h0 :
  ibufs h !! p = Some b ->
  imb_free_buffer (z_buffer b) h = Ok empty_buffer h0 ->
  IMB_freezbufImBuf (Some p) h
  = Ok tt (set_ibufs
             (<[p := set_flags (Z.land (flags b) (Z.lnot IB_zbuf))
                       (set_z_buffer empty_buffer b)]> (ibufs h0)) h0).
Proof. exact (free_phase_run ZSlot set_z_buffer sets_slot_z p h b h0). Qed.

Lemma IMB_freezbuffloatImBuf_run p h b h0 :
  ibufs h !! p = Some b ->
  imb_free_buffer (float_z_buffer b) h = Ok empty_buffer h0 ->
  IMB_freezbuffloatImBuf (Some p) h
  = Ok tt (set_ibufs
             (<[p := set_flags (Z.land (flags b) (Z.lnot IB_zbuffloat))
                       (set_float_z_buffer empty_buffer b)]> (ibufs h0)) h0).
Proof.
  exact (free_phase_run FloatZSlot set_float_z_buffer sets_slot_float_z
           p h b h0).
Qed.

Lemma freeencodedbufferImBuf_run p h b h0 :
  ibufs h !! p = Some b ->
  imb_free_buffer (encoded_buffer b) h = Ok empty_buffer h0 ->
  freeencodedbufferImBuf (Some p) h
  = Ok tt (set_ibufs
             (<[p := set_flags (Z.land (flags b) (Z.lnot IB_mem))
                       (set_encoded_size 0
                          (set_encoded_buffer_size 0
                             (set_encoded_buffer empty_buffer b)))]>
                (ibufs h0)) h0).
Proof.
  intros Hb Hfree.
  pose proof (imb_free_buffer_ibufs _ _ _ _ Hfree) as Hi.
  assert (Hb0 : ibufs h0 !! p = Some b) by now rewrite Hi.
  unfold freeencodedbufferImBuf. run_load. run_head Hfree.
  do 3 run_update.
  erewrite update_run by (cbn [ibufs set_ibufs]; apply lookup_insert_eq).
  now rewrite !set_ibufs_insert_over.
Qed.

(** Any run of a function that frees a slot, from its result. *)
Lemma IMB_free_buffer_run s free p h h' :
  IMB_free_buffer s = Some free ->
  free (Some p) h = Ok tt h' ->
  exists b h0 b',
    ibufs h !! p = Some b /\
    imb_free_buffer (slot_buffer s b) h = Ok empty_buffer h0 /\
    h' = set_ibufs (<[p := b']> (ibufs h0)) h0 /\
    slot_buffer s b' = empty_buffer /\
    has_flag (flags b') (slot_flag s) = false /\
    (forall s', s' <> s -> slot_state s' b' = slot_state s' b) /\
    (s = EncodedSlot -> encoded_size b' = 0 /\ encoded_buffer_size b' = 0) /\
    free (Some p) h' = Ok tt h'.
Proof.
  intros Hs H.
  assert (Hb : exists b h0,
             ibufs h !! p = Some b /\
             imb_free_buffer (slot_buffer s b) h = Ok empty_buffer h0).
  { destruct s; inversion Hs; subst free;
      apply bind_Ok in H as (b & h1 & Hl & H);
      apply load_Ok in Hl as (p0 & [= <-] & Hb & ->);
      apply bind_Ok in H as (nb & h0 & Hfree & _);
      pose proof (imb_free_buffer_empty _ _ _ _ Hfree); subst nb; eauto. }
  destruct Hb as (b & h0 & Hb & Hfree).
  pose proof (imb_free_buffer_ibufs _ _ _ _ Hfree) as Hi.
  exists b, h0.
  destruct s; inversion Hs; subst free; clear Hs; cbn [slot_buffer] in Hfree.
  - rewrite (IMB_freezbufImBuf_run p h b h0 Hb Hfree) in H.
    inversion H; subst h'; clear H.
    eexists. split; [exact Hb|]. split; [exact Hfree|].
    split; [reflexivity|]. split; [reflexivity|].
    split; [apply (has_flag_cleared _ ZSlot)|].
    split; [intros s' Hs'; other_concrete s' Hs'|]. split; [discriminate|].
    erewrite IMB_freezbufImBuf_run;
      [|cbn [ibufs set_ibufs]; apply lookup_insert_eq
       |apply imb_free_buffer_empty_run].
    rewrite set_ibufs_insert_over. do 3 f_equal. clear_again b IB_zbuf.
  - rewrite (IMB_freezbuffloatImBuf_run p h b h0 Hb Hfree) in H.
    inversion H; subst h'; clear H.
    eexists. split; [exact Hb|]. split; [exact Hfree|].
    split; [reflexivity|]. split; [reflexivity|].
    split; [apply (has_flag_cleared _ FloatZSlot)|].
    split; [intros s' Hs'; other_concrete s' Hs'|]. split; [discriminate|].
    erewrite IMB_freezbuffloatImBuf_run;
      [|cbn [ibufs set_ibufs]; apply lookup_insert_eq
       |apply imb_free_buffer_empty_run].
    rewrite set_ibufs_insert_over. do 3 f_equal. clear_again b IB_zbuffloat.
  - rewrite (freeencodedbufferImBuf_run p h b h0 Hb Hfree) in H.
    inversion H; subst h'; clear H.
    eexists. split; [exact Hb|]. split; [exact Hfree|].
    split; [reflexivity|]. split; [reflexivity|].
    split; [apply (has_flag_cleared _ EncodedSlot)|].
    split; [intros s' Hs'; other_concrete s' Hs'|]. split; [now split|].
    erewrite freeencodedbufferImBuf_run;
      [|cbn [ibufs set_ibufs]; apply lookup_insert_eq
       |apply imb_free_buffer_empty_run].
    rewrite set_ibufs_insert_over. do 3 f_equal. clear_again b IB_mem.
Qed.

(** X3: the functions that free the int depth, the float depth and the
    encoded buffer, on a slot whose pointers refer to live objects.  The call
    returns; it leaves the slot in its default state with the flag clear
    ([freeencodedbufferImBuf] also sets capacity and in-use size to zero)
    and leaves flag and data of the other slots alone; of a slot without
    sharing handle it frees the block when the slot owns it and no block
    otherwise; and a second call in a row changes nothing. *)
Theorem free_buffer_empties_slot s free p h b :
  IMB_free_buffer s = Some free ->
  ibufs h !! p = Some b ->
  buffer_live h (slot_buffer s b) ->
  exists h' b',
    free (Some p) h = Ok tt h' /\
    ibufs h' !! p = Some b' /\
    slot_buffer s b' = empty_buffer /\
    has_flag (flags b') (slot_flag s) = false /\
    (forall s', s' <> s -> slot_state s' b' = slot_state s' b) /\
    (s = EncodedSlot -> encoded_size b' = 0 /\ encoded_buffer_size b' = 0) /\
    (implicit_sharing (slot_buffer s b) = None ->
     sharing h' = sharing h /\
     mem h' = match data (slot_buffer s b), ownership (slot_buffer s b) with
              | Some d, IB_TAKE_OWNERSHIP => delete d (mem h)
              | _, _ => mem h
              end) /\
    free (Some p) h' = Ok tt h'.
Proof.
  intros Hs Hb Hlive.
  destruct (imb_free_buffer_live _ _ Hlive) as [h0 Hfree].
  assert (Hrun : exists h', free (Some p) h = Ok tt h').
  { destruct s; inversion Hs; subst free; cbn [slot_buffer] in Hfree.
    - rewrite (IMB_freezbufImBuf_run p h b h0 Hb Hfree). eauto.
    - rewrite (IMB_freezbuffloatImBuf_run p h b h0 Hb Hfree). eauto.
    - rewrite (freeencodedbufferImBuf_run p h b h0 Hb Hfree). eauto. }
  destruct Hrun as [h' H]. exists h'.
  destruct (IMB_free_buffer_run s free p h h' Hs H)
    as (b0 & h1 & b' & Hb0 & Hfree1 & -> & Hslot & Hflag & Hother & Henc
        & Hagain).
  assert (b0 = b) by congruence. subst b0.
  exists b'. split; [exact H|].
  split; [cbn [ibufs set_ibufs]; apply lookup_insert_eq|].
  repeat (split; [assumption|]).
  split; [|exact Hagain].
  intros Hsh. apply (imb_free_buffer_unshared_Ok _ _ _ _ Hsh) in Hfree1.
  subst h1. split; reflexivity.
Qed.

Lemma free_buffer_empties_slot_witness :
  exists h' b',
    IMB_freezbuffloatImBuf (Some 1%positive) heap_depth_float = Ok tt h' /\
    ibufs h' !! 1%positive = Some b' /\
    float_z_buffer depth_float_aggregate
    = mkBuffer (Some 2%positive) IB_TAKE_OWNERSHIP None /\
    float_z_buffer b' = empty_buffer /\
    has_flag (flags depth_float_aggregate) IB_zbuffloat = true /\
    has_flag (flags b') IB_zbuffloat = false /\
    mem h' = delete 2%positive (mem heap_depth_float) /\
    IMB_freezbuffloatImBuf (Some 1%positive) h' = Ok tt h'.
Proof.
  destruct (free_buffer_empties_slot FloatZSlot IMB_freezbuffloatImBuf
              1%positive heap_depth_float depth_float_aggregate eq_refl
              eq_refl)
    as (h' & b' & Hrun & Hb' & Hslot & Hflag & _ & _ & Hmem & Hagain).
  - split; cbn.
    + intros d [= <-]. exists [Byte.x01; Byte.x02; Byte.x03; Byte.x04].
      reflexivity.
    + discriminate.
  - exists h', b'. split; [exact Hrun|]. split; [exact Hb'|].
    split; [reflexivity|]. split; [exact Hslot|].
    split; [reflexivity|]. split; [exact Hflag|].
    split; [exact (proj2 (Hmem eq_refl))|exact Hagain].
Defined.

(** ** Assigning memory to a slot *)

Lemma IMB_assign_buffer_run s assign p h b h0 buffer_data own :
  IMB_assign_buffer s = Some assign ->
  ibufs h !! p = Some b ->
  imb_free_buffer (slot_buffer s b) h = Ok empty_buffer h0 ->
  exists b1,
    assign (Some p) buffer_data own h
    = Ok tt (set_ibufs (<[p := b1]> (ibufs h0)) h0) /\
    slot_buffer s b1
    = match buffer_data with
      | Some _ => mkBuffer buffer_data own None
      | None => empty_buffer
      end /\
    has_flag (flags b1) (slot_flag s)
    = match buffer_data with Some _ => true | None => false end /\
    (forall s', s' <> s -> slot_state s' b1 = slot_state s' b).
Proof.
  intros Hs. destruct s; inversion Hs; subst assign; clear Hs.
  - exact (assign_shape_run ByteSlot set_byte_buffer sets_slot_byte
             p h b h0 buffer_data own).
  - exact (assign_shape_run FloatSlot set_float_buffer sets_slot_float
             p h b h0 buffer_data own).
  - exact (assign_shape_run ZSlot set_z_buffer sets_slot_z
             p h b h0 buffer_data own).
  - exact (assign_shape_run FloatZSlot set_float_z_buffer sets_slot_float_z
             p h b h0 buffer_data own).
Qed.

(** X4: the four functions that assign caller-supplied memory to a slot
    without sharing handle.  The slot's previous block is freed when the
    slot owned it and left alone otherwise; the slot then holds the given
    pointer with the given ownership, or its default state for a null
    pointer; the flag is set exactly when the pointer is not null; nothing
    is copied, and flag and data of the other slots stay. *)
Theorem assign_replaces_slot_memory s assign p h b buffer_data own :
  IMB_assign_buffer s = Some assign ->
  ibufs h !! p = Some b ->
  implicit_sharing (slot_buffer s b) = None ->
  (forall d, data (slot_buffer s b) = Some d ->
             ownership (slot_buffer s b) = IB_TAKE_OWNERSHIP ->
             is_Some (mem h !! d)) ->
  exists h' b',
    assign (Some p) buffer_data own h = Ok tt h' /\
    ibufs h' !! p = Some b' /\
    slot_buffer s b'
    = match buffer_data with
      | Some _ => mkBuffer buffer_data own None
      | None => empty_buffer
      end /\
    has_flag (flags b') (slot_flag s)
    = match buffer_data with Some _ => true | None => false end /\
    (forall s', s' <> s -> slot_state s' b' = slot_state s' b) /\
    sharing h' = sharing h /\
    mem h' = match data (slot_buffer s b), ownership (slot_buffer s b) with
             | Some d, IB_TAKE_OWNERSHIP => delete d (mem h)
             | _, _ => mem h
             end.
Proof.
  intros Hs Hb Hsh Hlive.
  pose proof (imb_free_buffer_unshared _ h Hsh Hlive) as Hfree.
  destruct (IMB_assign_buffer_run s assign p h b _ buffer_data own Hs Hb Hfree)
    as (b' & Hrun & Hslot & Hflag & Hother).
  eexists _, b'. split; [exact Hrun|].
  split; [cbn [ibufs set_ibufs]; apply lookup_insert_eq|].
  repeat (split; [assumption|]). split; reflexivity.
Qed.

Lemma assign_replaces_slot_memory_witness :
  exists h' b',
    IMB_assign_z_buffer (Some 1%positive) (Some 1%positive)
                        IB_DO_NOT_TAKE_OWNERSHIP heap_borrowing = Ok tt h' /\
    ibufs h' !! 1%positive = Some b' /\
    z_buffer b' = mkBuffer (Some 1%positive) IB_DO_NOT_TAKE_OWNERSHIP None /\
    has_flag (flags b') IB_zbuf = true /\
    mem h' = mem heap_borrowing.
Proof.
  destruct (assign_replaces_slot_memory ZSlot IMB_assign_z_buffer 1%positive
              heap_borrowing borrowing_aggregate (Some 1%positive)
              IB_DO_NOT_TAKE_OWNERSHIP)
    as (h' & b' & Hrun & Hb' & Hslot & Hflag & _ & _ & Hmem);
    try reflexivity.
  { intros d Hd. discriminate Hd. }
  exists h', b'. repeat split; assumption.
Defined.

(** X5: assign, then steal.  After a pointer has been assigned to the byte
    or the float slot, stealing returns that pointer when it was assigned
    with ownership and leaves the slot empty; when it was assigned without
    ownership, stealing returns null and the pointer stays in the slot.
    Either way the flag ends clear and stealing frees nothing. *)
Theorem assign_then_steal s assign steal p h b d own :
  IMB_assign_buffer s = Some assign ->
  IMB_steal_buffer s = Some steal ->
  ibufs h !! p = Some b ->
  buffer_live h (slot_buffer s b) ->
  exists h1 h2 b2,
    assign (Some p) (Some d) own h = Ok tt h1 /\
    steal (Some p) h1
    = Ok (match own with
          | IB_TAKE_OWNERSHIP => Some d
          | IB_DO_NOT_TAKE_OWNERSHIP => None
          end) h2 /\
    mem h2 = mem h1 /\
    ibufs h2 !! p = Some b2 /\
    data (slot_buffer s b2)
    = match own with
      | IB_TAKE_OWNERSHIP => None
      | IB_DO_NOT_TAKE_OWNERSHIP => Some d
      end /\
    has_flag (flags b2) (slot_flag s) = false.
Proof.
  intros Ha Hs Hb Hlive.
  destruct (imb_free_buffer_live _ _ Hlive) as [h0 Hfree].
  destruct (IMB_assign_buffer_run s assign p h b h0 (Some d) own Ha Hb Hfree)
    as (b1 & Hrun & Hslot & _).
  destruct (IMB_steal_buffer_run s steal p
              (set_ibufs (<[p := b1]> (ibufs h0)) h0) b1 Hs)
    as (b2 & Hrun2 & Hslot2 & Hflag2 & _).
  { cbn [ibufs set_ibufs]. apply lookup_insert_eq. }
  rewrite Hslot in Hrun2, Hslot2.
  eexists _, _, b2. split; [exact Hrun|].
  split; [rewrite Hrun2; now destruct own|].
  split; [reflexivity|].
  split; [cbn [ibufs set_ibufs]; apply lookup_insert_eq|].
  split; [rewrite Hslot2; now destruct own|exact Hflag2].
Qed.

Lemma assign_then_steal_witness :
  exists h1 h2,
    IMB_assign_byte_buffer (Some 1%positive) (Some 2%positive)
                           IB_TAKE_OWNERSHIP heap_out_of_memory = Ok tt h1 /\
    IMB_steal_byte_buffer (Some 1%positive) h1 = Ok (Some 2%positive) h2.
Proof.
  destruct (assign_then_steal ByteSlot IMB_assign_byte_buffer
              IMB_steal_byte_buffer 1%positive heap_out_of_memory
              owning_aggregate 2%positive IB_TAKE_OWNERSHIP)
    as (h1 & h2 & b2 & Hrun & Hsteal & _); try reflexivity.
  { split.
    - intros d [= <-]. now exists [Byte.x01; Byte.x02; Byte.x03; Byte.x04].
    - intros s Hs. discriminate Hs. }
  exists h1, h2. split; assumption.
Defined.


(** ** Shared memory: assigning it and making it writable *)

Lemma imb_assign_shared_buffer_run d info i h :
  sharing h !! info = Some i ->
  imb_assign_shared_buffer empty_buffer (Some d) (Some info) h
  = Ok (mkBuffer (Some d) IB_DO_NOT_TAKE_OWNERSHIP (Some info))
       (set_sharing
          (<[info := mkSharingInfo (strong_users i + 1) (shared_data i)]>
             (sharing h)) h).
Proof.
  intros Hi. unfold imb_assign_shared_buffer.
  rewrite (bind_run _ _ _ _ _ (imb_free_buffer_empty_run h)).
  unfold copy_shared_pointer, add_user, mbind, M_bind. now rewrite Hi.
Qed.

Lemma imb_make_writeable_buffer_shared_run d info i bytes h :
  mem h !! d = Some bytes ->
  sharing h !! info = Some i ->
  shared_data i = Some d ->
  exists q,
    mem h !! q = None /\
    imb_make_writeable_buffer
      (mkBuffer (Some d) IB_DO_NOT_TAKE_OWNERSHIP (Some info)) h
    = Ok (mkBuffer (Some q) IB_TAKE_OWNERSHIP None)
         (if strong_users i =? 1
          then set_mem (delete d (<[q := bytes]> (mem h)))
                 (set_sharing (delete info (sharing h)) h)
          else set_mem (<[q := bytes]> (mem h))
                 (set_sharing
                    (<[info := mkSharingInfo (strong_users i - 1)
                                             (Some d)]> (sharing h)) h)).
Proof.
  intros Hd Hinfo Hsd.
  destruct (MEM_dupallocN_live d bytes h Hd) as (q & Hdup & Hq).
  exists q. split; [exact Hq|].
  assert (Hne : q <> d) by congruence.
  unfold imb_make_writeable_buffer. cbn [data ownership implicit_sharing].
  rewrite (bind_run _ _ _ _ _ Hdup).
  unfold remove_user_and_delete_if_last, mbind, M_bind, mret, M_ret.
  cbn [sharing set_mem]. rewrite Hinfo, Hsd.
  destruct (strong_users i =? 1).
  - unfold MEM_freeN. cbn [mem set_mem set_sharing].
    rewrite lookup_insert_ne, Hd by exact Hne.
    reflexivity.
  - reflexivity.
Qed.

(** Heaps are compared store by store. *)
Ltac heap_eq h0 :=
  destruct h0;
  cbn [ibufs set_ibufs sharing set_sharing mem set_mem oom set_oom
       trace set_trace];
  rewrite ?insert_insert_eq; reflexivity.

Section shared_runs.
Variable s0 : slot.
Variable set : Buffer -> ImBuf -> ImBuf.
Hypothesis Hset : sets_slot s0 set.

Lemma assign_shared_shape_run p h b h0 d info i :
  ibufs h !! p = Some b ->
  imb_free_buffer (slot_buffer s0 b) h = Ok empty_buffer h0 ->
  sharing h0 !! info = Some i ->
  exists b1,
    assign_shared_shape s0 set (Some p) (Some d) (Some info) h
    = Ok tt (set_ibufs (<[p := b1]> (ibufs h0))
               (set_sharing
                  (<[info := mkSharingInfo (strong_users i + 1)
                                           (shared_data i)]> (sharing h0))
                  h0)) /\
    slot_buffer s0 b1
    = mkBuffer (Some d) IB_DO_NOT_TAKE_OWNERSHIP (Some info) /\
    has_flag (flags b1) (slot_flag s0) = true /\
    (forall s, s <> s0 -> slot_state s b1 = slot_state s b).
Proof.
  intros Hb Hfree Hinfo. pose proof Hset as (Hg & Hf & Ho).
  pose proof (imb_free_buffer_ibufs _ _ _ _ Hfree) as Hi.
  assert (Hb0 : ibufs h0 !! p = Some b) by now rewrite Hi.
  unfold assign_shared_shape. run_load. run_head Hfree.
  run_update. run_update. rewrite set_ibufs_insert_over. run_load.
  rewrite slot_buffer_set_flags, Hg.
  erewrite bind_run by (apply (imb_assign_shared_buffer_run d info i);
                        exact Hinfo).
  cbv beta.
  erewrite bind_run
    by (apply update_run; cbn [ibufs set_ibufs set_sharing];
        apply lookup_insert_eq).
  cbv beta.
  erewrite update_run
    by (cbn [ibufs set_ibufs set_sharing]; apply lookup_insert_eq).
  eexists. split.
  { f_equal. heap_eq h0. }
  cbn [flags set_flags]. rewrite !Hf. cbn [flags set_flags].
  split; [|split].
  - now rewrite slot_buffer_set_flags, Hg.
  - apply has_flag_lor_same.
  - intros s Hs. rewrite (other_after_lor s0 set Hset) by assumption.
    unfold slot_state. cbn [flags set_flags].
    rewrite has_flag_clear_other by assumption.
    now rewrite !slot_buffer_set_flags, (Ho _ _ _ Hs).
Qed.

Lemma writable_shape_shared_run p h b d info i bytes :
  ibufs h !! p = Some b ->
  slot_buffer s0 b = mkBuffer (Some d) IB_DO_NOT_TAKE_OWNERSHIP (Some info) ->
  mem h !! d = Some bytes ->
  sharing h !! info = Some i ->
  shared_data i = Some d ->
  exists q,
    mem h !! q = None /\
    writable_shape s0 set (Some p) h
    = Ok tt
        (set_ibufs (<[p := set (mkBuffer (Some q) IB_TAKE_OWNERSHIP None) b]>
                      (ibufs h))
           (if strong_users i =? 1
            then set_mem (delete d (<[q := bytes]> (mem h)))
                   (set_sharing (delete info (sharing h)) h)
            else set_mem (<[q := bytes]> (mem h))
                   (set_sharing
                      (<[info := mkSharingInfo (strong_users i - 1)
                                               (Some d)]> (sharing h)) h))).
Proof.
  intros Hb Hslot Hd Hinfo Hsd.
  destruct (imb_make_writeable_buffer_shared_run d info i bytes h
              Hd Hinfo Hsd) as (q & Hq & Hmw).
  exists q. split; [exact Hq|].
  unfold writable_shape. run_load. rewrite Hslot. run_head Hmw.
  erewrite update_run
    by (destruct (strong_users i =? 1);
        cbn [ibufs set_ibufs set_sharing set_mem]; exact Hb).
  f_equal. destruct (strong_users i =? 1); heap_eq h.
Qed.
End shared_runs.

Lemma IMB_assign_shared_buffer_run s assign p h b h0 d info i :
  IMB_assign_shared_buffer s = Some assign ->
  ibufs h !! p = Some b ->
  imb_free_buffer (slot_buffer s b) h = Ok empty_buffer h0 ->
  sharing h0 !! info = Some i ->
  exists b1,
    assign (Some p) (Some d) (Some info) h
    = Ok tt (set_ibufs (<[p := b1]> (ibufs h0))
               (set_sharing
                  (<[info := mkSharingInfo (strong_users i + 1)
                                           (shared_data i)]> (sharing h0))
                  h0)) /\
    slot_buffer s b1
    = mkBuffer (Some d) IB_DO_NOT_TAKE_OWNERSHIP (Some info) /\
    has_flag (flags b1) (slot_flag s) = true /\
    (forall s', s' <> s -> slot_state s' b1 = slot_state s' b).
Proof.
  intros Hs. destruct s; inversion Hs; subst assign; clear Hs.
  - exact (assign_shared_shape_run ByteSlot set_byte_buffer sets_slot_byte
             p h b h0 d info i).
  - exact (assign_shared_shape_run FloatSlot set_float_buffer sets_slot_float
             p h b h0 d info i).
  - exact (assign_shared_shape_run FloatZSlot set_float_z_buffer
             sets_slot_float_z p h b h0 d info i).
Qed.

Lemma IMB_assign_shared_buffer_null_run s assign p h b h0 info :
  IMB_assign_shared_buffer s = Some assign ->
  ibufs h !! p = Some b ->
  imb_free_buffer (slot_buffer s b) h = Ok empty_buffer h0 ->
  exists b1,
    assign (Some p) None info h
    = Ok tt (set_ibufs (<[p := b1]> (ibufs h0)) h0) /\
    slot_buffer s b1 = empty_buffer /\
    has_flag (flags b1) (slot_flag s) = false /\
    (forall s', s' <> s -> slot_state s' b1 = slot_state s' b).
Proof.
  intros Hs. destruct s; inversion Hs; subst assign; clear Hs.
  - exact (assign_shape_run ByteSlot set_byte_buffer sets_slot_byte
             p h b h0 None IB_TAKE_OWNERSHIP).
  - exact (assign_shape_run FloatSlot set_float_buffer sets_slot_float
             p h b h0 None IB_TAKE_OWNERSHIP).
  - exact (assign_shape_run FloatZSlot set_float_z_buffer sets_slot_float_z
             p h b h0 None IB_TAKE_OWNERSHIP).
Qed.

(** X6: the three functions that assign shared memory, on a slot without
    sharing handle.  With a data pointer and a handle, the control block
    gains exactly one user, the slot refers to the data without owning it,
    the flag is set, and no block is copied; the slot's previous block is
    freed when the slot owned it.  With a null data pointer the handle is
    not looked at: no user is added, and the slot is left empty with the
    flag clear. *)
Theorem assign_shared_adds_one_user s assign p h b d info i :
  IMB_assign_shared_buffer s = Some assign ->
  ibufs h !! p = Some b ->
  implicit_sharing (slot_buffer s b) = None ->
  (forall d0, data (slot_buffer s b) = Some d0 ->
              ownership (slot_buffer s b) = IB_TAKE_OWNERSHIP ->
              is_Some (mem h !! d0)) ->
  sharing h !! info = Some i ->
  (exists h' b',
     assign (Some p) (Some d) (Some info) h = Ok tt h' /\
     ibufs h' !! p = Some b' /\
     slot_buffer s b'
     = mkBuffer (Some d) IB_DO_NOT_TAKE_OWNERSHIP (Some info) /\
     has_flag (flags b') (slot_flag s) = true /\
     (forall s', s' <> s -> slot_state s' b' = slot_state s' b) /\
     sharing h'
     = <[info := mkSharingInfo (strong_users i + 1) (shared_data i)]>
         (sharing h) /\
     mem h' = match data (slot_buffer s b), ownership (slot_buffer s b) with
              | Some d0, IB_TAKE_OWNERSHIP => delete d0 (mem h)
              | _, _ => mem h
              end) /\
  (exists h' b',
     assign (Some p) None (Some info) h = Ok tt h' /\
     ibufs h' !! p = Some b' /\
     slot_buffer s b' = empty_buffer /\
     has_flag (flags b') (slot_flag s) = false /\
     sharing h' = sharing h).
Proof.
  intros Hs Hb Hsh Hlive Hinfo.
  pose proof (imb_free_buffer_unshared _ h Hsh Hlive) as Hfree.
  split.
  - destruct (IMB_assign_shared_buffer_run s assign p h b _ d info i
                Hs Hb Hfree Hinfo)
      as (b' & Hrun & Hslot & Hflag & Hother).
    eexists _, b'. split; [exact Hrun|].
    split; [cbn [ibufs set_ibufs]; apply lookup_insert_eq|].
    repeat (split; [assumption|]). split; reflexivity.
  - destruct (IMB_assign_shared_buffer_null_run s assign p h b _ (Some info)
                Hs Hb Hfree)
      as (b' & Hrun & Hslot & Hflag & _).
    eexists _, b'. split; [exact Hrun|].
    split; [cbn [ibufs set_ibufs]; apply lookup_insert_eq|].
    repeat (split; [assumption|]). reflexivity.
Qed.

Lemma assign_shared_adds_one_user_witness :
  exists h',
    IMB_assign_shared_byte_buffer (Some 11%positive) (Some 2%positive)
                                  (Some 7%positive) sample_heap = Ok tt h' /\
    sharing h' = <[7%positive := mkSharingInfo 3 (Some 2%positive)]>
                   (sharing sample_heap).
Proof.
  destruct (assign_shared_adds_one_user ByteSlot IMB_assign_shared_byte_buffer
              11%positive sample_heap sample_level 2%positive 7%positive
              (mkSharingInfo 2 (Some 2%positive)))
    as [(h' & b' & Hrun & _ & _ & _ & _ & Hsharing & _) _];
    try reflexivity.
  { intros d0 [= <-] _. now exists (replicate 4 Byte.x33). }
  exists h'. split; [exact Hrun|exact Hsharing].
Defined.

(** X7: a shared float depth buffer comes and goes.  Assigning shared
    memory to the empty float depth slot and freeing the slot again leaves
    the control block with the users it had and every block in place, when
    the control block had a user before. *)
Theorem assign_shared_then_free p h b d info i :
  ibufs h !! p = Some b ->
  float_z_buffer b = empty_buffer ->
  sharing h !! info = Some i ->
  0 < strong_users i ->
  exists h1 h2 b2,
    IMB_assign_shared_float_z_buffer (Some p) (Some d) (Some info) h
      = Ok tt h1 /\
    IMB_freezbuffloatImBuf (Some p) h1 = Ok tt h2 /\
    sharing h2 = sharing h /\ mem h2 = mem h /\
    ibufs h2 !! p = Some b2 /\
    float_z_buffer b2 = empty_buffer /\
    has_flag (flags b2) IB_zbuffloat = false.
Proof.
  intros Hb Hempty Hinfo Hpos.
  assert (Hfree : imb_free_buffer (slot_buffer FloatZSlot b) h
                  = Ok empty_buffer h).
  { cbn [slot_buffer]. rewrite Hempty. apply imb_free_buffer_empty_run. }
  destruct (IMB_assign_shared_buffer_run FloatZSlot _ p h b h d info i
              eq_refl Hb Hfree Hinfo)
    as (b1 & Hrun & Hslot & _).
  cbn [slot_buffer] in Hslot.
  match type of Hrun with _ = Ok tt ?v => set (h1 := v) in * end.
  assert (Hb1 : ibufs h1 !! p = Some b1)
    by (subst h1; cbn [ibufs set_ibufs]; apply lookup_insert_eq).
  assert (Hfree1 : imb_free_buffer (float_z_buffer b1) h1
                   = Ok empty_buffer (set_sharing (sharing h) h1)).
  { rewrite Hslot. unfold imb_free_buffer, free_shared_data.
    cbn [implicit_sharing].
    unfold remove_user_and_delete_if_last, mbind, M_bind, mret, M_ret.
    subst h1. cbn [sharing set_sharing set_ibufs].
    rewrite lookup_insert_eq. cbn [strong_users shared_data].
    destruct (Z.eqb_spec (strong_users i + 1) 1) as [E|_]; [lia|].
    f_equal. cbn [set_sharing set_ibufs sharing mem ibufs oom trace].
    rewrite insert_insert_eq.
    replace (strong_users i + 1 - 1) with (strong_users i) by lia.
    rewrite insert_id; [reflexivity|]. rewrite Hinfo. now destruct i. }
  eexists h1, _, _. split; [exact Hrun|].
  split; [exact (IMB_freezbuffloatImBuf_run p h1 b1 _ Hb1 Hfree1)|].
  split; [reflexivity|]. split; [reflexivity|].
  split; [cbn [ibufs set_ibufs set_sharing]; apply lookup_insert_eq|].
  split; [reflexivity|apply (has_flag_cleared _ FloatZSlot)].
Qed.

Lemma assign_shared_then_free_witness :
  exists h1 h2,
    IMB_assign_shared_float_z_buffer (Some 11%positive) (Some 2%positive)
                                     (Some 7%positive) sample_heap
      = Ok tt h1 /\
    IMB_freezbuffloatImBuf (Some 11%positive) h1 = Ok tt h2 /\
    sharing h2 = sharing sample_heap /\ mem h2 = mem sample_heap.
Proof.
  destruct (assign_shared_then_free 11%positive sample_heap sample_level
              2%positive 7%positive (mkSharingInfo 2 (Some 2%positive)))
    as (h1 & h2 & b2 & Hrun & Hfree & Hsharing & Hmem & _);
    try reflexivity.
  exists h1, h2. repeat split; assumption.
Defined.

Lemma IMB_make_writable_buffer_shared_run s mw p h b d info i bytes :
  IMB_make_writable_buffer s = Some mw ->
  ibufs h !! p = Some b ->
  slot_buffer s b = mkBuffer (Some d) IB_DO_NOT_TAKE_OWNERSHIP (Some info) ->
  mem h !! d = Some bytes ->
  sharing h !! info = Some i ->
  shared_data i = Some d ->
  exists q b',
    mem h !! q = None /\
    slot_buffer s b' = mkBuffer (Some q) IB_TAKE_OWNERSHIP None /\
    flags b' = flags b /\
    (forall s', s' <> s -> slot_state s' b' = slot_state s' b) /\
    mw (Some p) h
    = Ok tt
        (set_ibufs (<[p := b']> (ibufs h))
           (if strong_users i =? 1
            then set_mem (delete d (<[q := bytes]> (mem h)))
                   (set_sharing (delete info (sharing h)) h)
            else set_mem (<[q := bytes]> (mem h))
                   (set_sharing
                      (<[info := mkSharingInfo (strong_users i - 1)
                                               (Some d)]> (sharing h)) h))).
Proof.
  intros Hs Hb Hslot Hd Hinfo Hsd.
  destruct s; inversion Hs; subst mw; clear Hs.
  - destruct (writable_shape_shared_run ByteSlot set_byte_buffer p h b d info
                i bytes Hb Hslot Hd Hinfo Hsd) as (q & Hq & Hrun).
    eexists q, _. split; [exact Hq|]. split; [|split; [|split; [|exact Hrun]]].
    + reflexivity.
    + reflexivity.
    + intros s' Hs'. other_concrete s' Hs'.
  - destruct (writable_shape_shared_run FloatSlot set_float_buffer p h b d
                info i bytes Hb Hslot Hd Hinfo Hsd) as (q & Hq & Hrun).
    eexists q, _. split; [exact Hq|]. split; [|split; [|split; [|exact Hrun]]].
    + reflexivity.
    + reflexivity.
    + intros s' Hs'. other_concrete s' Hs'.
Qed.

(** X8: copy on write.  Making writable a byte or float slot that shares
    its data through a control block gives the slot a fresh block of its
    own with the same bytes, owned and without handle, and leaves the flags
    as they were.  While other users remain, the shared block stays as it
    is and the control block counts one user fewer; for the last user the
    control block and the shared block are freed. *)
Theorem make_writable_copies_shared_data s mw p h b d info i bytes :
  IMB_make_writable_buffer s = Some mw ->
  ibufs h !! p = Some b ->
  slot_buffer s b = mkBuffer (Some d) IB_DO_NOT_TAKE_OWNERSHIP (Some info) ->
  mem h !! d = Some bytes ->
  sharing h !! info = Some i ->
  shared_data i = Some d ->
  exists q h' b',
    mw (Some p) h = Ok tt h' /\
    ibufs h' !! p = Some b' /\
    slot_buffer s b' = mkBuffer (Some q) IB_TAKE_OWNERSHIP None /\
    flags b' = flags b /\
    q <> d /\ mem h !! q = None /\ mem h' !! q = Some bytes /\
    (strong_users i <> 1 ->
     mem h' !! d = Some bytes /\
     sharing h' !! info
     = Some (mkSharingInfo (strong_users i - 1) (Some d))) /\
    (strong_users i = 1 ->
     mem h' !! d = None /\ sharing h' !! info = None).
Proof.
  intros Hs Hb Hslot Hd Hinfo Hsd.
  destruct (IMB_make_writable_buffer_shared_run s mw p h b d info i bytes
              Hs Hb Hslot Hd Hinfo Hsd)
    as (q & b' & Hq & Hslot' & Hflags & _ & Hrun).
  assert (Hne : q <> d) by congruence.
  eexists q, _, b'. split; [exact Hrun|].
  split; [destruct (strong_users i =? 1);
          cbn [ibufs set_ibufs set_mem set_sharing]; apply lookup_insert_eq|].
  split; [exact Hslot'|]. split; [exact Hflags|]. split; [exact Hne|].
  split; [exact Hq|].
  destruct (Z.eqb_spec (strong_users i) 1) as [E|E];
    cbn [mem sharing set_ibufs set_mem set_sharing].
  - split; [|split; [intros; contradiction|intros _]].
    + rewrite lookup_delete_ne by congruence. apply lookup_insert_eq.
    + split; apply lookup_delete_eq.
  - split; [apply lookup_insert_eq|split; [intros _|intros; contradiction]].
    split; [|apply lookup_insert_eq].
    now rewrite lookup_insert_ne.
Qed.

Lemma make_writable_copies_shared_data_witness :
  exists q h' b',
    IMB_make_writable_float_buffer (Some 10%positive) sample_heap
      = Ok tt h' /\
    ibufs h' !! 10%positive = Some b' /\
    float_buffer b' = mkBuffer (Some q) IB_TAKE_OWNERSHIP None /\
    mem h' !! q = Some (replicate 64 Byte.x22) /\
    mem h' !! 2%positive = Some (replicate 64 Byte.x22) /\
    sharing h' !! 7%positive = Some (mkSharingInfo 1 (Some 2%positive)).
Proof.
  destruct (make_writable_copies_shared_data FloatSlot
              IMB_make_writable_float_buffer 10%positive sample_heap
              sample_aggregate 2%positive 7%positive
              (mkSharingInfo 2 (Some 2%positive)) (replicate 64 Byte.x22))
    as (q & h' & b' & Hrun & Hb' & Hslot & _ & _ & _ & Hq & Hmany & _);
    try reflexivity.
  destruct Hmany as [Hd Hinfo]; [cbn; lia|].
  exists q, h', b'. repeat split; assumption.
Defined.


(** ** Allocating a slot *)

Lemma imb_alloc_buffer_refused buffer x y c t h :
  0 <= x < uint_modulus -> 0 <= y < uint_modulus ->
  0 < c * t <= SIZE_MAX -> x * y < SIZE_MAX / (c * t) ->
  fst (next_request h) = true ->
  imb_alloc_buffer buffer x y c t h
  = Ok (false, mkBuffer None (ownership buffer) (implicit_sharing buffer))
       (set_oom (snd (next_request h)) h).
Proof.
  intros Hx Hy Hct Hlt Hreq. unfold imb_alloc_buffer, mbind, M_bind.
  rewrite (imb_alloc_pixels_unfold x y c t h Hx Hy Hct).
  destruct (Z.ltb_spec (x * y) (SIZE_MAX / (c * t))); [|lia].
  now rewrite (MEM_callocN_refused _ h Hreq).
Qed.

Lemma imb_alloc_buffer_too_large buffer x y c t h :
  0 <= x < uint_modulus -> 0 <= y < uint_modulus ->
  0 < c * t <= SIZE_MAX -> SIZE_MAX / (c * t) <= x * y ->
  imb_alloc_buffer buffer x y c t h
  = Ok (false, mkBuffer None (ownership buffer) (implicit_sharing buffer)) h.
Proof.
  intros Hx Hy Hct Hge. unfold imb_alloc_buffer, mbind, M_bind.
  rewrite (imb_alloc_pixels_unfold x y c t h Hx Hy Hct).
  destruct (Z.ltb_spec (x * y) (SIZE_MAX / (c * t))); [lia|reflexivity].
Qed.

Lemma imb_free_buffer_next_request buffer h nb h0 :
  imb_free_buffer buffer h = Ok nb h0 -> next_request h0 = next_request h.
Proof.
  intros H. eapply heap_released_next_request.
  exact (imb_free_buffer_released nowhere buffer h nb h0 H).
Qed.

(** The steps of [imb_addrectImBuf] up to the allocation. *)
Lemma imb_addrectImBuf_run p h b h0 :
  ibufs h !! p = Some b ->
  imb_free_buffer (byte_buffer b) h = Ok empty_buffer h0 ->
  imb_addrectImBuf (Some p) h
  = ('(ok, nb) ← imb_alloc_buffer empty_buffer (x b) (y b) 4 sizeof_uint8_t;
     update (Some p) (set_byte_buffer nb);;
     if negb ok then mret false
     else
       update (Some p) (fun b => set_flags (Z.lor (flags b) IB_rect) b);;
       b ← load (Some p);
       if 32 <? planes b then addzbufImBuf (Some p) else mret true)
      (set_ibufs (<[p := set_byte_buffer empty_buffer b]> (ibufs h0)) h0).
Proof.
  intros Hb Hfree.
  pose proof (imb_free_buffer_ibufs _ _ _ _ Hfree) as Hi.
  assert (Hb0 : ibufs h0 !! p = Some b) by now rewrite Hi.
  unfold imb_addrectImBuf. run_load. run_head Hfree. run_update. run_load.
  reflexivity.
Qed.

(** X9: [imb_addrectImBuf] on an aggregate of at most 32 planes, when the
    size passes the check and the allocator serves the request.  It
    returns true; the byte slot owns a block of [x * y * 4] zero bytes,
    which was not allocated after the previous buffer had been freed;
    [IB_rect] is set; the other slots keep flag and data. *)
Theorem imb_addrectImBuf_allocates p h b :
  ibufs h !! p = Some b ->
  buffer_live h (byte_buffer b) ->
  0 <= x b < uint_modulus -> 0 <= y b < uint_modulus ->
  x b * y b < SIZE_MAX / 4 ->
  planes b <= 32 ->
  fst (next_request h) = false ->
  exists h0 d h' b',
    imb_free_buffer (byte_buffer b) h = Ok empty_buffer h0 /\
    imb_addrectImBuf (Some p) h = Ok true h' /\
    ibufs h' !! p = Some b' /\
    byte_buffer b' = mkBuffer (Some d) IB_TAKE_OWNERSHIP None /\
    has_flag (flags b') IB_rect = true /\
    (forall s, s <> ByteSlot -> slot_state s b' = slot_state s b) /\
    mem h0 !! d = None /\
    mem h' = <[d := replicate (Z.to_nat (x b * y b * 4)) Byte.x00]> (mem h0) /\
    sharing h' = sharing h0.
Proof.
  intros Hb Hlive Hx Hy Hlt Hplanes Hreq.
  destruct (imb_free_buffer_live _ _ Hlive) as [h0 Hfree].
  pose proof (imb_free_buffer_next_request _ _ _ _ Hfree) as Hnext.
  set (h1 := set_ibufs (<[p := set_byte_buffer empty_buffer b]> (ibufs h0))
                       h0).
  destruct (imb_alloc_buffer_served empty_buffer (x b) (y b) 4 sizeof_uint8_t
              h1 Hx Hy) as (d & Halloc & Hfresh).
  { unfold sizeof_uint8_t, SIZE_MAX, size_t_modulus. lia. }
  { exact Hlt. }
  { unfold h1, next_request. cbn [oom set_ibufs].
    fold (next_request h0). now rewrite Hnext. }
  exists h0, d. eexists _, _. split; [exact Hfree|].
  split.
  { rewrite (imb_addrectImBuf_run p h b h0 Hb Hfree). fold h1.
    run_head Halloc. cbn [negb].
    erewrite bind_run
      by (apply update_run; cbn [ibufs set_ibufs set_oom set_mem];
          apply lookup_insert_eq).
    cbv beta.
    erewrite bind_run
      by (apply update_run; cbn [ibufs set_ibufs set_oom set_mem];
          apply lookup_insert_eq).
    cbv beta.
    erewrite bind_run
      by (apply load_run; cbn [ibufs set_ibufs set_oom set_mem];
          apply lookup_insert_eq).
    cbv beta. cbn [planes set_flags set_byte_buffer].
    destruct (Z.ltb_spec 32 (planes b)); [lia|reflexivity]. }
  split; [cbn [ibufs set_ibufs]; apply lookup_insert_eq|].
  split; [reflexivity|].
  split; [apply (has_flag_lor_same _ ByteSlot)|].
  split; [intros s Hs; other_concrete s Hs|].
  split; [exact Hfresh|].
  split; [|reflexivity].
  cbn [mem set_ibufs set_oom set_mem]. unfold sizeof_uint8_t.
  now rewrite Z.mul_1_r.
Qed.

Lemma imb_addrectImBuf_allocates_witness :
  exists h' b' d,
    imb_addrectImBuf (Some 1%positive) heap_borrowing = Ok true h' /\
    ibufs h' !! 1%positive = Some b' /\
    byte_buffer b' = mkBuffer (Some d) IB_TAKE_OWNERSHIP None /\
    mem h' = <[d := replicate 4 Byte.x00]> (mem heap_borrowing).
Proof.
  destruct (imb_addrectImBuf_allocates 1%positive heap_borrowing
              borrowing_aggregate)
    as (h0 & d & h' & b' & Hfree & Hrun & Hb' & Hslot & _ & _ & _ & Hmem & _);
    try reflexivity.
  { split.
    - intros d [= <-]. now exists [Byte.x01; Byte.x02; Byte.x03; Byte.x04].
    - intros s Hs. discriminate Hs. }
  { cbn. unfold uint_modulus. lia. }
  { cbn. unfold uint_modulus. lia. }
  exists h', b', d. split; [exact Hrun|]. split; [exact Hb'|].
  split; [exact Hslot|].
  vm_compute in Hfree. inversion Hfree; subst h0. exact Hmem.
Defined.

(** X10: when the allocation of [imb_addrectImBuf] fails, because the
    allocator refuses the request or because [x * y] does not pass the size
    check, the function returns false after it has freed the previous
    buffer: the byte slot is left in its default state, no block is
    allocated, and the flags of the aggregate are what they were, so that
    [IB_rect] stays set if it was. *)
Theorem imb_addrectImBuf_failure p h b :
  ibufs h !! p = Some b ->
  buffer_live h (byte_buffer b) ->
  0 <= x b < uint_modulus -> 0 <= y b < uint_modulus ->
  fst (next_request h) = true \/ SIZE_MAX / 4 <= x b * y b ->
  exists h0 h',
    imb_free_buffer (byte_buffer b) h = Ok empty_buffer h0 /\
    imb_addrectImBuf (Some p) h = Ok false h' /\
    ibufs h' !! p = Some (set_byte_buffer empty_buffer b) /\
    mem h' = mem h0 /\ sharing h' = sharing h0.
Proof.
  intros Hb Hlive Hx Hy Hfail.
  destruct (imb_free_buffer_live _ _ Hlive) as [h0 Hfree].
  pose proof (imb_free_buffer_next_request _ _ _ _ Hfree) as Hnext.
  set (h1 := set_ibufs (<[p := set_byte_buffer empty_buffer b]> (ibufs h0))
                       h0).
  assert (Hct : 0 < 4 * sizeof_uint8_t <= SIZE_MAX)
    by (unfold sizeof_uint8_t, SIZE_MAX, size_t_modulus; lia).
  assert (Halloc : exists h2,
             imb_alloc_buffer empty_buffer (x b) (y b) 4 sizeof_uint8_t h1
             = Ok (false, empty_buffer) h2 /\
             ibufs h2 = ibufs h1 /\ mem h2 = mem h0 /\
             sharing h2 = sharing h0).
  { destruct (Z.lt_ge_cases (x b * y b) (SIZE_MAX / (4 * sizeof_uint8_t)))
      as [Hlt|Hge].
    - destruct Hfail as [Hreq|Hge];
        [|change (4 * sizeof_uint8_t) with 4 in Hlt; lia].
      eexists. split.
      + apply imb_alloc_buffer_refused; try assumption.
        unfold h1, next_request. cbn [oom set_ibufs].
        fold (next_request h0). now rewrite Hnext.
      + repeat split.
    - eexists. split.
      + apply imb_alloc_buffer_too_large; assumption.
      + repeat split. }
  destruct Halloc as (h2 & Halloc & Hi2 & Hm2 & Hs2).
  exists h0. eexists. split; [exact Hfree|].
  split.
  { rewrite (imb_addrectImBuf_run p h b h0 Hb Hfree). fold h1.
    run_head Halloc. cbn [negb].
    erewrite bind_run
      by (apply update_run; rewrite Hi2; cbn [ibufs set_ibufs];
          apply lookup_insert_eq).
    reflexivity. }
  split; [cbn [ibufs set_ibufs]; now rewrite lookup_insert_eq|].
  split; [exact Hm2|exact Hs2].
Qed.

Lemma imb_addrectImBuf_failure_witness :
  exists h',
    imb_addrectImBuf (Some 1%positive) heap_out_of_memory = Ok false h' /\
    ibufs h' !! 1%positive
    = Some (set_byte_buffer empty_buffer owning_aggregate) /\
    has_flag (flags (set_byte_buffer empty_buffer owning_aggregate)) IB_rect
    = true.
Proof.
  destruct (imb_addrectImBuf_failure 1%positive heap_out_of_memory
              owning_aggregate)
    as (h0 & h' & _ & Hrun & Hb' & _); try reflexivity.
  { split.
    - intros d [= <-]. now exists [Byte.x01; Byte.x02; Byte.x03; Byte.x04].
    - intros s Hs. discriminate Hs. }
  { cbn. unfold uint_modulus. lia. }
  { cbn. unfold uint_modulus. lia. }
  { now left. }
  exists h'. split; [exact Hrun|]. split; [exact Hb'|reflexivity].
Defined.


(** The steps of [imb_addencodedbufferImBuf] up to the allocation: the
    capacity has been reset by [freeencodedbufferImBuf], so that it is
    10000 whatever it was. *)
Lemma imb_addencodedbufferImBuf_run p h b h0 :
  ibufs h !! p = Some b ->
  imb_free_buffer (encoded_buffer b) h = Ok empty_buffer h0 ->
  imb_addencodedbufferImBuf (Some p) h
  = ('(ok, nb) ← imb_alloc_buffer empty_buffer 10000 1 1 sizeof_uint8_t;
     update (Some p) (set_encoded_buffer nb);;
     if negb ok then mret false
     else
       update (Some p) (fun b => set_flags (Z.lor (flags b) IB_mem) b);;
       mret true)
      (set_ibufs
         (<[p := set_encoded_size 0
                   (set_encoded_buffer_size 10000
                      (set_flags (Z.land (flags b) (Z.lnot IB_mem))
                         (set_encoded_size 0
                            (set_encoded_buffer_size 0
                               (set_encoded_buffer empty_buffer b)))))]>
            (ibufs h0)) h0).
Proof.
  intros Hb Hfree. unfold imb_addencodedbufferImBuf.
  run_head (freeencodedbufferImBuf_run p h b h0 Hb Hfree).
  run_load. cbn [encoded_buffer_size set_flags set_encoded_size
                 set_encoded_buffer_size].
  change (0 =? 0) with true. cbv iota.
  run_update. run_update. rewrite !set_ibufs_insert_over. run_load.
  reflexivity.
Qed.

(** X11: [imb_addencodedbufferImBuf] does not look at the capacity the
    aggregate records: after freeing the previous buffer it always asks for
    10000 bytes.  Served, it returns true with an owned block of 10000 zero
    bytes in the encoded slot, capacity 10000, in-use size 0 and [IB_mem]
    set; refused, it returns false with the slot empty and [IB_mem] clear,
    the capacity still reading 10000. *)
Theorem imb_addencodedbufferImBuf_capacity p h b :
  ibufs h !! p = Some b ->
  buffer_live h (encoded_buffer b) ->
  exists h0,
    imb_free_buffer (encoded_buffer b) h = Ok empty_buffer h0 /\
    (fst (next_request h) = false ->
     exists d h' b',
       imb_addencodedbufferImBuf (Some p) h = Ok true h' /\
       ibufs h' !! p = Some b' /\
       encoded_buffer b' = mkBuffer (Some d) IB_TAKE_OWNERSHIP None /\
       encoded_buffer_size b' = 10000 /\ encoded_size b' = 0 /\
       has_flag (flags b') IB_mem = true /\
       mem h0 !! d = None /\
       mem h' = <[d := replicate (Z.to_nat 10000) Byte.x00]> (mem h0)) /\
    (fst (next_request h) = true ->
     exists h' b',
       imb_addencodedbufferImBuf (Some p) h = Ok false h' /\
       ibufs h' !! p = Some b' /\
       encoded_buffer b' = empty_buffer /\
       encoded_buffer_size b' = 10000 /\ encoded_size b' = 0 /\
       has_flag (flags b') IB_mem = false /\
       mem h' = mem h0).
Proof.
  intros Hb Hlive.
  destruct (imb_free_buffer_live _ _ Hlive) as [h0 Hfree].
  pose proof (imb_free_buffer_next_request _ _ _ _ Hfree) as Hnext.
  exists h0. split; [exact Hfree|].
  rewrite (imb_addencodedbufferImBuf_run p h b h0 Hb Hfree).
  match goal with
  | |- context [set_ibufs (<[p := ?v]> (ibufs h0)) h0] =>
      set (b1 := v); set (h1 := set_ibufs (<[p := b1]> (ibufs h0)) h0)
  end.
  assert (Hn1 : next_request h1 = next_request h)
    by (unfold h1, next_request; cbn [oom set_ibufs];
        fold (next_request h0); exact Hnext).
  assert (Hx : 0 <= 10000 < uint_modulus) by (unfold uint_modulus; lia).
  assert (Hy : 0 <= 1 < uint_modulus) by (unfold uint_modulus; lia).
  assert (Hct : 0 < 1 * sizeof_uint8_t <= SIZE_MAX)
    by (unfold sizeof_uint8_t, SIZE_MAX, size_t_modulus; lia).
  assert (Hlt : 10000 * 1 < SIZE_MAX / (1 * sizeof_uint8_t))
    by (vm_compute; reflexivity).
  split; intros Hreq.
  - destruct (imb_alloc_buffer_served empty_buffer 10000 1 1 sizeof_uint8_t
                h1 Hx Hy Hct Hlt) as (d & Halloc & Hfresh).
    { now rewrite Hn1. }
    exists d. eexists _, _. split.
    { run_head Halloc. cbn [negb].
      erewrite bind_run
        by (apply update_run; cbn [ibufs set_ibufs set_oom set_mem];
            apply lookup_insert_eq).
      cbv beta.
      erewrite bind_run
        by (apply update_run; cbn [ibufs set_ibufs set_oom set_mem];
            apply lookup_insert_eq).
      reflexivity. }
    split; [cbn [ibufs set_ibufs]; apply lookup_insert_eq|].
    split; [reflexivity|]. split; [reflexivity|]. split; [reflexivity|].
    split; [apply (has_flag_lor_same _ EncodedSlot)|].
    split; [exact Hfresh|reflexivity].
  - eexists _, _. split.
    { erewrite bind_run
        by (apply imb_alloc_buffer_refused; try assumption;
            now rewrite Hn1).
      cbv beta. cbn [negb].
      erewrite bind_run
        by (apply update_run; cbn [ibufs set_ibufs set_oom];
            apply lookup_insert_eq).
      reflexivity. }
    split; [cbn [ibufs set_ibufs]; apply lookup_insert_eq|].
    split; [reflexivity|]. split; [reflexivity|]. split; [reflexivity|].
    split; [apply (has_flag_cleared _ EncodedSlot)|reflexivity].
Qed.

Lemma imb_addencodedbufferImBuf_capacity_witness :
  exists d h' b',
    imb_addencodedbufferImBuf (Some 1%positive) heap_large_capacity
      = Ok true h' /\
    ibufs h' !! 1%positive = Some b' /\
    encoded_buffer b' = mkBuffer (Some d) IB_TAKE_OWNERSHIP None /\
    encoded_buffer_size b' = 10000.
Proof.
  eassert (Hb : ibufs heap_large_capacity !! 1%positive = Some _)
    by (vm_compute; reflexivity).
  destruct (imb_addencodedbufferImBuf_capacity 1%positive heap_large_capacity
              _ Hb) as (h0 & _ & Hserved & _).
  { split; intros ? Hd; discriminate Hd. }
  destruct (Hserved eq_refl)
    as (d & h' & b' & Hrun & Hb' & Hslot & Hcap & _).
  exists d, h', b'. repeat split; assumption.
Defined.


Lemma buffer_without_data buffer :
  data buffer = None ->
  mkBuffer None (ownership buffer) (implicit_sharing buffer) = buffer.
Proof. destruct buffer. cbn. now intros ->. Qed.

Lemma set_float_buffer_same b : set_float_buffer (float_buffer b) b = b.
Proof. now destruct b. Qed.

Lemma set_ibufs_insert_same p b h :
  ibufs h !! p = Some b -> set_ibufs (<[p := b]> (ibufs h)) h = h.
Proof. intros Hb. rewrite insert_id by exact Hb. now destruct h. Qed.

(** The steps of [imb_addrectfloatImBuf] on an empty float slot, up to the
    allocation. *)
Lemma imb_addrectfloatImBuf_run fuel p h b c :
  ibufs h !! p = Some b ->
  data (float_buffer b) = None ->
  imb_addrectfloatImBuf fuel (Some p) c h
  = ('(ok, nb) ← imb_alloc_buffer (float_buffer b) (x b) (y b) c
                                  sizeof_float;
     update (Some p) (set_float_buffer nb);;
     if negb ok then mret false
     else
       update (Some p) (set_channels c);;
       update (Some p)
         (fun b => set_flags (Z.lor (flags b) IB_rectfloat) b);;
       mret true) h.
Proof.
  intros Hb Hd. unfold imb_addrectfloatImBuf. run_load. rewrite Hd.
  rewrite ret_run. run_load. reflexivity.
Qed.

(** X12: [imb_addrectfloatImBuf] on an aggregate whose float slot is
    empty, for a positive channel count [c].  When the size passes the
    check and the allocator serves the request, it returns true: the float
    slot owns a fresh block of [x * y * c * 4] zero bytes, the channel
    count of the aggregate is [c], and [IB_rectfloat] is set.  When the
    allocator refuses, it returns false and the aggregate is what it was,
    channel count included. *)
Theorem imb_addrectfloatImBuf_allocates fuel p h b c :
  ibufs h !! p = Some b ->
  data (float_buffer b) = None ->
  0 <= x b < uint_modulus -> 0 <= y b < uint_modulus ->
  0 < c < uint_modulus ->
  x b * y b < SIZE_MAX / (c * 4) ->
  (fst (next_request h) = false ->
   exists d h' b',
     imb_addrectfloatImBuf fuel (Some p) c h = Ok true h' /\
     ibufs h' !! p = Some b' /\
     float_buffer b' = mkBuffer (Some d) IB_TAKE_OWNERSHIP None /\
     channels b' = c /\
     has_flag (flags b') IB_rectfloat = true /\
     (forall s, s <> FloatSlot -> slot_state s b' = slot_state s b) /\
     mem h !! d = None /\
     mem h'
     = <[d := replicate (Z.to_nat (x b * y b * c * 4)) Byte.x00]> (mem h)) /\
  (fst (next_request h) = true ->
   exists h',
     imb_addrectfloatImBuf fuel (Some p) c h = Ok false h' /\
     ibufs h' = ibufs h /\ mem h' = mem h).
Proof.
  intros Hb Hd Hx Hy Hc Hlt.
  rewrite (imb_addrectfloatImBuf_run fuel p h b c Hb Hd).
  assert (Hct : 0 < c * sizeof_float <= SIZE_MAX)
    by (unfold sizeof_float, SIZE_MAX, size_t_modulus, uint_modulus in *;
        lia).
  split; intros Hreq.
  - destruct (imb_alloc_buffer_served (float_buffer b) (x b) (y b) c
                sizeof_float h Hx Hy Hct Hlt Hreq) as (d & Halloc & Hfresh).
    exists d. eexists _, _. split.
    { run_head Halloc. cbn [negb].
      erewrite bind_run
        by (apply update_run; cbn [ibufs set_ibufs set_oom set_mem];
            exact Hb).
      cbv beta.
      erewrite bind_run
        by (apply update_run; cbn [ibufs set_ibufs set_oom set_mem];
            apply lookup_insert_eq).
      cbv beta.
      erewrite bind_run
        by (apply update_run; cbn [ibufs set_ibufs set_oom set_mem];
            apply lookup_insert_eq).
      reflexivity. }
    split; [cbn [ibufs set_ibufs]; apply lookup_insert_eq|].
    split; [reflexivity|]. split; [reflexivity|].
    split; [apply (has_flag_lor_same _ FloatSlot)|].
    split; [intros s Hs; other_concrete s Hs|].
    split; [exact Hfresh|reflexivity].
  - eexists. split.
    { erewrite bind_run
        by (apply imb_alloc_buffer_refused; assumption).
      cbv beta. cbn [negb]. rewrite (buffer_without_data _ Hd).
      erewrite bind_run by (apply update_run; cbn [ibufs set_oom]; exact Hb).
      reflexivity. }
    cbn [ibufs mem set_ibufs set_oom]. rewrite set_float_buffer_same.
    split; [now apply insert_id|reflexivity].
Qed.

Lemma imb_addrectfloatImBuf_allocates_witness :
  exists d h' b',
    imb_addrectfloatImBuf 0 (Some 1%positive) 3 heap_borrowing = Ok true h' /\
    ibufs h' !! 1%positive = Some b' /\
    float_buffer b' = mkBuffer (Some d) IB_TAKE_OWNERSHIP None /\
    channels b' = 3 /\
    mem h' = <[d := replicate 12 Byte.x00]> (mem heap_borrowing).
Proof.
  destruct (imb_addrectfloatImBuf_allocates 0 1%positive heap_borrowing
              borrowing_aggregate 3) as [Hserved _]; try reflexivity.
  { cbn. unfold uint_modulus. lia. }
  { cbn. unfold uint_modulus. lia. }
  { unfold uint_modulus. lia. }
  destruct (Hserved eq_refl)
    as (d & h' & b' & Hrun & Hb' & Hslot & Hc & _ & _ & _ & Hmem).
  exists d, h', b'. repeat split; assumption.
Defined.

(** X13: a channel count of zero makes the size check of
    [imb_alloc_pixels] divide by zero: [imb_addrectfloatImBuf] on an
    aggregate with an empty float slot does not return, whatever the
    dimensions and the allocator. *)
Theorem imb_addrectfloatImBuf_zero_channels fuel p h b :
  ibufs h !! p = Some b ->
  data (float_buffer b) = None ->
  imb_addrectfloatImBuf fuel (Some p) 0 h = Fault.
Proof.
  intros Hb Hd. rewrite (imb_addrectfloatImBuf_run fuel p h b 0 Hb Hd).
  reflexivity.
Qed.

Lemma imb_addrectfloatImBuf_zero_channels_witness :
  imb_addrectfloatImBuf 0 (Some 1%positive) 0 heap_borrowing = Fault.
Proof.
  apply (imb_addrectfloatImBuf_zero_channels 0 1%positive heap_borrowing
           borrowing_aggregate); reflexivity.
Defined.


(** ** Duplicates that cannot be made *)

Lemma dup_flags_depth_int b1 :
  data (z_buffer b1) <> None ->
  has_flag (to_uint (dup_flags b1)) IB_zbuf = true.
Proof.
  intros Hz. pose proof (dup_flags_requested b1 ZSlot) as E.
  unfold requested, populated in E. cbn [slot_buffer slot_flag] in E.
  rewrite E. case_bool_decide; [discriminate|].
  now destruct (data (z_buffer b1)).
Qed.

(** X14: an aggregate with an int depth buffer cannot be duplicated.
    [IMB_dupImBuf] asks [IMB_allocImBuf] for a depth buffer, which
    [addzbufImBuf] reports as a failure even when it has allocated it; so
    whenever [IMB_dupImBuf] returns, it returns null. *)
Theorem IMB_dupImBuf_depth_int_fails fuel p1 h b1 r h' :
  ibufs h !! p1 = Some b1 ->
  data (z_buffer b1) <> None ->
  IMB_dupImBuf fuel (Some p1) h = Ok r h' ->
  r = None.
Proof.
  intros Hb1 Hz H. unfold IMB_dupImBuf in H.
  apply bind_Ok in H as (b & h0 & Hl & H).
  apply load_Ok in Hl as (p0 & [= <-] & Hb & ->).
  assert (b = b1) by congruence. subst b.
  apply bind_Ok in H as (ibuf2 & h2 & Halloc & H).
  apply (IMB_allocImBuf_depth _ _ _ _ _ _ _ _ (dup_flags_depth_int b1 Hz))
    in Halloc.
  subst ibuf2. now apply ret_Ok in H as [<- _].
Qed.


Lemma IMB_dupImBuf_depth_int_fails_witness :
  exists h', IMB_dupImBuf 1 (Some 1%positive) heap_depth_int = Ok None h'.
Proof.
  destruct (IMB_dupImBuf 1 (Some 1%positive) heap_depth_int)
    as [r h'| |] eqn:E; [|vm_compute in E; discriminate E..].
  exists h'. f_equal.
  apply (IMB_dupImBuf_depth_int_fails 1 1%positive heap_depth_int
           depth_int_aggregate r h' eq_refl); [discriminate|exact E].
Defined.


(** ** Aggregates around caller-supplied pixels *)

(** The aggregate [IMB_initImBuf] starts from. *)
Lemma IMB_initImBuf_no_slots fuel p ix iy pl h b :
  ibufs h !! p = Some b ->
  IMB_initImBuf fuel (Some p) ix iy pl 0 h
  = Ok true
       (set_trace (trace h ++ [EvColormanageSetDefaultSpaces p])
          (set_ibufs
             (<[p := mkImBuf ix iy pl 4 0 empty_buffer empty_buffer
                       empty_buffer empty_buffer empty_buffer 0 0
                       (replicate IMB_MIPMAP_LEVELS None) 0 0 None None None
                       None IMB_FTYPE_PNG 15]> (ibufs h)) h)).
Proof.
  intros Hb. unfold IMB_initImBuf. run_update.
  change (has_flag 0 IB_rect) with false.
  change (has_flag 0 IB_rectfloat) with false.
  change (has_flag 0 IB_zbuf) with false.
  change (has_flag 0 IB_zbuffloat) with false.
  cbv iota. rewrite !ret_run. cbn [negb]. reflexivity.
Qed.

Lemma MEM_cnew_ImBuf_served h :
  fst (next_request h) = false ->
  exists p,
    ibufs h !! p = None /\
    MEM_cnew_ImBuf h
    = Ok (Some p)
         (set_oom (snd (next_request h))
            (set_ibufs (<[p := zero_ImBuf]> (ibufs h)) h)).
Proof.
  intros Hreq. unfold MEM_cnew_ImBuf.
  destruct (next_request h) as [refuse rest]. cbn in Hreq. subst refuse.
  exists (fresh (dom (ibufs h))). split; [|reflexivity].
  apply not_elem_of_dom, is_fresh.
Qed.

Lemma MEM_cnew_ImBuf_refused h :
  fst (next_request h) = true ->
  MEM_cnew_ImBuf h = Ok None (set_oom (snd (next_request h)) h).
Proof.
  intros Hreq. unfold MEM_cnew_ImBuf.
  destruct (next_request h) as [refuse rest]. cbn in Hreq. now subst refuse.
Qed.

Lemma IMB_allocImBuf_no_slots fuel ix iy pl h :
  fst (next_request h) = false ->
  exists p,
    ibufs h !! p = None /\
    IMB_allocImBuf fuel ix iy pl 0 h
    = Ok (Some p)
         (set_trace (trace h ++ [EvColormanageSetDefaultSpaces p])
            (set_ibufs
               (<[p := mkImBuf ix iy pl 4 0 empty_buffer empty_buffer
                         empty_buffer empty_buffer empty_buffer 0 0
                         (replicate IMB_MIPMAP_LEVELS None) 0 0 None None
                         None None IMB_FTYPE_PNG 15]> (ibufs h))
               (set_oom (snd (next_request h)) h))).
Proof.
  intros Hreq. destruct (MEM_cnew_ImBuf_served h Hreq) as (p & Hp & Hnew).
  exists p. split; [exact Hp|].
  unfold IMB_allocImBuf. run_head Hnew.
  erewrite bind_run
    by (apply (IMB_initImBuf_no_slots fuel p ix iy pl _ zero_ImBuf);
        cbn [ibufs set_ibufs set_oom]; apply lookup_insert_eq).
  cbv beta. cbn [negb]. unfold mret, M_ret. f_equal.
  cbn [ibufs set_ibufs set_oom set_trace trace].
  now rewrite insert_insert_eq.
Qed.

Lemma IMB_allocImBuf_refused fuel ix iy pl fl h :
  fst (next_request h) = true ->
  IMB_allocImBuf fuel ix iy pl fl h
  = Ok None (set_oom (snd (next_request h)) h).
Proof.
  intros Hreq. unfold IMB_allocImBuf.
  now rewrite (bind_run _ _ _ _ _ (MEM_cnew_ImBuf_refused h Hreq)).
Qed.

(** X16: [IMB_allocFromBufferOwn] and [IMB_allocFromBuffer] use the result
    of [IMB_allocImBuf] without testing it.  When the allocator refuses the
    structure and a buffer was passed, both write [channels] through a null
    pointer. *)
Theorem IMB_allocFromBuffer_null_structure fuel byte_data float_data w ht c h :
  fst (next_request h) = true ->
  byte_data <> None \/ float_data <> None ->
  IMB_allocFromBufferOwn fuel byte_data float_data w ht c h = Fault /\
  IMB_allocFromBuffer fuel byte_data float_data w ht c h = Fault.
Proof.
  intros Hreq Hsome.
  pose proof (IMB_allocImBuf_refused fuel w ht 32 0 h Hreq) as Halloc.
  unfold IMB_allocFromBufferOwn, IMB_allocFromBuffer.
  destruct byte_data, float_data; try (destruct Hsome; congruence);
    split; now rewrite (bind_run _ _ _ _ _ Halloc).
Qed.

Lemma IMB_allocFromBuffer_null_structure_witness :
  IMB_allocFromBufferOwn 1 (Some 1%positive) None 1 1 4 heap_out_of_memory
    = Fault /\
  IMB_allocFromBuffer 1 (Some 1%positive) None 1 1 4 heap_out_of_memory
    = Fault.
Proof.
  apply (IMB_allocFromBuffer_null_structure 1 (Some 1%positive) None 1 1 4
           heap_out_of_memory); [reflexivity|left; discriminate].
Defined.

Lemma IMB_assign_byte_buffer_run p h b h0 d own :
  ibufs h !! p = Some b ->
  imb_free_buffer (byte_buffer b) h = Ok empty_buffer h0 ->
  IMB_assign_byte_buffer (Some p) (Some d) own h
  = Ok tt
       (set_ibufs
          (<[p := set_flags (Z.lor (Z.land (flags b) (Z.lnot IB_rect)) IB_rect)
                    (set_byte_buffer (mkBuffer (Some d) own None) b)]>
             (ibufs h0)) h0).
Proof.
  intros Hb Hfree.
  pose proof (imb_free_buffer_ibufs _ _ _ _ Hfree) as Hi.
  assert (Hb0 : ibufs h0 !! p = Some b) by now rewrite Hi.
  unfold IMB_assign_byte_buffer. run_load. run_head Hfree.
  do 3 run_update.
  erewrite update_run by (cbn [ibufs set_ibufs]; apply lookup_insert_eq).
  now rewrite !set_ibufs_insert_over.
Qed.

Lemma IMB_assign_float_buffer_run p h b h0 d own :
  ibufs h !! p = Some b ->
  imb_free_buffer (float_buffer b) h = Ok empty_buffer h0 ->
  IMB_assign_float_buffer (Some p) (Some d) own h
  = Ok tt
       (set_ibufs
          (<[p := set_flags (Z.lor (Z.land (flags b) (Z.lnot IB_rectfloat))
                                   IB_rectfloat)
                    (set_float_buffer (mkBuffer (Some d) own None) b)]>
             (ibufs h0)) h0).
Proof.
  intros Hb Hfree.
  pose proof (imb_free_buffer_ibufs _ _ _ _ Hfree) as Hi.
  assert (Hb0 : ibufs h0 !! p = Some b) by now rewrite Hi.
  unfold IMB_assign_float_buffer. run_load. run_head Hfree.
  do 3 run_update.
  erewrite update_run by (cbn [ibufs set_ibufs]; apply lookup_insert_eq).
  now rewrite !set_ibufs_insert_over.
Qed.


(** X17: what [IMB_allocFromBufferOwn] builds when the allocator serves
    the structure and a buffer was passed: a new aggregate of the given
    dimensions and channel count, 32 planes and reference count zero, whose
    byte and float slots hold the pointers that were passed, owned, with
    their flags set for the pointers that are not null; the other slots are
    empty.  No pixel block is allocated, copied or freed. *)
Theorem IMB_allocFromBufferOwn_wraps fuel byte_data float_data w ht c h :
  fst (next_request h) = false ->
  byte_data <> None \/ float_data <> None ->
  exists p h' b',
    IMB_allocFromBufferOwn fuel byte_data float_data w ht c h
      = Ok (Some p) h' /\
    ibufs h !! p = None /\
    ibufs h' = <[p := b']> (ibufs h) /\
    mem h' = mem h /\ sharing h' = sharing h /\
    x b' = w /\ y b' = ht /\ planes b' = 32 /\ channels b' = c /\
    refcounter b' = 0 /\
    byte_buffer b' = owned_or_empty byte_data /\
    float_buffer b' = owned_or_empty float_data /\
    has_flag (flags b') IB_rect = given byte_data /\
    has_flag (flags b') IB_rectfloat = given float_data /\
    z_buffer b' = empty_buffer /\ float_z_buffer b' = empty_buffer /\
    encoded_buffer b' = empty_buffer.
Proof.
  intros Hreq Hsome.
  destruct (IMB_allocImBuf_no_slots fuel w ht 32 h Hreq) as (p & Hp & Halloc).
  exists p.
  assert (Hlook : forall (v : ImBuf) (m : gmap loc ImBuf) h1,
             ibufs (set_ibufs (<[p := v]> m) h1) !! p = Some v)
    by (intros; apply lookup_insert_eq).
  destruct byte_data as [bd|], float_data as [fd|];
    try (destruct Hsome; congruence);
    unfold IMB_allocFromBufferOwn; run_head Halloc;
    (erewrite bind_run
      by (apply update_run; cbn [ibufs set_ibufs set_oom set_trace];
          apply lookup_insert_eq)); cbv beta.
  - erewrite bind_run
      by (eapply IMB_assign_float_buffer_run;
          [apply Hlook|apply imb_free_buffer_empty_run]).
    cbv beta.
    erewrite bind_run
      by (eapply IMB_assign_byte_buffer_run;
          [apply Hlook|apply imb_free_buffer_empty_run]).
    cbv beta. eexists _, _. split; [reflexivity|]. split; [exact Hp|].
    split; [cbn [ibufs set_ibufs set_oom set_trace];
            now rewrite !insert_insert_eq|].
    repeat split.
  - erewrite ret_run.
    erewrite bind_run
      by (eapply IMB_assign_byte_buffer_run;
          [apply Hlook|apply imb_free_buffer_empty_run]).
    cbv beta. eexists _, _. split; [reflexivity|]. split; [exact Hp|].
    split; [cbn [ibufs set_ibufs set_oom set_trace];
            now rewrite !insert_insert_eq|].
    repeat split.
  - erewrite bind_run
      by (eapply IMB_assign_float_buffer_run;
          [apply Hlook|apply imb_free_buffer_empty_run]).
    cbv beta. rewrite ret_run.
    eexists _, _. split; [reflexivity|]. split; [exact Hp|].
    split; [cbn [ibufs set_ibufs set_oom set_trace];
            now rewrite !insert_insert_eq|].
    repeat split.
Qed.

Lemma IMB_allocFromBufferOwn_wraps_witness :
  exists p h' b',
    IMB_allocFromBufferOwn 0 None (Some 1%positive) 1 1 4 heap_float_pixels
      = Ok (Some p) h' /\
    ibufs h' !! p = Some b' /\
    float_buffer b' = mkBuffer (Some 1%positive) IB_TAKE_OWNERSHIP None /\
    has_flag (flags b') IB_rectfloat = true /\
    mem h' = mem heap_float_pixels.
Proof.
  destruct (IMB_allocFromBufferOwn_wraps 0 None (Some 1%positive) 1 1 4
              heap_float_pixels eq_refl)
    as (p & h' & b' & Hrun & _ & Hi & Hmem & _ & _ & _ & _ & _ & _ & _
        & Hfloat & _ & Hflag & _).
  { right. discriminate. }
  exists p, h', b'. split; [exact Hrun|].
  split; [rewrite Hi; apply lookup_insert_eq|].
  repeat split; assumption.
Defined.


(** One buffer of [IMB_allocFromBuffer]: allocate, then copy. *)
Lemma to_size_t_small z : 0 <= z <= SIZE_MAX -> to_size_t z = z.
Proof.
  intros Hz. unfold to_size_t. apply Z.mod_small.
  unfold SIZE_MAX in Hz. lia.
Qed.

Lemma set_oom_nil h : oom h = [] -> set_oom [] h = h.
Proof. destruct h. cbn. now intros ->. Qed.

Lemma next_request_nil h : oom h = [] -> next_request h = (false, []).
Proof. unfold next_request. now intros ->. Qed.

Lemma alloc_and_copy h (buffer : Buffer) w ht t src all (k : Z) :
  0 < k -> k = 4 * t -> 0 < t -> k <= 16 ->
  0 <= w < uint_modulus -> 0 <= ht < uint_modulus ->
  w * ht < SIZE_MAX / (4 * t) ->
  mem h !! src = Some all ->
  k * w * ht <= Z.of_nat (length all) ->
  oom h = [] ->
  exists q,
    mem h !! q = None /\
    imb_alloc_buffer buffer w ht 4 t h
    = Ok (true, mkBuffer (Some q) IB_TAKE_OWNERSHIP None)
         (set_mem (<[q := replicate (Z.to_nat (k * w * ht)) Byte.x00]> (mem h))
                  h) /\
    forall h1,
      mem h1 = <[q := replicate (Z.to_nat (k * w * ht)) Byte.x00]> (mem h) ->
      memcpy (Some q) (Some src) (to_size_t (to_size_t (4 * t * w) * ht)) h1
      = Ok tt (set_mem (<[q := take (Z.to_nat (k * w * ht)) all]> (mem h)) h1).
Proof.
  intros Hk Ek Ht Hk16 Hw Hht Hlt Hsrc Hlen Hoom.
  assert (Hct : 0 < 4 * t <= SIZE_MAX)
    by (unfold SIZE_MAX, size_t_modulus; lia).
  destruct (imb_alloc_buffer_served buffer w ht 4 t h Hw Hht Hct Hlt)
    as (q & Halloc & Hq).
  { now rewrite next_request_nil. }
  exists q. split; [exact Hq|].
  assert (Hsize : w * ht * 4 * t = k * w * ht) by lia.
  split.
  { rewrite Halloc, next_request_nil by exact Hoom. cbn [snd].
    rewrite Hsize. f_equal.
    rewrite set_oom_nil; [reflexivity|exact Hoom]. }
  intros h1 Hm1.
  assert (Hbound : k * w * ht < SIZE_MAX).
  { pose proof (size_guard_pass w ht 4 t) as Hsg. lia. }
  assert (En : to_size_t (to_size_t (4 * t * w) * ht) = k * w * ht).
  { rewrite (to_size_t_small (4 * t * w)).
    - rewrite to_size_t_small; nia.
    - unfold SIZE_MAX, size_t_modulus, uint_modulus in *. nia. }
  rewrite En.
  assert (Hne : q <> src) by congruence.
  erewrite (memcpy_run q src _ h1 _ all);
    [|rewrite Hm1; apply lookup_insert_eq
     |rewrite Hm1, lookup_insert_ne by exact Hne; exact Hsrc
     |nia|exact Hlen|rewrite length_replicate; lia].
  f_equal. f_equal. rewrite Hm1, insert_insert_eq. f_equal.
  rewrite drop_ge by (rewrite length_replicate; lia).
  apply app_nil_r.
Qed.

Lemma copy_step (slot : ImBuf -> Buffer) (set_slot : Buffer -> ImBuf -> ImBuf)
    p h b w ht t src all (k : Z) :
  0 < k -> k = 4 * t -> 0 < t -> k <= 16 ->
  0 <= w < uint_modulus -> 0 <= ht < uint_modulus ->
  w * ht < SIZE_MAX / (4 * t) ->
  mem h !! src = Some all -> k * w * ht <= Z.of_nat (length all) ->
  oom h = [] -> ibufs h !! p = Some b ->
  exists q, mem h !! q = None /\
    (b ← load (Some p);
     '(_, nb) ← imb_alloc_buffer (slot b) w ht 4 t;
     update (Some p) (set_slot nb);;
     memcpy (data nb) (Some src) (to_size_t (to_size_t (4 * t * w) * ht))) h
    = Ok tt
        (set_mem (<[q := take (Z.to_nat (k * w * ht)) all]> (mem h))
           (set_ibufs
              (<[p := set_slot (mkBuffer (Some q) IB_TAKE_OWNERSHIP None) b]>
                 (ibufs h)) h)).
Proof.
  intros Hk Hkt Ht Hk16 Hw Hht Hlt Hsrc Hlen Hoom Hb.
  destruct (alloc_and_copy h (slot b) w ht t src all k)
    as (q & Hq & Halloc & Hcopy); try assumption.
  exists q. split; [exact Hq|].
  run_load. run_head Halloc. cbv beta iota.
  erewrite bind_run
    by (apply update_run; cbn [ibufs set_mem]; exact Hb).
  cbv beta. cbn [data].
  rewrite Hcopy by reflexivity. reflexivity.
Qed.

(** X18: what [IMB_allocFromBuffer] builds when the allocator serves every
    request, the sizes pass the check and the caller's blocks hold the
    pixels ([16 * w * h] bytes of float pixels, [4 * w * h] bytes of byte
    pixels).  The new aggregate has the given dimensions and channel count;
    for each pointer that is not null the slot owns a block that was not
    allocated before and holds a copy of the caller's pixels, and the
    caller's blocks, like every block that was there, are left as they
    were.  The flags of the new aggregate are all clear: [IB_rect] and
    [IB_rectfloat] are not set for the buffers it now holds. *)
Theorem IMB_allocFromBuffer_copies fuel byte_data float_data w ht c h
    bbytes fbytes :
  oom h = [] ->
  byte_data <> None \/ float_data <> None ->
  0 <= w < uint_modulus -> 0 <= ht < uint_modulus ->
  w * ht < SIZE_MAX / 16 ->
  pixels_at h float_data (16 * w * ht) fbytes ->
  pixels_at h byte_data (4 * w * ht) bbytes ->
  exists p h' b',
    IMB_allocFromBuffer fuel byte_data float_data w ht c h = Ok (Some p) h' /\
    ibufs h !! p = None /\
    ibufs h' = <[p := b']> (ibufs h) /\
    x b' = w /\ y b' = ht /\ planes b' = 32 /\ channels b' = c /\
    refcounter b' = 0 /\ flags b' = 0 /\
    copy_of h h' float_data fbytes (float_buffer b') /\
    copy_of h h' byte_data bbytes (byte_buffer b') /\
    (forall d all, mem h !! d = Some all -> mem h' !! d = Some all).
Proof.
  intros Hoom Hsome Hw Hht Hlt Hf Hb.
  assert (Hlt4 : w * ht < SIZE_MAX / (4 * sizeof_uint8_t)).
  { change (4 * sizeof_uint8_t) with 4.
    assert (SIZE_MAX / 16 <= SIZE_MAX / 4) by (vm_compute; discriminate).
    lia. }
  change 16 with (4 * sizeof_float) in Hlt.
  destruct (IMB_allocImBuf_no_slots fuel w ht 32 h) as (p & Hp & Halloc).
  { now rewrite next_request_nil. }
  rewrite next_request_nil in Halloc by exact Hoom. cbn [snd] in Halloc.
  rewrite set_oom_nil in Halloc by exact Hoom.
  exists p.
  destruct byte_data as [bsrc|], float_data as [fsrc|];
    try (destruct Hsome; congruence);
    unfold IMB_allocFromBuffer; run_head Halloc;
    (erewrite bind_run
      by (apply update_run; cbn [ibufs set_ibufs set_trace];
          apply lookup_insert_eq)); cbv beta iota.
  - destruct Hf as (fall & Hfsrc & Hflen & ->).
    destruct Hb as (ball & Hbsrc & Hblen & ->).
    match goal with
    | |- exists h' b', (_ ≫= _) ?h2 = _ /\ _ =>
        let b2 := lazymatch h2 with
                  | set_ibufs (<[_ := ?v]> _) _ => v
                  | set_mem _ (set_ibufs (<[_ := ?v]> _) _) => v
                  end in
        destruct (copy_step float_buffer set_float_buffer p h2 b2 w ht
                    sizeof_float fsrc fall 16) as (qf & Hqf & Hstepf);
          [lia|reflexivity|unfold sizeof_float; lia|lia|exact Hw|exact Hht
          |exact Hlt|exact Hfsrc|exact Hflen|exact Hoom
          |cbn [ibufs set_ibufs set_trace]; apply lookup_insert_eq|]
    end.
    cbn [mem ibufs set_ibufs set_trace] in Hqf, Hstepf.
    run_head Hstepf.
    match goal with
    | |- exists h' b', (_ ≫= _) ?h3 = _ /\ _ =>
        let b2 := lazymatch h3 with
                  | set_ibufs (<[_ := ?v]> _) _ => v
                  | set_mem _ (set_ibufs (<[_ := ?v]> _) _) => v
                  end in
        destruct (copy_step byte_buffer set_byte_buffer p h3 b2 w ht
                    sizeof_uint8_t bsrc ball 4) as (qb & Hqb & Hstepb);
          [lia|reflexivity|unfold sizeof_uint8_t; lia|lia|exact Hw|exact Hht
          |exact Hlt4
          |cbn [mem set_mem];
           rewrite lookup_insert_ne by congruence; exact Hbsrc
          |exact Hblen|exact Hoom
          |cbn [ibufs set_ibufs set_trace set_mem]; apply lookup_insert_eq|]
    end.
    cbn [mem ibufs set_ibufs set_trace set_mem] in Hqb, Hstepb.
    run_head Hstepb.
    assert (Hqbf : qb <> qf).
    { intros ->. rewrite lookup_insert_eq in Hqb. discriminate. }
    assert (Hqb0 : mem h !! qb = None)
      by now rewrite lookup_insert_ne in Hqb.
    eexists _, _. split; [reflexivity|]. split; [exact Hp|].
    split; [cbn [ibufs set_ibufs set_trace set_mem];
            now rewrite !insert_insert_eq|].
    do 6 (split; [reflexivity|]).
    unfold copy_of. cbn [mem set_mem set_ibufs set_trace].
    split; [|split].
    + exists qf. split; [reflexivity|]. split; [exact Hqf|].
      rewrite lookup_insert_ne by congruence. apply lookup_insert_eq.
    + exists qb. split; [reflexivity|]. split; [exact Hqb0|].
      apply lookup_insert_eq.
    + intros d all Hd.
      rewrite !lookup_insert_ne by congruence. exact Hd.
  - destruct Hb as (ball & Hbsrc & Hblen & ->).
    rewrite ret_run.
    match goal with
    | |- exists h' b', (_ ≫= _) ?h3 = _ /\ _ =>
        let b2 := lazymatch h3 with
                  | set_ibufs (<[_ := ?v]> _) _ => v
                  | set_mem _ (set_ibufs (<[_ := ?v]> _) _) => v
                  end in
        destruct (copy_step byte_buffer set_byte_buffer p h3 b2 w ht
                    sizeof_uint8_t bsrc ball 4) as (qb & Hqb & Hstepb);
          [lia|reflexivity|unfold sizeof_uint8_t; lia|lia|exact Hw|exact Hht
          |exact Hlt4|exact Hbsrc|exact Hblen|exact Hoom
          |cbn [ibufs set_ibufs set_trace]; apply lookup_insert_eq|]
    end.
    cbn [mem ibufs set_ibufs set_trace set_mem] in Hqb, Hstepb.
    run_head Hstepb.
    eexists _, _. split; [reflexivity|]. split; [exact Hp|].
    split; [cbn [ibufs set_ibufs set_trace set_mem];
            now rewrite !insert_insert_eq|].
    do 6 (split; [reflexivity|]).
    unfold copy_of. cbn [mem set_mem set_ibufs set_trace].
    split; [reflexivity|split].
    + exists qb. split; [reflexivity|]. split; [exact Hqb|].
      apply lookup_insert_eq.
    + intros d all Hd.
      rewrite !lookup_insert_ne by congruence. exact Hd.
  - destruct Hf as (fall & Hfsrc & Hflen & ->).
    match goal with
    | |- exists h' b', (_ ≫= _) ?h2 = _ /\ _ =>
        let b2 := lazymatch h2 with
                  | set_ibufs (<[_ := ?v]> _) _ => v
                  | set_mem _ (set_ibufs (<[_ := ?v]> _) _) => v
                  end in
        destruct (copy_step float_buffer set_float_buffer p h2 b2 w ht
                    sizeof_float fsrc fall 16) as (qf & Hqf & Hstepf);
          [lia|reflexivity|unfold sizeof_float; lia|lia|exact Hw|exact Hht
          |exact Hlt|exact Hfsrc|exact Hflen|exact Hoom
          |cbn [ibufs set_ibufs set_trace]; apply lookup_insert_eq|]
    end.
    cbn [mem ibufs set_ibufs set_trace] in Hqf, Hstepf.
    run_head Hstepf. rewrite ?ret_run.
    eexists _, _. split; [reflexivity|]. split; [exact Hp|].
    split; [cbn [ibufs set_ibufs set_trace set_mem];
            now rewrite !insert_insert_eq|].
    do 6 (split; [reflexivity|]).
    unfold copy_of. cbn [mem set_mem set_ibufs set_trace].
    split; [|split; [reflexivity|]].
    + exists qf. split; [reflexivity|]. split; [exact Hqf|].
      apply lookup_insert_eq.
    + intros d all Hd.
      rewrite !lookup_insert_ne by congruence. exact Hd.
Qed.

Lemma IMB_allocFromBuffer_copies_witness :
  exists p h' b',
    IMB_allocFromBuffer 1 None (Some 1%positive) 1 1 4 heap_float_pixels
      = Ok (Some p) h' /\
    ibufs h' !! p = Some b' /\ flags b' = 0 /\
    copy_of heap_float_pixels h' (Some 1%positive) (replicate 16 Byte.x11)
      (float_buffer b') /\
    mem h' !! 1%positive = Some (replicate 16 Byte.x11).
Proof.
  destruct (IMB_allocFromBuffer_copies 1 None (Some 1%positive) 1 1 4
              heap_float_pixels [] (replicate 16 Byte.x11) eq_refl)
    as (p & h' & b' & Hrun & _ & Hi & _ & _ & _ & _ & _ & Hflags & Hcopy & _
        & Hkeep).
  - right. discriminate.
  - vm_compute. split; [discriminate|reflexivity].
  - vm_compute. split; [discriminate|reflexivity].
  - vm_compute. reflexivity.
  - exists (replicate 16 Byte.x11). split; [reflexivity|].
    split; [vm_compute; discriminate|reflexivity].
  - exact I.
  - exists p, h', b'. split; [exact Hrun|].
    split; [rewrite Hi; apply lookup_insert_eq|].
    split; [exact Hflags|]. split; [exact Hcopy|].
    apply Hkeep. reflexivity.
Defined.

(** ** Size queries *)

Lemma to_size_t_range z : 0 <= to_size_t z < size_t_modulus.
Proof. apply Z.mod_pos_bound. reflexivity. Qed.

Section level_sizes.
Variable level_size : option loc -> M Z.
Hypothesis level_size_reads : forall c h n h',
  level_size c h = Ok n h' -> h' = h /\ 0 <= n < size_t_modulus.

Lemma add_level_sizes_reads ibuf levels : forall size h n h',
  0 <= size < size_t_modulus ->
  add_level_sizes level_size ibuf levels size h = Ok n h' ->
  h' = h /\ 0 <= n < size_t_modulus.
Proof.
  induction levels as [|a levels IH]; intros size h n h' Hsize H.
  - apply ret_Ok in H as [<- <-]. now split.
  - cbn [add_level_sizes] in H.
    apply bind_Ok in H as (size1 & h1 & Hstep & H).
    unfold add_level_size in Hstep.
    apply bind_Ok in Hstep as (b & h0 & Hl & Hstep).
    apply load_Ok in Hl as (p & -> & Hb & ->).
    destruct (IMB_MIPMAP_LEVELS <=? a)%nat; [discriminate|].
    destruct (default None (mipmap b !! a)) as [level|].
    + apply bind_Ok in Hstep as (s & h2 & Hs & Hstep).
      apply level_size_reads in Hs as [-> _].
      apply ret_Ok in Hstep as [<- <-].
      apply (IH _ _ _ _ (to_size_t_range _) H).
    + apply ret_Ok in Hstep as [<- <-].
      apply (IH _ _ _ _ Hsize H).
Qed.

Lemma IMB_get_size_in_memory_body_reads sizeof_ImBuf ibuf h n h' :
  IMB_get_size_in_memory_body level_size sizeof_ImBuf ibuf h = Ok n h' ->
  h' = h /\ 0 <= n < size_t_modulus.
Proof.
  intros H. unfold IMB_get_size_in_memory_body in H.
  apply bind_Ok in H as (b & h0 & Hl & H).
  apply load_Ok in Hl as (p & -> & Hb & ->).
  destruct (miptot b =? 0).
  - apply ret_Ok in H as [<- <-]. split; [reflexivity|apply to_size_t_range].
  - apply (add_level_sizes_reads _ _ _ _ _ _ (to_size_t_range _) H).
Qed.

(** A successful run of the loop has only read entries of the array. *)
Lemma add_level_sizes_in_bounds ibuf levels : forall size h n h',
  add_level_sizes level_size ibuf levels size h = Ok n h' ->
  forall a, a ∈ levels -> (a < IMB_MIPMAP_LEVELS)%nat.
Proof.
  induction levels as [|a levels IH]; intros size h n h' H a' Hin.
  - inversion Hin.
  - cbn [add_level_sizes] in H.
    apply bind_Ok in H as (size1 & h1 & Hstep & H).
    apply elem_of_cons in Hin as [->|Hin]; [|exact (IH _ _ _ _ H a' Hin)].
    unfold add_level_size in Hstep.
    apply bind_Ok in Hstep as (b & h0 & _ & Hstep).
    destruct (Nat.leb_spec IMB_MIPMAP_LEVELS a) as [|Hlt];
      [discriminate|exact Hlt].
Qed.
End level_sizes.

(** The levels that are all null add nothing, as long as the loop stays
    inside the array. *)
Lemma add_level_sizes_null level_size p b levels size h :
  ibufs h !! p = Some b ->
  (forall a, default None (mipmap b !! a) = None) ->
  (forall a, a ∈ levels -> (a < IMB_MIPMAP_LEVELS)%nat) ->
  add_level_sizes level_size (Some p) levels size h = Ok size h.
Proof.
  intros Hb Hnull. induction levels as [|a levels IH]; intros Hin.
  - reflexivity.
  - cbn [add_level_sizes].
    assert (Hstep : add_level_size level_size (Some p) a size h = Ok size h).
    { unfold add_level_size. run_load.
      destruct (Nat.leb_spec IMB_MIPMAP_LEVELS a) as [Hge|_].
      - specialize (Hin a ltac:(left)). lia.
      - now rewrite Hnull. }
    run_head Hstep. apply IH. intros a' Ha'. apply Hin. now right.
Qed.

(** X19: [IMB_get_size_in_memory] only reads: a call that returns leaves
    the heap as it was (no aggregate, block, control block, allocator
    outcome or trace entry changes), whatever the nesting of the mipmap
    levels, and the size it reports is a [size_t]. *)
Theorem IMB_get_size_in_memory_reads sizeof_ImBuf fuel ibuf h n h' :
  IMB_get_size_in_memory sizeof_ImBuf fuel ibuf h = Ok n h' ->
  h' = h /\ 0 <= n < size_t_modulus.
Proof.
  revert ibuf h n h'. induction fuel as [|fuel IH]; intros ibuf h n h' H.
  - discriminate.
  - cbn [IMB_get_size_in_memory] in H.
    exact (IMB_get_size_in_memory_body_reads _ IH _ _ _ _ _ H).
Qed.

Lemma IMB_get_size_in_memory_reads_witness :
  exists n,
    IMB_get_size_in_memory 1000 2 (Some 10%positive) sample_heap
      = Ok n sample_heap /\
    0 <= n < size_t_modulus.
Proof.
  destruct (IMB_get_size_in_memory 1000 2 (Some 10%positive) sample_heap)
    as [n h'| |] eqn:E; [|vm_compute in E; discriminate E..].
  destruct (IMB_get_size_in_memory_reads _ _ _ _ _ _ E) as [-> Hn].
  exists n. split; [reflexivity|exact Hn].
Defined.

Lemma size_t_sum sizeof_ImBuf k ix iy c :
  to_size_t
    (to_size_t (0 + sizeof_ImBuf)
     + to_size_t (to_size_t (to_size_t (k * ix) * iy) * c))
  = to_size_t (sizeof_ImBuf + k * ix * iy * c).
Proof.
  unfold to_size_t. rewrite Z.add_0_l.
  rewrite (Zmult_mod_idemp_l (k * ix) iy).
  rewrite (Zmult_mod_idemp_l (k * ix * iy) c).
  rewrite Zplus_mod_idemp_l, Zplus_mod_idemp_r. reflexivity.
Qed.

(** X20: for an image without mipmap levels, [IMB_get_size_in_memory]
    reports the size of the structure plus the pixels of the byte and the
    float buffer, one and four bytes a channel, reduced to a [size_t]; the
    depth buffers and the encoded buffer are not counted.  The heap is left
    as it was. *)
Theorem IMB_get_size_in_memory_no_levels sizeof_ImBuf fuel p h b :
  ibufs h !! p = Some b -> no_levels b ->
  miptot b <= Z.of_nat IMB_MIPMAP_LEVELS ->
  IMB_get_size_in_memory sizeof_ImBuf (S fuel) (Some p) h
  = Ok (to_size_t (sizeof_ImBuf + pixel_bytes b * x b * y b * channels b)) h.
Proof.
  intros Hb Hno Hmip.
  cbn [IMB_get_size_in_memory]. unfold IMB_get_size_in_memory_body.
  run_load.
  assert (Hsize :
    to_size_t
      (to_size_t (0 + sizeof_ImBuf)
       + to_size_t
           (to_size_t
              (to_size_t
                 (match data (float_buffer b) with
                  | Some _ =>
                      to_size_t
                        (match data (byte_buffer b) with
                         | Some _ => to_size_t (0 + sizeof_char)
                         | None => 0
                         end + sizeof_float)
                  | None =>
                      match data (byte_buffer b) with
                      | Some _ => to_size_t (0 + sizeof_char)
                      | None => 0
                      end
                  end * x b) * y b) * channels b))
    = to_size_t (sizeof_ImBuf + pixel_bytes b * x b * y b * channels b)).
  { unfold pixel_bytes.
    destruct (data (byte_buffer b)), (data (float_buffer b));
      apply size_t_sum. }
  cbv zeta. rewrite Hsize.
  destruct (miptot b =? 0); [reflexivity|].
  apply (add_level_sizes_null _ p b); [exact Hb|exact Hno|].
  intros a Ha. apply elem_of_seq in Ha. lia.
Qed.

Lemma IMB_get_size_in_memory_no_levels_witness :
  IMB_get_size_in_memory 1000 1 (Some 1%positive) heap_depth_float
  = Ok 1016 heap_depth_float.
Proof.
  apply (IMB_get_size_in_memory_no_levels 1000 0 1%positive heap_depth_float
           depth_float_aggregate).
  - reflexivity.
  - intros a. unfold depth_float_aggregate. cbn [mipmap].
    destruct (replicate IMB_MIPMAP_LEVELS None !! a) as [o|] eqn:E;
      [|reflexivity].
    apply lookup_replicate in E as [-> _]. reflexivity.
  - vm_compute. discriminate.
Defined.

Lemma add_level_sizes_null_fault level_size p b levels size h :
  ibufs h !! p = Some b ->
  (forall a, default None (mipmap b !! a) = None) ->
  (exists a, a ∈ levels /\ (IMB_MIPMAP_LEVELS <= a)%nat) ->
  add_level_sizes level_size (Some p) levels size h = Fault.
Proof.
  intros Hb Hnull. induction levels as [|a levels IH]; intros (a' & Hin & Hge).
  - inversion Hin.
  - cbn [add_level_sizes]. unfold add_level_size at 1.
    unfold mbind at 1, M_bind. unfold mbind at 1, M_bind.
    rewrite (load_run _ _ _ Hb).
    destruct (Nat.leb_spec IMB_MIPMAP_LEVELS a) as [_|Hlt]; [reflexivity|].
    rewrite Hnull. cbn [mret M_ret].
    apply IH. exists a'. split; [|exact Hge].
    apply elem_of_cons in Hin as [->|Hin]; [lia|exact Hin].
Qed.

(** X21: the loop of [IMB_get_size_in_memory] is bounded by [miptot], not
    by the length of the array of levels: with [miptot] above
    [IMB_MIPMAP_LEVELS] no call returns a size, and when the levels of the
    array are all null the call reads [mipmap[IMB_MIPMAP_LEVELS]], past the
    end of the array. *)
Theorem IMB_get_size_in_memory_miptot_bound sizeof_ImBuf fuel p h b :
  ibufs h !! p = Some b -> Z.of_nat IMB_MIPMAP_LEVELS < miptot b ->
  (forall n h',
     IMB_get_size_in_memory sizeof_ImBuf fuel (Some p) h <> Ok n h') /\
  (no_levels b ->
     IMB_get_size_in_memory sizeof_ImBuf (S fuel) (Some p) h = Fault).
Proof.
  intros Hb Hmip.
  assert (Hin : IMB_MIPMAP_LEVELS ∈ seq 0 (Z.to_nat (miptot b)))
    by (apply elem_of_seq; lia).
  assert (Hnz : (miptot b =? 0) = false) by (apply Z.eqb_neq; lia).
  split.
  - intros n h' H. destruct fuel as [|fuel]; [discriminate|].
    cbn [IMB_get_size_in_memory] in H.
    unfold IMB_get_size_in_memory_body in H.
    apply bind_Ok in H as (b0 & h0 & Hl & H).
    apply load_Ok in Hl as (p0 & [= <-] & Hb0 & ->).
    assert (b0 = b) by congruence. subst b0.
    rewrite Hnz in H.
    pose proof (add_level_sizes_in_bounds _ _ _ _ _ _ _ H _ Hin). lia.
  - intros Hno.
    cbn [IMB_get_size_in_memory]. unfold IMB_get_size_in_memory_body.
    run_load. rewrite Hnz.
    apply (add_level_sizes_null_fault _ p b); [exact Hb|exact Hno|].
    exists IMB_MIPMAP_LEVELS. split; [exact Hin|lia].
Qed.

Lemma IMB_get_size_in_memory_miptot_bound_witness :
  IMB_get_size_in_memory 1000 1 (Some 1%positive)
    (set_ibufs {[ 1%positive := set_miptot 21 depth_float_aggregate ]}
               heap_depth_float)
  = Fault.
Proof.
  apply (IMB_get_size_in_memory_miptot_bound 1000 0 1%positive
           (set_ibufs {[ 1%positive := set_miptot 21 depth_float_aggregate ]}
                      heap_depth_float)
           (set_miptot 21 depth_float_aggregate)).
  - reflexivity.
  - vm_compute. reflexivity.
  - intros a. unfold depth_float_aggregate. cbn [mipmap set_miptot].
    destruct (replicate IMB_MIPMAP_LEVELS None !! a) as [o|] eqn:E;
      [|reflexivity].
    apply lookup_replicate in E as [-> _]. reflexivity.
Defined.

(** X22: for an image whose dimensions are non-negative [int]s,
    [IMB_get_rect_len] is the number of pixels, exactly: the product is
    taken in [size_t] and cannot wrap.  The heap is left as it was. *)
Theorem IMB_get_rect_len_exact p h b :
  ibufs h !! p = Some b ->
  0 <= x b < 2 ^ 31 -> 0 <= y b < 2 ^ 31 ->
  IMB_get_rect_len (Some p) h = Ok (x b * y b) h.
Proof.
  intros Hb Hx Hy. unfold IMB_get_rect_len. run_load.
  assert (Hmod : size_t_modulus = 2 ^ 31 * 2 ^ 33) by reflexivity.
  unfold to_size_t.
  rewrite (Z.mod_small (x b)), (Z.mod_small (y b)), Z.mod_small;
    [reflexivity|nia|nia|nia].
Qed.

Lemma IMB_get_rect_len_exact_witness :
  IMB_get_rect_len (Some 10%positive) sample_heap = Ok 4 sample_heap.
Proof.
  apply (IMB_get_rect_len_exact 10%positive sample_heap sample_aggregate);
    [reflexivity|vm_compute; split; [discriminate|reflexivity]..].
Defined.

(** ** After the teardown *)

(** X23: once [IMB_freeImBuf] has dropped the last reference (the count
    was not above zero), the pointer is dangling: releasing it again or
    retaining it is a use of freed memory. *)
Theorem IMB_freeImBuf_twice fuel fuel' p h b h' :
  ibufs h !! p = Some b -> refcounter b <= 0 ->
  IMB_freeImBuf fuel (Some p) h = Ok tt h' ->
  IMB_freeImBuf (S fuel') (Some p) h' = Fault /\
  IMB_refImBuf (Some p) h' = Fault.
Proof.
  intros Hb Hr H.
  destruct (IMB_freeImBuf_torn_down _ _ _ _ _ H Hb Hr) as (Hgone & _).
  split.
  - cbn [IMB_freeImBuf]. unfold IMB_freeImBuf_body, mbind, M_bind, load.
    now rewrite Hgone.
  - unfold IMB_refImBuf, update. now rewrite Hgone.
Qed.

Lemma IMB_freeImBuf_twice_witness :
  exists h',
    IMB_freeImBuf 2 (Some 10%positive) sample_heap = Ok tt h' /\
    IMB_freeImBuf 2 (Some 10%positive) h' = Fault /\
    IMB_refImBuf (Some 10%positive) h' = Fault.
Proof.
  destruct (IMB_freeImBuf 2 (Some 10%positive) sample_heap)
    as [[] h'| |] eqn:E; [|vm_compute in E; discriminate E..].
  exists h'. split; [reflexivity|].
  apply (IMB_freeImBuf_twice 2 1 10%positive sample_heap sample_aggregate);
    [reflexivity|vm_compute; discriminate|exact E].
Defined.

(** ** What the teardown leaves alone *)

#[global] Instance spares_refl d : Reflexive (spares d).
Proof. intros h Hun. now split. Qed.

#[global] Instance spares_trans d : Transitive (spares d).
Proof.
  intros h1 h2 h3 H12 H23 Hun.
  destruct (H12 Hun) as [E12 Hun2]. destruct (H23 Hun2) as [E23 Hun3].
  split; [congruence|exact Hun3].
Qed.

Lemma spares_intro d h h' :
  (unclaimed d h -> mem h' !! d = mem h !! d) ->
  (forall q b', ibufs h' !! q = Some b' ->
     exists b, ibufs h !! q = Some b /\ (claims b' d -> claims b d)) ->
  (forall i info', sharing h' !! i = Some info' ->
     exists info, sharing h !! i = Some info /\
                  shared_data info' = shared_data info) ->
  spares d h h'.
Proof.
  intros Hmem Hibufs Hsharing Hun. split; [now apply Hmem|].
  destruct Hun as [Hown Hheld]. split.
  - intros q b' Hq Hc. destruct (Hibufs q b' Hq) as (b & Hb & Hsub).
    exact (Hown q b Hb (Hsub Hc)).
  - intros i info' Hi. destruct (Hsharing i info' Hi) as (info & Hinfo & ->).
    exact (Hheld i info Hinfo).
Qed.

Lemma update_spares d ibuf f : shrinks f -> pres (spares d) (update ibuf f).
Proof.
  intros Hf h u h' H. apply update_Ok in H as (p & b & -> & Hb & ->).
  apply spares_intro; cbn [mem ibufs sharing set_ibufs]; [reflexivity| |eauto].
  intros q b' Hq. destruct (decide (p = q)) as [->|Hne].
  - rewrite lookup_insert_eq in Hq. apply (inj Some) in Hq as <-.
    exists b. split; [exact Hb|apply Hf].
  - rewrite lookup_insert_ne in Hq by exact Hne. eauto.
Qed.

Lemma emit_spares d e : pres (spares d) (emit e).
Proof.
  intros h u h' H. inversion H; subst; clear H.
  apply spares_intro; cbn [mem ibufs sharing set_trace]; eauto.
Qed.

Lemma MEM_freeN_ImBuf_spares d ibuf : pres (spares d) (MEM_freeN_ImBuf ibuf).
Proof.
  intros h u h' H. destruct ibuf as [p|]; [|discriminate].
  apply MEM_freeN_ImBuf_Ok in H as [_ ->].
  apply spares_intro; cbn [mem ibufs sharing set_ibufs]; [reflexivity| |eauto].
  intros q b' Hq. apply lookup_delete_Some in Hq as [_ Hq]. eauto.
Qed.

Lemma MEM_freeN_other d d' h u h' :
  MEM_freeN (Some d') h = Ok u h' -> d' <> d -> spares d h h'.
Proof.
  unfold MEM_freeN. destruct (mem h !! d'); [|discriminate].
  intros H Hne. inversion H; subst; clear H.
  apply spares_intro; cbn [mem ibufs sharing set_mem]; eauto.
  intros _. now apply lookup_delete_ne.
Qed.

Lemma remove_user_spares d info :
  pres (spares d) (remove_user_and_delete_if_last info).
Proof.
  intros h u h' H Hun. pose proof Hun as [_ Hheld].
  unfold remove_user_and_delete_if_last in H.
  destruct info as [s|]; [|discriminate].
  destruct (sharing h !! s) as [i|] eqn:Ei; [|discriminate].
  specialize (Hheld s i Ei).
  assert (Hdel : spares d h (set_sharing (delete s (sharing h)) h)).
  { apply spares_intro; cbn [mem ibufs sharing set_sharing]; eauto.
    intros k i' Hk. apply lookup_delete_Some in Hk as [_ Hk]. eauto. }
  destruct (strong_users i =? 1).
  - destruct (shared_data i) as [d'|] eqn:Ed.
    + assert (Hne : d' <> d) by congruence.
      destruct (Hdel Hun) as [E1 Hun1].
      destruct (MEM_freeN_other d d' _ _ _ H Hne Hun1) as [E2 Hun2].
      split; [congruence|exact Hun2].
    + inversion H; subst. exact (Hdel Hun).
  - inversion H; subst; clear H. revert Hun.
    apply spares_intro; cbn [mem ibufs sharing set_sharing]; eauto.
    intros k i' Hk. destruct (decide (s = k)) as [->|Hne].
    + rewrite lookup_insert_eq in Hk. apply (inj Some) in Hk as <-.
      exists i. split; [exact Ei|reflexivity].
    + rewrite lookup_insert_ne in Hk by exact Hne. eauto.
Qed.

(** Freeing a slot that does not own the block. *)
Lemma imb_free_buffer_spares d buffer h nb h' :
  imb_free_buffer buffer h = Ok nb h' -> d ∉ slot_owned buffer ->
  spares d h h'.
Proof.
  unfold imb_free_buffer, free_shared_data, slot_owned. intros H Hd.
  destruct (implicit_sharing buffer) as [s|].
  - apply bind_Ok in H as (a & h1 & H1 & H).
    apply bind_Ok in H1 as (a1 & h2 & H1 & H2).
    apply ret_Ok in H as [_ <-]. apply ret_Ok in H2 as [_ <-].
    eapply remove_user_spares, H1.
  - destruct (data buffer) as [d'|]; [destruct (ownership buffer)|].
    + apply ret_Ok in H as [_ <-]. reflexivity.
    + apply bind_Ok in H as (a & h1 & H1 & H).
      apply ret_Ok in H as [_ <-].
      eapply MEM_freeN_other; [exact H1|].
      intros ->. apply Hd. now left.
    + apply ret_Ok in H as [_ <-]. reflexivity.
Qed.

(** The head of the functions that free a slot of the aggregate [p]: the
    slot is read, freed, and the rest goes on with the emptied buffer. *)
Lemma free_head_spares {A : Type} d p s (k : Buffer -> M A) :
  pres (spares d) (k empty_buffer) ->
  pres (spares d)
    (b ← load (Some p); nb ← imb_free_buffer (slot_buffer s b); k nb).
Proof.
  intros Hk h a h' H Hun.
  apply bind_Ok in H as (b & h0 & Hl & H).
  apply load_Ok in Hl as (p0 & [= <-] & Hb & ->).
  apply bind_Ok in H as (nb & h1 & Hfree & H).
  pose proof (imb_free_buffer_empty _ _ _ _ Hfree) as ->.
  assert (Hd : d ∉ slot_owned (slot_buffer s b)).
  { intros Hin. destruct Hun as [Hown _]. apply (Hown p b Hb). now exists s. }
  destruct (imb_free_buffer_spares d _ _ _ _ Hfree Hd Hun) as [E1 Hun1].
  destruct (Hk _ _ _ H Hun1) as [E2 Hun2].
  split; [congruence|exact Hun2].
Qed.

Lemma claims_same f :
  (forall b s, slot_buffer s (f b) = slot_buffer s b) -> shrinks f.
Proof. intros Hf b d [s Hs]. exists s. now rewrite Hf in Hs. Qed.

Lemma claims_emptied s0 set :
  sets_slot s0 set -> shrinks (set empty_buffer).
Proof.
  intros (Hg & _ & Ho) b d [s Hs]. destruct (decide (s = s0)) as [->|Hne].
  - rewrite Hg in Hs. inversion Hs.
  - rewrite Ho in Hs by exact Hne. now exists s.
Qed.

(** Solves [shrinks f] for the field updates of the teardown. *)
Ltac shrinks_field :=
  first
    [ apply (claims_emptied ByteSlot), sets_slot_byte
    | apply (claims_emptied FloatSlot), sets_slot_float
    | apply (claims_emptied ZSlot), sets_slot_z
    | apply (claims_emptied FloatZSlot), sets_slot_float_z
    | apply (claims_emptied EncodedSlot), sets_slot_encoded
    | apply claims_same; intros ? s; now destruct s ].

(** Solves [pres (spares d) m] for code that frees no slot. *)
Ltac pres_spares :=
  repeat first
    [ apply pres_bind; [apply _| |intros ?]
    | apply pres_ret; apply _
    | apply pres_load; apply _
    | apply emit_spares
    | apply MEM_freeN_ImBuf_spares
    | apply update_spares; shrinks_field ].

Section release_spares.
Variable d : loc.
Variable release : option loc -> M unit.
Hypothesis release_spares : forall c, pres (spares d) (release c).

Lemma free_mipmap_levels_spares ibuf levels :
  pres (spares d) (free_mipmap_levels release ibuf levels).
Proof.
  induction levels as [|a rest IH]; cbn [free_mipmap_levels].
  - apply pres_ret; apply _.
  - apply pres_bind; [apply _| |intros _; exact IH].
    unfold free_mipmap_level.
    apply pres_bind; [apply _|apply pres_load; apply _|intros b].
    destruct (default None (mipmap b !! a)); [|apply pres_ret; apply _].
    apply pres_bind; [apply _|apply release_spares|intros _].
    apply update_spares; shrinks_field.
Qed.

Lemma imb_freemipmapImBuf_spares ibuf :
  pres (spares d) (imb_freemipmapImBuf_with release ibuf).
Proof.
  unfold imb_freemipmapImBuf_with.
  apply pres_bind; [apply _|apply free_mipmap_levels_spares|intros _].
  apply update_spares; shrinks_field.
Qed.

Lemma imb_freerectImBuf_spares ibuf :
  pres (spares d) (imb_freerectImBuf_with release ibuf).
Proof.
  destruct ibuf as [p|]; [|apply pres_ret; apply _].
  apply (free_head_spares d p ByteSlot).
  apply pres_bind; [apply _|apply update_spares; shrinks_field|intros _].
  apply pres_bind; [apply _|apply imb_freemipmapImBuf_spares|intros _].
  apply update_spares; shrinks_field.
Qed.

Lemma imb_freerectfloatImBuf_spares ibuf :
  pres (spares d) (imb_freerectfloatImBuf_with release ibuf).
Proof.
  destruct ibuf as [p|]; [|apply pres_ret; apply _].
  apply (free_head_spares d p FloatSlot).
  apply pres_bind; [apply _|apply update_spares; shrinks_field|intros _].
  apply pres_bind; [apply _|apply imb_freemipmapImBuf_spares|intros _].
  apply update_spares; shrinks_field.
Qed.
End release_spares.

Lemma IMB_freezbufImBuf_spares d ibuf : pres (spares d) (IMB_freezbufImBuf ibuf).
Proof.
  destruct ibuf as [p|]; [|apply pres_ret; apply _].
  apply (free_head_spares d p ZSlot). pres_spares.
Qed.

Lemma IMB_freezbuffloatImBuf_spares d ibuf :
  pres (spares d) (IMB_freezbuffloatImBuf ibuf).
Proof.
  destruct ibuf as [p|]; [|apply pres_ret; apply _].
  apply (free_head_spares d p FloatZSlot). pres_spares.
Qed.

Lemma freeencodedbufferImBuf_spares d ibuf :
  pres (spares d) (freeencodedbufferImBuf ibuf).
Proof.
  destruct ibuf as [p|]; [|apply pres_ret; apply _].
  apply (free_head_spares d p EncodedSlot). pres_spares.
Qed.

Lemma imb_freerectImbuf_all_spares d release ibuf :
  (forall c, pres (spares d) (release c)) ->
  pres (spares d) (imb_freerectImbuf_all_with release ibuf).
Proof.
  intros Hrel. unfold imb_freerectImbuf_all_with.
  apply pres_bind; [apply _|now apply imb_freerectImBuf_spares|intros _].
  apply pres_bind; [apply _|now apply imb_freerectfloatImBuf_spares|intros _].
  apply pres_bind; [apply _|apply IMB_freezbufImBuf_spares|intros _].
  apply pres_bind; [apply _|apply IMB_freezbuffloatImBuf_spares|intros _].
  apply freeencodedbufferImBuf_spares.
Qed.

Lemma IMB_freeImBuf_spares d fuel : forall ibuf,
  pres (spares d) (IMB_freeImBuf fuel ibuf).
Proof.
  induction fuel as [|n IH]; intros ibuf.
  - intros h u h' H. discriminate.
  - cbn [IMB_freeImBuf]. unfold IMB_freeImBuf_body.
    destruct ibuf as [p|]; [|apply pres_ret; apply _].
    apply pres_bind; [apply _|apply pres_load; apply _|intros b].
    destruct (0 <? refcounter b); [apply update_spares; shrinks_field|].
    apply pres_bind; [apply _|now apply imb_freerectImbuf_all_spares|intros _].
    unfold IMB_metadata_free, colormanage_cache_free, free_dds.
    apply pres_bind; [apply _|apply pres_load; apply _|intros b1].
    apply pres_bind; [apply _|apply emit_spares|intros _].
    apply pres_bind; [apply _|apply emit_spares|intros _].
    apply pres_bind; [apply _|apply pres_load; apply _|intros b2].
    apply pres_bind; [apply _| |intros _; apply MEM_freeN_ImBuf_spares].
    destruct (dds_data b2); [apply emit_spares|apply pres_ret; apply _].
Qed.

Lemma unclaimed_singleton d p b m o t :
  (forall s0, d ∉ slot_owned (slot_buffer s0 b)) ->
  unclaimed d (mkHeap m {[ p := b ]} ∅ o t).
Proof.
  intros Hb. split; cbn [ibufs sharing].
  - intros q b' Hq [s0 Hs0]. apply lookup_singleton_Some in Hq as [_ <-].
    exact (Hb s0 Hs0).
  - intros i info Hi. rewrite lookup_empty in Hi. discriminate.
Qed.

(** X24: [IMB_freeImBuf] frees no memory but what the aggregates own: a
    block that no slot of an aggregate owns and no control block holds (such
    as pixels assigned with [IB_DO_NOT_TAKE_OWNERSHIP]) is there after the
    call, with the bytes it had, whatever the reference count, the mipmap
    levels and their nesting; and it is still nobody's. *)
Theorem IMB_freeImBuf_spares_unclaimed fuel ibuf h h' d :
  IMB_freeImBuf fuel ibuf h = Ok tt h' -> unclaimed d h ->
  mem h' !! d = mem h !! d /\ unclaimed d h'.
Proof. intros H. exact (IMB_freeImBuf_spares d fuel ibuf h tt h' H). Qed.

Lemma IMB_freeImBuf_spares_unclaimed_witness :
  exists h',
    IMB_freeImBuf 1 (Some 1%positive) heap_borrowing = Ok tt h' /\
    mem h' !! 1%positive = Some [Byte.x01; Byte.x02; Byte.x03; Byte.x04].
Proof.
  destruct (IMB_freeImBuf 1 (Some 1%positive) heap_borrowing)
    as [[] h'| |] eqn:E; [|vm_compute in E; discriminate E..].
  exists h'. split; [reflexivity|].
  destruct (IMB_freeImBuf_spares_unclaimed 1 (Some 1%positive) heap_borrowing
              h' 1%positive E) as [Hmem _].
  - apply unclaimed_singleton.
    intros s0. destruct s0; apply not_elem_of_nil.
  - exact (eq_trans Hmem eq_refl).
Defined.

(** ** Creating an image with pixels *)

(** The teardown of an aggregate that holds nothing. *)
Lemma imb_freerectImBuf_empty release p h b :
  ibufs h !! p = Some b -> byte_buffer b = empty_buffer -> no_levels b ->
  imb_freerectImBuf_with release (Some p) h
  = Ok tt (set_ibufs
             (<[p := set_flags (Z.land (flags b) (Z.lnot IB_rect))
                       (set_miptot 0 (set_byte_buffer empty_buffer b))]>
                (ibufs h)) h).
Proof.
  intros Hb He Hno. unfold imb_freerectImBuf_with.
  run_load. rewrite He. run_head (imb_free_buffer_empty_run h). run_update.
  erewrite bind_run
    by (apply (imb_freemipmapImBuf_plain release p _
                 (set_byte_buffer empty_buffer b));
        [cbn [ibufs set_ibufs]; apply lookup_insert_eq|exact Hno]).
  erewrite update_run by (cbn [ibufs set_ibufs]; apply lookup_insert_eq).
  cbn [ibufs set_ibufs]. now rewrite !insert_insert_eq.
Qed.

Lemma imb_freerectfloatImBuf_empty release p h b :
  ibufs h !! p = Some b -> float_buffer b = empty_buffer -> no_levels b ->
  imb_freerectfloatImBuf_with release (Some p) h
  = Ok tt (set_ibufs
             (<[p := set_flags (Z.land (flags b) (Z.lnot IB_rectfloat))
                       (set_miptot 0 (set_float_buffer empty_buffer b))]>
                (ibufs h)) h).
Proof.
  intros Hb He Hno. unfold imb_freerectfloatImBuf_with.
  run_load. rewrite He. run_head (imb_free_buffer_empty_run h). run_update.
  erewrite bind_run
    by (apply (imb_freemipmapImBuf_plain release p _
                 (set_float_buffer empty_buffer b));
        [cbn [ibufs set_ibufs]; apply lookup_insert_eq|exact Hno]).
  erewrite update_run by (cbn [ibufs set_ibufs]; apply lookup_insert_eq).
  cbn [ibufs set_ibufs]. now rewrite !insert_insert_eq.
Qed.

Lemma imb_freerectImbuf_all_empty release p h b :
  ibufs h !! p = Some b -> (forall s, slot_buffer s b = empty_buffer) ->
  no_levels b ->
  exists b',
    imb_freerectImbuf_all_with release (Some p) h
    = Ok tt (set_ibufs (<[p := b']> (ibufs h)) h) /\
    metadata b' = metadata b /\ dds_data b' = dds_data b.
Proof.
  intros Hb He Hno. unfold imb_freerectImbuf_all_with.
  rewrite (bind_run _ _ _ _ _
             (imb_freerectImBuf_empty release p h b Hb (He ByteSlot) Hno)).
  erewrite bind_run
    by (apply imb_freerectfloatImBuf_empty;
        [cbn [ibufs set_ibufs]; apply lookup_insert_eq
        |exact (He FloatSlot)|exact Hno]).
  rewrite set_ibufs_insert_over.
  erewrite bind_run
    by (apply IMB_freezbufImBuf_run;
        [cbn [ibufs set_ibufs]; apply lookup_insert_eq
        |cbn [z_buffer set_flags set_miptot set_float_buffer set_byte_buffer];
         rewrite (He ZSlot : z_buffer b = empty_buffer);
         apply imb_free_buffer_empty_run]).
  rewrite set_ibufs_insert_over.
  erewrite bind_run
    by (apply IMB_freezbuffloatImBuf_run;
        [cbn [ibufs set_ibufs]; apply lookup_insert_eq
        |cbn [float_z_buffer set_flags set_miptot set_float_buffer
              set_byte_buffer set_z_buffer];
         rewrite (He FloatZSlot : float_z_buffer b = empty_buffer);
         apply imb_free_buffer_empty_run]).
  rewrite set_ibufs_insert_over.
  erewrite freeencodedbufferImBuf_run;
    [|cbn [ibufs set_ibufs]; apply lookup_insert_eq
     |cbn [encoded_buffer set_flags set_miptot set_float_buffer
           set_byte_buffer set_z_buffer set_float_z_buffer];
      rewrite (He EncodedSlot : encoded_buffer b = empty_buffer);
      apply imb_free_buffer_empty_run].
  rewrite set_ibufs_insert_over.
  eexists. split; [reflexivity|]. split; reflexivity.
Qed.

Lemma IMB_freeImBuf_empty fuel p h b :
  ibufs h !! p = Some b -> refcounter b <= 0 ->
  (forall s, slot_buffer s b = empty_buffer) -> no_levels b ->
  exists l,
    IMB_freeImBuf (S fuel) (Some p) h
    = Ok tt (set_trace (trace h ++ l) (set_ibufs (delete p (ibufs h)) h)).
Proof.
  intros Hb Hr He Hno.
  cbn [IMB_freeImBuf]. unfold IMB_freeImBuf_body.
  run_load. destruct (Z.ltb_spec 0 (refcounter b)) as [|_]; [lia|].
  destruct (imb_freerectImbuf_all_empty (IMB_freeImBuf fuel) p h b Hb He Hno)
    as (b' & Hall & Hmeta & Hdds).
  run_head Hall. run_load.
  unfold IMB_metadata_free, colormanage_cache_free, free_dds, emit,
    modify_heap.
  erewrite bind_run by reflexivity. cbv beta.
  erewrite bind_run by reflexivity. cbv beta.
  erewrite bind_run
    by (apply load_run; cbn [ibufs set_ibufs set_trace];
        apply lookup_insert_eq).
  cbv beta. unfold MEM_freeN_ImBuf.
  destruct (dds_data b') as [dd|].
  - erewrite bind_run by reflexivity. cbv beta.
    cbn [ibufs set_ibufs set_trace trace].
    rewrite lookup_insert_eq, delete_insert_eq.
    eexists. rewrite <- !app_assoc. reflexivity.
  - erewrite bind_run by reflexivity. cbv beta.
    cbn [ibufs set_ibufs set_trace trace].
    rewrite lookup_insert_eq, delete_insert_eq.
    eexists. rewrite <- !app_assoc. reflexivity.
Qed.

Lemma no_levels_replicate b :
  mipmap b = replicate IMB_MIPMAP_LEVELS None -> no_levels b.
Proof.
  intros E a. rewrite E.
  destruct (replicate IMB_MIPMAP_LEVELS None !! a) as [o|] eqn:Ea;
    [|reflexivity].
  apply lookup_replicate in Ea as [-> _]. reflexivity.
Qed.

Lemma set_byte_buffer_same b : set_byte_buffer (byte_buffer b) b = b.
Proof. now destruct b. Qed.

(** [imb_addrectImBuf] on an aggregate without byte buffer, when the
    pixels are not to be had. *)
Lemma imb_addrectImBuf_empty_failure p h b :
  ibufs h !! p = Some b -> byte_buffer b = empty_buffer ->
  0 <= x b < uint_modulus -> 0 <= y b < uint_modulus ->
  fst (next_request h) = true \/ SIZE_MAX / 4 <= x b * y b ->
  exists o, imb_addrectImBuf (Some p) h = Ok false (set_oom o h).
Proof.
  intros Hb He Hx Hy Hfail.
  assert (Hfree : imb_free_buffer (byte_buffer b) h = Ok empty_buffer h)
    by (rewrite He; reflexivity).
  rewrite (imb_addrectImBuf_run p h b h Hb Hfree).
  assert (Hsame : set_ibufs (<[p := set_byte_buffer empty_buffer b]> (ibufs h))
                            h = h).
  { rewrite <- He, set_byte_buffer_same. now apply set_ibufs_insert_same. }
  rewrite Hsame.
  assert (Hct : 0 < 4 * sizeof_uint8_t <= SIZE_MAX)
    by (unfold sizeof_uint8_t, SIZE_MAX, size_t_modulus; lia).
  assert (Halloc : exists o,
    imb_alloc_buffer empty_buffer (x b) (y b) 4 sizeof_uint8_t h
    = Ok (false, empty_buffer) (set_oom o h)).
  { destruct (Z.lt_ge_cases (x b * y b) (SIZE_MAX / (4 * sizeof_uint8_t)))
      as [Hlt|Hge].
    - destruct Hfail as [Hreq|Hbig];
        [|change (4 * sizeof_uint8_t) with 4 in Hlt; lia].
      exists (snd (next_request h)).
      exact (imb_alloc_buffer_refused empty_buffer _ _ 4 sizeof_uint8_t h
               Hx Hy Hct Hlt Hreq).
    - exists (oom h).
      rewrite (imb_alloc_buffer_too_large empty_buffer _ _ 4 sizeof_uint8_t h
                 Hx Hy Hct Hge).
      now destruct h. }
  destruct Halloc as [o Halloc]. exists o.
  run_head Halloc. cbv iota.
  erewrite bind_run
    by (apply update_run; cbn [ibufs set_oom]; exact Hb).
  cbv beta. cbn [negb ibufs set_oom].
  rewrite <- He at 1. rewrite set_byte_buffer_same.
  rewrite insert_id by exact Hb.
  reflexivity.
Qed.

Lemma blank_empty ix iy pl s : slot_buffer s (blank ix iy pl) = empty_buffer.
Proof. now destruct s. Qed.

(** X25: [IMB_allocImBuf] leaks nothing when the pixels are not to be had.
    With [IB_rect] among the flags, a structure that is served and a byte
    buffer that is refused or too large, the call returns null, the new
    structure is freed again, and the heap holds the aggregates, the blocks
    and the control blocks it held before. *)
Theorem IMB_allocImBuf_pixels_refused fuel ix iy pl fl h :
  has_flag fl IB_rect = true ->
  0 <= ix < uint_modulus -> 0 <= iy < uint_modulus ->
  fst (next_request h) = false ->
  fst (next_request (set_oom (snd (next_request h)) h)) = true \/
    SIZE_MAX / 4 <= ix * iy ->
  exists h',
    IMB_allocImBuf (S fuel) ix iy pl fl h = Ok None h' /\
    ibufs h' = ibufs h /\ mem h' = mem h /\ sharing h' = sharing h.
Proof.
  intros Hfl Hx Hy Hreq Hfail.
  destruct (MEM_cnew_ImBuf_served h Hreq) as (p & Hp & Hnew).
  unfold IMB_allocImBuf. run_head Hnew.
  set (h1 := set_oom (snd (next_request h))
               (set_ibufs (<[p := zero_ImBuf]> (ibufs h)) h)).
  set (h2 := set_ibufs (<[p := blank ix iy pl]> (ibufs h1)) h1).
  assert (Hb2 : ibufs h2 !! p = Some (blank ix iy pl))
    by apply lookup_insert_eq.
  destruct (imb_addrectImBuf_empty_failure p h2 (blank ix iy pl) Hb2 eq_refl
              Hx Hy) as [o Hadd].
  { destruct Hfail as [Hreq2|Hbig]; [left; exact Hreq2|right; exact Hbig]. }
  assert (Hinit : IMB_initImBuf (S fuel) (Some p) ix iy pl fl h1
                  = Ok false (set_oom o h2)).
  { unfold IMB_initImBuf.
    erewrite bind_run by (apply update_run; apply lookup_insert_eq).
    cbv beta. fold (blank ix iy pl). fold h2.
    rewrite Hfl. run_head Hadd. reflexivity. }
  run_head Hinit. cbn [negb].
  destruct (IMB_freeImBuf_empty fuel p (set_oom o h2) (blank ix iy pl))
    as [l Hfree]; [exact Hb2|cbn; lia|apply blank_empty
                  |now apply no_levels_replicate|].
  run_head Hfree. eexists. split; [reflexivity|].
  cbn [ibufs mem sharing set_trace set_ibufs set_oom h1 h2].
  split; [|split; reflexivity].
  rewrite !delete_insert_eq. now apply delete_id.
Qed.

Lemma IMB_allocImBuf_pixels_refused_witness :
  exists h',
    IMB_allocImBuf 1 2 2 32 IB_rect
      (set_oom [false; true] heap_float_pixels) = Ok None h' /\
    ibufs h' = ibufs heap_float_pixels /\ mem h' = mem heap_float_pixels.
Proof.
  destruct (IMB_allocImBuf_pixels_refused 0 2 2 32 IB_rect
              (set_oom [false; true] heap_float_pixels))
    as (h' & Hrun & Hi & Hm & _);
    [reflexivity|vm_compute; split; [discriminate|reflexivity]..
    |reflexivity|left; reflexivity|].
  exists h'. split; [exact Hrun|]. split; [exact Hi|exact Hm].
Defined.

(** [imb_addrectImBuf] on an aggregate without byte buffer, when the
    allocator serves. *)
Lemma imb_addrectImBuf_empty_served p h b :
  ibufs h !! p = Some b -> byte_buffer b = empty_buffer ->
  0 <= x b < uint_modulus -> 0 <= y b < uint_modulus ->
  x b * y b < SIZE_MAX / 4 -> planes b <= 32 -> oom h = [] ->
  exists q,
    mem h !! q = None /\
    imb_addrectImBuf (Some p) h
    = Ok true
        (set_mem (<[q := replicate (Z.to_nat (4 * x b * y b)) Byte.x00]>
                    (mem h))
           (set_ibufs
              (<[p := set_flags (Z.lor (flags b) IB_rect)
                        (set_byte_buffer
                           (mkBuffer (Some q) IB_TAKE_OWNERSHIP None) b)]>
                 (ibufs h)) h)).
Proof.
  intros Hb He Hx Hy Hlt Hpl Hoom.
  assert (Hfree : imb_free_buffer (byte_buffer b) h = Ok empty_buffer h)
    by (rewrite He; reflexivity).
  rewrite (imb_addrectImBuf_run p h b h Hb Hfree).
  assert (Hsame : set_ibufs (<[p := set_byte_buffer empty_buffer b]> (ibufs h))
                            h = h).
  { rewrite <- He, set_byte_buffer_same. now apply set_ibufs_insert_same. }
  rewrite Hsame.
  destruct (imb_alloc_buffer_served empty_buffer (x b) (y b) 4 sizeof_uint8_t
              h Hx Hy) as (q & Halloc & Hq).
  { unfold sizeof_uint8_t, SIZE_MAX, size_t_modulus. lia. }
  { exact Hlt. }
  { now rewrite next_request_nil. }
  rewrite next_request_nil in Halloc by exact Hoom. cbn [snd] in Halloc.
  rewrite set_oom_nil in Halloc by exact Hoom.
  replace (x b * y b * 4 * sizeof_uint8_t) with (4 * x b * y b) in Halloc
    by (unfold sizeof_uint8_t; lia).
  exists q. split; [exact Hq|].
  run_head Halloc. cbv iota. cbn [negb].
  erewrite bind_run
    by (apply update_run; cbn [ibufs set_mem]; exact Hb).
  cbv beta.
  erewrite bind_run
    by (apply update_run; cbn [ibufs set_ibufs set_mem];
        apply lookup_insert_eq).
  cbv beta.
  erewrite bind_run
    by (apply load_run; cbn [ibufs set_ibufs set_mem];
        apply lookup_insert_eq).
  cbv beta. cbn [planes set_flags set_byte_buffer].
  destruct (Z.ltb_spec 32 (planes b)); [lia|].
  cbn [ibufs set_ibufs set_mem]. rewrite insert_insert_eq. reflexivity.
Qed.

(** [imb_addrectfloatImBuf] on an aggregate without float buffer, when the
    allocator serves. *)
Lemma imb_addrectfloatImBuf_empty_served fuel p h b c :
  ibufs h !! p = Some b -> float_buffer b = empty_buffer ->
  0 <= x b < uint_modulus -> 0 <= y b < uint_modulus ->
  0 < c <= 4 -> x b * y b < SIZE_MAX / (c * 4) -> oom h = [] ->
  exists q,
    mem h !! q = None /\
    imb_addrectfloatImBuf fuel (Some p) c h
    = Ok true
        (set_mem (<[q := replicate (Z.to_nat (4 * c * x b * y b)) Byte.x00]>
                    (mem h))
           (set_ibufs
              (<[p := set_flags (Z.lor (flags b) IB_rectfloat)
                        (set_channels c
                           (set_float_buffer
                              (mkBuffer (Some q) IB_TAKE_OWNERSHIP None) b))]>
                 (ibufs h)) h)).
Proof.
  intros Hb He Hx Hy Hc Hlt Hoom.
  rewrite (imb_addrectfloatImBuf_run fuel p h b c Hb)
    by (rewrite He; reflexivity).
  destruct (imb_alloc_buffer_served (float_buffer b) (x b) (y b) c
              sizeof_float h Hx Hy) as (q & Halloc & Hq).
  { unfold sizeof_float, SIZE_MAX, size_t_modulus. lia. }
  { exact Hlt. }
  { now rewrite next_request_nil. }
  rewrite next_request_nil in Halloc by exact Hoom. cbn [snd] in Halloc.
  rewrite set_oom_nil in Halloc by exact Hoom.
  replace (x b * y b * c * sizeof_float) with (4 * c * x b * y b) in Halloc
    by (unfold sizeof_float; lia).
  exists q. split; [exact Hq|].
  run_head Halloc. cbv iota. cbn [negb].
  erewrite bind_run
    by (apply update_run; cbn [ibufs set_mem]; exact Hb).
  cbv beta.
  erewrite bind_run
    by (apply update_run; cbn [ibufs set_ibufs set_mem];
        apply lookup_insert_eq).
  cbv beta.
  erewrite bind_run
    by (apply update_run; cbn [ibufs set_ibufs set_mem];
        apply lookup_insert_eq).
  cbv beta.
  cbn [ibufs set_ibufs set_mem]. rewrite !insert_insert_eq. reflexivity.
Qed.

Lemma pixel_flags_has wb wf :
  has_flag (pixel_flags wb wf) IB_rect = wb /\
  has_flag (pixel_flags wb wf) IB_rectfloat = wf /\
  has_flag (pixel_flags wb wf) IB_zbuf = false /\
  has_flag (pixel_flags wb wf) IB_zbuffloat = false.
Proof. now destruct wb, wf. Qed.

(** [IMB_allocImBuf] for an image with a byte buffer, a float buffer, both
    or none, when the allocator serves. *)
Lemma IMB_allocImBuf_pixels fuel ix iy pl (wb wf : bool) h :
  0 <= ix < uint_modulus -> 0 <= iy < uint_modulus -> pl <= 32 ->
  ix * iy < SIZE_MAX / 16 -> oom h = [] ->
  exists p qb qf,
    ibufs h !! p = None /\ mem h !! qb = None /\ mem h !! qf = None /\
    (wb = true -> wf = true -> qb <> qf) /\
    IMB_allocImBuf fuel ix iy pl (pixel_flags wb wf) h
    = Ok (Some p)
        (set_trace (trace h ++ [EvColormanageSetDefaultSpaces p])
           (set_mem
              (add_block wf qf (zeros (16 * ix * iy))
                 (add_block wb qb (zeros (4 * ix * iy)) (mem h)))
              (set_ibufs
                 (<[p := set_flags (pixel_flags wb wf)
                           (set_float_buffer (slot_of wf qf)
                              (set_byte_buffer (slot_of wb qb)
                                 (blank ix iy pl)))]> (ibufs h)) h))).
Proof.
  intros Hx Hy Hpl Hlt Hoom.
  assert (Hlt4 : ix * iy < SIZE_MAX / 4).
  { assert (SIZE_MAX / 16 <= SIZE_MAX / 4) by (vm_compute; discriminate).
    lia. }
  destruct (MEM_cnew_ImBuf_served h) as (p & Hp & Hnew);
    [now rewrite next_request_nil|].
  rewrite next_request_nil in Hnew by exact Hoom. cbn [snd] in Hnew.
  rewrite set_oom_nil in Hnew by exact Hoom.
  exists p.
  set (h2 := set_ibufs (<[p := blank ix iy pl]> (ibufs h)) h).
  assert (Hb2 : ibufs h2 !! p = Some (blank ix iy pl))
    by apply lookup_insert_eq.
  destruct (imb_addrectImBuf_empty_served p h2 (blank ix iy pl) Hb2 eq_refl
              Hx Hy Hlt4 Hpl Hoom) as (qb & Hqb & Hbyte).
  exists qb.
  set (hb := if wb
             then set_mem (<[qb := zeros (4 * ix * iy)]> (mem h))
                    (set_ibufs
                       (<[p := set_flags (Z.lor 0 IB_rect)
                                 (set_byte_buffer
                                    (mkBuffer (Some qb) IB_TAKE_OWNERSHIP None)
                                    (blank ix iy pl))]> (ibufs h)) h)
             else h2).
  set (bb := if wb
             then set_flags (Z.lor 0 IB_rect)
                    (set_byte_buffer
                       (mkBuffer (Some qb) IB_TAKE_OWNERSHIP None)
                       (blank ix iy pl))
             else blank ix iy pl).
  assert (Hbb : ibufs hb !! p = Some bb)
    by (unfold hb, bb; destruct wb; apply lookup_insert_eq).
  destruct (imb_addrectfloatImBuf_empty_served fuel p hb bb 4 Hbb)
    as (qf & Hqf & Hfloat);
    [unfold bb; now destruct wb|unfold bb; now destruct wb
    |unfold bb; now destruct wb|lia|unfold bb; now destruct wb
    |unfold hb; now destruct wb|].
  exists qf.
  assert (Hqf0 : mem h !! qf = None).
  { unfold hb in Hqf. destruct wb; [|exact Hqf].
    cbn [mem set_mem set_ibufs] in Hqf.
    apply lookup_insert_None in Hqf as [Hqf _]. exact Hqf. }
  split; [exact Hp|]. split; [exact Hqb|]. split; [exact Hqf0|].
  split.
  { intros -> _ ->. unfold hb in Hqf. cbn [mem set_mem set_ibufs] in Hqf.
    rewrite lookup_insert_eq in Hqf. discriminate. }
  unfold IMB_allocImBuf. run_head Hnew.
  assert (Hinit :
    IMB_initImBuf fuel (Some p) ix iy pl (pixel_flags wb wf)
      (set_ibufs (<[p := zero_ImBuf]> (ibufs h)) h)
    = Ok true
        (set_trace (trace h ++ [EvColormanageSetDefaultSpaces p])
           (set_mem
              (add_block wf qf (zeros (16 * ix * iy))
                 (add_block wb qb (zeros (4 * ix * iy)) (mem h)))
              (set_ibufs
                 (<[p := set_flags (pixel_flags wb wf)
                           (set_float_buffer (slot_of wf qf)
                              (set_byte_buffer (slot_of wb qb)
                                 (blank ix iy pl)))]> (ibufs h)) h)))).
  { unfold IMB_initImBuf.
    erewrite bind_run
      by (apply update_run; cbn [ibufs set_ibufs]; apply lookup_insert_eq).
    cbv beta. fold (blank ix iy pl).
    cbn [ibufs set_ibufs]. rewrite insert_insert_eq. fold h2.
    destruct (pixel_flags_has wb wf) as (-> & -> & -> & ->).
    assert (Hstep1 :
      (if wb then imb_addrectImBuf (Some p) else mret true) h2 = Ok true hb).
    { unfold hb. destruct wb; [|reflexivity].
      rewrite Hbyte. unfold h2. cbn [ibufs mem set_ibufs set_mem].
      rewrite insert_insert_eq. reflexivity. }
    run_head Hstep1. cbn [negb].
    assert (Hstep2 :
      (if wf
       then b ← load (Some p); imb_addrectfloatImBuf fuel (Some p) (channels b)
       else mret true) hb
      = Ok true
          (if wf
           then set_mem (<[qf := zeros (16 * ix * iy)]> (mem hb))
                  (set_ibufs
                     (<[p := set_flags (Z.lor (flags bb) IB_rectfloat)
                               (set_channels 4
                                  (set_float_buffer
                                     (mkBuffer (Some qf) IB_TAKE_OWNERSHIP
                                               None) bb))]> (ibufs hb)) hb)
           else hb)).
    { destruct wf; [|reflexivity].
      rewrite (bind_run _ _ _ _ _ (load_run p hb bb Hbb)).
      replace (channels bb) with 4 by (unfold bb; now destruct wb).
      rewrite Hfloat. do 3 f_equal.
      - unfold zeros. f_equal. f_equal.
        unfold bb; destruct wb; cbn [x y set_flags set_byte_buffer blank];
          lia.
    }
    run_head Hstep2. cbn [negb]. rewrite !ret_run. cbn [negb].
    unfold colormanage_imbuf_set_default_spaces, emit, modify_heap.
    erewrite bind_run by reflexivity. cbv beta.
    unfold hb, bb, h2.
    destruct wb, wf; cbn [ibufs mem trace set_mem set_ibufs set_trace];
      rewrite ?insert_insert_eq; reflexivity. }
  run_head Hinit. reflexivity.
Qed.

(** X26: when the allocator serves, [IMB_allocImBuf] with flags made of
    [IB_rect] and [IB_rectfloat] returns a new aggregate of the given
    dimensions, with four channels, no other user and exactly the flags
    asked for; each buffer asked for is a new block of zeros that the
    aggregate owns (4 bytes a pixel for the byte buffer, 16 for the float
    buffer), the other slots are empty, and the aggregates and blocks that
    were there are left as they were. *)
Theorem IMB_allocImBuf_with_pixels fuel ix iy pl (wb wf : bool) h :
  0 <= ix < uint_modulus -> 0 <= iy < uint_modulus -> pl <= 32 ->
  ix * iy < SIZE_MAX / 16 -> oom h = [] ->
  exists p h' b',
    IMB_allocImBuf fuel ix iy pl (pixel_flags wb wf) h = Ok (Some p) h' /\
    ibufs h !! p = None /\ ibufs h' = <[p := b']> (ibufs h) /\
    x b' = ix /\ y b' = iy /\ planes b' = pl /\ channels b' = 4 /\
    flags b' = pixel_flags wb wf /\ refcounter b' = 0 /\
    zeroed h h' wb (4 * ix * iy) (byte_buffer b') /\
    zeroed h h' wf (16 * ix * iy) (float_buffer b') /\
    z_buffer b' = empty_buffer /\ float_z_buffer b' = empty_buffer /\
    encoded_buffer b' = empty_buffer /\
    (forall d all, mem h !! d = Some all -> mem h' !! d = Some all).
Proof.
  intros Hx Hy Hpl Hlt Hoom.
  destruct (IMB_allocImBuf_pixels fuel ix iy pl wb wf h Hx Hy Hpl Hlt Hoom)
    as (p & qb & qf & Hp & Hqb & Hqf & Hne & Hrun).
  exists p. eexists _, _. split; [exact Hrun|].
  split; [exact Hp|]. split; [reflexivity|].
  do 6 (split; [reflexivity|]).
  cbn [mem set_mem set_ibufs set_trace byte_buffer float_buffer set_flags
       set_float_buffer set_byte_buffer].
  split; [|split].
  - unfold zeroed, slot_of, add_block.
    cbn [mem set_mem set_ibufs set_trace]. destruct wb; [|reflexivity].
    exists qb. split; [reflexivity|]. split; [exact Hqb|].
    destruct wf; [|apply lookup_insert_eq].
    rewrite lookup_insert_ne by (intros E; now apply (Hne eq_refl eq_refl)).
    apply lookup_insert_eq.
  - unfold zeroed, slot_of, add_block.
    cbn [mem set_mem set_ibufs set_trace]. destruct wf; [|reflexivity].
    exists qf. split; [reflexivity|]. split; [exact Hqf|].
    apply lookup_insert_eq.
  - do 3 (split; [reflexivity|]).
    intros d all Hd. unfold add_block.
    destruct wf, wb; rewrite ?lookup_insert_ne by congruence; exact Hd.
Qed.

Lemma IMB_allocImBuf_with_pixels_witness :
  exists p h' b',
    IMB_allocImBuf 0 2 3 32 IB_rect heap_float_pixels = Ok (Some p) h' /\
    ibufs h' !! p = Some b' /\ flags b' = IB_rect /\
    zeroed heap_float_pixels h' true 24 (byte_buffer b') /\
    float_buffer b' = empty_buffer.
Proof.
  destruct (IMB_allocImBuf_with_pixels 0 2 3 32 true false heap_float_pixels)
    as (p & h' & b' & Hrun & _ & Hi & _ & _ & _ & _ & Hfl & _ & Hb & Hf & _);
    [vm_compute; split; [discriminate|reflexivity]..
    |vm_compute; discriminate|reflexivity|reflexivity|].
  exists p, h', b'. split; [exact Hrun|].
  split; [rewrite Hi; apply lookup_insert_eq|].
  split; [exact Hfl|]. split; [exact Hb|exact Hf].
Defined.

(** ** Duplicating the pixels *)

Lemma to_int_small z : 0 <= z < 2 ^ 31 -> to_int z = z.
Proof.
  intros Hz. unfold to_int, uint_modulus.
  rewrite Z.mod_small by lia. cbv zeta.
  destruct (Z.ltb_spec z (2 ^ 31)); [reflexivity|lia].
Qed.

Lemma to_uint_small z : 0 <= z < 2 ^ 31 -> to_uint z = z.
Proof. intros Hz. unfold to_uint, uint_modulus. apply Z.mod_small. lia. Qed.

Lemma dup_flags_pixels b1 :
  data (z_buffer b1) = None -> data (float_z_buffer b1) = None ->
  dup_flags b1
  = pixel_flags (given (data (byte_buffer b1)))
                (given (data (float_buffer b1))).
Proof.
  intros Hz Hfz. unfold dup_flags. rewrite Hz, Hfz.
  now destruct (data (byte_buffer b1)), (data (float_buffer b1)).
Qed.

Lemma to_uint_pixel_flags wb wf :
  to_uint (pixel_flags wb wf) = pixel_flags wb wf.
Proof. now destruct wb, wf. Qed.

Lemma byte_copy_size ix iy :
  0 <= ix < 2 ^ 31 -> 0 <= iy < 2 ^ 31 ->
  to_size_t (to_size_t ix * to_size_t iy * 4 * sizeof_uint8_t)
  = 4 * ix * iy.
Proof.
  intros Hx Hy. unfold sizeof_uint8_t.
  rewrite (to_size_t_small ix), (to_size_t_small iy), to_size_t_small;
    unfold SIZE_MAX, size_t_modulus; nia.
Qed.

Lemma float_copy_size c ix iy :
  0 <= c <= 4 -> 0 <= ix < 2 ^ 31 -> 0 <= iy < 2 ^ 31 ->
  ix * iy < SIZE_MAX / 16 ->
  to_size_t (to_size_t c * to_size_t ix * to_size_t iy * sizeof_float)
  = 4 * c * ix * iy.
Proof.
  intros Hc Hx Hy Hlt. unfold sizeof_float.
  assert (H16 : SIZE_MAX / 16 = 1152921504606846975) by reflexivity.
  assert (Hmax : SIZE_MAX = 18446744073709551615) by reflexivity.
  assert (H31 : 2 ^ 31 = 2147483648) by reflexivity.
  rewrite H16 in Hlt. rewrite H31 in Hx, Hy.
  assert (0 <= ix * iy) by nia.
  assert (0 <= c * ix <= 4 * 2147483648) by nia.
  assert (0 <= c * ix * iy <= 4 * (ix * iy)) by nia.
  rewrite (to_size_t_small c), (to_size_t_small ix), (to_size_t_small iy),
    to_size_t_small; rewrite ?Hmax; lia.
Qed.

(** A copy into a block of zeros. *)
Lemma memcpy_zeros q src n cap h all :
  mem h !! q = Some (zeros cap) -> mem h !! src = Some all ->
  0 <= n <= cap -> n <= Z.of_nat (length all) ->
  memcpy (Some q) (Some src) n h
  = Ok tt (set_mem (<[q := take (Z.to_nat n) all ++ zeros (cap - n)]> (mem h))
                   h).
Proof.
  intros Hq Hsrc Hn Hall.
  rewrite (memcpy_run q src n h (zeros cap) all Hq Hsrc);
    [|lia|exact Hall|unfold zeros; rewrite length_replicate; lia].
  do 3 f_equal. unfold zeros. rewrite drop_replicate. do 2 f_equal. lia.
Qed.

(** One copy of [IMB_dupImBuf]: the slot of the duplicate is read, and
    the pixels are copied into its block of zeros. *)
Lemma dup_copy_step p2 h2 (get : ImBuf -> Buffer) b2 q src n cap all :
  ibufs h2 !! p2 = Some b2 -> data (get b2) = Some q ->
  mem h2 !! q = Some (zeros cap) -> mem h2 !! src = Some all ->
  0 <= n <= cap -> n <= Z.of_nat (length all) ->
  (b ← load (Some p2); memcpy (data (get b)) (Some src) n) h2
  = Ok tt (set_mem (<[q := take (Z.to_nat n) all ++ zeros (cap - n)]>
                      (mem h2)) h2).
Proof.
  intros Hb2 Hq Hzeros Hsrc Hn Hall.
  rewrite (bind_run _ _ _ _ _ (load_run p2 h2 b2 Hb2)). rewrite Hq.
  now apply memcpy_zeros.
Qed.

Lemma given_pixels_at h d n bytes :
  pixels_at h d n bytes ->
  match d with
  | Some src => exists all, mem h !! src = Some all /\
                            n <= Z.of_nat (length all) /\
                            bytes = take (Z.to_nat n) all
  | None => True
  end.
Proof. intros H. exact H. Qed.

(** The duplicate of an image that holds a byte buffer, a float buffer,
    both or none, and nothing else. *)
Lemma IMB_dupImBuf_pixels fuel p1 h b1 bbytes fbytes :
  ibufs h !! p1 = Some b1 -> oom h = [] ->
  0 <= x b1 < 2 ^ 31 -> 0 <= y b1 < 2 ^ 31 ->
  x b1 * y b1 < SIZE_MAX / 16 ->
  planes b1 <= 32 -> 0 <= channels b1 <= 4 ->
  data (z_buffer b1) = None -> data (float_z_buffer b1) = None ->
  data (encoded_buffer b1) = None ->
  pixels_at h (data (byte_buffer b1)) (4 * x b1 * y b1) bbytes ->
  pixels_at h (data (float_buffer b1)) (4 * channels b1 * x b1 * y b1)
            fbytes ->
  exists p2 h' b2,
    IMB_dupImBuf fuel (Some p1) h = Ok (Some p2) h' /\
    ibufs h !! p2 = None /\ ibufs h' = <[p2 := b2]> (ibufs h) /\
    sharing h' = sharing h /\ oom h' = oom h /\
    x b2 = x b1 /\ y b2 = y b1 /\ planes b2 = planes b1 /\
    channels b2 = channels b1 /\ flags b2 = flags b1 /\
    refcounter b2 = 0 /\
    copy_of h h' (data (byte_buffer b1)) bbytes (byte_buffer b2) /\
    copy_of h h' (data (float_buffer b1))
      (fbytes ++ zeros (16 * x b1 * y b1 - 4 * channels b1 * x b1 * y b1))
      (float_buffer b2) /\
    z_buffer b2 = empty_buffer /\ float_z_buffer b2 = empty_buffer /\
    encoded_buffer b2 = empty_buffer /\
    (forall d all, mem h !! d = Some all -> mem h' !! d = Some all).
Proof.
  intros Hb1 Hoom Hx Hy Hlt Hpl Hc Hz Hfz He Hbp Hfp.
  assert (Hxu : 0 <= x b1 < uint_modulus)
    by (unfold uint_modulus; lia).
  assert (Hyu : 0 <= y b1 < uint_modulus)
    by (unfold uint_modulus; lia).
  destruct (IMB_allocImBuf_pixels fuel (x b1) (y b1) (planes b1)
              (given (data (byte_buffer b1))) (given (data (float_buffer b1)))
              h Hxu Hyu Hpl Hlt Hoom)
    as (p2 & qb & qf & Hp2 & Hqb & Hqf & Hne & Halloc).
  exists p2.
  unfold IMB_dupImBuf. run_load. cbv zeta.
  rewrite (dup_flags_pixels b1 Hz Hfz), to_uint_pixel_flags.
  rewrite (to_int_small (x b1) Hx), (to_int_small (y b1) Hy).
  rewrite (to_uint_small (x b1) Hx), (to_uint_small (y b1) Hy).
  run_head Halloc. cbv iota.
  destruct (pixel_flags_has (given (data (byte_buffer b1)))
              (given (data (float_buffer b1)))) as (-> & -> & -> & ->).
  rewrite He.
  rewrite (byte_copy_size _ _ Hx Hy), (float_copy_size _ _ _ Hc Hx Hy Hlt).
  apply given_pixels_at in Hbp, Hfp.
  assert (H4 : 0 <= 4 * x b1 * y b1) by nia.
  assert (H4c : 0 <= 4 * channels b1 * x b1 * y b1 <= 16 * x b1 * y b1)
    by nia.
  destruct (data (byte_buffer b1)) as [sb|],
           (data (float_buffer b1)) as [sf|];
    cbn [given add_block slot_of] in *.
  - destruct Hbp as (ball & Hsb & Hblen & ->).
    destruct Hfp as (fall & Hsf & Hflen & ->).
    specialize (Hne eq_refl eq_refl).
    erewrite bind_run
      by (eapply (dup_copy_step p2 _ byte_buffer _ qb sb _
                    (4 * x b1 * y b1) ball);
          cbn [ibufs mem set_mem set_ibufs set_trace];
          [apply lookup_insert_eq|reflexivity
          |rewrite lookup_insert_ne by congruence; apply lookup_insert_eq
          |rewrite !lookup_insert_ne by congruence; exact Hsb
          |lia|exact Hblen]).
    cbv beta.
    erewrite bind_run
      by (eapply (dup_copy_step p2 _ float_buffer _ qf sf _
                    (16 * x b1 * y b1) fall);
          cbn [ibufs mem set_mem set_ibufs set_trace];
          [apply lookup_insert_eq|reflexivity
          |rewrite lookup_insert_ne by congruence; apply lookup_insert_eq
          |rewrite !lookup_insert_ne by congruence; exact Hsf
          |lia|exact Hflen]).
    cbv beta. rewrite !ret_run. cbn [negb]. run_load.
    erewrite bind_run
      by (apply update_run; cbn [ibufs set_mem set_ibufs set_trace];
          apply lookup_insert_eq).
    cbv beta.
    eexists _, _. split; [reflexivity|]. split; [exact Hp2|].
    split; [cbn [ibufs set_ibufs set_trace set_mem];
            now rewrite !insert_insert_eq|].
    do 8 (split; [reflexivity|]).
    unfold copy_of. cbn [mem set_mem set_ibufs set_trace].
    split; [|split].
    + exists qb. split; [reflexivity|]. split; [exact Hqb|].
      rewrite lookup_insert_ne by congruence. rewrite lookup_insert_eq.
      rewrite Z.sub_diag. unfold zeros. cbn [Z.to_nat replicate].
      now rewrite app_nil_r.
    + exists qf. split; [reflexivity|]. split; [exact Hqf|].
      apply lookup_insert_eq.
    + do 3 (split; [reflexivity|]). intros d all Hd.
      rewrite !lookup_insert_ne by congruence. exact Hd.
  - destruct Hbp as (ball & Hsb & Hblen & ->).
    erewrite bind_run
      by (eapply (dup_copy_step p2 _ byte_buffer _ qb sb _
                    (4 * x b1 * y b1) ball);
          cbn [ibufs mem set_mem set_ibufs set_trace];
          [apply lookup_insert_eq|reflexivity
          |apply lookup_insert_eq
          |rewrite !lookup_insert_ne by congruence; exact Hsb
          |lia|exact Hblen]).
    cbv beta. rewrite !ret_run. cbn [negb]. run_load.
    erewrite bind_run
      by (apply update_run; cbn [ibufs set_mem set_ibufs set_trace];
          apply lookup_insert_eq).
    cbv beta.
    eexists _, _. split; [reflexivity|]. split; [exact Hp2|].
    split; [cbn [ibufs set_ibufs set_trace set_mem];
            now rewrite !insert_insert_eq|].
    do 8 (split; [reflexivity|]).
    unfold copy_of. cbn [mem set_mem set_ibufs set_trace].
    split; [|split].
    + exists qb. split; [reflexivity|]. split; [exact Hqb|].
      rewrite lookup_insert_eq.
      rewrite Z.sub_diag. unfold zeros. cbn [Z.to_nat replicate].
      now rewrite app_nil_r.
    + reflexivity.
    + do 3 (split; [reflexivity|]). intros d all Hd.
      rewrite !lookup_insert_ne by congruence. exact Hd.
  - destruct Hfp as (fall & Hsf & Hflen & ->).
    rewrite ret_run.
    erewrite bind_run
      by (eapply (dup_copy_step p2 _ float_buffer _ qf sf _
                    (16 * x b1 * y b1) fall);
          cbn [ibufs mem set_mem set_ibufs set_trace];
          [apply lookup_insert_eq|reflexivity
          |apply lookup_insert_eq
          |rewrite !lookup_insert_ne by congruence; exact Hsf
          |lia|exact Hflen]).
    cbv beta. rewrite !ret_run. cbn [negb]. run_load.
    erewrite bind_run
      by (apply update_run; cbn [ibufs set_mem set_ibufs set_trace];
          apply lookup_insert_eq).
    cbv beta.
    eexists _, _. split; [reflexivity|]. split; [exact Hp2|].
    split; [cbn [ibufs set_ibufs set_trace set_mem];
            now rewrite !insert_insert_eq|].
    do 8 (split; [reflexivity|]).
    unfold copy_of. cbn [mem set_mem set_ibufs set_trace].
    split; [|split].
    + reflexivity.
    + exists qf. split; [reflexivity|]. split; [exact Hqf|].
      apply lookup_insert_eq.
    + do 3 (split; [reflexivity|]). intros d all Hd.
      rewrite !lookup_insert_ne by congruence. exact Hd.
  - rewrite !ret_run. cbn [negb]. run_load.
    erewrite bind_run
      by (apply update_run; cbn [ibufs set_mem set_ibufs set_trace];
          apply lookup_insert_eq).
    cbv beta.
    eexists _, _. split; [reflexivity|]. split; [exact Hp2|].
    split; [cbn [ibufs set_ibufs set_trace set_mem];
            now rewrite !insert_insert_eq|].
    do 8 (split; [reflexivity|]).
    unfold copy_of. cbn [mem set_mem set_ibufs set_trace].
    split; [reflexivity|]. split; [reflexivity|].
    do 3 (split; [reflexivity|]). intros d all Hd. exact Hd.
Qed.

(** X27: [IMB_dupImBuf] of an image that holds a byte buffer, a float
    buffer, both or none (no depth buffer, no encoded buffer) returns a new
    aggregate with the dimensions, channels and flags of the source and no
    other user.  Its buffers are blocks of its own, allocated by the call:
    the byte buffer holds the 4 bytes a pixel of the source, the float
    buffer, of 16 bytes a pixel, holds the 4 bytes a channel of the source
    followed by zeros.  The source, its blocks and everything else in the
    heap are left as they were. *)
Theorem IMB_dupImBuf_copies_pixels fuel p1 h b1 bbytes fbytes :
  ibufs h !! p1 = Some b1 -> oom h = [] ->
  0 <= x b1 < 2 ^ 31 -> 0 <= y b1 < 2 ^ 31 ->
  x b1 * y b1 < SIZE_MAX / 16 ->
  planes b1 <= 32 -> 0 <= channels b1 <= 4 ->
  data (z_buffer b1) = None -> data (float_z_buffer b1) = None ->
  data (encoded_buffer b1) = None ->
  pixels_at h (data (byte_buffer b1)) (4 * x b1 * y b1) bbytes ->
  pixels_at h (data (float_buffer b1)) (4 * channels b1 * x b1 * y b1)
            fbytes ->
  exists p2 h' b2,
    IMB_dupImBuf fuel (Some p1) h = Ok (Some p2) h' /\
    ibufs h !! p2 = None /\ ibufs h' = <[p2 := b2]> (ibufs h) /\
    sharing h' = sharing h /\ oom h' = oom h /\
    x b2 = x b1 /\ y b2 = y b1 /\ planes b2 = planes b1 /\
    channels b2 = channels b1 /\ flags b2 = flags b1 /\
    refcounter b2 = 0 /\
    copy_of h h' (data (byte_buffer b1)) bbytes (byte_buffer b2) /\
    copy_of h h' (data (float_buffer b1))
      (fbytes ++ zeros (16 * x b1 * y b1 - 4 * channels b1 * x b1 * y b1))
      (float_buffer b2) /\
    z_buffer b2 = empty_buffer /\ float_z_buffer b2 = empty_buffer /\
    encoded_buffer b2 = empty_buffer /\
    (forall d all, mem h !! d = Some all -> mem h' !! d = Some all).
Proof. apply IMB_dupImBuf_pixels. Qed.

Lemma IMB_dupImBuf_copies_pixels_witness :
  exists p2 h' b2,
    IMB_dupImBuf 0 (Some 1%positive) heap_borrowing = Ok (Some p2) h' /\
    ibufs h' !! 1%positive = Some borrowing_aggregate /\
    ibufs h' !! p2 = Some b2 /\
    copy_of heap_borrowing h' (Some 1%positive)
      [Byte.x01; Byte.x02; Byte.x03; Byte.x04] (byte_buffer b2) /\
    mem h' !! 1%positive = Some [Byte.x01; Byte.x02; Byte.x03; Byte.x04].
Proof.
  destruct (IMB_dupImBuf_copies_pixels 0 1%positive heap_borrowing
              borrowing_aggregate
              [Byte.x01; Byte.x02; Byte.x03; Byte.x04] [])
    as (p2 & h' & b2 & Hrun & Hp2 & Hi & _ & _ & _ & _ & _ & _ & _ & _
        & Hcopy & _ & _ & _ & _ & Hkeep);
    [reflexivity|reflexivity
    |vm_compute; split; [discriminate|reflexivity]..
    |vm_compute; reflexivity|vm_compute; discriminate
    |vm_compute; split; discriminate
    |reflexivity|reflexivity|reflexivity| |exact I|].
  - exists [Byte.x01; Byte.x02; Byte.x03; Byte.x04].
    split; [reflexivity|]. split; [vm_compute; discriminate|reflexivity].
  - exists p2, h', b2. split; [exact Hrun|].
    assert (Hne : p2 <> 1%positive)
      by (clear -Hp2; intros ->; vm_compute in Hp2; discriminate Hp2).
    split; [rewrite Hi, lookup_insert_ne by exact Hne; reflexivity|].
    split; [rewrite Hi; apply lookup_insert_eq|].
    split; [exact Hcopy|]. apply Hkeep. reflexivity.
Defined.

(** ** A single user *)

(** X28: [IMB_makeSingleUser] returns the aggregate itself, and leaves the
    heap as it was, when nobody else holds it.  When others hold it (the
    count is above zero) and it holds a byte buffer, a float buffer, both or
    none, the call returns a duplicate with a count of zero and copies of
    the pixels in blocks of its own, and the caller's reference to the
    original is given up: its count is one lower and it is otherwise as it
    was. *)
Theorem IMB_makeSingleUser_copies fuel p1 h b1 bbytes fbytes :
  ibufs h !! p1 = Some b1 ->
  (refcounter b1 = 0 ->
   IMB_makeSingleUser fuel (Some p1) h = Ok (Some p1) h) /\
  (0 < refcounter b1 -> oom h = [] ->
   0 <= x b1 < 2 ^ 31 -> 0 <= y b1 < 2 ^ 31 ->
   x b1 * y b1 < SIZE_MAX / 16 ->
   planes b1 <= 32 -> 0 <= channels b1 <= 4 ->
   data (z_buffer b1) = None -> data (float_z_buffer b1) = None ->
   data (encoded_buffer b1) = None ->
   pixels_at h (data (byte_buffer b1)) (4 * x b1 * y b1) bbytes ->
   pixels_at h (data (float_buffer b1)) (4 * channels b1 * x b1 * y b1)
             fbytes ->
   exists p2 h' b2,
     IMB_makeSingleUser (S fuel) (Some p1) h = Ok (Some p2) h' /\
     ibufs h !! p2 = None /\
     ibufs h'
     = <[p1 := set_refcounter (refcounter b1 - 1) b1]>
         (<[p2 := b2]> (ibufs h)) /\
     refcounter b2 = 0 /\ flags b2 = flags b1 /\
     copy_of h h' (data (byte_buffer b1)) bbytes (byte_buffer b2) /\
     copy_of h h' (data (float_buffer b1))
       (fbytes ++ zeros (16 * x b1 * y b1 - 4 * channels b1 * x b1 * y b1))
       (float_buffer b2) /\
     (forall d all, mem h !! d = Some all -> mem h' !! d = Some all)).
Proof.
  intros Hb1. split.
  - intros Hr. unfold IMB_makeSingleUser. run_load.
    now rewrite Hr.
  - intros Hr Hoom Hx Hy Hlt Hpl Hc Hz Hfz He Hbp Hfp.
    destruct (IMB_dupImBuf_pixels (S fuel) p1 h b1 bbytes fbytes Hb1 Hoom Hx
                Hy Hlt Hpl Hc Hz Hfz He Hbp Hfp)
      as (p2 & h2 & b2 & Hdup & Hp2 & Hi & _ & _ & _ & _ & _ & _ & Hfl & Hrc
          & Hcb & Hcf & _ & _ & _ & Hkeep).
    assert (Hne : p1 <> p2) by congruence.
    assert (Hb1' : ibufs h2 !! p1 = Some b1)
      by (rewrite Hi, lookup_insert_ne by congruence; exact Hb1).
    exists p2.
    unfold IMB_makeSingleUser. run_load.
    destruct (Z.eqb_spec (refcounter b1) 0) as [|_]; [lia|].
    run_head Hdup.
    assert (Hmeta :
      IMB_metadata_copy (Some p2) (Some p1) h2
      = Ok tt
          (set_trace (trace h2 ++ [EvMetadataCopy (Some p2) (Some p1)]) h2)).
    { unfold IMB_metadata_copy.
      rewrite (bind_run _ _ _ _ _ (load_run p2 h2 b2
                 ltac:(rewrite Hi; apply lookup_insert_eq))).
      rewrite (bind_run _ _ _ _ _ (load_run p1 h2 b1 Hb1')).
      reflexivity. }
    run_head Hmeta.
    assert (Hfree :
      IMB_freeImBuf (S fuel) (Some p1)
        (set_trace (trace h2 ++ [EvMetadataCopy (Some p2) (Some p1)]) h2)
      = Ok tt
          (set_ibufs (<[p1 := set_refcounter (refcounter b1 - 1) b1]>
                        (ibufs h2))
             (set_trace (trace h2 ++ [EvMetadataCopy (Some p2) (Some p1)])
                        h2))).
    { cbn [IMB_freeImBuf]. unfold IMB_freeImBuf_body.
      erewrite bind_run by (apply load_run; cbn [ibufs set_trace]; exact Hb1').
      cbv beta.
      destruct (Z.ltb_spec 0 (refcounter b1)) as [_|]; [|lia].
      erewrite update_run by (cbn [ibufs set_trace]; exact Hb1').
      reflexivity. }
    run_head Hfree.
    eexists _, b2. split; [reflexivity|]. split; [exact Hp2|].
    split; [cbn [ibufs set_ibufs set_trace]; now rewrite Hi|].
    split; [exact Hrc|]. split; [exact Hfl|].
    unfold copy_of in *. cbn [mem set_ibufs set_trace].
    split; [exact Hcb|]. split; [exact Hcf|exact Hkeep].
Qed.

Lemma IMB_makeSingleUser_copies_witness :
  exists p2 h' b2,
    IMB_makeSingleUser 1 (Some 1%positive)
      (set_ibufs {[ 1%positive := set_refcounter 2 borrowing_aggregate ]}
                 heap_borrowing)
    = Ok (Some p2) h' /\
    ibufs h' !! 1%positive = Some (set_refcounter 1 borrowing_aggregate) /\
    ibufs h' !! p2 = Some b2 /\ refcounter b2 = 0.
Proof.
  destruct (IMB_makeSingleUser_copies 0 1%positive
              (set_ibufs
                 {[ 1%positive := set_refcounter 2 borrowing_aggregate ]}
                 heap_borrowing)
              (set_refcounter 2 borrowing_aggregate)
              [Byte.x01; Byte.x02; Byte.x03; Byte.x04] [])
    as [_ Hcopy]; [reflexivity|].
  destruct Hcopy
    as (p2 & h' & b2 & Hrun & Hp2 & Hi & Hrc & _);
    [reflexivity|reflexivity
    |vm_compute; split; [discriminate|reflexivity]..
    |vm_compute; reflexivity|vm_compute; discriminate
    |vm_compute; split; discriminate
    |reflexivity|reflexivity|reflexivity| |exact I|].
  - exists [Byte.x01; Byte.x02; Byte.x03; Byte.x04].
    split; [reflexivity|]. split; [vm_compute; discriminate|reflexivity].
  - exists p2, h', b2. split; [exact Hrun|].
    assert (Hne : p2 <> 1%positive)
      by (clear -Hp2; intros ->; vm_compute in Hp2; discriminate Hp2).
    split; [rewrite Hi; apply lookup_insert_eq|].
    split; [|exact Hrc].
    rewrite Hi, lookup_insert_ne by congruence. apply lookup_insert_eq.
Defined.


(** ** The mipmap levels go with the pixels *)

Section release_clears.
Variable release : option loc -> M unit.
Hypothesis release_released :
  forall c, pres (heap_released nowhere) (release c).

Lemma release_level_null p a c h u h' :
  release c h = Ok u h' -> level_null p a h -> level_null p a h'.
Proof.
  intros H Hnull b' Hb'.
  destruct (keeps_of_released p mipmap h h' (fun _ _ => eq_refl)
              (release_released c h u h' H) b' Hb') as (b & Hb & E).
  rewrite E. exact (Hnull b Hb).
Qed.

Lemma insert_null_lookup (m : list (option loc)) j a :
  default None (m !! a) = None \/ j = a ->
  default None (<[j := None]> m !! a) = None.
Proof.
  intros H. destruct (decide (j = a)) as [->|Hne].
  - destruct (<[a := None]> m !! a) as [o|] eqn:E; [|reflexivity].
    apply list_lookup_insert_Some in E as [(_ & <- & _)|(Hne & _)];
      [reflexivity|now elim Hne].
  - rewrite list_lookup_insert_ne by exact Hne.
    destruct H as [H|H]; [exact H|now elim Hne].
Qed.

(** One round of the loop leaves the entry [j] null, and the entries that
    were null stay so. *)
Lemma free_mipmap_level_null p j a h h' :
  free_mipmap_level release (Some p) j h = Ok tt h' ->
  level_null p a h \/ j = a -> level_null p a h'.
Proof.
  intros H Ha. unfold free_mipmap_level in H.
  apply bind_Ok in H as (b & h0 & Hl & H).
  apply load_Ok in Hl as (p0 & [= <-] & Hb & ->).
  destruct (default None (mipmap b !! j)) as [c|] eqn:Ej.
  - apply bind_Ok in H as ([] & h1 & Hrel & Hupd).
    apply update_Ok in Hupd as (p0 & b1 & [= <-] & Hb1 & ->).
    intros b' Hb'. cbn [ibufs set_ibufs] in Hb'.
    rewrite lookup_insert_eq in Hb'. apply (inj Some) in Hb' as <-.
    cbn [mipmap set_mipmap]. apply insert_null_lookup.
    destruct Ha as [Ha|Ha]; [left|now right].
    exact (release_level_null p a _ _ _ _ Hrel Ha b1 Hb1).
  - apply ret_Ok in H as [_ <-].
    destruct Ha as [Ha| <-]; [exact Ha|].
    intros b' Hb'. assert (b' = b) by congruence. subst b'. exact Ej.
Qed.

Lemma free_mipmap_levels_null p levels : forall a h h',
  free_mipmap_levels release (Some p) levels h = Ok tt h' ->
  level_null p a h \/ a ∈ levels -> level_null p a h'.
Proof.
  induction levels as [|j rest IH]; intros a h h' H Ha.
  - apply ret_Ok in H as [_ <-].
    destruct Ha as [Ha|Ha]; [exact Ha|inversion Ha].
  - cbn [free_mipmap_levels] in H.
    apply bind_Ok in H as ([] & h1 & Hj & Hrest).
    apply (IH a h1 h' Hrest).
    destruct Ha as [Ha|Ha].
    + left. apply (free_mipmap_level_null p j a h h1 Hj). now left.
    + apply elem_of_cons in Ha as [->|Ha]; [|now right].
      left. apply (free_mipmap_level_null p j j h h1 Hj). now right.
Qed.

Lemma imb_freemipmapImBuf_dropped p h h' :
  imb_freemipmapImBuf_with release (Some p) h = Ok tt h' ->
  exists b', ibufs h' !! p = Some b' /\ levels_dropped b'.
Proof.
  intros H. unfold imb_freemipmapImBuf_with in H.
  apply bind_Ok in H as ([] & h1 & Hloop & Hupd).
  apply update_Ok in Hupd as (p0 & b1 & [= <-] & Hb1 & ->).
  exists (set_miptot 0 b1).
  split; [cbn [ibufs set_ibufs]; apply lookup_insert_eq|].
  split; [reflexivity|]. intros a Ha.
  change (default None (mipmap b1 !! a) = None).
  apply (free_mipmap_levels_null p _ a h h1 Hloop); [|exact Hb1].
  right. apply elem_of_seq. lia.
Qed.

Lemma rect_phase_dropped p (get : ImBuf -> Buffer)
    (set : Buffer -> ImBuf -> ImBuf) flag h h' :
  (forall v b, mipmap (set v b) = mipmap b /\ miptot (set v b) = miptot b) ->
  (b ← load (Some p);
   nb ← imb_free_buffer (get b);
   update (Some p) (set nb);;
   imb_freemipmapImBuf_with release (Some p);;
   update (Some p)
     (fun b => set_flags (Z.land (flags b) (Z.lnot flag)) b)) h = Ok tt h' ->
  exists b', ibufs h' !! p = Some b' /\ levels_dropped b'.
Proof.
  intros Hset H.
  apply bind_Ok in H as (b & h0 & _ & H).
  apply bind_Ok in H as (nb & h1 & _ & H).
  apply bind_Ok in H as ([] & h2 & _ & H).
  apply bind_Ok in H as ([] & h3 & Hmip & Hupd).
  apply update_Ok in Hupd as (p0 & b3 & [= <-] & Hb3 & ->).
  destruct (imb_freemipmapImBuf_dropped p _ _ Hmip) as (b3' & Hb3' & Hd).
  assert (b3' = b3) by congruence. subst b3'.
  eexists. split; [cbn [ibufs set_ibufs]; apply lookup_insert_eq|].
  exact Hd.
Qed.
End release_clears.

(** X30: the mipmap levels do not outlive the pixels they were made from.
    After a call of [imb_freemipmapImBuf], [imb_freerectImBuf] or
    [imb_freerectfloatImBuf] that returns, the aggregate is still there,
    every entry of its array of levels is null and its count of levels is
    zero, whatever the count said before. *)
Theorem mipmap_levels_dropped fuel p h h' :
  imb_freemipmapImBuf fuel (Some p) h = Ok tt h' \/
  imb_freerectImBuf fuel (Some p) h = Ok tt h' \/
  imb_freerectfloatImBuf fuel (Some p) h = Ok tt h' ->
  exists b', ibufs h' !! p = Some b' /\ levels_dropped b'.
Proof.
  assert (Hrel : forall c, pres (heap_released nowhere) (IMB_freeImBuf fuel c))
    by (intros c; apply IMB_freeImBuf_released).
  intros [H|[H|H]].
  - exact (imb_freemipmapImBuf_dropped _ Hrel p h h' H).
  - apply (rect_phase_dropped _ Hrel p byte_buffer set_byte_buffer IB_rect
             h h'); [now split|exact H].
  - apply (rect_phase_dropped _ Hrel p float_buffer set_float_buffer
             IB_rectfloat h h'); [now split|exact H].
Qed.

Lemma mipmap_levels_dropped_witness :
  exists h' b',
    imb_freerectImBuf 1 (Some 10%positive) sample_heap = Ok tt h' /\
    ibufs h' !! 10%positive = Some b' /\ levels_dropped b' /\
    mipmap sample_aggregate !! 0%nat = Some (Some 11%positive) /\
    miptot sample_aggregate = 1.
Proof.
  destruct (imb_freerectImBuf 1 (Some 10%positive) sample_heap)
    as [[] h'| |] eqn:E; [|vm_compute in E; discriminate E..].
  destruct (mipmap_levels_dropped 1 10%positive sample_heap h')
    as (b' & Hb' & Hd); [right; left; exact E|].
  exists h', b'. split; [reflexivity|]. split; [exact Hb'|].
  split; [exact Hd|]. split; reflexivity.
Defined.

(** ** Duplicating the encoded buffer *)




